(* ===== verification/_CoqProject ===== *)
-Q . S2P
Prelude.v
RustNum.v
RustStr.v
RustFloat.v
Json.v
Felt.v
Types.v
Signing.v
ProofCodec.v
Config.v
Rpc.v
StarknetApi.v
StateReader.v
ReaderCopy.v
ProofQuery.v
CommitterUtils.v
Blockifier.v
Executor.v
StorageProofs.v
Runner.v
SnosProver.v
WebProver.v
WebPipeline.v
Host.v
Submission.v
CoinFlipState.v
CoinFlip.v
Counter.v
Driver.v
DriverFacts.v
TxSchema.v
CounterSessions.v
CounterE2e.v
MessagesE2e.v
CounterMessages.v
CoinFlipE2e.v
SettlementE2e.v
SubmissionLoops.v
Selectors.v
Contracts.v
Bank.v
OnChain.v
Account.v
SettlementOnChain.v
CoinFlipRun.v
Health.v
Routes.v
Playground.v
Extractor.v
ToyNode.v
ToyHost.v
ToyDriver.v
ProverWitnesses.v
HandlerWitnesses.v
DriverWitnesses.v
ToyBank.v
ToyRun.v
