(* ===== verification/Prelude.v ===== *)
(** * The SNIP-36 prover and its playground: a verification library

    The repository proves single Starknet transactions off chain (SNIP-36) and
    settles the proofs on chain.  This library models its Rust code as
    functions and as programs over an explicit world, and proves what makes
    each part correct.  The header is the guide to the whole; every file opens
    with a shorter comment of its own.

    ** The program

    - [crates/snip36-core]: transaction hashes and signatures, the proof's text
      format, the configuration, the JSON-RPC client with its polling loops.
    - [crates/blockifier-reexecution-wasm]: a state reader that asks a node.
    - [crates/starknet-transaction-prover-wasm]: the prover.  A runner executes
      the transaction on top of a base block ([virtual_block_executor.rs]),
      collects the compiled classes ([classes_provider.rs]) and the storage
      proofs of everything that was read ([storage_proofs.rs],
      [committer_utils.rs]), runs the Starknet OS on them ([runner.rs]), and
      [proving/] has the run proved.
    - [crates/snip36-virtual-os] and [crates/snip36-web-prover]: entry points
      that build the prover's configuration and a signed zero-fee transaction.
    - [apps/coinflip] and [apps/counter]: HTTP handlers.  A player commits to a
      bet, deposits, and reveals; a spawned task constructs the transaction,
      calls the prover's binary, submits the proof and settles.  The counter
      does the same for a multicall of increments.
    - The command line: end-to-end drivers ([e2e.rs] of the counter, the
      messages and the coin flip, [e2e_messages.rs], [e2e_settlement.rs]) that
      run the whole cycle against a network and count passed and failed checks
      in statics of their module, and the health check ([health.rs]).
    - [apps/playground]: the server that merges the routes of both applications.
    - [tests/contracts/src/lib.cairo]: the Cairo contracts that all of this
      deploys, calls and proves: a counter, a messenger, the coin flip and the
      bank that holds the stakes.

    ** The files

    - Prelude.v: this header; outcomes ([res]), programs over a world ([prog])
      with their bind and its inversion, preservation of world properties by
      programs ([preserves], hint database [snip]), iteration order of hash
      maps ([HashOrder]), lemmas on lists and folds.
    - RustNum.v, RustStr.v, RustFloat.v: machine integers and hexadecimal text,
      bytes; UTF-8 strings; doubles.  Json.v: [serde_json::Value].  Felt.v: field elements and
      hashes, with a concrete instance.
    - Types.v ([types.rs]), Signing.v ([signing.rs]), ProofCodec.v ([proof.rs]),
      Config.v ([config.rs], [cli_util.rs]), Rpc.v ([rpc.rs]): snip36-core.
    - StarknetApi.v: the types of the Starknet crates.  StateReader.v
      ([rpc_state_reader.rs], [rpc_objects.rs], [errors.rs], [utils.rs],
      [serde_utils.rs]).  ReaderCopy.v: the older copy of the reader.
    - ProofQuery.v and StorageProofs.v ([storage_proofs.rs]), CommitterUtils.v
      ([committer_utils.rs]), Blockifier.v (the interface of the executor),
      Executor.v ([virtual_block_executor.rs]), Runner.v ([runner.rs],
      [classes_provider.rs]), SnosProver.v ([proving/], [config.rs], [errors.rs],
      snip36-virtual-os), WebProver.v (snip36-web-prover), WebPipeline.v (its
      JavaScript binding, on the runner of Runner.v).
    - Host.v: the interfaces of the handlers.  Submission.v: the text that both
      tasks share.  CoinFlipState.v ([coinflip/src/state.rs]), CoinFlip.v
      ([coinflip/src/routes.rs]), Counter.v ([counter/src/routes.rs]),
      CounterSessions.v (the counter's sessions as a transition system).
    - Driver.v: what the drivers repeat (statics, steps, phases, submission,
      summary), once, with the differences between the copies as parameters;
      DriverFacts.v: its theorems and what a phase that ends has done;
      TxSchema.v: types for transactions as documents.  CounterE2e.v,
      MessagesE2e.v, CounterMessages.v, CoinFlipE2e.v, SettlementE2e.v: the five
      drivers, from [run] to the summary.  Health.v: the health check.
      SubmissionLoops.v: the five loops that submit a transaction, the drivers'
      and the handlers', as instances of one interface.
      Playground.v: the server's start ([playground/src/main.rs]); Routes.v: the
      routes of both applications, from the raw request to the reply.
      Extractor.v: the extractor of the OS program.
    - Selectors.v: Keccak and the selectors; Contracts.v: the Cairo contracts, a
      Module for each; Bank.v: the bank as a transition system; OnChain.v: what
      the calldata of the programs does when the contracts run it;
      Account.v: the account that validates and executes what the programs sign;
      SettlementOnChain.v: the settlement against the bank; CoinFlipRun.v: one
      play of the server over its host, the game and the bank together.
    - ToyNode.v, ToyHost.v, ToyDriver.v: concrete instances of every interface;
      ProverWitnesses.v, HandlerWitnesses.v, DriverWitnesses.v: the theorems
      applied to them, whole runs of the drivers included.  ToyBank.v: a token,
      and the theorems about the contracts applied to it; ToyRun.v: a world with
      files and the bank, and a whole play in it.

    ** How code becomes a definition

    A definition has the name of the Rust item when that is possible.  A
    [Result] is [res], which also has the panics of the source as values.  A
    function that performs I/O is a [prog W E A], a function from the world
    [W] to an outcome and a world, in the source's order of effects; [attempt]
    is a [match] on a [Result], [mapping_err] is [map_err].  What is not in the
    repository (other crates, snip36_server, the network, the clock, child
    processes, files) is a type class over the world or over abstract types,
    and what the source relies on is a second class of laws next to it.  No law
    is assumed of a host call of the handlers, so that a call made during an
    [await] may stand for anything other requests do meanwhile; atomic accesses
    to the shared state of the coin flip are the steps [cf_step] of
    CoinFlipState.v, and their interleavings are [cf_steps]; the notes that the
    counter's handlers leave in the sessions are replayed by [replay] of
    CounterSessions.v.  What the handlers
    keep is stated for every property of worlds that the host calls keep
    ([stable_host]); [follows] orders the worlds of one run.  The drivers own
    their statics: [DriverLaws] says that no call of the host changes them, and
    [stable_driver] is the class of properties that a driver's calls keep.  Each law class
    has an instance in the development.  [house_rules] of CoinFlipRun.v says what
    the prover's command, sncast and an accepted receipt mean for the files and
    the network: sncast submits, the network executes later or never
    ([network_step]), and a receipt is given only for what was executed; what
    the rest of the world does are steps that submit no settlement of the
    session.

    A function that loops until a deadline takes fuel, the number of rounds:
    with an interval of at least one second, [timeout / interval + 1] rounds
    are enough ([wait_for_tx_spec], [wait_for_block_after_spec]).  Every other
    loop is structural: the submission loops on their 20 attempts, the others
    on lists.  An integer is a [Z]; where a width matters the bound is a
    hypothesis ([in_u]) or the wrap-around and the overflow panic are written
    out ([mul_u64], [concat_resource], [pad_hash], [as_u128]).  Doubles are
    those of the Standard Library's [SpecFloat].  A JSON object lists its members
    as the source writes them and is read by key; the map that serde_json keeps
    of it, sorted by key, is [document].

    A call of a Cairo contract is a [prog] over the contract's state in which a
    panic is an error; a felt is added modulo the prime, a [u256] panics where
    it would leave its range.  The token is [ERC20] with the behaviour of STRK
    in [ERC20Laws].

    ** What is proved

    - The transaction (C1, C2, C3, C32): the hash commits to every field up to
      collisions of Poseidon; the payload carries exactly what was hashed and
      signed, and is a well-typed document; an account of the signing key
      validates it and executes its calls, another one refuses it.  Besides the claims,
      [gateway_form_spec], [tx_json_typed], [construct_tx_signed] and the
      decoding of the legacy proof format ([cairo_serde_roundtrip]).
    - The node client (C15): the wait for a transaction terminates, with what
      the node reported or with the timeout.  Besides:
      [wait_for_block_after_spec], [get_nonce_spec].
    - The state reader: [state_queries_spec], [initial_reads_roundtrip],
      [block_info_spec], and [copies_agree] for the older copy.
    - Storage proofs (C5, C6, C9): splitting a query and merging the answers is
      invisible; the facts database is closed and faithful; the commitment
      infos of all tries against an honest node.  Besides: [fetch_proofs_total],
      [storage_proofs_committed], [split_query_partition],
      [prepare_query_spec], [validate_state_maps].
    - The prover (C7, C8): a proof that is returned is a proof of an execution of
      one valid transaction that did not revert; what state, classes, block and
      transactions an execution ran on.  Besides: [rpc_proof_sound],
      where the RPC runner discharges the interfaces of the three providers,
      [prove_transaction_validation], [get_classes_spec], [pad_hash_spec].
    - The web prover (C4, C33): from the value that JavaScript passes to the OS
      run that is proved, what is proved is what is returned and signed; its
      transaction is always acceptable to the prover.
    - The coin flip (C21 to C25, C38, C40): the reveal is binding, accepted exactly
      when it opens the commitment; the life of a commitment
      under any interleaving; what a finished task and a confirmed deposit have
      established; the bounds of the bet's conversion; a commitment can be tried
      once.  Besides: [requests_refine], [deploy_coinflip_spec], [deployments_roundtrip],
      [submit_loop_spec].
    - The counter (C20, C26, C27): the sessions are what the handlers' notes make
      them, and which contract and block the next proof is for, also when
      requests overlap; the multicall decodes to the calls announced, with the
      overflow of the announced total; what a finished cycle has established.
      Besides: [rpc_submit_loop_spec], [next_reference_block].
    - The server (C12, C31): any sequence of raw requests takes both applications
      along accesses and notes of the calls they are dispatched to; what a client
      writes is what the handler gets.  Besides: [routes_disjoint].
    - The contracts (C10, C11, C28, C39): the bank's books balance; a session
      is deposited, matched and settled once each; a matched session can always
      be settled; nothing can ever be withdrawn.  Besides: [selectors_named].
    - The programs on the contracts (C13, C14, C18, C19): one play from the
      reveal to the payment, in which a settlement, once executed, pays as the
      player was told exactly when the deposited bet is the revealed one; the
      calldata of a play makes the game report what every client computes; the
      settlement driver's balances cannot tell a win from a loss; the counter
      counts what the driver expects.
      Besides: [message_sent].
    - Submission (C29, C30): a submission always ends with its verdict recorded
      (against one abstract retry loop that both of the drivers' loops refine);
      a gateway that becomes ready in time accepts it, whichever loop submits.
      Besides: [submission_ends], [submit_live].
    - The drivers (C16, C17, C34, C35): what a run that ends has done, call by
      call and in order, and exactly when it reports that everything passed.
      Besides: [account_calls_roundtrip], [steps_recorded],
      [any_message_passes], [copy_run_eq].
    - The health check (C36, C37): what "all checks passed" means, and that the
      balance check cannot mean what it says.

    SnosProver.v and WebProver.v also show that without the feature
    [stwo_proving], which no manifest of the repository enables, no proof is
    ever returned ([prove_without_stwo], [prove_block_without_stwo]).

    ** What is not modelled

    - The CORS layer of the playground.
    - The crate snip36_server with its generic routes, whose source is not in
      the repository; the vendored OpenZeppelin contracts, except the account.
    - The handlers' lines to the console: only what they send to the client is
      modelled.  The drivers' lines are ([Console]), without the time and the
      level that the subscriber adds.  A child's output lines are emitted in
      the order in which they were read.
    - The top of each driver's file repeats the statics and the console of
      [counter/src/e2e.rs]; the copies are not modelled a second time.

    ** Plan

    Left: the deposit and its match before the play of CoinFlipRun.v, so that
    the run starts at the commit; the deployment of an account
    ([initializer]). *)

From Stdlib Require Export ZArith Lia Ascii String.
From stdpp Require Export prelude strings list gmap pretty.

Global Set Warnings "-clear-no-such-hyp,-register-all".

Global Set Default Goal Selector "!".

Declare Scope snip_scope.
Delimit Scope snip_scope with snip.
#[global] Open Scope snip_scope.
#[global] Open Scope string_scope.
#[global] Open Scope Z_scope.

(** ** Outcomes

    [res E A] is a Rust computation of type [Result<A, E>] together with the
    two outcomes that the type does not show: a panic ([assert!], [expect],
    an out-of-range slice) and, for loops whose number of rounds depends on
    the environment, the exhaustion of the fuel given to the model. *)
Inductive res (E A : Type) : Type :=
  | Ok (a : A)
  | Err (e : E)
  | Panic (msg : string)
  | OutOfFuel.
Arguments Ok {E A} a.
Arguments Err {E A} e.
Arguments Panic {E A} msg.
Arguments OutOfFuel {E A}.

#[global] Instance res_ret E : MRet (res E) := λ A a, Ok a.
#[global] Instance res_bind E : MBind (res E) := λ A B k m,
  match m with
  | Ok a => k a
  | Err e => Err e
  | Panic s => Panic s
  | OutOfFuel => OutOfFuel
  end.
#[global] Instance res_fmap E : FMap (res E) := λ A B f m,
  match m with
  | Ok a => Ok (f a)
  | Err e => Err e
  | Panic s => Panic s
  | OutOfFuel => OutOfFuel
  end.

(** [Result::map_err], [Option::ok_or], [Result::ok]. *)
Definition map_err {E E' A} (f : E → E') (m : res E A) : res E' A :=
  match m with
  | Ok a => Ok a
  | Err e => Err (f e)
  | Panic s => Panic s
  | OutOfFuel => OutOfFuel
  end.
Definition ok_or {E A} (o : option A) (e : E) : res E A :=
  match o with Some a => Ok a | None => Err e end.

(** [iter().map(f).collect::<Result<Vec<_>, _>>()]: the first error, in list
    order, is the result. *)
Fixpoint collect_res {E A B} (f : A → res E B) (l : list A) : res E (list B) :=
  match l with
  | [] => Ok []
  | x :: l => y ← f x; ys ← collect_res f l; Ok (y :: ys)
  end.

(** ** Effects

    A stateful computation of the model passes the world [W] explicitly. *)
Definition prog (W E A : Type) : Type := W → res E A * W.

#[global] Instance prog_ret W E : MRet (prog W E) := λ A a w, (Ok a, w).
#[global] Instance prog_bind W E : MBind (prog W E) := λ A B k m w,
  match m w with
  | (Ok a, w') => k a w'
  | (Err e, w') => (Err e, w')
  | (Panic s, w') => (Panic s, w')
  | (OutOfFuel, w') => (OutOfFuel, w')
  end.

Section prog_ops.
Context {W E : Type}.

Definition throw {A} (e : E) : prog W E A := λ w, (Err e, w).
Definition lift {A} (m : res E A) : prog W E A := λ w, (m, w).
Definition reads {A} (f : W → A) : prog W E A := λ w, (Ok (f w), w).
Definition modify (f : W → W) : prog W E unit := λ w, (Ok tt, f w).

(** [m.map_err(f)?] on an effectful call. *)
Definition mapping_err {E' A} (f : E' → E) (m : prog W E' A) : prog W E A :=
  λ w, let '(r, w') := m w in (map_err f r, w').

(** A call whose [Result] is inspected by the caller ([match], [if let],
    [let _ =]) instead of being propagated by [?]. *)
Definition attempt {E' A} (m : prog W E' A) : prog W E (E' + A) := λ w,
  let '(r, w') := m w in
  (match r with
   | Ok a => Ok (inr a)
   | Err e => Ok (inl e)
   | Panic s => Panic s
   | OutOfFuel => OutOfFuel
   end, w').

(** A sequential [for] loop that pushes one result per item. *)
Fixpoint for_each {A B} (f : A → prog W E B) (l : list A) : prog W E (list B) :=
  match l with
  | [] => mret []
  | x :: l => y ← f x; ys ← for_each f l; mret (y :: ys)
  end.
End prog_ops.

(** ** Inversion of successful computations *)

Lemma res_bind_Ok {E A B} (m : res E A) (k : A → res E B) b :
  m ≫= k = Ok b ↔ ∃ a, m = Ok a ∧ k a = Ok b.
Proof. destruct m; simpl; naive_solver. Qed.

Lemma res_fmap_Ok {E A B} (m : res E A) (f : A → B) b :
  f <$> m = Ok b ↔ ∃ a, m = Ok a ∧ b = f a.
Proof. destruct m; simpl; naive_solver. Qed.

Lemma map_err_Ok {E E' A} (f : E → E') (m : res E A) a :
  map_err f m = Ok a ↔ m = Ok a.
Proof. destruct m; simpl; naive_solver. Qed.

Lemma map_err_Err {E E' A} (f : E → E') (m : res E A) e' :
  map_err f m = Err e' ↔ ∃ e, m = Err e ∧ e' = f e.
Proof. destruct m; simpl; naive_solver. Qed.

Lemma ok_or_Ok {E A} (o : option A) (e : E) a : ok_or o e = Ok a ↔ o = Some a.
Proof. destruct o; simpl; naive_solver. Qed.

Lemma prog_bind_Ok {W E A B} (m : prog W E A) (k : A → prog W E B) w b w2 :
  (m ≫= k) w = (Ok b, w2) ↔ ∃ a w1, m w = (Ok a, w1) ∧ k a w1 = (Ok b, w2).
Proof.
  unfold mbind, prog_bind. destruct (m w) as [[] ?]; naive_solver.
Qed.

Lemma prog_bind_eq {W E A B} (m : prog W E A) (k : A → prog W E B) w a w1 :
  m w = (Ok a, w1) → (m ≫= k) w = k a w1.
Proof. unfold mbind, prog_bind. by intros ->. Qed.

Lemma mapping_err_Ok {W E E' A} (f : E' → E) (m : prog W E' A) w a w1 :
  mapping_err f m w = (Ok a, w1) ↔ m w = (Ok a, w1).
Proof. unfold mapping_err. destruct (m w) as [[] ?]; naive_solver. Qed.

Lemma attempt_Ok {W E E' A} (m : prog W E' A) w x w1 :
  attempt (E:=E) m w = (Ok x, w1) ↔
  (∃ a, x = inr a ∧ m w = (Ok a, w1)) ∨ (∃ e, x = inl e ∧ m w = (Err e, w1)).
Proof. unfold attempt. destruct (m w) as [[] ?]; naive_solver. Qed.

Lemma lift_Ok {W E A} (m : res E A) (w : W) a w1 :
  lift m w = (Ok a, w1) ↔ m = Ok a ∧ w1 = w.
Proof. unfold lift. naive_solver. Qed.

Lemma collect_res_Ok {E A B} (f : A → res E B) l l' :
  collect_res f l = Ok l' ↔ Forall2 (λ x y, f x = Ok y) l l'.
Proof.
  split.
  - revert l'. induction l as [|x l IH]; intros l'; simpl.
    { intros [= <-]. constructor. }
    intros (y & Hy & (ys & Hys & [= <-])%res_bind_Ok)%res_bind_Ok. eauto.
  - induction 1 as [|x y l l' Hx _ IH]; simpl; [done|].
    by rewrite Hx; simpl; rewrite IH.
Qed.

Lemma collect_res_length {E A B} (f : A → res E B) l l' :
  collect_res f l = Ok l' → length l' = length l.
Proof. intros H%collect_res_Ok. symmetry. by eapply Forall2_length. Qed.

Lemma collect_res_total {E A B} (f : A → res E B) (g : A → B) l :
  Forall (λ x, f x = Ok (g x)) l → collect_res f l = Ok (g <$> l).
Proof. induction 1 as [|x l Hx _ IH]; simpl; [done|]. by rewrite Hx; simpl; rewrite IH. Qed.

Lemma collect_res_exists {E A B} (f : A → res E B) l :
  Forall (λ x, ∃ y, f x = Ok y) l → ∃ ys, collect_res f l = Ok ys.
Proof.
  induction 1 as [|x l [y Hy] _ [ys IH]]; [by exists []|].
  exists (y :: ys). simpl. rewrite Hy. simpl. by rewrite IH.
Qed.

(** [prog_inv H] opens a successful run into its steps. *)
Ltac prog_inv :=
  repeat match goal with
  | H : (_ ≫= _) _ = (Ok _, _) |- _ =>
      apply prog_bind_Ok in H; destruct H as (? & ? & ? & H)
  | H : mapping_err _ _ _ = (Ok _, _) |- _ => apply mapping_err_Ok in H
  | H : mret _ _ = (Ok _, _) |- _ => injection H as ? ?; subst
  | H : reads _ _ = (Ok _, _) |- _ => injection H as ? ?; subst
  | H : modify _ _ = (Ok _, _) |- _ => injection H as ? ?; subst
  | H : lift _ _ = (Ok _, _) |- _ => apply lift_Ok in H as [? ->]
  | H : map_err _ _ = Ok _ |- _ => apply map_err_Ok in H
  | H : ok_or _ _ = Ok _ |- _ => apply ok_or_Ok in H
  | H : throw _ _ = (Ok _, _) |- _ => discriminate H
  | H : _ ≫= _ = Ok _ |- _ => apply res_bind_Ok in H; destruct H as (? & ? & H)
  end.

(** ** Generic lemmas on lists *)

Create HintDb snip.

Lemma list_lookup_fmap_Some {A B} (f : A → B) (l : list A) i y :
  (f <$> l) !! i = Some y ↔ ∃ x, l !! i = Some x ∧ y = f x.
Proof. rewrite list_lookup_fmap, fmap_Some. done. Qed.

Lemma NoDup_fmap_inj_on {A B} (f : A → B) (l : list A) x y :
  NoDup (f <$> l) → x ∈ l → y ∈ l → f x = f y → x = y.
Proof.
  intros Hnd [i Hi]%list_elem_of_lookup [j Hj]%list_elem_of_lookup Hf.
  assert (i = j) as ->.
  { eapply (NoDup_lookup _ _ _ (f x) Hnd); rewrite list_lookup_fmap.
    - by rewrite Hi.
    - rewrite Hj. simpl. congruence. }
  congruence.
Qed.

(** ** Hash maps and sets

    A [HashMap] or [HashSet] is a [gmap] or [gset]; the order in which one is
    iterated is unspecified, so a loop over one takes its order from here. *)
Class HashOrder := {
  map_iter {K A} `{Countable K} : gmap K A → list (K * A);
  set_iter {K} `{Countable K} : gset K → list K;
  map_iter_perm {K A} `{Countable K} (m : gmap K A) : map_iter m ≡ₚ map_to_list m;
  set_iter_perm {K} `{Countable K} (X : gset K) : set_iter X ≡ₚ elements X;
}.

#[export] Program Instance stdpp_order : HashOrder := {
  map_iter K A _ _ m := map_to_list m;
  set_iter K _ _ X := elements X;
}.
Next Obligation. done. Qed.
Next Obligation. done. Qed.

Lemma elem_of_map_iter `{HashOrder} {K A} `{Countable K} (m : gmap K A) k a :
  (k, a) ∈ map_iter m ↔ m !! k = Some a.
Proof. by rewrite map_iter_perm, elem_of_map_to_list. Qed.

Lemma elem_of_set_iter `{HashOrder} {K} `{Countable K} (X : gset K) k :
  k ∈ set_iter X ↔ k ∈ X.
Proof. by rewrite set_iter_perm, elem_of_elements. Qed.

(** [Debug] text of a value of a foreign type, used in error messages. *)
Class DebugFmt (A : Type) := debug : A → string.

(** [iter.collect::<HashMap<_, _>>()] and [HashMap::extend]: a later entry
    replaces an earlier one. *)
Definition map_extend {K A} `{Countable K} (m : gmap K A) (l : list (K * A)) : gmap K A :=
  fold_left (λ m '(k, a), <[k := a]> m) l m.

Lemma map_extend_app {K A} `{Countable K} (m : gmap K A) l l' :
  map_extend m (l ++ l')%list = map_extend (map_extend m l) l'.
Proof. apply fold_left_app. Qed.

Lemma map_extend_notin {K A} `{Countable K} (m : gmap K A) l k :
  k ∉ l.*1 → map_extend m l !! k = m !! k.
Proof.
  revert m. induction l as [|[k' a] l IH]; intros m Hk; simpl; [done|].
  rewrite fmap_cons, not_elem_of_cons in Hk. destruct Hk as [Hne Hk].
  unfold map_extend in *. simpl. rewrite IH by done. by apply lookup_insert_ne.
Qed.

Lemma map_extend_Some {K A} `{Countable K} (m : gmap K A) l k a :
  map_extend m l !! k = Some a → (k, a) ∈ l ∨ m !! k = Some a.
Proof.
  revert m. induction l as [|[k' a'] l IH]; intros m; simpl; [by right|].
  unfold map_extend in *. simpl. intros [?|Hm]%IH; [left; by right|].
  apply lookup_insert_Some in Hm as [[-> ->]|[_ ?]]; [left; by left|by right].
Qed.

Lemma map_extend_in {K A} `{Countable K} (m : gmap K A) l k :
  k ∈ l.*1 → ∃ a, (k, a) ∈ l ∧ map_extend m l !! k = Some a.
Proof.
  induction l as [|[k' a'] l IH] using rev_ind; simpl; [by intros ?%elem_of_nil|].
  rewrite fmap_app, elem_of_app, map_extend_app. intros Hk.
  destruct (decide (k = k')) as [->|Hne].
  - exists a'. split; [apply elem_of_app; right; by left|]. unfold map_extend. simpl.
    by rewrite lookup_insert, decide_True.
  - destruct Hk as [Hk|[->|[]%elem_of_nil]%elem_of_cons]; [|done].
    destruct (IH Hk) as (a & Ha & Hl). exists a. split; [apply elem_of_app; by left|].
    unfold map_extend at 1. simpl. by rewrite lookup_insert_ne.
Qed.

Lemma map_extend_NoDup {K A} `{Countable K} (m : gmap K A) l k a :
  NoDup l.*1 → (k, a) ∈ l → map_extend m l !! k = Some a.
Proof.
  intros Hnd Hin. destruct (map_extend_in m l k) as (a' & Ha' & Hl).
  { apply (list_elem_of_fmap_2 fst _ _ Hin). }
  rewrite Hl. f_equal.
  pose proof (NoDup_fmap_inj_on fst l (k, a') (k, a) Hnd Ha' Hin eq_refl). congruence.
Qed.

Lemma mjoin_cons {A} (l : list A) (ls : list (list A)) : mjoin (l :: ls) = (l ++ mjoin ls)%list.
Proof. done. Qed.

(** A [for] loop with [?] in its body, over an accumulator. *)
Fixpoint fold_res {E A B} (f : A → B → res E A) (l : list B) (acc : A) : res E A :=
  match l with
  | [] => Ok acc
  | x :: l => acc ← f acc x; fold_res f l acc
  end.

Lemma fold_res_inv {E A B} (f : A → B → res E A) (I : A → Prop) l acc acc' :
  (∀ x a a', x ∈ l → I a → f a x = Ok a' → I a') → I acc → fold_res f l acc = Ok acc' → I acc'.
Proof.
  intros Hf. revert acc. induction l as [|x l IH]; intros acc Hacc; simpl; [by intros [= <-]|].
  intros (a & Ha & Hl)%res_bind_Ok. eapply IH; [|by eapply (Hf x); [left|..]|done].
  intros y b b' Hy. apply Hf. by right.
Qed.

(** What one iteration establishes and every later one keeps holds at the
    end. *)
Lemma fold_res_reached {E A B} (f : A → B → res E A) (P : A → Prop) l acc acc' x :
  x ∈ l → (∀ a a', f a x = Ok a' → P a') →
  (∀ y a a', y ∈ l → P a → f a y = Ok a' → P a') → fold_res f l acc = Ok acc' → P acc'.
Proof.
  intros Hx Hest Hkeep. revert acc. induction l as [|y l IH]; intros acc; [by apply elem_of_nil in Hx|].
  simpl. intros (a & Ha & Hl)%res_bind_Ok. apply elem_of_cons in Hx as [<-|Hx].
  - eapply (fold_res_inv f P); [|by eapply Hest|exact Hl].
    intros y b b' Hy. apply Hkeep. by right.
  - eapply IH; [done| |exact Hl]. intros z b b' Hz. apply Hkeep. by right.
Qed.

(** ** Invariants of the world

    [preserves P m]: whatever [m] returns, a world that satisfied [P] before
    satisfies it after. *)
Definition preserves {W E A} (P : W → Prop) (m : prog W E A) : Prop := ∀ w, P w → P (m w).2.

Section preserves.
Context {W E : Type} (P : W → Prop).

Lemma preserves_ret {A} (a : A) : preserves (E:=E) P (mret a).
Proof. by intros w. Qed.

Lemma preserves_lift {A} (m : res E A) : preserves P (lift m).
Proof. by intros w. Qed.

Lemma preserves_throw {A} (e : E) : preserves (A:=A) P (throw e).
Proof. by intros w. Qed.

Lemma preserves_reads {A} (f : W → A) : preserves (E:=E) P (reads f).
Proof. by intros w. Qed.

Lemma preserves_modify f : (∀ w, P w → P (f w)) → preserves (E:=E) P (modify f).
Proof. intros Hf w. apply Hf. Qed.

(** The continuation is only run on what [m] returns. *)
Lemma preserves_bind_Ok {A B} (m : prog W E A) (k : A → prog W E B) :
  preserves P m → (∀ w a w1, m w = (Ok a, w1) → preserves P (k a)) → preserves P (m ≫= k).
Proof.
  intros Hm Hk w Hw. specialize (Hm w Hw). unfold mbind, prog_bind.
  destruct (m w) as [[a|e|e|] w1] eqn:Ha; try exact Hm. by apply (Hk w a w1 Ha).
Qed.

Lemma preserves_bind {A B} (m : prog W E A) (k : A → prog W E B) :
  preserves P m → (∀ a, preserves P (k a)) → preserves P (m ≫= k).
Proof. intros Hm Hk. apply preserves_bind_Ok; auto. Qed.

Lemma preserves_mapping_err {E' A} (f : E' → E) (m : prog W E' A) :
  preserves P m → preserves P (mapping_err f m).
Proof. intros Hm w Hw. specialize (Hm w Hw). unfold mapping_err. by destruct (m w) as [[] ?]. Qed.

Lemma preserves_attempt {E' A} (m : prog W E' A) :
  preserves P m → preserves (E:=E) P (attempt m).
Proof. intros Hm w Hw. specialize (Hm w Hw). unfold attempt. by destruct (m w) as [[] ?]. Qed.

Lemma preserves_for_each {A B} (f : A → prog W E B) l :
  (∀ x, preserves P (f x)) → preserves P (for_each f l).
Proof.
  intros Hf. induction l as [|x l IH]; [apply preserves_ret|]. cbn [for_each].
  apply preserves_bind; [done|]. intros y. apply preserves_bind; [done|].
  intros ys. apply preserves_ret.
Qed.
End preserves.

#[export] Hint Resolve preserves_ret preserves_lift preserves_throw preserves_reads
  preserves_bind preserves_mapping_err preserves_attempt preserves_for_each : snip.

Lemma for_each_Ok {W E A B} (f : A → prog W E B) l ys w w' :
  for_each f l w = (Ok ys, w') → length ys = length l.
Proof.
  revert ys w. induction l as [|x l IH]; intros ys w; cbn [for_each].
  { intros [= <- _]. done. }
  intros Hrun. prog_inv. simpl. f_equal. by eapply IH.
Qed.

(** Each element's step ran, in a world from which the rest of the loop led to
    the end. *)
Lemma for_each_reached {W E A B} (f : A → prog W E B) (P : W → Prop) l ys w w' x :
  x ∈ l → (∀ w y w1, f x w = (Ok y, w1) → P w1) → (∀ x, preserves P (f x)) →
  for_each f l w = (Ok ys, w') → P w'.
Proof.
  intros Hx Hest Hkeep. revert ys w. induction l as [|z l IH]; intros ys w; [by apply elem_of_nil in Hx|].
  cbn [for_each]. intros Hrun. apply prog_bind_Ok in Hrun as (y & w1 & Hz & Hrun).
  apply prog_bind_Ok in Hrun as (ys' & w2 & Hl & [= _ <-]).
  apply elem_of_cons in Hx as [<-|Hx]; [|by eapply IH].
  pose proof (preserves_for_each P f l Hkeep w1 ltac:(by eapply Hest)) as HP. by rewrite Hl in HP.
Qed.

(** ** Sums over maps *)

(** The sum of a function over the entries of a map. *)
Section gmap_sum.
Context {K A : Type} `{Countable K}.
Implicit Types (f g : K → A → Z) (m : gmap K A).

Definition gmap_sum f m : Z := map_fold (λ k a acc, f k a + acc) 0 m.

Lemma gmap_sum_fresh f m k a : m !! k = None → gmap_sum f (<[k := a]> m) = f k a + gmap_sum f m.
Proof.
  intros Hk. unfold gmap_sum. rewrite map_fold_insert_L; [done| |done].
  intros. lia.
Qed.

Lemma gmap_sum_delete f m k a : m !! k = Some a → gmap_sum f m = f k a + gmap_sum f (delete k m).
Proof.
  intros Hk. rewrite <-(insert_delete_id m k a Hk) at 1. apply gmap_sum_fresh.
  rewrite lookup_delete. by rewrite decide_True.
Qed.

Lemma gmap_sum_insert f m k a :
  gmap_sum f (<[k := a]> m) = gmap_sum f m + f k a - from_option (f k) 0 (m !! k).
Proof.
  destruct (m !! k) as [b|] eqn:Hk; simpl; [|rewrite gmap_sum_fresh by done; lia].
  rewrite (gmap_sum_delete f m k b Hk), <-insert_delete_eq, gmap_sum_fresh; [lia|].
  by rewrite lookup_delete, decide_True.
Qed.

Lemma gmap_sum_ext f g m :
  (∀ k a, m !! k = Some a → f k a = g k a) → gmap_sum f m = gmap_sum g m.
Proof.
  induction m as [|k a m Hk IH] using map_ind; intros Hfg; [done|].
  rewrite !gmap_sum_fresh by done. f_equal; [apply Hfg; by rewrite lookup_insert, decide_True|].
  apply IH. intros j b Hj. apply Hfg. rewrite lookup_insert_ne; [done|congruence].
Qed.

Lemma gmap_sum_nonneg f m : (∀ k a, m !! k = Some a → 0 ≤ f k a) → 0 ≤ gmap_sum f m.
Proof.
  induction m as [|k a m Hk IH] using map_ind; intros Hf; [done|].
  rewrite gmap_sum_fresh by done.
  assert (0 ≤ f k a) by (apply Hf; by rewrite lookup_insert, decide_True).
  assert (0 ≤ gmap_sum f m); [|lia].
  apply IH. intros j b Hj. apply Hf. rewrite lookup_insert_ne; [done|congruence].
Qed.

Lemma gmap_sum_entry f m k a :
  (∀ k a, m !! k = Some a → 0 ≤ f k a) → m !! k = Some a → f k a ≤ gmap_sum f m.
Proof.
  intros Hf Hk. rewrite (gmap_sum_delete f m k a Hk).
  assert (0 ≤ gmap_sum f (delete k m)); [|lia].
  apply gmap_sum_nonneg. intros j b Hj. apply Hf. by apply lookup_delete_Some in Hj as [_ ?].
Qed.
End gmap_sum.
