(* ===== verification/RustNum.v ===== *)
(** * Machine integers, hexadecimal text and big-endian bytes

    What the source uses of Rust's integers: the bounds of [u8], [u32], [u64]
    and [u128] (a value of such a type is a [Z] in range), wrapping and
    saturating conversions, [format!("{:#x}", n)], [from_str_radix(s, 16)],
    [trim_start_matches("0x")], [to_be_bytes] and [from_be_bytes]. *)

From S2P Require Import Prelude.

(** ** Widths *)

Definition u8_max : Z := 2 ^ 8 - 1.
Definition u32_max : Z := 2 ^ 32 - 1.
Definition u64_max : Z := 2 ^ 64 - 1.
Definition u128_max : Z := 2 ^ 128 - 1.

Definition in_u (max n : Z) : Prop := 0 ≤ n ≤ max.
#[global] Instance in_u_dec max n : Decision (in_u max n).
Proof. unfold in_u. apply _. Defined.

(** ** Bytes *)

Definition byte_Z (c : ascii) : Z := Z.of_N (N_of_ascii c).

Definition Z_byte (z : Z) : ascii := ascii_of_N (Z.to_N z).

(** [str::as_bytes]. *)
Fixpoint as_bytes (s : string) : list Z :=
  match s with
  | EmptyString => []
  | String c s => byte_Z c :: as_bytes s
  end.

Fixpoint of_bytes (l : list Z) : string :=
  match l with
  | [] => EmptyString
  | z :: l => String (Z_byte z) (of_bytes l)
  end.

(** [uN::from_be_bytes] and [uN::to_be_bytes] on an [n]-byte buffer. *)
Definition from_be_bytes (l : list Z) : Z := fold_left (λ acc b, 256 * acc + b) l 0.

Fixpoint to_be_bytes (n : nat) (z : Z) : list Z :=
  match n with
  | O => []
  | S n => to_be_bytes n (z / 256) ++ [z mod 256]
  end.

Definition is_byte (z : Z) : Prop := 0 ≤ z < 256.

Lemma byte_Z_range c : is_byte (byte_Z c).
Proof.
  unfold is_byte, byte_Z. pose proof (N_ascii_bounded c). lia.
Qed.

Lemma Z_byte_Z c : Z_byte (byte_Z c) = c.
Proof. unfold Z_byte, byte_Z. rewrite N2Z.id. apply ascii_N_embedding. Qed.

Lemma byte_Z_byte z : is_byte z → byte_Z (Z_byte z) = z.
Proof.
  unfold is_byte, Z_byte, byte_Z. intros ?. rewrite N_ascii_embedding by lia. lia.
Qed.

Lemma as_bytes_range s : Forall is_byte (as_bytes s).
Proof. induction s; simpl; constructor; auto using byte_Z_range. Qed.

Lemma of_as_bytes s : of_bytes (as_bytes s) = s.
Proof. induction s; simpl; [done|]. by rewrite Z_byte_Z, IHs. Qed.

Lemma as_of_bytes l : Forall is_byte l → as_bytes (of_bytes l) = l.
Proof. induction 1; simpl; [done|]. by rewrite byte_Z_byte, IHForall. Qed.

Lemma length_as_bytes s : length (as_bytes s) = String.length s.
Proof. induction s; simpl; auto. Qed.

Lemma as_bytes_inj s t : as_bytes s = as_bytes t → s = t.
Proof. intros H. by rewrite <-(of_as_bytes s), H, of_as_bytes. Qed.

Lemma from_be_bytes_snoc l b : from_be_bytes (l ++ [b]) = 256 * from_be_bytes l + b.
Proof. unfold from_be_bytes. by rewrite fold_left_app. Qed.

Lemma from_be_bytes_app l k :
  from_be_bytes (l ++ k) = from_be_bytes l * 256 ^ Z.of_nat (length k) + from_be_bytes k.
Proof.
  induction k as [|b k IH] using rev_ind.
  { rewrite app_nil_r. unfold from_be_bytes at 3. simpl. lia. }
  rewrite app_assoc, !from_be_bytes_snoc, IH, length_app. simpl length.
  rewrite Nat2Z.inj_add, Z.pow_add_r by lia. change (256 ^ Z.of_nat 1) with 256. lia.
Qed.

Lemma from_be_bytes_range l :
  Forall is_byte l → 0 ≤ from_be_bytes l < 256 ^ Z.of_nat (length l).
Proof.
  induction l as [|b l IH] using rev_ind; intros H.
  { unfold from_be_bytes. simpl. lia. }
  apply Forall_app in H as [Hl Hb]. inversion_clear Hb as [|? ? Hr].
  specialize (IH Hl). unfold is_byte in Hr.
  rewrite from_be_bytes_snoc, length_app. simpl length.
  rewrite Nat2Z.inj_add, Z.pow_add_r by lia. change (256 ^ Z.of_nat 1) with 256. lia.
Qed.

Lemma from_be_bytes_zeros n l : from_be_bytes (replicate n 0 ++ l) = from_be_bytes l.
Proof.
  rewrite from_be_bytes_app.
  assert (from_be_bytes (replicate n 0) = 0) as ->; [|lia].
  induction n; [done|]. rewrite replicate_S_end, from_be_bytes_snoc, IHn. lia.
Qed.

Lemma length_to_be_bytes n z : length (to_be_bytes n z) = n.
Proof. revert z. induction n; intros z; simpl; [done|]. rewrite length_app, IHn. simpl. lia. Qed.

Lemma to_be_bytes_range n z : Forall is_byte (to_be_bytes n z).
Proof.
  revert z. induction n; intros z; simpl; [done|].
  apply Forall_app; split; [auto|]. constructor; [|done].
  unfold is_byte. pose proof (Z.mod_pos_bound z 256). lia.
Qed.

Lemma from_to_be_bytes n z : from_be_bytes (to_be_bytes n z) = z mod 256 ^ Z.of_nat n.
Proof.
  revert z. induction n as [|n IH]; intros z; cbn [to_be_bytes].
  { simpl. by rewrite Z.mod_1_r. }
  rewrite from_be_bytes_snoc, IH, Nat2Z.inj_succ, Z.pow_succ_r by lia.
  rewrite Z.rem_mul_r by (try apply Z.pow_nonzero; lia). lia.
Qed.

Lemma to_from_be_bytes l :
  Forall is_byte l → to_be_bytes (length l) (from_be_bytes l) = l.
Proof.
  induction l as [|b l IH] using rev_ind; intros H; [done|].
  apply Forall_app in H as [Hl Hb]. inversion_clear Hb as [|? ? Hr]. unfold is_byte in Hr.
  rewrite length_app, Nat.add_comm, from_be_bytes_snoc. cbn [to_be_bytes Nat.add length].
  rewrite (Z.mul_comm 256), Z.div_add_l, Z.div_small, Z.add_0_r by lia.
  rewrite IH by done. f_equal. f_equal.
  rewrite Z.add_comm, Z.mod_add, Z.mod_small by lia. done.
Qed.

Lemma from_be_bytes_inj l k :
  Forall is_byte l → Forall is_byte k → length l = length k →
  from_be_bytes l = from_be_bytes k → l = k.
Proof.
  intros Hl Hk Hlen Heq.
  rewrite <-(to_from_be_bytes l), <-(to_from_be_bytes k) by done. by rewrite Hlen, Heq.
Qed.

(** The low bytes of a big-endian buffer are the value modulo their weight. *)
Lemma from_be_bytes_drop n l :
  Forall is_byte l →
  from_be_bytes (drop n l) = from_be_bytes l mod 256 ^ Z.of_nat (length l - n).
Proof.
  intros Hl. rewrite <-(take_drop n l) at 2.
  rewrite from_be_bytes_app, length_drop.
  pose proof (from_be_bytes_range (drop n l)) as Hr. rewrite length_drop in Hr.
  rewrite Z.add_comm, Z.mod_add by (apply Z.pow_nonzero; lia).
  rewrite Z.mod_small; [done|]. by apply Hr, Forall_drop.
Qed.

(** ** Hexadecimal text *)

(** The lower-case digit of [format!("{:x}", _)]. *)
Definition hex_char (d : Z) : ascii :=
  Z_byte (if d <? 10 then 48 + d else 87 + d).

(** [char::to_digit(16)]. *)
Definition hex_val (c : ascii) : option Z :=
  let z := byte_Z c in
  if (48 <=? z) && (z <=? 57) then Some (z - 48)
  else if (97 <=? z) && (z <=? 102) then Some (z - 87)
  else if (65 <=? z) && (z <=? 70) then Some (z - 55)
  else None.

(** Digits, least significant first; [fuel] is their number less one, which
    [fmt_hex] computes from [Z.log2]. *)
Fixpoint hex_digits_rev (fuel : nat) (n : Z) : list Z :=
  match fuel with
  | O => [n mod 16]
  | S fuel => if n <? 16 then [n mod 16] else n mod 16 :: hex_digits_rev fuel (n / 16)
  end.

Definition hex_digits (n : Z) : list Z := rev (hex_digits_rev (Z.to_nat (Z.log2 n)) n).

Fixpoint string_of_digits (l : list Z) : string :=
  match l with
  | [] => ""
  | d :: l => String (hex_char d) (string_of_digits l)
  end.

(** [format!("{:#x}", n)] of an unsigned integer. *)
Definition fmt_hex (n : Z) : string := "0x" ++ string_of_digits (hex_digits n).

(** [core::num::IntErrorKind], for the errors an unsigned parse can have. *)
Inductive int_error := Empty | InvalidDigit | PosOverflow.

(** The digit loop of [uN::from_str_radix(_, 16)]: the multiplication is
    checked after the digit, as in the library. *)
Fixpoint parse_digits (max acc : Z) (s : string) : res int_error Z :=
  match s with
  | EmptyString => Ok acc
  | String c s =>
      match hex_val c with
      | None => Err InvalidDigit
      | Some d =>
          if max <? acc * 16 then Err PosOverflow
          else if max <? acc * 16 + d then Err PosOverflow
          else parse_digits max (acc * 16 + d) s
      end
  end.

(** [uN::from_str_radix(s, 16)] for the type whose largest value is [max]: an
    optional [+], then at least one digit. *)
Definition from_str_radix_16 (max : Z) (s : string) : res int_error Z :=
  match s with
  | EmptyString => Err Empty
  | String "+" EmptyString => Err InvalidDigit
  | String "+" s => parse_digits max 0 s
  | _ => parse_digits max 0 s
  end.

(** [s.trim_start_matches("0x")]: every leading occurrence is removed. *)
Fixpoint trim_start_0x (s : string) : string :=
  match s with
  | String "0" (String "x" s') => trim_start_0x s'
  | _ => s
  end.

(** [hex::encode]. *)
Fixpoint hex_encode (l : list Z) : string :=
  match l with
  | [] => EmptyString
  | b :: l => String (hex_char (b / 16)) (String (hex_char (b mod 16)) (hex_encode l))
  end.

(** [Result::ok]. *)
Definition ok {E A} (r : res E A) : option A :=
  match r with Ok a => Some a | _ => None end.

(** The parse used for every hexadecimal quantity of a JSON-RPC reply:
    [uN::from_str_radix(s.trim_start_matches("0x"), 16)]. *)
Definition parse_hex_quantity (max : Z) (s : string) : res int_error Z :=
  from_str_radix_16 max (trim_start_0x s).

(** *** Round trip *)

Definition digits_value (l : list Z) : Z := fold_left (λ acc d, acc * 16 + d) l 0.

Definition is_digit (d : Z) : Prop := 0 ≤ d < 16.

Lemma hex_val_char d : is_digit d → hex_val (hex_char d) = Some d.
Proof.
  unfold is_digit. intros ?. unfold hex_val, hex_char.
  destruct (Z.ltb_spec d 10); rewrite byte_Z_byte by (unfold is_byte; lia).
  - destruct (Z.leb_spec 48 (48 + d)), (Z.leb_spec (48 + d) 57); simpl; lia || f_equal; lia.
  - destruct (Z.leb_spec 48 (87 + d)), (Z.leb_spec (87 + d) 57),
      (Z.leb_spec 97 (87 + d)), (Z.leb_spec (87 + d) 102); simpl; lia || f_equal; lia.
Qed.

Lemma hex_digits_rev_range fuel n : 0 ≤ n → Forall is_digit (hex_digits_rev fuel n).
Proof.
  revert n. induction fuel as [|fuel IH]; intros n Hn; simpl.
  { repeat constructor; apply Z.mod_pos_bound; lia. }
  case_match.
  { repeat constructor; apply Z.mod_pos_bound; lia. }
  constructor; [apply Z.mod_pos_bound; lia|]. apply IH. apply Z.div_pos; lia.
Qed.

Lemma digits_value_rev_cons d l : digits_value (rev (d :: l)) = digits_value (rev l) * 16 + d.
Proof. unfold digits_value. simpl rev. by rewrite fold_left_app. Qed.

Lemma hex_digits_rev_value fuel n :
  0 ≤ n < 16 ^ Z.of_nat (S fuel) → digits_value (rev (hex_digits_rev fuel n)) = n.
Proof.
  revert n. induction fuel as [|fuel IH]; intros n Hn.
  - simpl. change (16 ^ Z.of_nat 1) with 16 in Hn. unfold digits_value. simpl.
    rewrite Z.mod_small; lia.
  - simpl hex_digits_rev. case_match eqn:Hlt.
    + apply Z.ltb_lt in Hlt. unfold digits_value. simpl. rewrite Z.mod_small; lia.
    + rewrite digits_value_rev_cons, IH.
      * pose proof (Z.div_mod n 16). lia.
      * rewrite Nat2Z.inj_succ, Z.pow_succ_r in Hn by lia. split.
        -- apply Z.div_pos; lia.
        -- apply Z.div_lt_upper_bound; lia.
Qed.

Lemma hex_digits_value n : 0 ≤ n → digits_value (hex_digits n) = n.
Proof.
  intros Hn. apply hex_digits_rev_value. split; [done|].
  pose proof (Z.log2_nonneg n).
  rewrite Nat2Z.inj_succ, Z2Nat.id by done.
  destruct (decide (n = 0)) as [->|]; [done|].
  eapply Z.lt_le_trans; [apply Z.log2_spec; lia|].
  apply Z.pow_le_mono_l; lia.
Qed.

Lemma hex_digits_nonnil n : hex_digits n ≠ [].
Proof.
  unfold hex_digits. intros H%(f_equal (@rev Z)). rewrite rev_involutive in H.
  destruct (Z.to_nat (Z.log2 n)); simpl in H; [done|]. by destruct (n <? 16).
Qed.

Lemma hex_digits_range n : 0 ≤ n → Forall is_digit (hex_digits n).
Proof. intros. apply Forall_rev. by apply hex_digits_rev_range. Qed.

Lemma fold_digits_le l acc :
  Forall is_digit l → 0 ≤ acc → acc ≤ fold_left (λ acc d, acc * 16 + d) l acc.
Proof.
  intros Hl. revert acc. induction Hl as [|d l Hd Hl IH]; intros acc Hacc; simpl; [lia|].
  unfold is_digit in Hd. specialize (IH (acc * 16 + d)). lia.
Qed.

Lemma parse_digits_fold max l acc :
  Forall is_digit l → 0 ≤ acc →
  fold_left (λ acc d, acc * 16 + d) l acc ≤ max →
  parse_digits max acc (string_of_digits l) = Ok (fold_left (λ acc d, acc * 16 + d) l acc).
Proof.
  intros Hl. revert acc. induction Hl as [|d l Hd Hl IH]; intros acc Hacc Hmax; simpl; [done|].
  rewrite hex_val_char by done. simpl in Hmax.
  unfold is_digit in Hd. pose proof (fold_digits_le l (acc * 16 + d) Hl).
  rewrite (proj2 (Z.ltb_ge max (acc * 16))), (proj2 (Z.ltb_ge max (acc * 16 + d))) by lia.
  apply IH; lia.
Qed.

(** The first character of a digit string is neither [+] nor, unless the
    number starts with the digit 0, a zero. *)
Lemma string_of_digits_head l :
  Forall is_digit l → l ≠ [] →
  ∃ d l', l = d :: l' ∧ string_of_digits l = String (hex_char d) (string_of_digits l') ∧ is_digit d.
Proof. intros Hl. destruct Hl as [|d l']; [done|]. intros _. by exists d, l'. Qed.

Lemma hex_char_neq d c : is_digit d → hex_val c = None → hex_char d ≠ c.
Proof. intros Hd Hc <-. by rewrite hex_val_char in Hc. Qed.

Lemma from_str_radix_16_digits max l :
  Forall is_digit l → l ≠ [] → digits_value l ≤ max →
  from_str_radix_16 max (string_of_digits l) = Ok (digits_value l).
Proof.
  intros Hl Hne Hmax. unfold digits_value in *.
  rewrite <-(parse_digits_fold max) by (done || lia).
  destruct (string_of_digits_head l Hl Hne) as (d & l' & -> & -> & Hd).
  unfold from_str_radix_16.
  assert (hex_char d ≠ "+"%char) by (by apply hex_char_neq).
  repeat (case_match; try done).
Qed.

(** The digits themselves never look like a [0x] prefix, so the greedy
    [trim_start_matches] removes exactly the one that [fmt_hex] wrote. *)
Lemma trim_start_0x_digits l : Forall is_digit l → trim_start_0x (string_of_digits l) = string_of_digits l.
Proof.
  intros Hl. destruct Hl as [|d l' Hd Hl']; [done|].
  destruct Hl' as [|e l'' He Hl'']; cbn [string_of_digits trim_start_0x].
  { repeat (case_match; try done). }
  assert (hex_char e ≠ "x"%char) by (by apply hex_char_neq).
  repeat (case_match; try done).
Qed.

Lemma trim_start_0x_fmt n : 0 ≤ n → trim_start_0x (fmt_hex n) = string_of_digits (hex_digits n).
Proof. intros. by apply trim_start_0x_digits, hex_digits_range. Qed.

Lemma parse_fmt_hex max n : in_u max n → parse_hex_quantity max (fmt_hex n) = Ok n.
Proof.
  intros [? ?]. unfold parse_hex_quantity. rewrite trim_start_0x_fmt by done.
  rewrite from_str_radix_16_digits; rewrite ?hex_digits_value;
    auto using hex_digits_nonnil, hex_digits_range.
Qed.

Lemma fmt_hex_inj n m : 0 ≤ n → 0 ≤ m → fmt_hex n = fmt_hex m → n = m.
Proof.
  intros Hn Hm Heq.
  pose proof (parse_fmt_hex (n + m) n ltac:(split; lia)) as H1.
  rewrite Heq, parse_fmt_hex in H1 by (split; lia). congruence.
Qed.

(** Every successful parse is in range. *)
Lemma parse_digits_range max s acc n :
  0 ≤ acc ≤ max → parse_digits max acc s = Ok n → in_u max n.
Proof.
  revert acc. induction s as [|c s IH]; intros acc Hacc; simpl; [by intros [= <-]|].
  destruct (hex_val c) as [d|] eqn:Hc; [|done].
  destruct (Z.ltb_spec max (acc * 16)); [done|].
  destruct (Z.ltb_spec max (acc * 16 + d)); [done|].
  apply IH. assert (0 ≤ d); [|lia].
  unfold hex_val in Hc. repeat case_match; simplify_eq; lia.
Qed.

Lemma from_str_radix_16_cases max s :
  (∃ e, from_str_radix_16 max s = Err e) ∨ ∃ s', from_str_radix_16 max s = parse_digits max 0 s'.
Proof.
  destruct s as [|[[] [] [] [] [] [] [] []] s]; cbn [from_str_radix_16]; eauto.
  destruct s; eauto.
Qed.

Lemma parse_hex_quantity_range max s n :
  0 ≤ max → parse_hex_quantity max s = Ok n → in_u max n.
Proof.
  intros ?. unfold parse_hex_quantity.
  destruct (from_str_radix_16_cases max (trim_start_0x s)) as [[e ->]|[s' ->]]; [done|].
  apply parse_digits_range. lia.
Qed.

#[export] Hint Resolve as_bytes_range to_be_bytes_range parse_fmt_hex : snip.

Example fmt_hex_0 : fmt_hex 0 = "0x0". Proof. reflexivity. Qed.
Example fmt_hex_ceil : fmt_hex 0x38d7ea4c68000 = "0x38d7ea4c68000". Proof. reflexivity. Qed.
Example parse_plus : parse_hex_quantity u64_max "0x+5" = Ok 5. Proof. reflexivity. Qed.

(** A digit string whose value does not fit the type is an error. *)
Lemma parse_digits_value max l acc n :
  Forall is_digit l → parse_digits max acc (string_of_digits l) = Ok n →
  n = fold_left (λ acc d, acc * 16 + d) l acc.
Proof.
  intros Hl. revert acc. induction Hl as [|d l Hd Hl IH]; intros acc; simpl; [by intros [= <-]|].
  rewrite hex_val_char by done. repeat case_match; try done. apply IH.
Qed.

Lemma from_str_radix_16_digits_eq max l :
  Forall is_digit l → l ≠ [] →
  from_str_radix_16 max (string_of_digits l) = parse_digits max 0 (string_of_digits l).
Proof.
  intros Hl Hne. destruct (string_of_digits_head l Hl Hne) as (d & l' & -> & -> & Hd).
  unfold from_str_radix_16.
  assert (hex_char d ≠ "+"%char) by (by apply hex_char_neq).
  repeat (case_match; try done).
Qed.

Lemma parse_fmt_hex_overflow max n :
  0 ≤ max < n → ok (parse_hex_quantity max (fmt_hex n)) = None.
Proof.
  intros Hn. unfold ok. destruct (parse_hex_quantity max (fmt_hex n)) as [m| | |] eqn:Hp; try done.
  pose proof (parse_hex_quantity_range max _ _ ltac:(lia) Hp) as Hr. unfold in_u in Hr.
  unfold parse_hex_quantity in Hp. rewrite trim_start_0x_fmt in Hp by lia.
  rewrite from_str_radix_16_digits_eq in Hp by
    (first [apply hex_digits_range; lia | apply hex_digits_nonnil]).
  apply parse_digits_value in Hp; [|apply hex_digits_range; lia].
  fold (digits_value (hex_digits n)) in Hp. rewrite hex_digits_value in Hp; lia.
Qed.

Lemma parse_hex_quantity_outcome max s :
  (∃ n, parse_hex_quantity max s = Ok n) ∨ ∃ e, parse_hex_quantity max s = Err e.
Proof.
  unfold parse_hex_quantity.
  destruct (from_str_radix_16_cases max (trim_start_0x s)) as [[e ->]|[s' ->]]; [eauto|].
  generalize 0. induction s' as [|c s' IH]; intros acc; simpl; [eauto|].
  repeat case_match; eauto.
Qed.
