(* ===== verification/RustStr.v ===== *)
(** * UTF-8 strings

    A Rust [String] is modelled by its bytes ([Strings.String.string] is a
    list of 8-bit characters).  This file holds what the source uses of [str]:
    [trim], [lines], [contains], [trim_end_matches('/')], byte slices with
    their char-boundary panics, [String::from_utf8_lossy] and
    [Path::join]. *)

From S2P Require Import Prelude RustNum.

(** ** [str::trim] *)

(** The characters with the Unicode property White_Space, by the length of
    their UTF-8 encoding. *)
Definition is_ws1 (b : Z) : bool := ((9 <=? b) && (b <=? 13)) || (b =? 32).
Definition is_ws2 (b c : Z) : bool := (b =? 194) && ((c =? 133) || (c =? 160)).
Definition is_ws3 (b c d : Z) : bool :=
  ((b =? 225) && (c =? 154) && (d =? 128))
  || ((b =? 226) && (c =? 128)
      && (((128 <=? d) && (d <=? 138)) || (d =? 168) || (d =? 169) || (d =? 175)))
  || ((b =? 226) && (c =? 129) && (d =? 159))
  || ((b =? 227) && (c =? 128) && (d =? 128)).

(** Strip one leading white-space character. *)
Definition strip_ws (l : list Z) : option (list Z) :=
  match l with
  | b :: l1 =>
      if is_ws1 b then Some l1 else
      match l1 with
      | c :: l2 =>
          if is_ws2 b c then Some l2 else
          match l2 with
          | d :: l3 => if is_ws3 b c d then Some l3 else None
          | [] => None
          end
      | [] => None
      end
  | [] => None
  end.

(** The same at the end of the string, on the reversed bytes. *)
Definition strip_ws_rev (l : list Z) : option (list Z) :=
  match l with
  | d :: l1 =>
      if is_ws1 d then Some l1 else
      match l1 with
      | c :: l2 =>
          if is_ws2 c d then Some l2 else
          match l2 with
          | b :: l3 => if is_ws3 b c d then Some l3 else None
          | [] => None
          end
      | [] => None
      end
  | [] => None
  end.

Fixpoint strip_while (f : list Z → option (list Z)) (fuel : nat) (l : list Z) : list Z :=
  match fuel with
  | O => l
  | S fuel => match f l with Some l' => strip_while f fuel l' | None => l end
  end.

Definition trim_bytes (l : list Z) : list Z :=
  let l := strip_while strip_ws (length l) l in
  rev (strip_while strip_ws_rev (length l) (rev l)).

Definition trim (s : string) : string := of_bytes (trim_bytes (as_bytes s)).

(** Printable ASCII other than the space. *)
Definition graphic (b : Z) : Prop := 33 ≤ b ≤ 126.

Lemma strip_ws_graphic b l : graphic b → strip_ws (b :: l) = None.
Proof.
  unfold graphic, strip_ws, is_ws1, is_ws2, is_ws3. intros ?.
  repeat (case_match; try done); lia.
Qed.

Lemma strip_ws_rev_graphic b l : graphic b → strip_ws_rev (b :: l) = None.
Proof.
  unfold graphic, strip_ws_rev, is_ws1, is_ws2, is_ws3. intros ?.
  repeat (case_match; try done); lia.
Qed.

Lemma strip_while_none f fuel l : f l = None → strip_while f fuel l = l.
Proof. intros Hf. destruct fuel; simpl; [done|]. by rewrite Hf. Qed.

(** A string that starts and ends with printable ASCII is its own [trim]. *)
Lemma trim_graphic s : Forall graphic (as_bytes s) → trim s = s.
Proof.
  intros Hs. unfold trim, trim_bytes.
  assert (∀ f l, (∀ b l', graphic b → f (b :: l') = None) → f [] = None →
    Forall graphic l → ∀ n, strip_while f n l = l) as Hnone.
  { intros f l Hf Hnil Hl n. apply strip_while_none. destruct Hl; auto. }
  rewrite !(Hnone strip_ws) by auto using strip_ws_graphic.
  rewrite (Hnone strip_ws_rev) by auto using strip_ws_rev_graphic, Forall_rev.
  by rewrite rev_involutive, of_as_bytes.
Qed.

(** ** Lines, searches and slices *)

(** [str::lines]: the pieces between newlines, each without its ["\n"] or
    ["\r\n"]; the text after the last newline is a line when it is not empty
    and keeps a final ["\r"]. *)
Definition strip_cr (acc : list ascii) : list ascii :=
  match acc with
  | c :: acc' => if Ascii.eqb c "013"%char then acc' else acc
  | [] => []
  end.

Fixpoint lines_from (acc : list ascii) (s : string) : list string :=
  match s with
  | EmptyString =>
      match acc with [] => [] | _ => [string_of_list_ascii (rev acc)] end
  | String c s =>
      if Ascii.eqb c "010"%char
      then string_of_list_ascii (rev (strip_cr acc)) :: lines_from [] s
      else lines_from (c :: acc) s
  end.

Definition lines (s : string) : list string := lines_from [] s.

(** [s.split(c)] for an ASCII character: one piece more than there are
    separators. *)
Fixpoint split_char (c : ascii) (s : string) : list string :=
  match s with
  | EmptyString => [EmptyString]
  | String d s =>
      if Ascii.eqb d c then EmptyString :: split_char c s
      else match split_char c s with
           | piece :: pieces => String d piece :: pieces
           | [] => [String d EmptyString]
           end
  end.

(** [s.contains(pat)]. *)
Fixpoint str_contains (pat s : string) : bool :=
  String.prefix pat s ||
  match s with
  | EmptyString => false
  | String _ s => str_contains pat s
  end.

(** [s.trim_end_matches('/')]. *)
Fixpoint drop_slashes (l : list Z) : list Z :=
  match l with
  | b :: l' => if b =? 47 then drop_slashes l' else l
  | [] => []
  end.
Definition trim_end_slashes (s : string) : string :=
  of_bytes (rev (drop_slashes (rev (as_bytes s)))).

(** [str::is_char_boundary]: a byte that is not a UTF-8 continuation. *)
Definition is_char_boundary (s : string) (i : nat) : bool :=
  match i with
  | O => true
  | _ => match as_bytes s !! i with
         | Some b => negb ((128 <=? b) && (b <? 192))
         | None => Nat.eqb i (String.length s)
         end
  end.

(** [s.get(..n)]; the slice expression [&s[..n]] panics where this is [None]. *)
Definition slice_to (n : nat) (s : string) : option string :=
  if Nat.leb n (String.length s) && is_char_boundary s n
  then Some (String.substring 0 n s) else None.

(** [s.get(n..)]. *)
Definition slice_from (n : nat) (s : string) : option string :=
  if Nat.leb n (String.length s) && is_char_boundary s n
  then Some (String.substring n (String.length s - n) s) else None.

(** ** [String::from_utf8_lossy]

    The decoder's table of well-formed sequences: how many bytes the sequence
    that starts the list has, or after how many bytes it stops being one. *)
Definition is_cont (b : Z) : bool := (128 <=? b) && (b <? 192).

Definition second_ok (b c : Z) : bool :=
  if b =? 224 then (160 <=? c) && (c <? 192)
  else if b =? 237 then (128 <=? c) && (c <? 160)
  else if b =? 240 then (144 <=? c) && (c <? 192)
  else if b =? 244 then (128 <=? c) && (c <? 144)
  else is_cont c.

Definition utf8_width (b : Z) : nat :=
  if b <? 128 then 1%nat
  else if (194 <=? b) && (b <? 224) then 2%nat
  else if (224 <=? b) && (b <? 240) then 3%nat
  else if (240 <=? b) && (b <? 245) then 4%nat
  else 0%nat.

(** [inr n]: a character of [n] bytes; [inl n]: an invalid sequence whose
    first [n] bytes are replaced together. *)
Definition utf8_step (b : Z) (l : list Z) : nat + nat :=
  let at_ i := match l !! i with Some c => c | None => 0 end in
  match utf8_width b with
  | 1%nat => inr 1%nat
  | 2%nat => if is_cont (at_ 0%nat) then inr 2%nat else inl 1%nat
  | 3%nat =>
      if negb (second_ok b (at_ 0%nat)) then inl 1%nat
      else if is_cont (at_ 1%nat) then inr 3%nat else inl 2%nat
  | 4%nat =>
      if negb (second_ok b (at_ 0%nat)) then inl 1%nat
      else if negb (is_cont (at_ 1%nat)) then inl 2%nat
      else if is_cont (at_ 2%nat) then inr 4%nat else inl 3%nat
  | _ => inl 1%nat
  end.

(** U+FFFD. *)
Definition replacement : list Z := [239; 191; 189].

Fixpoint lossy_bytes (fuel : nat) (l : list Z) : list Z :=
  match fuel, l with
  | S fuel, b :: l' =>
      match utf8_step b l' with
      | inr n => take n l ++ lossy_bytes fuel (drop n l)
      | inl n => replacement ++ lossy_bytes fuel (drop n l)
      end
  | _, _ => []
  end.

Definition from_utf8_lossy (l : list Z) : string := of_bytes (lossy_bytes (length l) l).

Lemma lossy_bytes_ascii l n :
  Forall (λ b, 0 ≤ b < 128) l → (length l ≤ n)%nat → lossy_bytes n l = l.
Proof.
  intros Hl. revert n. induction Hl as [|b l Hb _ IH]; intros [|n] Hn; simpl in *; try lia; try done.
  unfold utf8_step, utf8_width. rewrite (proj2 (Z.ltb_lt b 128)) by lia. simpl.
  f_equal. apply IH. lia.
Qed.

(** ** Paths

    [Path::join] on Unix: an absolute argument replaces the path, otherwise a
    separator is added unless the path is empty or already ends with one. *)
Definition path_join (p q : string) : string :=
  match q with
  | String "/" _ => q
  | _ => match rev (as_bytes p) with
         | [] => q
         | b :: _ => if b =? 47 then p +:+ q else p +:+ "/" +:+ q
         end
  end.

(** The last component of a path and what precedes it. *)
Fixpoint split_last (sep : Z) (acc l : list Z) : option (list Z * list Z) :=
  match l with
  | [] => None
  | b :: l =>
      if b =? sep then
        match split_last sep [] l with
        | Some (pre, post) => Some (rev acc ++ [b] ++ pre, post)%list
        | None => Some (rev acc ++ [b], l)%list
        end
      else split_last sep (b :: acc) l
  end.

(** [Path::with_extension] for a path that ends in a file name: the text
    after the last dot of the name is replaced; a name without a dot, or with
    only a leading one, gets the extension appended. *)
Definition with_extension (path ext : string) : string :=
  let '(dir, name) :=
    match split_last 47 [] (as_bytes path) with
    | Some (dir, name) => (dir, name)
    | None => ([], as_bytes path)
    end in
  let stem :=
    match split_last 46 [] name with
    | Some ([_], _) | None => name
    | Some (pre, _) => take (length pre - 1) pre
    end in
  match name with
  | [] => path
  | _ => of_bytes (dir ++ stem)%list +:+ "." +:+ ext
  end.

(** [s.replace('-', "")]. *)
Fixpoint remove_dashes (s : string) : string :=
  match s with
  | EmptyString => EmptyString
  | String c s => if Ascii.eqb c "-"%char then remove_dashes s else String c (remove_dashes s)
  end.

Example with_extension_ex :
  with_extension "/o.d/ab-1.proof" "raw_messages.json" = "/o.d/ab-1.raw_messages.json".
Proof. reflexivity. Qed.
Example with_extension_none : with_extension "o.d/.ab" "x" = "o.d/.ab.x". Proof. reflexivity. Qed.
Example trim_ex : trim (" " +:+ String "010" "ab  ") = "ab". Proof. reflexivity. Qed.
Example lines_ex : lines ("a" +:+ String "013" (String "010" "b")) = ["a"; "b"]. Proof. reflexivity. Qed.
Example contains_ex : str_contains "too recent" "block is too recent." = true. Proof. reflexivity. Qed.
Example split_ex : split_char ","%char "0x1,,0x2" = ["0x1"; ""; "0x2"]. Proof. reflexivity. Qed.
Example slice_ex : slice_to 3 "0xabc" = Some "0xa" ∧ slice_to 9 "0xabc" = None. Proof. done. Qed.
Example slashes_ex : trim_end_slashes "http://x//" = "http://x". Proof. reflexivity. Qed.
Example lossy_ex : as_bytes (from_utf8_lossy [65; 240; 159; 66]) = [65; 239; 191; 189; 66].
Proof. reflexivity. Qed.

(** [String::from_utf8]: every sequence is well formed. *)
Fixpoint utf8_ok (fuel : nat) (l : list Z) : bool :=
  match fuel, l with
  | S fuel, b :: l' =>
      match utf8_step b l' with
      | inr n => utf8_ok fuel (drop n l)
      | inl _ => false
      end
  | _, _ => true
  end.
Definition from_utf8 (l : list Z) : res string string :=
  if utf8_ok (length l) l then Ok (of_bytes l) else Err "invalid utf-8 sequence".
