(* ===== verification/RustFloat.v ===== *)
(** * Doubles

    What the source uses of [f64], over the Standard Library's executable
    IEEE 754 operations: multiplication and division, [as f64], [as u128], the
    comparison with a constant and [format!("{:.n}", f)]. *)

From Stdlib Require Import SpecFloat.
From S2P Require Import Prelude RustNum.

Definition f64_mul : spec_float → spec_float → spec_float := SFmul 53 1024.
Definition f64_div : spec_float → spec_float → spec_float := SFdiv 53 1024.
(** [n as f64]. *)
Definition f64_of_Z (n : Z) : spec_float := binary_normalize 53 1024 n 0 false.
(** 1e18 is 7812500000000000 * 2^7. *)
Definition f64_1e18 : spec_float := S754_finite false 7812500000000000 7.
(** [x >= y]. *)
Definition f64_ge (x y : spec_float) : bool := SFleb y x.

(** [f as u128]: truncation towards zero, saturating, NaN to 0. *)
Definition as_u128 (f : spec_float) : Z :=
  match f with
  | S754_nan | S754_zero _ | S754_infinity true | S754_finite true _ _ => 0
  | S754_infinity false => u128_max
  | S754_finite false m e =>
      Z.min u128_max (if 0 <=? e then Z.shiftl (Z.pos m) e else Z.shiftr (Z.pos m) (- e))
  end.

Definition round_half_even (num den : Z) : Z :=
  let q := num / den in
  let r := num mod den in
  if (2 * r <? den) || ((2 * r =? den) && Z.even q) then q else q + 1.

(** The last [n] decimal digits of a number. *)
Fixpoint decimals (n : nat) (z : Z) : string :=
  match n with
  | O => EmptyString
  | S n => decimals n (z / 10) +:+ String (hex_char (z mod 10)) EmptyString
  end.

(** [format!("{:.n}", f)] of a finite non-negative number: the exact value
    rounded to [n] decimals, ties to even. *)
Definition fmt_fixed (n : nat) (f : spec_float) : string :=
  let unit := 10 ^ Z.of_nat n in
  let scaled :=
    match f with
    | S754_finite false m e =>
        if 0 <=? e then Z.shiftl (Z.pos m) e * unit
        else round_half_even (Z.pos m * unit) (2 ^ (- e))
    | _ => 0
    end in
  pretty (scaled / unit) +:+ "." +:+ decimals n scaled.

Lemma as_u128_range f : in_u u128_max (as_u128 f).
Proof.
  unfold in_u, as_u128. assert (0 ≤ u128_max) by (unfold u128_max; lia).
  destruct f as [[]|[]| |[] m e]; try lia. split; [|apply Z.le_min_l].
  apply Z.min_glb; [lia|]. destruct (Z.leb_spec 0 e).
  - by apply Z.shiftl_nonneg.
  - by apply Z.shiftr_nonneg.
Qed.

Example fmt_fixed_ex : fmt_fixed 4 (f64_div (f64_of_Z 1500000000000000000) f64_1e18) = "1.5000".
Proof. vm_compute. reflexivity. Qed.
Example fmt_fixed_2 : fmt_fixed 2 (f64_div (f64_of_Z 56789) (f64_of_Z 1000)) = "56.79".
Proof. vm_compute. reflexivity. Qed.
