(* ===== verification/Json.v ===== *)
(** * JSON values

    The data type of [serde_json::Value] and the accessors the source calls on
    it ([get], [as_str], [as_u64], [as_array], [as_object]).  Parsing and
    printing text belong to the serde_json crate and stay parameters
    ([SerdeJson]). *)

From Stdlib Require Import SpecFloat.
From S2P Require Import Prelude RustNum.

(** [serde_json::Number]: [u64], negative [i64] or a double. *)
Inductive number :=
  | PosInt (n : Z)
  | NegInt (z : Z)
  | Float (f : spec_float).

Inductive Value :=
  | JNull
  | JBool (b : bool)
  | JNumber (n : number)
  | JString (s : string)
  | JArray (l : list Value)
  | JObject (m : list (string * Value)).

(** The members of a [JObject] are listed as [json!] or the reader gives them.
    [serde_json::Map] is a [BTreeMap] here ([preserve_order] is off in
    Cargo.lock): what the source does with it goes by key, and the order of the
    list means nothing; [document] is the map as it is kept and printed. *)

(** Text: [Value::to_string] and [serde_json::from_str::<Value>]. *)
Class SerdeJson := {
  json_to_string : Value → string;
  json_from_str : string → res string Value;
}.

(** [BTreeMap::insert]: keys in the order of their bytes, an equal one is
    replaced. *)
Fixpoint map_insert {A} (k : string) (x : A) (m : list (string * A)) : list (string * A) :=
  match m with
  | [] => [(k, x)]
  | (k', v) :: rest =>
      match String.compare k k' with
      | Lt => (k, x) :: m
      | Eq => (k, x) :: rest
      | Gt => (k', v) :: map_insert k x rest
      end
  end.

Definition sorted_members {A} (m : list (string * A)) : list (string * A) :=
  fold_left (λ acc p, map_insert p.1 p.2 acc) m [].

Fixpoint document (v : Value) : Value :=
  match v with
  | JArray l => JArray (map document l)
  | JObject m => JObject (sorted_members (map (λ p, (p.1, document p.2)) m))
  | v => v
  end.

(** The entry of a key in an object. *)
Fixpoint assoc {A} (k : string) (m : list (string * A)) : option A :=
  match m with
  | [] => None
  | (k', v) :: m => if decide (k = k') then Some v else assoc k m
  end.

(** [value.get("key")]: [None] for anything but an object. *)
Definition get (v : Value) (k : string) : option Value :=
  match v with JObject m => assoc k m | _ => None end.

Definition as_str (v : Value) : option string :=
  match v with JString s => Some s | _ => None end.

Definition as_u64 (v : Value) : option Z :=
  match v with JNumber (PosInt n) => Some n | _ => None end.

Definition as_array (v : Value) : option (list Value) :=
  match v with JArray l => Some l | _ => None end.

Definition as_object (v : Value) : option (list (string * Value)) :=
  match v with JObject m => Some m | _ => None end.

(** [value["key"] = x] on an object: the entry is replaced or added. *)
Fixpoint assoc_set {A} (k : string) (x : A) (m : list (string * A)) : list (string * A) :=
  match m with
  | [] => [(k, x)]
  | (k', v) :: m => if decide (k = k') then (k, x) :: m else (k', v) :: assoc_set k x m
  end.

(** [json!] of an unsigned integer and of a list of strings. *)
Definition json_u64 (n : Z) : Value := JNumber (PosInt n).
Definition json_strings (l : list string) : Value := JArray (JString <$> l).

(** [v.get(k).and_then(|v| v.as_str())]. *)
Definition get_str (v : Value) (k : string) : option string := get v k ≫= as_str.

(** [arr.iter().filter_map(|v| v.as_str().map(String::from))]. *)
Definition array_strings (l : list Value) : list string := omap as_str l.

Lemma assoc_set_eq {A} k (x : A) m : assoc k (assoc_set k x m) = Some x.
Proof.
  induction m as [|[k' v] m IH]; simpl.
  { by rewrite decide_True. }
  destruct (decide (k = k')) as [->|]; simpl; [by rewrite decide_True|].
  by rewrite decide_False.
Qed.

Lemma assoc_set_ne {A} k k' (x : A) m : k ≠ k' → assoc k' (assoc_set k x m) = assoc k' m.
Proof.
  intros Hne. induction m as [|[k'' v] m IH]; simpl.
  { by rewrite decide_False. }
  destruct (decide (k = k'')) as [<-|]; simpl.
  - by rewrite !decide_False.
  - by rewrite IH.
Qed.

Lemma assoc_Some_In {A} k (v : A) m : assoc k m = Some v → (k, v) ∈ m.
Proof.
  induction m as [|[k' v'] m IH]; simpl; [done|].
  destruct (decide (k = k')) as [->|]; [intros [= ->]; by left|]. right. auto.
Qed.

Lemma array_strings_json l : array_strings (JString <$> l) = l.
Proof. induction l; simpl; [done|]. by f_equal. Qed.

Lemma assoc_set_id {A} k (x : A) m : assoc k m = Some x → assoc_set k x m = m.
Proof.
  induction m as [|[k' v] m IH]; simpl; [done|].
  destruct (decide (k = k')) as [->|]; [by intros [= ->]|]. intros. by rewrite IH.
Qed.

(** ** Members by key *)

Lemma map_insert_perm {A} k (x : A) m : k ∉ m.*1 → map_insert k x m ≡ₚ (k, x) :: m.
Proof.
  induction m as [|[k' v] m IH]; [done|]. rewrite fmap_cons, not_elem_of_cons. intros [Hne Hk]. simpl.
  destruct (String.compare k k') eqn:Hc; [|done|].
  - apply String.compare_eq_iff in Hc. done.
  - rewrite IH by done. apply Permutation_swap.
Qed.

(** Members with distinct keys only change their places. *)
Lemma sorted_members_perm {A} (m : list (string * A)) : NoDup m.*1 → sorted_members m ≡ₚ m.
Proof.
  unfold sorted_members. assert (∀ acc, NoDup (acc.*1 ++ m.*1) →
    fold_left (λ acc p, map_insert p.1 p.2 acc) m acc ≡ₚ acc ++ m) as Hgen.
  { induction m as [|[k v] m IH]; intros acc Hnd; simpl; [by rewrite app_nil_r|].
    assert (map_insert k v acc ≡ₚ (k, v) :: acc) as Hins.
    { apply map_insert_perm. intros Hk. apply NoDup_app in Hnd as (_ & Hnd & _).
      apply (Hnd k Hk). by left. }
    rewrite IH, Hins; [apply Permutation_middle|].
    rewrite Hins, fmap_cons. rewrite <- app_comm_cons, (Permutation_middle acc.*1 m.*1). done. }
  intros Hnd. by apply (Hgen []).
Qed.

Lemma assoc_elem {A} k (v : A) m : NoDup m.*1 → assoc k m = Some v ↔ (k, v) ∈ m.
Proof.
  intros Hnd. split; [apply assoc_Some_In|]. induction m as [|[k' v'] m IH]; [by intros []%elem_of_nil|].
  rewrite fmap_cons in Hnd. apply NoDup_cons in Hnd as [Hk Hnd].
  intros [[= -> ->]|Hin]%elem_of_cons; simpl; [by rewrite decide_True|].
  rewrite decide_False; [by apply IH|]. intros ->. apply Hk, list_elem_of_fmap. exists (k', v). done.
Qed.

Lemma assoc_perm {A} k (m m' : list (string * A)) : NoDup m.*1 → m ≡ₚ m' → assoc k m = assoc k m'.
Proof.
  intros Hnd Hp. apply option_eq. intros v. rewrite !assoc_elem; [by rewrite Hp| |done].
  by rewrite <- Hp.
Qed.

Lemma assoc_fmap {A B} (f : A → B) k m : assoc k (map (λ p, (p.1, f p.2)) m) = f <$> assoc k m.
Proof. induction m as [|[k' v] m IH]; [done|]. simpl. by case_decide. Qed.

(** What a key leads to does not depend on the order of the members. *)
Lemma get_document m k : NoDup m.*1 → get (document (JObject m)) k = document <$> get (JObject m) k.
Proof.
  intros Hnd. simpl. assert ((map (λ p, (p.1, document p.2)) m).*1 = m.*1) as Hkeys.
  { rewrite <- list_fmap_compose. by apply list_fmap_ext. }
  rewrite <- assoc_fmap. symmetry. apply assoc_perm; [by rewrite Hkeys|].
  symmetry. apply sorted_members_perm. by rewrite Hkeys.
Qed.
