(* ===== verification/Felt.v ===== *)
(** * Field elements and hash functions

    [Felt] is the field element of starknet-types-core, and the hashes and
    signatures come from starknet-crypto; neither crate is part of this
    repository.  The development sees them through the interfaces [FeltOps]
    and [Crypto], with the documented behaviour of [FeltOps] in [FeltLaws]:
    a felt is an integer modulo the Stark prime, its byte form is 32 bytes
    big-endian, its [LowerHex] text is the minimal hexadecimal number, and
    reading that text back gives the felt.  Section [ZFelt] discharges the
    laws for integers modulo the prime, so that every theorem that uses them
    has concrete instances. *)

From S2P Require Import Prelude RustNum RustStr.

(** The Stark prime, 2^251 + 17 * 2^192 + 1. *)
Definition stark_prime : Z := 2 ^ 251 + 17 * 2 ^ 192 + 1.

Class FeltOps := {
  Felt : Type;
  felt_eq_dec :: EqDecision Felt;
  felt_countable :: Countable Felt;
  (** The canonical representative of a felt. *)
  felt_val : Felt → Z;
  (** [Felt::from(n)] for unsigned [n]. *)
  felt_of : Z → Felt;
  felt_add : Felt → Felt → Felt;
  felt_mul : Felt → Felt → Felt;
  (** [Felt::pow_felt]. *)
  felt_pow : Felt → Felt → Felt;
  (** [Felt::from_bytes_be_slice] and [Felt::from_bytes_be]. *)
  felt_from_bytes_be : list Z → Felt;
  felt_to_bytes_be : Felt → list Z;
  (** [Felt::from_hex], with the text of its error. *)
  felt_parse_hex : string → res string Felt;
  (** [format!("{:#x}", f)]. *)
  felt_hex : Felt → string;
}.

Class FeltLaws `{FeltOps} := {
  felt_val_range f : 0 ≤ felt_val f < stark_prime;
  felt_val_inj f g : felt_val f = felt_val g → f = g;
  felt_of_val n : 0 ≤ n → felt_val (felt_of n) = n mod stark_prime;
  felt_add_val f g : felt_val (felt_add f g) = (felt_val f + felt_val g) mod stark_prime;
  felt_mul_val f g : felt_val (felt_mul f g) = (felt_val f * felt_val g) mod stark_prime;
  felt_pow_val f g : felt_val (felt_pow f g) = felt_val f ^ felt_val g mod stark_prime;
  felt_from_bytes_be_val l :
    Forall is_byte l → (length l ≤ 32)%nat →
    felt_val (felt_from_bytes_be l) = from_be_bytes l mod stark_prime;
  felt_to_bytes_be_val f : felt_to_bytes_be f = to_be_bytes 32 (felt_val f);
  felt_hex_val f : felt_hex f = fmt_hex (felt_val f);
  felt_parse_hex_hex f : felt_parse_hex (felt_hex f) = Ok f;
}.

(** The functions of starknet-crypto that the source calls. *)
Class Crypto `{FeltOps} := {
  poseidon_hash_many : list Felt → Felt;
  pedersen_hash : Felt → Felt → Felt;
  (** [rfc6979_generate_k(message_hash, private_key, None)]. *)
  rfc6979_generate_k : Felt → Felt → Felt;
  (** [starknet_crypto::sign(private_key, message_hash, k)]: the pair (r, s)
      or the text of the error. *)
  ecdsa_sign : Felt → Felt → Felt → res string (Felt * Felt);
}.

Section felt_facts.
Context `{FeltLaws}.

Lemma felt_of_small n : 0 ≤ n < stark_prime → felt_val (felt_of n) = n.
Proof. intros. rewrite felt_of_val by lia. by rewrite Z.mod_small. Qed.

Lemma felt_of_inj n m :
  0 ≤ n < stark_prime → 0 ≤ m < stark_prime → felt_of n = felt_of m → n = m.
Proof. intros Hn Hm Heq. by rewrite <-(felt_of_small n), <-(felt_of_small m), Heq. Qed.

Lemma felt_parse_small n : 0 ≤ n < stark_prime → felt_parse_hex (fmt_hex n) = Ok (felt_of n).
Proof.
  intros Hn. rewrite <-(felt_parse_hex_hex (felt_of n)). f_equal.
  by rewrite felt_hex_val, felt_of_small.
Qed.

Lemma felt_hex_inj f g : felt_hex f = felt_hex g → f = g.
Proof.
  rewrite !felt_hex_val. intros Heq. apply felt_val_inj.
  pose proof (felt_val_range f). pose proof (felt_val_range g).
  apply fmt_hex_inj in Heq; lia.
Qed.
End felt_facts.

(** ** Integers modulo the prime *)

Section ZFelt.
Definition zfelt_ok (z : Z) : bool := (0 <=? z) && (z <? stark_prime).

Record zfelt := ZFelt { zf : Z; zf_ok : zfelt_ok zf = true }.

Lemma zfelt_mod_ok z : zfelt_ok (z mod stark_prime) = true.
Proof.
  unfold zfelt_ok. pose proof (Z.mod_pos_bound z stark_prime ltac:(done)).
  apply andb_true_iff; split; [apply Z.leb_le | apply Z.ltb_lt]; lia.
Qed.

Definition zfelt_mk (z : Z) : zfelt := ZFelt (z mod stark_prime) (zfelt_mod_ok z).

Lemma zf_range f : 0 ≤ zf f < stark_prime.
Proof.
  destruct f as [z Hz]. simpl. unfold zfelt_ok in Hz.
  apply andb_true_iff in Hz as [?%Z.leb_le ?%Z.ltb_lt]. lia.
Qed.

Lemma zf_inj f g : zf f = zf g → f = g.
Proof.
  destruct f as [z Hz], g as [z' Hz']. simpl. intros ->. f_equal. apply (proof_irrel Hz Hz').
Qed.

Lemma zfelt_mk_zf f : zfelt_mk (zf f) = f.
Proof. apply zf_inj. simpl. apply Z.mod_small, zf_range. Qed.

#[export] Instance zfelt_eq_dec : EqDecision zfelt.
Proof.
  refine (λ f g, cast_if (decide (zf f = zf g))); [by apply zf_inj | congruence].
Defined.

#[export] Instance zfelt_countable : Countable zfelt.
Proof. apply (inj_countable' zf zfelt_mk). apply zfelt_mk_zf. Defined.

(** Hexadecimal text with or without the prefix, below the prime. *)
Definition zfelt_parse (s : string) : res string zfelt :=
  match parse_hex_quantity (stark_prime - 1) s with
  | Ok z => Ok (zfelt_mk z)
  | _ => Err "failed to create Felt"
  end.

#[export] Instance zfelt_ops : FeltOps := {
  Felt := zfelt;
  felt_val := zf;
  felt_of := zfelt_mk;
  felt_add f g := zfelt_mk (zf f + zf g);
  felt_mul f g := zfelt_mk (zf f * zf g);
  felt_pow f g := zfelt_mk (zf f ^ zf g);
  felt_from_bytes_be l := zfelt_mk (from_be_bytes l);
  felt_to_bytes_be f := to_be_bytes 32 (zf f);
  felt_parse_hex := zfelt_parse;
  felt_hex f := fmt_hex (zf f);
}.

#[export] Instance zfelt_laws : FeltLaws.
Proof.
  split; simpl; try done.
  - apply zf_range.
  - apply zf_inj.
  - intros f. unfold zfelt_parse. pose proof (zf_range f).
    rewrite parse_fmt_hex by (split; lia). by rewrite zfelt_mk_zf.
Qed.

(** A hash for examples: a polynomial in the elements. *)
#[export] Instance zfelt_crypto : Crypto := {
  poseidon_hash_many l := zfelt_mk (fold_left (λ acc f, acc * 1000003 + zf f + 1) l 7);
  pedersen_hash f g := zfelt_mk (zf f * 1000003 + zf g + 5);
  rfc6979_generate_k m k := zfelt_mk (zf m + zf k + 1);
  ecdsa_sign k m n :=
    if decide (zf k = 0) then Err "invalid private key"
    else Ok (zfelt_mk (zf k + zf m), zfelt_mk (zf n + 1));
}.
End ZFelt.
