(* ===== verification/Types.v ===== *)
(** * Shared types of snip36-core ([crates/snip36-core/src/types.rs])

    Resource bounds and their two JSON forms, the submission parameters, the
    playground session and the well-known constants. *)

From S2P Require Import Prelude RustNum Json Felt.

(** ** Resource bounds *)

(** [max_amount : u64], [max_price_per_unit : u128]. *)
Record ResourceBound := {
  max_amount : Z;
  max_price_per_unit : Z;
}.

Record ResourceBounds := {
  l1_gas : ResourceBound;
  l2_gas : ResourceBound;
  l1_data_gas : ResourceBound;
}.

Definition bound_ok (b : ResourceBound) : Prop :=
  in_u u64_max (max_amount b) ∧ in_u u128_max (max_price_per_unit b).

Definition bounds_ok (b : ResourceBounds) : Prop :=
  bound_ok (l1_gas b) ∧ bound_ok (l2_gas b) ∧ bound_ok (l1_data_gas b).

Definition SEPOLIA_GAS_PRICE_CEIL : Z := 0x38d7ea4c68000.

(** [impl Default for ResourceBounds]. *)
Definition default_bounds : ResourceBounds := {|
  l1_gas := {| max_amount := 0x10000; max_price_per_unit := SEPOLIA_GAS_PRICE_CEIL |};
  l2_gas := {| max_amount := 0x7000000; max_price_per_unit := 0x1dcd65000 |};
  l1_data_gas := {| max_amount := 0x1b0; max_price_per_unit := SEPOLIA_GAS_PRICE_CEIL |};
|}.

Definition zero_fee : ResourceBounds := {|
  l1_gas := {| max_amount := 0; max_price_per_unit := 0 |};
  l2_gas := {| max_amount := 0x7000000; max_price_per_unit := 0 |};
  l1_data_gas := {| max_amount := 0x1b0; max_price_per_unit := 0 |};
|}.

(** The object both JSON forms write for one resource. *)
Definition bound_json (b : ResourceBound) : Value := JObject [
  ("max_amount", JString (fmt_hex (max_amount b)));
  ("max_price_per_unit", JString (fmt_hex (max_price_per_unit b)))].

(** [ResourceBounds::to_rpc_json]: lower-case keys. *)
Definition to_rpc_json (b : ResourceBounds) : Value := JObject [
  ("l1_gas", bound_json (l1_gas b));
  ("l2_gas", bound_json (l2_gas b));
  ("l1_data_gas", bound_json (l1_data_gas b))].

(** [ResourceBounds::to_gateway_json]: upper-case keys. *)
Definition to_gateway_json (b : ResourceBounds) : Value := JObject [
  ("L1_GAS", bound_json (l1_gas b));
  ("L2_GAS", bound_json (l2_gas b));
  ("L1_DATA_GAS", bound_json (l1_data_gas b))].

(** ** Proofs and submissions *)

Record ProofOutput := {
  po_proof_base64 : string;
  po_proof_facts : list string;
}.

Record SubmitParams `{FeltOps} := {
  sp_sender_address : Felt;
  sp_private_key : Felt;
  sp_calldata : list Felt;
  sp_proof_base64 : string;
  sp_proof_facts : list Felt;
  sp_nonce : Felt;
  sp_chain_id : Felt;
  sp_resource_bounds : ResourceBounds;
}.

(** ** Playground session *)

Record Session := {
  ses_account_address : option string;
  ses_account_deployed : bool;
  ses_contract_address : option string;
  ses_class_hash : option string;
  ses_last_invoke_tx : option string;
  ses_invoke_block : option Z;
  ses_prove_block : option Z;
  ses_proof_file : option string;
  ses_deploy_block : option Z;
  ses_last_reference_block : option Z;
}.

(** [#[derive(Default)]]. *)
Definition default_session : Session := {|
  ses_account_address := None; ses_account_deployed := false; ses_contract_address := None;
  ses_class_hash := None; ses_last_invoke_tx := None; ses_invoke_block := None;
  ses_prove_block := None; ses_proof_file := None; ses_deploy_block := None;
  ses_last_reference_block := None |}.

(** ** Well-known constants *)

Definition STRK_TOKEN : string :=
  "0x04718f5a0fc34cc1af16a1cdee98ffb20c31f5cd61d6ab07201858f4287c938d".
Definition OZ_ACCOUNT_CLASS_HASH : string :=
  "0x05b4b537eaa2399e3aa99c4e2e0208ebd6c71bc1467938cd52c798c601e43564".
Definition BALANCE_OF_SELECTOR : string :=
  "0x35a73cd311a05d46deda634c5ee045db92f811b4e74bca4437fcb5302b7af33".

(** ** Reading the JSON forms back *)

Definition read_bound (v : Value) : option ResourceBound :=
  a ← get_str v "max_amount"; p ← get_str v "max_price_per_unit";
  a' ← ok (parse_hex_quantity u64_max a); p' ← ok (parse_hex_quantity u128_max p);
  Some {| max_amount := a'; max_price_per_unit := p' |}.

Definition read_bounds (k1 k2 k3 : string) (v : Value) : option ResourceBounds :=
  b1 ← get v k1 ≫= read_bound; b2 ← get v k2 ≫= read_bound; b3 ← get v k3 ≫= read_bound;
  Some {| l1_gas := b1; l2_gas := b2; l1_data_gas := b3 |}.

Lemma read_bound_json b : bound_ok b → read_bound (bound_json b) = Some b.
Proof.
  intros [Ha Hp]. unfold read_bound, bound_json, get_str. simpl.
  rewrite !parse_fmt_hex by done. by destruct b.
Qed.

Lemma read_gateway_json b :
  bounds_ok b → read_bounds "L1_GAS" "L2_GAS" "L1_DATA_GAS" (to_gateway_json b) = Some b.
Proof.
  intros (H1 & H2 & H3). unfold read_bounds, to_gateway_json. simpl.
  rewrite !read_bound_json by done. by destruct b.
Qed.

Lemma read_rpc_json b :
  bounds_ok b → read_bounds "l1_gas" "l2_gas" "l1_data_gas" (to_rpc_json b) = Some b.
Proof.
  intros (H1 & H2 & H3). unfold read_bounds, to_rpc_json. simpl.
  rewrite !read_bound_json by done. by destruct b.
Qed.

Lemma default_bounds_ok : bounds_ok default_bounds.
Proof. repeat split; vm_compute; discriminate. Qed.

Lemma zero_fee_ok : bounds_ok zero_fee.
Proof. repeat split; vm_compute; discriminate. Qed.
