(* ===== verification/Signing.v ===== *)
(** * Transaction hash and signature ([crates/snip36-core/src/signing.rs])

    The invoke-v3 transaction hash, its SNIP-36 extension by the hash of the
    proof facts, the ECDSA signature and the submission payload.  The hash
    functions and the curve are the [Crypto] interface. *)

From S2P Require Import Prelude RustNum RustStr Json Felt Types.

Section signing.
Context `{FeltOps} `{!Crypto}.

(** [Felt::from_bytes_be_slice(b"invoke")]. *)
Definition invoke_prefix : Felt := felt_from_bytes_be (as_bytes "invoke").

Definition chain_id_felt (chain_id : string) : Felt := felt_from_bytes_be (as_bytes chain_id).

(** At most seven bytes, right-aligned in an 8-byte buffer. *)
Definition resource_name_felt (name : string) : Z :=
  let bytes := as_bytes name in
  let len := Nat.min (length bytes) 7 in
  from_be_bytes (replicate (8 - len) 0 ++ take len bytes).

(** The shifts are on [u128]; [name] has 56 bits, so nothing is lost. *)
Definition concat_resource (max_amount max_price : Z) (resource_name : string) : Felt :=
  let name := resource_name_felt resource_name in
  let high := Z.lor (Z.shiftl name 64 mod 2 ^ 128) max_amount in
  let low := max_price in
  let high_felt := felt_of high in
  let shift := felt_pow (felt_of (Z.shiftl 1 64)) (felt_of 2) in
  felt_add (felt_mul high_felt shift) (felt_of low).

(** The list hashed by [compute_tip_resource_bounds_hash]. *)
Definition tip_resource_bounds_elements (tip : Felt) (bounds : ResourceBounds) : list Felt :=
  [tip;
   concat_resource (max_amount (l1_gas bounds)) (max_price_per_unit (l1_gas bounds)) "L1_GAS";
   concat_resource (max_amount (l2_gas bounds)) (max_price_per_unit (l2_gas bounds)) "L2_GAS";
   concat_resource (max_amount (l1_data_gas bounds)) (max_price_per_unit (l1_data_gas bounds))
     "L1_DATA"].

Definition compute_tip_resource_bounds_hash (tip : Felt) (bounds : ResourceBounds) : Felt :=
  poseidon_hash_many (tip_resource_bounds_elements tip bounds).

(** [((nonce_da_mode as u64) << 32) | fee_da_mode as u64]. *)
Definition da_mode_word (nonce_da_mode fee_da_mode : Z) : Z :=
  Z.lor (Z.shiftl nonce_da_mode 32 mod 2 ^ 64) fee_da_mode.

(** The vector [elements] of [compute_invoke_v3_tx_hash], which gets an
    eleventh entry exactly when there are proof facts. *)
Definition invoke_v3_elements (sender_address : Felt) (calldata : list Felt)
    (chain_id nonce tip : Felt) (resource_bounds : ResourceBounds)
    (paymaster_data account_deployment_data : list Felt)
    (nonce_da_mode fee_da_mode : Z) (proof_facts : list Felt) : list Felt :=
  let tip_rb_hash := compute_tip_resource_bounds_hash tip resource_bounds in
  let paymaster_data_hash := poseidon_hash_many paymaster_data in
  let account_deployment_data_hash := poseidon_hash_many account_deployment_data in
  let calldata_hash := poseidon_hash_many calldata in
  let da_mode := felt_of (da_mode_word nonce_da_mode fee_da_mode) in
  let version := felt_of 3 in
  let elements :=
    [invoke_prefix; version; sender_address; tip_rb_hash; paymaster_data_hash; chain_id;
     nonce; da_mode; account_deployment_data_hash; calldata_hash] in
  match proof_facts with
  | [] => elements
  | _ => elements ++ [poseidon_hash_many proof_facts]
  end.

Definition compute_invoke_v3_tx_hash (sender_address : Felt) (calldata : list Felt)
    (chain_id nonce tip : Felt) (resource_bounds : ResourceBounds)
    (paymaster_data account_deployment_data : list Felt)
    (nonce_da_mode fee_da_mode : Z) (proof_facts : list Felt) : Felt :=
  poseidon_hash_many
    (invoke_v3_elements sender_address calldata chain_id nonce tip resource_bounds
       paymaster_data account_deployment_data nonce_da_mode fee_da_mode proof_facts).

Record Signature := { sig_r : Felt; sig_s : Felt }.

Inductive SignError := Ecdsa (msg : string).

(** [Display for SignError]. *)
Definition sign_error_text (e : SignError) : string :=
  match e with Ecdsa m => "ECDSA signing failed: " +:+ m end.

Definition sign (private_key message_hash : Felt) : res SignError Signature :=
  let k := rfc6979_generate_k message_hash private_key in
  sig ← map_err Ecdsa (ecdsa_sign private_key message_hash k);
  Ok {| sig_r := sig.1; sig_s := sig.2 |}.

(** The [json!] object of [sign_and_build_payload].  The members are listed as
    the source writes them; serde_json keeps them sorted by key ([document]),
    and whoever reads them goes by key. *)
Definition payload_json (params : SubmitParams) (sig : Signature) : Value :=
  let calldata_hex := felt_hex <$> sp_calldata params in
  let proof_facts_hex := felt_hex <$> sp_proof_facts params in
  JObject [
    ("type", JString "INVOKE_FUNCTION");
    ("version", JString "0x3");
    ("sender_address", JString (felt_hex (sp_sender_address params)));
    ("calldata", json_strings calldata_hex);
    ("nonce", JString (felt_hex (sp_nonce params)));
    ("resource_bounds", to_gateway_json (sp_resource_bounds params));
    ("tip", JString "0x0");
    ("paymaster_data", JArray []);
    ("account_deployment_data", JArray []);
    ("nonce_data_availability_mode", JString "L1");
    ("fee_data_availability_mode", JString "L1");
    ("signature", json_strings [felt_hex (sig_r sig); felt_hex (sig_s sig)]);
    ("proof", JString (sp_proof_base64 params));
    ("proof_facts", json_strings proof_facts_hex)].

Definition submit_tx_hash (params : SubmitParams) : Felt :=
  compute_invoke_v3_tx_hash (sp_sender_address params) (sp_calldata params)
    (sp_chain_id params) (sp_nonce params) (felt_of 0) (sp_resource_bounds params)
    [] [] 0 0 (sp_proof_facts params).

Definition sign_and_build_payload (params : SubmitParams) : res SignError (Felt * Value) :=
  let tx_hash := submit_tx_hash params in
  sig ← sign (sp_private_key params) tx_hash;
  Ok (tx_hash, payload_json params sig).

Lemma sign_and_build_payload_Ok params hash payload :
  sign_and_build_payload params = Ok (hash, payload) ↔
  hash = submit_tx_hash params ∧
  ∃ sig, sign (sp_private_key params) hash = Ok sig ∧ payload = payload_json params sig.
Proof.
  unfold sign_and_build_payload. cbv zeta. rewrite res_bind_Ok. split.
  - intros (sig & Hs & [= <- <-]). eauto.
  - intros (-> & sig & Hs & ->). eauto.
Qed.

(** [Felt::from_hex] with the source's error text. *)
Definition felt_from_hex (hex_str : string) : res string Felt :=
  map_err (λ e, "invalid felt hex '" +:+ hex_str +:+ "': " +:+ e) (felt_parse_hex hex_str).
End signing.

Arguments SignError : clear implicits.

(** ** Packing *)

Lemma lor_shift_add x a n :
  0 ≤ n → 0 ≤ a < 2 ^ n → Z.lor (Z.shiftl x n) a = x * 2 ^ n + a.
Proof.
  intros Hn Ha. rewrite <-Z.add_lor_land, <-Z.shiftl_mul_pow2 by done.
  assert (Z.land (Z.shiftl x n) a = 0) as ->; [|lia].
  apply Z.bits_inj'. intros i Hi. rewrite Z.land_spec, Z.bits_0.
  destruct (decide (i < n)).
  - by rewrite Z.shiftl_spec_low.
  - destruct (decide (a = 0)) as [->|]; [by rewrite Z.bits_0, andb_false_r|].
    rewrite (Z.bits_above_log2 a), andb_false_r; [done | lia |].
    apply Z.log2_lt_pow2; [lia|]. eapply Z.lt_le_trans; [apply Ha|].
    apply Z.pow_le_mono_r; lia.
Qed.

Lemma resource_name_felt_range name : 0 ≤ resource_name_felt name < 2 ^ 56.
Proof.
  unfold resource_name_felt. rewrite from_be_bytes_zeros.
  pose proof (from_be_bytes_range (take (Nat.min (length (as_bytes name)) 7) (as_bytes name))
    ltac:(apply Forall_take, as_bytes_range)) as Hr.
  rewrite length_take in Hr. split; [lia|].
  eapply Z.lt_le_trans; [apply Hr|]. change (2 ^ 56) with (256 ^ 7).
  apply Z.pow_le_mono_r; lia.
Qed.

Section packing.
Context `{FeltLaws}.

(** The 248-bit word that [concat_resource] builds is below the prime, so
    the field operations compute it exactly. *)
Lemma concat_resource_val a p name :
  in_u u64_max a → in_u u128_max p →
  felt_val (concat_resource a p name) = resource_name_felt name * 2 ^ 192 + a * 2 ^ 128 + p.
Proof.
  unfold in_u, u64_max, u128_max. intros Ha Hp.
  pose proof (resource_name_felt_range name) as Hn.
  unfold concat_resource. rewrite Z.shiftl_mul_pow2 by lia.
  rewrite (Z.mod_small (_ * 2 ^ 64)) by lia.
  rewrite <-Z.shiftl_mul_pow2, lor_shift_add by lia.
  assert (felt_val (felt_pow (felt_of (Z.shiftl 1 64)) (felt_of 2)) = 2 ^ 128) as Hs.
  { rewrite felt_pow_val, !felt_of_small by (vm_compute; intuition discriminate). done. }
  rewrite felt_add_val, felt_mul_val, Hs.
  assert (stark_prime = 2 ^ 251 + 17 * 2 ^ 192 + 1) as HP by done.
  rewrite !felt_of_small by lia.
  rewrite (Z.mod_small ((_ + a) * 2 ^ 128)) by lia.
  rewrite Z.mod_small by lia. lia.
Qed.

Lemma concat_resource_inj a p a' p' name :
  in_u u64_max a → in_u u128_max p → in_u u64_max a' → in_u u128_max p' →
  concat_resource a p name = concat_resource a' p' name → a = a' ∧ p = p'.
Proof.
  intros Ha Hp Ha' Hp' Heq%(f_equal felt_val).
  rewrite !concat_resource_val in Heq by done.
  unfold in_u, u64_max, u128_max in *. lia.
Qed.

Lemma da_mode_word_val n f :
  in_u u32_max n → in_u u32_max f → da_mode_word n f = n * 2 ^ 32 + f.
Proof.
  unfold in_u, u32_max. intros Hn Hf. unfold da_mode_word.
  rewrite Z.mod_small; [apply lor_shift_add; lia|]. rewrite Z.shiftl_mul_pow2; lia.
Qed.

Lemma da_mode_word_inj n f n' f' :
  in_u u32_max n → in_u u32_max f → in_u u32_max n' → in_u u32_max f' →
  felt_of (da_mode_word n f) = felt_of (da_mode_word n' f') → n = n' ∧ f = f'.
Proof.
  intros Hn Hf Hn' Hf'. rewrite !da_mode_word_val by done.
  unfold in_u, u32_max in *. assert (2 ^ 64 < stark_prime) by done.
  intros Heq%felt_of_inj; lia.
Qed.
End packing.

(** ** The transaction hash commits to every field *)

Record invoke_v3 `{FeltOps} := {
  iv_sender_address : Felt;
  iv_calldata : list Felt;
  iv_chain_id : Felt;
  iv_nonce : Felt;
  iv_tip : Felt;
  iv_resource_bounds : ResourceBounds;
  iv_paymaster_data : list Felt;
  iv_account_deployment_data : list Felt;
  iv_nonce_da_mode : Z;
  iv_fee_da_mode : Z;
  iv_proof_facts : list Felt;
}.

Section binding.
Context `{FeltLaws} `{!Crypto}.

Definition iv_ok (t : invoke_v3) : Prop :=
  bounds_ok (iv_resource_bounds t) ∧ in_u u32_max (iv_nonce_da_mode t) ∧
  in_u u32_max (iv_fee_da_mode t).

Definition iv_elements (t : invoke_v3) : list Felt :=
  invoke_v3_elements (iv_sender_address t) (iv_calldata t) (iv_chain_id t) (iv_nonce t)
    (iv_tip t) (iv_resource_bounds t) (iv_paymaster_data t) (iv_account_deployment_data t)
    (iv_nonce_da_mode t) (iv_fee_da_mode t) (iv_proof_facts t).

Definition iv_hash (t : invoke_v3) : Felt :=
  compute_invoke_v3_tx_hash (iv_sender_address t) (iv_calldata t) (iv_chain_id t)
    (iv_nonce t) (iv_tip t) (iv_resource_bounds t) (iv_paymaster_data t)
    (iv_account_deployment_data t) (iv_nonce_da_mode t) (iv_fee_da_mode t) (iv_proof_facts t).

Definition collision (xs ys : list Felt) : Prop :=
  xs ≠ ys ∧ poseidon_hash_many xs = poseidon_hash_many ys.

(** The preimages that two transactions hash, in corresponding pairs. *)
Definition hashed_pairs (t t' : invoke_v3) : list (list Felt * list Felt) :=
  [(iv_elements t, iv_elements t');
   (tip_resource_bounds_elements (iv_tip t) (iv_resource_bounds t),
    tip_resource_bounds_elements (iv_tip t') (iv_resource_bounds t'));
   (iv_paymaster_data t, iv_paymaster_data t');
   (iv_account_deployment_data t, iv_account_deployment_data t');
   (iv_calldata t, iv_calldata t');
   (iv_proof_facts t, iv_proof_facts t')].

Lemma no_collision_inj xs ys :
  ¬ collision xs ys → poseidon_hash_many xs = poseidon_hash_many ys → xs = ys.
Proof. unfold collision. intros Hn Heq. destruct (decide (xs = ys)); naive_solver. Qed.

#[local] Instance collision_dec xs ys : Decision (collision xs ys).
Proof. unfold collision. apply _. Defined.

Lemma tip_elements_inj tip b tip' b' :
  bounds_ok b → bounds_ok b' →
  tip_resource_bounds_elements tip b = tip_resource_bounds_elements tip' b' →
  tip = tip' ∧ b = b'.
Proof.
  intros ((?&?)&(?&?)&(?&?)) ((?&?)&(?&?)&(?&?)) Heq.
  injection Heq as -> Hr1 Hr2 Hr3. split; [done|].
  apply concat_resource_inj in Hr1 as [??]; [|done..].
  apply concat_resource_inj in Hr2 as [??]; [|done..].
  apply concat_resource_inj in Hr3 as [??]; [|done..].
  destruct b as [[] [] []], b' as [[] [] []]. simpl in *. by subst.
Qed.

Lemma iv_hash_inj t t' :
  iv_ok t → iv_ok t' → Forall (λ p, ¬ collision p.1 p.2) (hashed_pairs t t') →
  iv_hash t = iv_hash t' → t = t'.
Proof.
  intros (Hb & Hn & Hf) (Hb' & Hn' & Hf') Hnc Heq.
  unfold hashed_pairs in Hnc. rewrite !Forall_cons in Hnc. simpl in Hnc.
  destruct Hnc as (N1 & N2 & N3 & N4 & N5 & N6 & _).
  apply (no_collision_inj _ _ N1) in Heq.
  assert (iv_proof_facts t = iv_proof_facts t' ∧
    take 10 (iv_elements t) = take 10 (iv_elements t')) as [Hpf Htake].
  { split; [|by rewrite Heq]. unfold iv_elements, invoke_v3_elements in Heq.
    destruct (iv_proof_facts t) as [|x xs], (iv_proof_facts t') as [|y ys]; try done.
    injection Heq. intros. by apply (no_collision_inj _ _ N6). }
  clear N1 N6 Heq. unfold iv_elements, invoke_v3_elements in Htake.
  rewrite Hpf in Htake. destruct (iv_proof_facts t') in Htake; simpl in Htake;
    injection Htake as E1 E2 E3 E4 E5 E6 E7 E8;
    apply (no_collision_inj _ _ N2), tip_elements_inj in E2 as [??]; try done;
    apply (no_collision_inj _ _ N3) in E3; apply (no_collision_inj _ _ N4) in E7;
    apply (no_collision_inj _ _ N5) in E8; apply da_mode_word_inj in E6 as [??]; try done;
    destruct t, t'; simpl in *; by subst.
Qed.

(** C1: The invoke-v3 transaction hash commits to every field: two transactions
    with in-range resource bounds and data-availability modes that have the
    same hash are equal (sender, calldata, chain id, nonce, tip, all three
    resource bounds, paymaster and deployment data, both modes and the proof
    facts), or one of the six Poseidon calls made on corresponding preimages
    has a collision. The optional eleventh element makes the hash with proof
    facts distinct from the standard one. *)
Theorem tx_hash_commits t t' :
  iv_ok t → iv_ok t' → iv_hash t = iv_hash t' →
  t = t' ∨ Exists (λ p, collision p.1 p.2) (hashed_pairs t t').
Proof.
  intros Ht Ht' Heq.
  destruct (decide (Exists (λ p, collision p.1 p.2) (hashed_pairs t t'))) as [|Hn]; [by right|].
  left. apply iv_hash_inj; try done. by apply Forall_Exists_neg.
Qed.
End binding.

(** ** The payload carries what was hashed and signed *)

Section payload.
Context `{FeltOps} `{!Crypto}.

(** A reader of the payload: parse a felt, or a list of felts, from a field. *)
Definition read_felt (v : Value) (k : string) : option Felt :=
  s ← get_str v k; ok (felt_parse_hex s).

Definition read_felts (v : Value) (k : string) : option (list Felt) :=
  l ← get v k ≫= as_array; ok (collect_res felt_parse_hex (array_strings l)).

(** The hash that a receiver of the payload recomputes from its fields, for
    the chain it runs. *)
Definition receiver_tx_hash (chain : Felt) (v : Value) : option Felt :=
  sender ← read_felt v "sender_address";
  cd ← read_felts v "calldata";
  n ← read_felt v "nonce";
  t ← read_felt v "tip";
  b ← get v "resource_bounds" ≫= read_bounds "L1_GAS" "L2_GAS" "L1_DATA_GAS";
  pay ← read_felts v "paymaster_data";
  acc ← read_felts v "account_deployment_data";
  pf ← read_felts v "proof_facts";
  Some (compute_invoke_v3_tx_hash sender cd chain n t b pay acc 0 0 pf).

Context `{!FeltLaws}.

Lemma collect_parse_hex (l : list Felt) : collect_res felt_parse_hex (felt_hex <$> l) = Ok l.
Proof.
  apply collect_res_Ok. induction l; constructor; auto using felt_parse_hex_hex.
Qed.

Lemma read_felts_json v k l :
  get v k = Some (json_strings (felt_hex <$> l)) → read_felts v k = Some l.
Proof.
  intros Hg. unfold read_felts. rewrite Hg. simpl.
  by rewrite array_strings_json, collect_parse_hex.
Qed.

Lemma read_felt_hex v k f : get_str v k = Some (felt_hex f) → read_felt v k = Some f.
Proof. intros Hg. unfold read_felt. rewrite Hg. simpl. by rewrite felt_parse_hex_hex. Qed.

Lemma parse_hex_0x0 : felt_parse_hex "0x0" = Ok (felt_of 0).
Proof.
  rewrite <-(felt_parse_hex_hex (felt_of 0)). f_equal.
  rewrite felt_hex_val, felt_of_small; done.
Qed.

Lemma receiver_hash_payload params sig : bounds_ok (sp_resource_bounds params) →
  receiver_tx_hash (sp_chain_id params) (payload_json params sig) = Some (submit_tx_hash params).
Proof.
  intros Hb. unfold receiver_tx_hash, read_felt, payload_json, get_str. simpl.
  rewrite !felt_parse_hex_hex. simpl.
  rewrite (read_felts_json _ "calldata" (sp_calldata params)) by done. simpl.
  rewrite parse_hex_0x0. simpl. rewrite read_gateway_json by done. simpl.
  rewrite (read_felts_json _ "proof_facts" (sp_proof_facts params)); done.
Qed.

(** C2: What sign_and_build_payload returns is consistent: the returned hash is
    the SNIP-36 hash of the parameters, a receiver who recomputes the hash
    from the fields of the JSON payload obtains the same hash, and the
    signature in the payload is the ECDSA signature of that hash under the
    private key, with the proof as given. *)
Theorem payload_matches_hash params h v :
  bounds_ok (sp_resource_bounds params) →
  sign_and_build_payload params = Ok (h, v) →
  h = submit_tx_hash params ∧
  receiver_tx_hash (sp_chain_id params) v = Some h ∧
  ∃ r s, ecdsa_sign (sp_private_key params) h
           (rfc6979_generate_k h (sp_private_key params)) = Ok (r, s) ∧
         read_felts v "signature" = Some [r; s] ∧
         get_str v "proof" = Some (sp_proof_base64 params).
Proof.
  intros Hb (sig & (rs & Hs & [= <-])%res_bind_Ok & [= <- <-])%res_bind_Ok.
  apply map_err_Ok in Hs. split; [done|]. split; [by apply receiver_hash_payload|].
  exists rs.1, rs.2. split; [by destruct rs|]. split; [|done].
  by apply read_felts_json.
Qed.
End payload.
