(* ===== verification/ProofCodec.v ===== *)
(** * Proof encoding ([crates/snip36-core/src/proof.rs])

    Base64 text of the proof bytes and the legacy cairo-serde form, a list of
    hexadecimal felts packed as big-endian 32-bit words.  The base64 crate is
    the interface [Base64]; its round trip and its alphabet are [Base64Laws]. *)

From S2P Require Import Prelude RustNum RustStr Json Felt.

Class Base64 := {
  base64_encode : list Z → string;
  base64_decode : string → res string (list Z);
}.

(** The standard alphabet is printable ASCII without spaces. *)
Class Base64Laws `{Base64} := {
  base64_decode_encode l : Forall is_byte l → base64_decode (base64_encode l) = Ok l;
  base64_alphabet l : Forall graphic (as_bytes (base64_encode l));
}.

Inductive ProofError :=
  | Base64Decode (msg : string)
  | InvalidFelt (msg : string)
  | InvalidJson (msg : string).

(** [Display for ProofError]. *)
Definition proof_error_text (e : ProofError) : string :=
  match e with
  | Base64Decode m => "base64 decode error: " +:+ m
  | InvalidFelt m => "invalid felt value: " +:+ m
  | InvalidJson m => "invalid JSON: " +:+ m
  end.

Section codec.
Context `{Base64} `{FeltOps} `{SerdeJson}.

Definition decode_proof_base64 (b64 : string) : res ProofError (list Z) :=
  map_err Base64Decode (base64_decode (trim b64)).

Definition encode_proof_base64 (bytes : list Z) : string := base64_encode bytes.

(** One iteration of the packing loop. *)
Definition pack_felt (felt_hex : string) : res ProofError (list Z) :=
  felt ← map_err (λ e, InvalidFelt (felt_hex +:+ ": " +:+ e)) (felt_parse_hex felt_hex);
  let bytes := felt_to_bytes_be felt in
  let u32_val := from_be_bytes (take 4 (drop 28 bytes)) in
  Ok (to_be_bytes 4 u32_val).

Fixpoint pack_felts (packed : list Z) (felts : list string) : res ProofError (list Z) :=
  match felts with
  | [] => Ok packed
  | f :: felts => w ← pack_felt f; pack_felts (packed ++ w) felts
  end.

Definition cairo_serde_to_base64 (felts : list string) : res ProofError string :=
  packed ← pack_felts [] felts; Ok (encode_proof_base64 packed).

(** [serde_json::from_str::<Vec<String>>]: an array of strings. *)
Definition parse_proof_facts_json (json_str : string) : res ProofError (list string) :=
  v ← map_err InvalidJson (json_from_str json_str);
  match v with
  | JArray l =>
      collect_res (λ x, ok_or (as_str x) (InvalidJson "invalid type, expected a string")) l
  | _ => Err (InvalidJson "invalid type, expected a sequence")
  end.
End codec.

Section codec_facts.
Context `{Base64Laws} `{FeltLaws}.

Lemma decode_encode l :
  Forall is_byte l → decode_proof_base64 (encode_proof_base64 l) = Ok l.
Proof.
  intros Hl. unfold decode_proof_base64, encode_proof_base64.
  rewrite trim_graphic by apply base64_alphabet. by rewrite base64_decode_encode.
Qed.

Lemma pack_felt_val s f :
  felt_parse_hex s = Ok f → pack_felt s = Ok (to_be_bytes 4 (felt_val f mod 2 ^ 32)).
Proof.
  intros Hf. unfold pack_felt. rewrite Hf. cbn [map_err mbind res_bind]. do 2 f_equal.
  pose proof (felt_val_range f) as Hr.
  rewrite take_ge by (by rewrite length_drop, felt_to_bytes_be_val, length_to_be_bytes).
  rewrite felt_to_bytes_be_val, from_be_bytes_drop by apply to_be_bytes_range.
  rewrite length_to_be_bytes, from_to_be_bytes.
  rewrite (Z.mod_small (felt_val f)); [done|].
  split; [lia|]. eapply Z.lt_trans; [apply Hr|]. done.
Qed.

Lemma pack_felts_val acc ss fs :
  Forall2 (λ s f, felt_parse_hex s = Ok f) ss fs →
  pack_felts acc ss = Ok (acc ++ mjoin ((λ f, to_be_bytes 4 (felt_val f mod 2 ^ 32)) <$> fs))%list.
Proof.
  intros Hss. revert acc. induction Hss as [|s f ss fs Hs _ IH]; intros acc; simpl.
  { by rewrite app_nil_r. }
  rewrite (pack_felt_val s f Hs). simpl. by rewrite IH, <-app_assoc.
Qed.

(** The legacy conversion of a list of felts to base64 decodes to the low
    32 bits of each felt, big-endian and in order. *)
Theorem cairo_serde_roundtrip ss fs :
  Forall2 (λ s f, felt_parse_hex s = Ok f) ss fs →
  ∃ b64, cairo_serde_to_base64 ss = Ok b64 ∧
    decode_proof_base64 b64 =
      Ok (mjoin ((λ f, to_be_bytes 4 (felt_val f mod 2 ^ 32)) <$> fs)).
Proof.
  intros Hss. unfold cairo_serde_to_base64. rewrite (pack_felts_val [] ss fs Hss). cbn [mbind res_bind app].
  eexists. split; [done|]. apply decode_encode.
  apply Forall_join, Forall_fmap, Forall_true. intros f; apply (to_be_bytes_range 4).
Qed.
End codec_facts.
