(* ===== verification/Config.v ===== *)
(** * Configuration ([crates/snip36-core/src/config.rs], [cli_util.rs])

    [Config::from_env] and its fallbacks, the derived paths, the chain id as a
    field element, and the helpers that read hexadecimal values out of the
    output of command-line tools.  The process environment, the [.env] reader
    (crate dotenvy) and the regular expressions (crate regex-lite) are
    interfaces. *)

From S2P Require Import Prelude RustNum RustStr Felt Signing.

(** The process environment and the file system calls of this file.
    [env_var] is [std::env::var(k).ok()]. *)
Class Env (W : Type) := {
  env_var : W → string → option string;
  path_exists : W → string → bool;
  current_dir : W → option string;
  (** [dotenvy::from_path] and [dotenvy::dotenv]; their [Result] is dropped
      by the caller. *)
  dotenv_from_path : string → W → W;
  dotenv : W → W;
}.

Inductive ConfigError :=
  | Missing (name : string)
  | InvalidChainId (msg : string).

(** [Display for ConfigError]. *)
Definition config_error_text (e : ConfigError) : string :=
  match e with
  | Missing name => "missing required environment variable: " +:+ name
  | InvalidChainId m => "invalid chain_id: " +:+ m
  end.

Record Config := {
  rpc_url : string;
  account_address : string;
  private_key : string;
  chain_id : string;
  gateway_url : option string;
  project_dir : string;
  output_dir : string;
  deps_dir : string;
}.

Section config.
Context `{Env W}.

(** [var(k1).or_else(|_| var(k2))]. *)
Definition env_var_or (w : W) (k1 k2 : string) : option string :=
  match env_var w k1 with Some v => Some v | None => env_var w k2 end.

Definition load_dotenv (env_file : option string) : W → W := λ w,
  match env_file with
  | Some path => if path_exists w path then dotenv_from_path path w else w
  | None => dotenv w
  end.

Definition config_of_env (w : W) : res ConfigError Config :=
  rpc_url ← ok_or (env_var w "STARKNET_RPC_URL") (Missing "STARKNET_RPC_URL");
  account_address ←
    ok_or (env_var_or w "STARKNET_ACCOUNT_ADDRESS" "MASTER_ACCOUNT_ADDRESS")
      (Missing "STARKNET_ACCOUNT_ADDRESS");
  private_key ←
    ok_or (env_var_or w "STARKNET_PRIVATE_KEY" "MASTER_PRIVATE_KEY")
      (Missing "STARKNET_PRIVATE_KEY");
  let chain_id := default "SN_SEPOLIA" (env_var w "STARKNET_CHAIN_ID") in
  let gateway_url :=
    match env_var w "STARKNET_GATEWAY_URL" with
    | Some s => if decide (s = "") then None else Some s
    | None => None
    end in
  let project_dir :=
    match env_var w "SNIP36_PROJECT_DIR" with
    | Some d => d
    | None => default "." (current_dir w)
    end in
  Ok {| rpc_url := rpc_url; account_address := account_address;
        private_key := private_key; chain_id := chain_id; gateway_url := gateway_url;
        project_dir := project_dir; output_dir := path_join project_dir "output";
        deps_dir := path_join project_dir "deps" |}.

(** [Config::from_env]: the [.env] file is read before any variable. *)
Definition from_env (env_file : option string) : prog W ConfigError Config :=
  modify (load_dotenv env_file);;
  c ← reads config_of_env;
  lift c.

Definition sncast_account (w : W) : string :=
  default "playground-master" (env_var w "SNCAST_ACCOUNT").
End config.

Section chain.
Context `{FeltOps}.

(** [Config::chain_id_felt]: right-aligned in a 32-byte buffer. *)
Definition config_chain_id_felt (c : Config) : res ConfigError Felt :=
  let bytes := as_bytes (chain_id c) in
  if Nat.ltb 31 (length bytes) then
    Err (InvalidChainId ("chain_id '" +:+ chain_id c +:+ "' is "
      +:+ pretty (length bytes) +:+ " bytes, max is 31"))
  else
    let start := (32 - length bytes)%nat in
    Ok (felt_from_bytes_be (replicate start 0 ++ bytes)).
End chain.

Definition prover_bin (c : Config) : string := path_join (deps_dir c) "bin/stwo-run-and-prove".
Definition runner_bin (c : Config) : string :=
  path_join (deps_dir c) "sequencer/target/release/starknet_transaction_prover".
Definition bootloader_program (c : Config) : string :=
  path_join (deps_dir c) "bin/bootloader_program.json".
Definition prover_params (c : Config) : string :=
  path_join (project_dir c) "sample-input/prover_params.json".
Definition contracts_dir (c : Config) : string := path_join (project_dir c) "tests/contracts".

(** ** Command output ([cli_util.rs]) *)

(** Crate regex-lite: [Regex::new(p).ok()], [is_match] and
    [find(..).map(as_str)]. *)
Class RegexLite := {
  Regex : Type;
  regex_new : string → option Regex;
  is_match : Regex → string → bool;
  find : Regex → string → option string;
}.

(** [key.replace('_', "[_ ]")]. *)
Fixpoint underscore_pattern (key : string) : string :=
  match key with
  | EmptyString => EmptyString
  | String c key =>
      if Ascii.eqb c "_"%char then "[_ ]" +:+ underscore_pattern key
      else String c (underscore_pattern key)
  end.

Section cli_util.
Context `{RegexLite}.

Fixpoint first_hex_line (re : Regex) (ls : list string) : option string :=
  match ls with
  | [] => None
  | line :: ls =>
      if is_match re line then
        match regex_new "0x[0-9a-fA-F]+" with
        | None => None
        | Some hex => match find hex line with
                      | Some m => Some m
                      | None => first_hex_line re ls
                      end
        end
      else first_hex_line re ls
  end.

Definition parse_hex_from_output (key text : string) : option string :=
  re ← regex_new ("(?i)" +:+ underscore_pattern key);
  first_hex_line re (lines text).

Definition parse_long_hex (text : string) : option string :=
  re ← regex_new "0x[0-9a-fA-F]{50,}"; find re text.
End cli_util.

(** [std::process::Output]. *)
Record Output := {
  out_success : bool;
  out_stdout : list Z;
  out_stderr : list Z;
}.

Definition format_cmd_output (output : Output) : string :=
  let stdout := from_utf8_lossy (out_stdout output) in
  let stderr := from_utf8_lossy (out_stderr output) in
  if negb (String.eqb stderr "")
  then "stdout: " +:+ stdout +:+ String "010" ("stderr: " +:+ stderr)
  else stdout.

(** ** Facts *)

Section chain_facts.
Context `{FeltLaws}.

Lemma padded_length (l : list Z) n :
  (length l ≤ n)%nat → length (replicate (n - length l) 0 ++ l)%list = n.
Proof. intros. rewrite length_app, length_replicate. lia. Qed.

Lemma short_string_val s :
  (String.length s ≤ 31)%nat →
  felt_val (felt_from_bytes_be (as_bytes s)) = from_be_bytes (as_bytes s).
Proof.
  intros Hs. pose proof (from_be_bytes_range (as_bytes s) (as_bytes_range s)) as Hr.
  rewrite felt_from_bytes_be_val, Z.mod_small; auto using as_bytes_range.
  - split; [lia|]. eapply Z.lt_le_trans; [apply Hr|].
    transitivity (256 ^ 31); [|done]. apply Z.pow_le_mono_r; [lia|].
    rewrite length_as_bytes. lia.
  - rewrite length_as_bytes. lia.
Qed.

Theorem chain_id_felt_agree c :
  match config_chain_id_felt c with
  | Ok f =>
      (String.length (chain_id c) ≤ 31)%nat ∧ f = chain_id_felt (chain_id c) ∧
      drop (32 - String.length (chain_id c)) (felt_to_bytes_be f) = as_bytes (chain_id c)
  | Err e =>
      (31 < String.length (chain_id c))%nat ∧ ∃ msg, e = InvalidChainId msg
  | _ => False
  end.
Proof.
  unfold config_chain_id_felt, chain_id_felt. rewrite !length_as_bytes.
  set (s := chain_id c). destruct (Nat.ltb_spec 31 (String.length s)); [eauto|].
  assert (felt_from_bytes_be (replicate (32 - String.length s) 0 ++ as_bytes s)%list
    = felt_from_bytes_be (as_bytes s)) as ->.
  { apply felt_val_inj. rewrite !felt_from_bytes_be_val; auto using as_bytes_range.
    - by rewrite from_be_bytes_zeros.
    - rewrite length_as_bytes. lia.
    - apply Forall_app; split; [|apply as_bytes_range].
      apply Forall_replicate. done.
    - rewrite length_app, length_replicate, length_as_bytes. lia. }
  split; [lia|]. split; [done|].
  rewrite felt_to_bytes_be_val, short_string_val by lia.
  rewrite <-(from_be_bytes_zeros (32 - String.length s)).
  assert (length (replicate (32 - String.length s) 0 ++ as_bytes s)%list = 32%nat) as Hlen.
  { rewrite length_app, length_replicate, length_as_bytes. lia. }
  rewrite <-Hlen at 2. rewrite to_from_be_bytes.
  - by rewrite drop_app_length' by (by rewrite length_replicate).
  - apply Forall_app; split; [|apply as_bytes_range]. by apply Forall_replicate.
Qed.
End chain_facts.
