(* ===== verification/Rpc.v ===== *)
(** * The JSON-RPC client ([crates/snip36-core/src/rpc.rs])

    [StarknetRpc]: the request envelope, one method per endpoint, the nonce
    fallback and the two polling loops.  HTTP and the clock are interfaces on
    the world; the loops run on fuel, and [poll_loop_terminates] says how much
    is enough. *)

From S2P Require Import Prelude RustNum Json.

(** [client.post(url).json(&payload).send()] followed by [.json()]: the parsed
    body, or the text of the [reqwest::Error] of either step. *)
Class Http (W : Type) := {
  post_json : string → Value → W → (string + Value) * W;
}.

(** [Instant::now()] in nanoseconds, [sleep], and the largest [Instant];
    [Instant + Duration] panics beyond it. *)
Class Clock (W : Type) := {
  now : W → Z;
  sleep : Z → W → W;
  instant_max : Z;
}.

(** Time does not run backwards and [sleep] waits at least as long as asked. *)
Class ClockLaws (W : Type) `{Http W} `{Clock W} := {
  sleep_now d w : 0 ≤ d → now w + d ≤ now (sleep d w);
  post_now url v w : now w ≤ now (post_json url v w).2;
}.

Definition from_secs (s : Z) : Z := s * 1000000000.

Inductive RpcError :=
  | HttpError (msg : string)
  | JsonRpc (msg : string)
  | Unexpected (msg : string)
  | TxTimeout (tx_hash : string) (timeout : Z)
  | TxRejected (msg : string)
  | BlockTimeout (block_number timeout : Z).

(** [Display for ParseIntError]. *)
Definition int_error_text (e : int_error) : string :=
  match e with
  | Empty => "cannot parse integer from empty string"
  | InvalidDigit => "invalid digit found in string"
  | PosOverflow => "number too large to fit in target type"
  end.

(** [Display for RpcError]. *)
Definition rpc_error_text (e : RpcError) : string :=
  match e with
  | HttpError m => "HTTP request failed: " +:+ m
  | JsonRpc m => "JSON-RPC error: " +:+ m
  | Unexpected m => "unexpected response: " +:+ m
  | TxTimeout h t => "transaction " +:+ h +:+ " not confirmed within " +:+ pretty t +:+ "s"
  | TxRejected m => "transaction rejected: " +:+ m
  | BlockTimeout n t => "no new block after " +:+ pretty n +:+ " within " +:+ pretty t +:+ "s"
  end.

(** ** Polling *)

Section poll.
Context {W E A : Type} `{Clock W}.

(** The common shape of [wait_for_tx] and [wait_for_block_after]: check the
    deadline, try once, leave with the answer if there is one, sleep. *)
Fixpoint poll_loop (fuel : nat) (deadline interval : Z) (timeout_error : E)
    (try : W → option (res E A) * W) : prog W E A := λ w,
  match fuel with
  | O => (OutOfFuel, w)
  | S fuel =>
      if deadline <=? now w then (Err timeout_error, w)
      else
        let '(r, w1) := try w in
        match r with
        | Some answer => (answer, w1)
        | None => poll_loop fuel deadline interval timeout_error try (sleep interval w1)
        end
  end.

(** [Instant::now() + Duration::from_secs(timeout_secs)]. *)
Definition deadline_after (timeout_secs : Z) : prog W E Z := λ w,
  let deadline := now w + from_secs timeout_secs in
  if instant_max <? deadline
  then (Panic "overflow when adding duration to instant", w) else (Ok deadline, w).
End poll.

(** ** The client *)

Section rpc.
Context {W : Type} `{Http W} `{Clock W} `{SerdeJson}.

Record StarknetRpc := { url : string }.

Context (self : StarknetRpc).

Definition call_raw (payload : Value) : prog W RpcError Value := λ w,
  let '(r, w1) := post_json (url self) payload w in
  (match r with inl e => Err (HttpError e) | inr v => Ok v end, w1).

Definition request_json (method : string) (params : Value) : Value := JObject [
  ("jsonrpc", JString "2.0"); ("method", JString method); ("params", params);
  ("id", json_u64 1)].

(** The [error] member wins over [result], whatever its value. *)
Definition response_result (resp : Value) : res RpcError Value :=
  match get resp "error" with
  | Some error => Err (JsonRpc (json_to_string error))
  | None => ok_or (get resp "result") (Unexpected (json_to_string resp))
  end.

Definition call (method : string) (params : Value) : prog W RpcError Value :=
  resp ← call_raw (request_json method params);
  lift (response_result resp).

Definition block_number : prog W RpcError Z :=
  result ← call "starknet_blockNumber" (JObject []);
  lift (ok_or (as_u64 result)
    (Unexpected ("expected u64 block number: " +:+ json_to_string result))).

Definition get_chain_id : prog W RpcError string :=
  result ← call "starknet_chainId" (JObject []);
  lift (ok_or (as_str result)
    (Unexpected ("expected string chain id: " +:+ json_to_string result))).

Definition parse_nonce (result : Value) : res RpcError Z :=
  hex_str ← ok_or (as_str result)
    (Unexpected ("expected hex nonce: " +:+ json_to_string result));
  map_err (λ e, Unexpected ("invalid nonce hex '" +:+ hex_str +:+ "': " +:+ int_error_text e))
    (parse_hex_quantity u64_max hex_str).

Definition get_nonce_at_block (address : string) (block_id : Value) : prog W RpcError Z :=
  result ← call "starknet_getNonce"
    (JObject [("block_id", block_id); ("contract_address", JString address)]);
  lift (parse_nonce result).

(** Any error of the first attempt, not only a missing block, falls back. *)
Definition get_nonce (address : string) : prog W RpcError Z :=
  r ← attempt (get_nonce_at_block address (JString "pre_confirmed"));
  match r with
  | inr n => mret n
  | inl _ => get_nonce_at_block address (JString "latest")
  end.

Definition starknet_call (contract_address selector : string) (calldata : list string)
    : prog W RpcError (list string) :=
  result ← call "starknet_call" (JObject [
    ("request", JObject [
      ("contract_address", JString contract_address);
      ("entry_point_selector", JString selector);
      ("calldata", json_strings calldata)]);
    ("block_id", JString "latest")]);
  arr ← lift (ok_or (as_array result)
    (Unexpected ("expected array: " +:+ json_to_string result)));
  mret (array_strings arr).

Definition get_transaction (tx_hash : string) : prog W RpcError Value :=
  call "starknet_getTransactionByHash" (JObject [("transaction_hash", JString tx_hash)]).

Definition get_receipt (tx_hash : string) : prog W RpcError Value :=
  call "starknet_getTransactionReceipt" (JObject [("transaction_hash", JString tx_hash)]).

Definition get_class (class_hash : string) : prog W RpcError Value :=
  call "starknet_getClass"
    (JObject [("block_id", JString "latest"); ("class_hash", JString class_hash)]).

Definition add_invoke_transaction (invoke_tx : Value) : prog W RpcError string :=
  result ← call "starknet_addInvokeTransaction" (JObject [("invoke_transaction", invoke_tx)]);
  lift (ok_or (get_str result "transaction_hash")
    (Unexpected ("no transaction_hash in: " +:+ json_to_string result))).

(** What one receipt means to [wait_for_tx]; [None] is "keep polling". *)
Definition receipt_verdict (receipt : Value) : option (res RpcError Value) :=
  let status := default "" (get_str receipt "finality_status") in
  let execution_status := get_str receipt "execution_status" in
  let has_block := match get receipt "block_number" with Some _ => true | None => false end in
  if bool_decide (status = "REJECTED" ∨ execution_status = Some "REVERTED") then
    Some (Err (TxRejected (json_to_string receipt)))
  else if bool_decide ((status = "ACCEPTED_ON_L2" ∨ status = "ACCEPTED_ON_L1")
      ∧ has_block = true
      ∧ (execution_status = None ∨ execution_status = Some "SUCCEEDED")) then
    Some (Ok receipt)
  else None.

Definition try_receipt (tx_hash : string) : W → option (res RpcError Value) * W := λ w,
  let '(r, w1) := get_receipt tx_hash w in
  (match r with Ok receipt => receipt_verdict receipt | _ => None end, w1).

Definition wait_for_tx (fuel : nat) (tx_hash : string)
    (timeout_secs poll_interval_secs : Z) : prog W RpcError Value :=
  deadline ← deadline_after timeout_secs;
  poll_loop fuel deadline (from_secs poll_interval_secs) (TxTimeout tx_hash timeout_secs)
    (try_receipt tx_hash).

Definition try_block_after (block : Z) : W → option (res RpcError Z) * W := λ w,
  let '(r, w1) := block_number w in
  (match r with
   | Ok current => if block <? current then Some (Ok current) else None
   | _ => None
   end, w1).

Definition wait_for_block_after (fuel : nat) (block_number_ : Z)
    (timeout_secs poll_interval_secs : Z) : prog W RpcError Z :=
  deadline ← deadline_after timeout_secs;
  poll_loop fuel deadline (from_secs poll_interval_secs)
    (BlockTimeout block_number_ timeout_secs) (try_block_after block_number_).
End rpc.

(** [receipt_block_number]: an integer or a hexadecimal string. *)
Definition receipt_block_number (receipt : Value) : option Z :=
  bn ← get receipt "block_number";
  match as_u64 bn with
  | Some n => Some n
  | None =>
      match as_str bn with
      | Some s => ok (parse_hex_quantity u64_max s)
      | None => None
      end
  end.

(** ** Facts *)

Section poll_facts.
Context {W E A : Type} `{Http W} `{!Clock W} `{!ClockLaws W}.
Context (deadline interval : Z) (terr : E) (try : W → option (res E A) * W).
Hypothesis try_now : ∀ w, now w ≤ now (try w).2.
Hypothesis interval_pos : 1 ≤ interval.

Lemma poll_loop_terminates f w :
  deadline - now w ≤ Z.of_nat f * interval →
  ∃ o w', poll_loop (S f) deadline interval terr try w = (o, w') ∧ now w ≤ now w' ∧
    ((o = Err terr ∧ deadline ≤ now w') ∨
     (∃ wi, now w ≤ now wi < deadline ∧ try wi = (Some o, w'))).
Proof.
  revert w. induction f as [|f IH]; intros w Hf; cbn [poll_loop].
  { rewrite (proj2 (Z.leb_le deadline (now w))) by lia. eexists _, _. split; [done|].
    split; [lia|]. left. split; [done|lia]. }
  destruct (Z.leb_spec deadline (now w)).
  { eexists _, _. split; [done|]. split; [lia|]. left. done. }
  pose proof (try_now w) as Ht. destruct (try w) as [[o|] w1] eqn:Hw; simpl in Ht.
  { eexists _, _. split; [done|]. split; [done|]. right. exists w. split; [lia|done]. }
  pose proof (sleep_now interval w1 ltac:(lia)) as Hs.
  destruct (IH (sleep interval w1)) as (o & w' & Ho & Hn & Hcase); [lia|].
  exists o, w'. split; [done|]. split; [lia|].
  destruct Hcase as [?|(wi & ? & ?)]; [by left|]. right. exists wi. split; [lia|done].
Qed.
End poll_facts.

Section rpc_facts.
Context {W : Type} `{Http W} `{!Clock W} `{!ClockLaws W} `{SerdeJson}.
Context (self : StarknetRpc).

Lemma call_now m p w : now w ≤ now (call self m p w).2.
Proof.
  unfold call, call_raw, lift, mbind, prog_bind.
  pose proof (post_now (url self) (request_json m p) w).
  destruct (post_json (url self) (request_json m p) w) as [[] ?]; done.
Qed.

Lemma call_bind_now {A} m p (k : Value → res RpcError A) w :
  now w ≤ now ((r ← call self m p; lift (k r)) w).2.
Proof.
  pose proof (call_now m p w) as Hn. unfold lift.
  unfold mbind, prog_bind. by destruct (call self m p w) as [[] ?].
Qed.

Lemma try_receipt_now h w : now w ≤ now (try_receipt self h w).2.
Proof.
  unfold try_receipt, get_receipt.
  pose proof (call_now "starknet_getTransactionReceipt" (JObject [("transaction_hash", JString h)]) w).
  by destruct (call self _ _ w).
Qed.

Lemma try_block_after_now b w : now w ≤ now (try_block_after self b w).2.
Proof.
  unfold try_block_after, block_number.
  pose proof (call_bind_now "starknet_blockNumber" (JObject [])
    (λ result, ok_or (as_u64 result)
      (Unexpected ("expected u64 block number: " +:+ json_to_string result))) w) as Hn.
  destruct ((r ← call self _ _; lift _) w) eqn:Hr. simpl in Hn. done.
Qed.

(** What [wait_for_tx] requires of the receipt it returns. *)
Definition accepted (receipt : Value) : Prop :=
  (get_str receipt "finality_status" = Some "ACCEPTED_ON_L2" ∨
   get_str receipt "finality_status" = Some "ACCEPTED_ON_L1") ∧
  is_Some (get receipt "block_number") ∧
  (get_str receipt "execution_status" = None ∨
   get_str receipt "execution_status" = Some "SUCCEEDED").

Definition rejected (receipt : Value) : Prop :=
  get_str receipt "finality_status" = Some "REJECTED" ∨
  get_str receipt "execution_status" = Some "REVERTED".

Lemma receipt_verdict_spec receipt :
  match receipt_verdict receipt with
  | Some (Ok r) => r = receipt ∧ accepted receipt
  | Some (Err e) => rejected receipt ∧ e = TxRejected (json_to_string receipt)
  | Some _ => False
  | None => ¬ accepted receipt ∧ ¬ rejected receipt
  end.
Proof.
  unfold receipt_verdict, accepted, rejected.
  repeat case_bool_decide; destruct (get_str receipt "finality_status");
    destruct (get receipt "block_number"); simpl in *;
    unfold is_Some; naive_solver.
Qed.

(** The last answered poll of a run that ends in [w']. *)
Definition polled_receipt (h : string) (w' : W) (receipt : Value) : Prop :=
  ∃ wi, get_receipt self h wi = (Ok receipt, w').

(** C15: With an interval of at least one second and as many rounds as the
    timeout allows, wait_for_tx terminates: with a polled receipt that is
    accepted, with TxRejected of a polled receipt that is rejected or
    reverted, or with TxTimeout after the deadline has passed; transport
    errors while polling are never the outcome. *)
Theorem wait_for_tx_spec h timeout poll f w :
  1 ≤ poll → timeout ≤ Z.of_nat f * poll → now w + from_secs timeout ≤ instant_max →
  ∃ o w', wait_for_tx self (S f) h timeout poll w = (o, w') ∧
    match o with
    | Ok receipt => polled_receipt h w' receipt ∧ accepted receipt
    | Err (TxRejected msg) =>
        ∃ receipt, polled_receipt h w' receipt ∧ rejected receipt ∧ msg = json_to_string receipt
    | Err e => e = TxTimeout h timeout ∧ now w + from_secs timeout ≤ now w'
    | _ => False
    end.
Proof.
  intros Hpoll Hf Hmax. unfold wait_for_tx.
  rewrite (prog_bind_eq _ _ w (now w + from_secs timeout) w)
    by (unfold deadline_after; by rewrite (proj2 (Z.ltb_ge _ _)) by lia).
  destruct (poll_loop_terminates (now w + from_secs timeout) (from_secs poll)
    (TxTimeout h timeout) (try_receipt self h) (try_receipt_now h)
    ltac:(unfold from_secs; lia) f w) as (o & w' & Ho & _ & Hcase).
  { unfold from_secs. lia. }
  exists o, w'. split; [done|]. destruct Hcase as [[-> ?]|(wi & _ & Htry)]; [done|].
  unfold try_receipt in Htry. destruct (get_receipt self h wi) as [[receipt| | |] w1] eqn:Hg;
    try done. injection Htry as Hv <-.
  pose proof (receipt_verdict_spec receipt) as Hs. rewrite Hv in Hs.
  destruct o as [r|e| |]; try done.
  - destruct Hs as [-> ?]. split; [by exists wi|done].
  - destruct Hs as [? ->]. exists receipt. split; [by exists wi|done].
Qed.

(** wait_for_block_after terminates, with a block number that the node
    reported and that is larger than the given one, or with BlockTimeout
    after the deadline. *)
Theorem wait_for_block_after_spec b timeout poll f w :
  1 ≤ poll → timeout ≤ Z.of_nat f * poll → now w + from_secs timeout ≤ instant_max →
  ∃ o w', wait_for_block_after self (S f) b timeout poll w = (o, w') ∧
    match o with
    | Ok n => b < n ∧ ∃ wi, block_number self wi = (Ok n, w')
    | Err e => e = BlockTimeout b timeout ∧ now w + from_secs timeout ≤ now w'
    | _ => False
    end.
Proof.
  intros Hpoll Hf Hmax. unfold wait_for_block_after.
  rewrite (prog_bind_eq _ _ w (now w + from_secs timeout) w)
    by (unfold deadline_after; by rewrite (proj2 (Z.ltb_ge _ _)) by lia).
  destruct (poll_loop_terminates (now w + from_secs timeout) (from_secs poll)
    (BlockTimeout b timeout) (try_block_after self b) (try_block_after_now b)
    ltac:(unfold from_secs; lia) f w) as (o & w' & Ho & _ & Hcase).
  { unfold from_secs. lia. }
  exists o, w'. split; [done|]. destruct Hcase as [[-> ?]|(wi & _ & Htry)]; [done|].
  unfold try_block_after in Htry. destruct (block_number self wi) as [[n| | |] w1] eqn:Hg;
    try done. destruct (Z.ltb_spec b n); [|done]. injection Htry as <- <-.
  split; [done|]. by exists wi.
Qed.

(** One [starknet_getNonce] exchange that yields [n]. *)
Definition nonce_reply (address block : string) (w w' : W) (n : Z) : Prop :=
  ∃ reply hex,
    post_json (url self) (request_json "starknet_getNonce"
      (JObject [("block_id", JString block); ("contract_address", JString address)])) w
      = (inr reply, w') ∧
    get reply "error" = None ∧ get_str reply "result" = Some hex ∧
    parse_hex_quantity u64_max hex = Ok n.

Lemma get_nonce_at_block_Ok address block w n w' :
  get_nonce_at_block self address (JString block) w = (Ok n, w') ↔
  nonce_reply address block w w' n.
Proof.
  unfold get_nonce_at_block, nonce_reply, get_str, call, call_raw, response_result, parse_nonce.
  split.
  - intros Hrun. prog_inv. unfold request_json.
    destruct (post_json _ _ w) as [[e|reply] w2]; simplify_eq.
    destruct (get _ "error") eqn:He; [done|]. prog_inv.
    eexists _, _. split; [done|]. split; [done|]. split; [|done]. by simplify_option_eq.
  - intros (reply & hex & Hp & He & Hr & Hn).
    unfold mbind, prog_bind. rewrite Hp. unfold lift. rewrite He.
    destruct (get reply "result") as [r|]; [|done]. simpl in *. rewrite Hr. simpl. by rewrite Hn.
Qed.

Lemma get_nonce_at_block_world address block w :
  (get_nonce_at_block self address (JString block) w).2 =
  (post_json (url self) (request_json "starknet_getNonce"
      (JObject [("block_id", JString block); ("contract_address", JString address)])) w).2.
Proof.
  unfold get_nonce_at_block, call, call_raw, mbind, prog_bind, lift.
  destruct (post_json _ _ w) as [[e|reply] w2]; [done|].
  by destruct (response_result reply).
Qed.

Lemma nonce_range address block w n w' :
  get_nonce_at_block self address block w = (Ok n, w') → in_u u64_max n.
Proof.
  unfold get_nonce_at_block, parse_nonce. intros Hrun. prog_inv.
  by eapply parse_hex_quantity_range.
Qed.

(** The client never panics or loops outside the polling functions. *)
Lemma get_nonce_at_block_outcome address block w :
  (∃ n, (get_nonce_at_block self address (JString block) w).1 = Ok n) ∨
  ∃ e, (get_nonce_at_block self address (JString block) w).1 = Err e.
Proof.
  unfold get_nonce_at_block, call, call_raw, response_result, parse_nonce, mbind, prog_bind, lift.
  destruct (post_json _ _ w) as [[e|reply] w2]; simpl; [eauto|].
  destruct (get reply "error"); simpl; [eauto|].
  destruct (get reply "result") as [r|]; simpl; [|eauto].
  destruct (as_str r); simpl; [|eauto].
  destruct (parse_hex_quantity_outcome u64_max s) as [[? ->]|[? ->]]; simpl; eauto.
Qed.

Lemma add_invoke_outcome tx (w : W) :
  ∃ o w1, add_invoke_transaction self tx w = (o, w1) ∧ ((∃ h, o = Ok h) ∨ ∃ e, o = Err e).
Proof.
  unfold add_invoke_transaction, call, call_raw, mbind, prog_bind, lift.
  destruct (post_json _ _ w) as [[e|v] w1]; [eauto 6|].
  unfold response_result. destruct (get v "error"); [eauto 6|].
  destruct (get v "result") as [r|]; cbn [ok_or]; [|eauto 6].
  destruct (get_str r "transaction_hash"); cbn [ok_or]; eauto 6.
Qed.

(** get_nonce returns the nonce of the pre-confirmed block when that query
    succeeds, and otherwise, and only then, the nonce of the latest block. *)
Theorem get_nonce_spec address w n w' :
  get_nonce self address w = (Ok n, w') ↔
  nonce_reply address "pre_confirmed" w w' n ∨
  ∃ w1, w1 = (post_json (url self) (request_json "starknet_getNonce"
               (JObject [("block_id", JString "pre_confirmed");
                         ("contract_address", JString address)])) w).2 ∧
    (∀ m w2, ¬ nonce_reply address "pre_confirmed" w w2 m) ∧
    nonce_reply address "latest" w1 w' n.
Proof.
  unfold get_nonce. rewrite <-get_nonce_at_block_world.
  setoid_rewrite <-get_nonce_at_block_Ok.
  unfold mbind, prog_bind, attempt.
  destruct (get_nonce_at_block_outcome address "pre_confirmed" w) as [[m Hm]|[e Hm]];
    destruct (get_nonce_at_block self address (JString "pre_confirmed") w) as [r w1];
    simpl in Hm; subst r; simpl.
  - split; [intros [= -> ->]; by left|]. intros [[= -> ->]|(? & _ & Hno & _)]; [done|].
    by destruct (Hno m w1).
  - split; [intros ?; right; by exists w1|]. intros [?|(? & -> & _ & ?)]; done.
Qed.
End rpc_facts.

(** Both encodings of a block number read back; a hexadecimal number that
    does not fit [u64] is [None]. *)
Theorem receipt_block_number_spec receipt n :
  0 ≤ n →
  (get receipt "block_number" = Some (json_u64 n) → receipt_block_number receipt = Some n) ∧
  (get receipt "block_number" = Some (JString (fmt_hex n)) →
   receipt_block_number receipt = if n <=? u64_max then Some n else None) ∧
  (get receipt "block_number" = None → receipt_block_number receipt = None).
Proof.
  intros Hn. unfold receipt_block_number. repeat split; intros ->; try done. simpl.
  destruct (Z.leb_spec n u64_max).
  - by rewrite parse_fmt_hex by (split; lia).
  - apply parse_fmt_hex_overflow. unfold u64_max in *. lia.
Qed.

(** ** What the client keeps of the world *)

Section rpc_preserves.
Context {W : Type} `{Http W} `{Clock W} `{SerdeJson}.
Context (P : W → Prop) (Hpost : ∀ u v w, P w → P (post_json u v w).2)
  (Hsleep : ∀ d w, P w → P (sleep d w)).

Lemma preserves_call_raw self payload : preserves P (call_raw self payload).
Proof using Hpost.
  intros w Hw. unfold call_raw. specialize (Hpost (url self) payload w Hw). by destruct (post_json _ _ w).
Qed.

Lemma preserves_call self method params : preserves P (call self method params).
Proof using Hpost. apply preserves_bind; [apply preserves_call_raw|intros; apply preserves_lift]. Qed.

Lemma preserves_block_number self : preserves P (block_number self).
Proof using Hpost. apply preserves_bind; [apply preserves_call|intros; apply preserves_lift]. Qed.

Lemma preserves_get_nonce_at_block self address block_id :
  preserves P (get_nonce_at_block self address block_id).
Proof using Hpost. apply preserves_bind; [apply preserves_call|intros; apply preserves_lift]. Qed.

Lemma preserves_starknet_call self a s c : preserves P (starknet_call self a s c).
Proof using Hpost.
  apply preserves_bind; [apply preserves_call|]. intros r. apply preserves_bind; auto with snip.
Qed.

Lemma preserves_poll_loop {E A} fuel deadline interval (e : E) (try : W → option (res E A) * W) :
  (∀ w, P w → P (try w).2) → preserves P (poll_loop fuel deadline interval e try).
Proof using Hsleep.
  intros Htry. induction fuel as [|fuel IH]; intros w Hw; cbn [poll_loop]; [done|].
  destruct (_ <=? _); [done|]. specialize (Htry w Hw).
  destruct (try w) as [[answer|] w1]; [done|]. by apply IH, Hsleep.
Qed.

Lemma preserves_wait_for_tx self fuel tx timeout interval :
  preserves P (wait_for_tx self fuel tx timeout interval).
Proof using Hpost Hsleep.
  apply preserves_bind.
  - intros w Hw. unfold deadline_after. cbv zeta. by destruct (_ <? _).
  - intros deadline. apply preserves_poll_loop. intros w Hw. unfold try_receipt.
    pose proof (preserves_call self "starknet_getTransactionReceipt"
      (JObject [("transaction_hash", JString tx)]) w Hw) as Hc. unfold get_receipt.
    by destruct (call _ _ _ w).
Qed.

Lemma preserves_get_nonce self address : preserves P (get_nonce self address).
Proof using Hpost.
  apply preserves_bind; [apply preserves_attempt, preserves_get_nonce_at_block|].
  intros [e|n]; [apply preserves_get_nonce_at_block|apply preserves_ret].
Qed.

Lemma preserves_get_chain_id self : preserves P (get_chain_id self).
Proof using Hpost. apply preserves_bind; [apply preserves_call|intros; apply preserves_lift]. Qed.

Lemma preserves_get_class self class_hash : preserves P (get_class self class_hash).
Proof using Hpost. apply preserves_call. Qed.

Lemma preserves_add_invoke self tx : preserves P (add_invoke_transaction self tx).
Proof using Hpost. apply preserves_bind; [apply preserves_call|intros; apply preserves_lift]. Qed.

Lemma preserves_wait_for_block_after self fuel block timeout interval :
  preserves P (wait_for_block_after self fuel block timeout interval).
Proof using Hpost Hsleep.
  apply preserves_bind.
  - intros w Hw. unfold deadline_after. cbv zeta. by destruct (_ <? _).
  - intros deadline. apply preserves_poll_loop. intros w Hw. unfold try_block_after.
    pose proof (preserves_block_number self w Hw) as Hc. by destruct (block_number self w).
Qed.
End rpc_preserves.

(** ** A scripted world

    A clock and a list of replies, for examples: each request takes one
    nanosecond and consumes one reply. *)
Record script := {
  sc_clock : Z;
  sc_replies : list (string + Value);
  sc_log : list Value;
}.

Definition script_post (u : string) (v : Value) (w : script) : (string + Value) * script :=
  match sc_replies w with
  | [] => (inl "connection refused",
           {| sc_clock := sc_clock w + 1; sc_replies := []; sc_log := sc_log w ++ [v] |})
  | r :: rs => (r, {| sc_clock := sc_clock w + 1; sc_replies := rs; sc_log := sc_log w ++ [v] |})
  end.

#[export] Instance script_http : Http script := {| post_json := script_post |}.
#[export] Instance script_time : Clock script := {|
  now := sc_clock;
  sleep d w := {| sc_clock := sc_clock w + Z.max d 0; sc_replies := sc_replies w; sc_log := sc_log w |};
  instant_max := 2 ^ 63 * 1000000000 |}.
#[export] Instance script_laws : ClockLaws script.
Proof.
  split; simpl; intros; [lia|]. unfold script_post. destruct (sc_replies w); simpl; lia.
Qed.

Definition toy_json : SerdeJson := {|
  json_to_string v := match as_str v with Some s => s | None => "json" end;
  json_from_str s := Ok (JString s) |}.

Definition toy_receipt : Value := JObject [
  ("finality_status", JString "ACCEPTED_ON_L2"); ("block_number", json_u64 7)].

Definition toy_world : script := {|
  sc_clock := 0;
  sc_replies := [inl "timeout"; inr (JObject [("result", toy_receipt)])]; sc_log := [] |}.

#[local] Existing Instance toy_json.

Lemma wait_for_tx_witness :
  ∃ o w', wait_for_tx {| url := "u" |} 4 "0x1" 3 1 toy_world = (o, w') ∧
     o = Ok toy_receipt.
Proof.
  destruct (wait_for_tx_spec {| url := "u" |} "0x1" 3 1 3 toy_world)
    as (o & w' & Ho & _); [lia | lia | vm_compute; discriminate |].
  exists o, w'. split; [exact Ho|]. vm_compute in Ho. injection Ho as <- _. reflexivity.
Defined.

Lemma receipt_block_number_witness :
  receipt_block_number (JObject [("block_number", JString "0x1f")]) = Some 31.
Proof.
  apply (proj1 (proj2 (receipt_block_number_spec
    (JObject [("block_number", JString "0x1f")]) 31 ltac:(lia)))). reflexivity.
Defined.
