(* ===== verification/StarknetApi.v ===== *)
(** * Types of the Starknet crates

    What the repository takes from starknet-api, blockifier, starknet-rust and
    serde's view of them: identifiers that wrap a field element, contract
    addresses and storage keys (field elements below a bound, built by a
    fallible conversion), the state maps of blockifier and the storage proof of
    the JSON-RPC specification.  None of these crates is part of the
    repository, so their operations are the interface [StarknetApi] and its
    laws are [StarknetApiLaws]. *)

From S2P Require Import Prelude RustNum Json Felt.

(** Newtypes whose field is public. *)
Abbreviation ClassHash := Felt (only parsing).
Abbreviation CompiledClassHash := Felt (only parsing).
Abbreviation Nonce := Felt (only parsing).
Abbreviation HashOutput := Felt (only parsing).
Abbreviation BlockHash := Felt (only parsing).
Abbreviation TransactionHash := Felt (only parsing).

Class StarknetApi `{FeltOps} := {
  ContractAddress : Type;
  address_eq_dec :: EqDecision ContractAddress;
  address_countable :: Countable ContractAddress;
  (** [*a.0.key()] and [ContractAddress::try_from]. *)
  address_key : ContractAddress → Felt;
  address_try_from : Felt → res string ContractAddress;
  StorageKey : Type;
  storage_key_eq_dec :: EqDecision StorageKey;
  storage_key_countable :: Countable StorageKey;
  storage_key_key : StorageKey → Felt;
  storage_key_try_from : Felt → res string StorageKey;
}.

Class StarknetApiLaws `{StarknetApi} := {
  address_try_from_key a : address_try_from (address_key a) = Ok a;
  storage_key_try_from_key k : storage_key_try_from (storage_key_key k) = Ok k;
}.

#[export] Instance address_key_inj `{StarknetApiLaws} : Inj (=) (=) address_key.
Proof.
  intros a b Heq. pose proof (address_try_from_key a) as Ha.
  rewrite Heq, address_try_from_key in Ha. congruence.
Qed.

#[export] Instance storage_key_key_inj `{StarknetApiLaws} : Inj (=) (=) storage_key_key.
Proof.
  intros a b Heq. pose proof (storage_key_try_from_key a) as Ha.
  rewrite Heq, storage_key_try_from_key in Ha. congruence.
Qed.

(** blockifier's [StateMaps]. *)
Record StateMaps `{StarknetApi} := {
  nonces : gmap ContractAddress Nonce;
  class_hashes : gmap ContractAddress ClassHash;
  storage : gmap (ContractAddress * StorageKey) Felt;
  compiled_class_hashes : gmap ClassHash CompiledClassHash;
  declared_contracts : gmap ClassHash bool;
}.

Definition empty_state_maps `{StarknetApi} : StateMaps :=
  {| nonces := ∅; class_hashes := ∅; storage := ∅; compiled_class_hashes := ∅;
     declared_contracts := ∅ |}.

(** [StateMaps::get_contract_addresses]: a set. *)
Class ContractAddresses `{StarknetApi} := {
  get_contract_addresses : StateMaps → gset ContractAddress;
}.

(** It holds every address the maps mention as a key. *)
Class ContractAddressesLaws `{ContractAddresses} := {
  get_contract_addresses_storage m a k :
    is_Some (storage m !! (a, k)) → a ∈ get_contract_addresses m;
  get_contract_addresses_nonces m a :
    is_Some (nonces m !! a) → a ∈ get_contract_addresses m;
  get_contract_addresses_class_hashes m a :
    is_Some (class_hashes m !! a) → a ∈ get_contract_addresses m;
}.

(** ** Storage proofs of the JSON-RPC specification *)

Section rpc_proof.
Context `{FeltOps}.

Inductive MerkleNode :=
  | BinaryNode (left right : Felt)
  | EdgeNode (path : Felt) (length : Z) (child : Felt).

(** The tries are [IndexMap<Felt, MerkleNode>]: association lists in
    insertion order. *)
Record ContractLeafData := {
  leaf_nonce : Felt;
  leaf_class_hash : Felt;
  leaf_storage_root : option Felt;
}.

Record ContractsProof := {
  nodes : (list (Felt * MerkleNode));
  contract_leaves_data : list ContractLeafData;
}.

Record GlobalRoots := {
  contracts_tree_root : Felt;
  classes_tree_root : Felt;
  block_hash : Felt;
}.

Record RpcStorageProof := {
  classes_proof : (list (Felt * MerkleNode));
  contracts_proof : ContractsProof;
  contracts_storage_proofs : list (list (Felt * MerkleNode));
  global_roots : GlobalRoots;
}.

Record ContractStorageKeys := {
  csk_contract_address : Felt;
  csk_storage_keys : list Felt;
}.
End rpc_proof.

(** [IndexMap::insert] keeps the position of a key that is present. *)
Fixpoint index_insert {K A} `{EqDecision K} (k : K) (a : A) (m : list (K * A)) : list (K * A) :=
  match m with
  | [] => [(k, a)]
  | (k', a') :: m => if decide (k = k') then (k', a) :: m else (k', a') :: index_insert k a m
  end.

(** [IndexMap::extend]. *)
Definition index_extend {K A} `{EqDecision K} (m l : list (K * A)) : list (K * A) :=
  fold_left (λ m '(k, a), index_insert k a m) l m.

Section index_facts.
Context {K A : Type} `{EqDecision K}.
Implicit Types (m l : list (K * A)).

Lemma index_insert_keys k a m :
  (index_insert k a m).*1 = if decide (k ∈ m.*1) then m.*1 else (m.*1 ++ [k])%list.
Proof.
  induction m as [|[k' a'] m IH]; [done|].
  cbn [index_insert fmap list_fmap fst].
  destruct (decide (k = k')) as [->|Hne].
  - rewrite decide_True; [done|]. left.
  - cbn [fmap list_fmap fst]. fold (index_insert k a m).*1. fold m.*1. rewrite IH.
    repeat case_decide; rewrite elem_of_cons in *; naive_solver.
Qed.

Lemma index_insert_NoDup k a m : NoDup m.*1 → NoDup (index_insert k a m).*1.
Proof.
  intros Hm. rewrite index_insert_keys. case_decide; [done|].
  apply NoDup_app. split; [done|]. split; [|apply NoDup_singleton].
  intros x Hx ->%list_elem_of_singleton. done.
Qed.

Lemma index_extend_cons m k a l : index_extend m ((k, a) :: l) = index_extend (index_insert k a m) l.
Proof. done. Qed.

Lemma index_extend_snoc m l k a :
  index_extend m (l ++ [(k, a)])%list = index_insert k a (index_extend m l).
Proof. unfold index_extend. by rewrite fold_left_app. Qed.

Lemma index_extend_NoDup m l : NoDup m.*1 → NoDup (index_extend m l).*1.
Proof.
  revert m. induction l as [|[k a] l IH]; intros m Hm; [done|].
  rewrite index_extend_cons. by apply IH, index_insert_NoDup.
Qed.

Lemma index_insert_fresh k a m : k ∉ m.*1 → index_insert k a m = (m ++ [(k, a)])%list.
Proof.
  induction m as [|[k' a'] m IH]; intros Hk; [done|].
  rewrite fmap_cons, not_elem_of_cons in Hk. destruct Hk as [Hne Hk]. simpl in *.
  rewrite decide_False by done. by rewrite IH.
Qed.

Lemma index_insert_twice k a b m : index_insert k a (index_insert k b m) = index_insert k a m.
Proof.
  induction m as [|[k' a'] m IH]; simpl; [by rewrite decide_True|].
  case_decide; simpl; [by rewrite decide_True|]. rewrite decide_False by done. by rewrite IH.
Qed.

Lemma index_insert_comm k a k' a' m :
  k ≠ k' → k ∈ m.*1 →
  index_insert k a (index_insert k' a' m) = index_insert k' a' (index_insert k a m).
Proof.
  intros Hne. induction m as [|[k'' a''] m IH]; intros Hk; [by apply elem_of_nil in Hk|].
  rewrite fmap_cons, elem_of_cons in Hk. simpl in Hk. simpl.
  destruct (decide (k' = k'')) as [->|]; destruct (decide (k = k'')) as [->|]; simpl;
    repeat (first [rewrite decide_True by done | rewrite decide_False by done]); try done.
  f_equal. apply IH. by destruct Hk as [?|?].
Qed.

Lemma index_extend_insert_comm m l k a :
  k ∈ m.*1 → k ∉ l.*1 →
  index_insert k a (index_extend m l) = index_extend (index_insert k a m) l.
Proof.
  revert m. induction l as [|[k' a'] l IH]; intros m Hk Hl; [done|].
  rewrite fmap_cons, not_elem_of_cons in Hl. destruct Hl as [Hne Hl]. simpl in Hne.
  rewrite !index_extend_cons, IH; [by rewrite index_insert_comm | |done].
  rewrite index_insert_keys. case_decide; [done|]. apply elem_of_app. by left.
Qed.

Lemma elem_of_index_insert_keys k a m : k ∈ (index_insert k a m).*1.
Proof.
  rewrite index_insert_keys. case_decide; [done|]. apply elem_of_app. right. by left.
Qed.

(** Extending by a list that was itself built by insertion is extending by
    the insertions. *)
Lemma index_extend_insert m L k a :
  NoDup L.*1 → index_extend m (index_insert k a L) = index_insert k a (index_extend m L).
Proof.
  revert m. induction L as [|[k' a'] L IH]; intros m Hnd; [done|].
  rewrite fmap_cons in Hnd. apply NoDup_cons in Hnd as [Hk' Hnd]. simpl in Hk'. cbn [index_insert].
  destruct (decide (k = k')) as [->|Hne].
  - rewrite !index_extend_cons, index_extend_insert_comm, index_insert_twice; auto.
    apply elem_of_index_insert_keys.
  - rewrite !index_extend_cons. by rewrite IH.
Qed.

Lemma index_extend_assoc m l l' :
  NoDup l.*1 → index_extend m (index_extend l l') = index_extend (index_extend m l) l'.
Proof.
  intros Hl. induction l' as [|[k a] l' IH] using rev_ind; [done|].
  rewrite !index_extend_snoc, index_extend_insert by (by apply index_extend_NoDup). by rewrite IH.
Qed.

Lemma index_extend_nil l : NoDup l.*1 → index_extend [] l = l.
Proof.
  induction l as [|[k a] l IH] using rev_ind; [done|]. rewrite fmap_app.
  intros (Hl & Hk & _)%NoDup_app. rewrite index_extend_snoc, IH by done.
  apply index_insert_fresh. intros Hin. apply (Hk k Hin). simpl. by left.
Qed.
End index_facts.

(** ** A concrete instance

    Addresses and keys are field elements below 2^251, for examples. *)

Definition patricia_ok (f : zfelt) : Prop := zf f < 2 ^ 251.
#[export] Instance patricia_ok_dec f : Decision (patricia_ok f).
Proof. unfold patricia_ok. apply _. Defined.

Definition zkey : Type := dsig patricia_ok.

Definition zkey_try_from (f : zfelt) : res string zkey :=
  match decide (patricia_ok f) with
  | left Hf => Ok (dexist f Hf)
  | right _ => Err "out of range"
  end.

Lemma zkey_try_from_key (k : zkey) : zkey_try_from (`k) = Ok k.
Proof.
  unfold zkey_try_from. destruct (decide (patricia_ok (`k))) as [Hf|Hf].
  - f_equal. by apply dsig_eq.
  - destruct Hf. by apply (proj2_dsig k).
Qed.

#[export] Instance zkey_eq_dec : EqDecision zkey.
Proof. apply _. Defined.
#[export] Instance zkey_countable : Countable zkey.
Proof. apply _. Defined.

#[export] Instance zfelt_api : StarknetApi := {
  ContractAddress := zkey;
  address_key k := `k;
  address_try_from := zkey_try_from;
  StorageKey := zkey;
  storage_key_key k := `k;
  storage_key_try_from := zkey_try_from;
}.
#[export] Instance zfelt_api_laws : StarknetApiLaws.
Proof. split; apply zkey_try_from_key. Qed.

(** A small address. *)
Definition zaddr (n : Z) : zkey :=
  match zkey_try_from (zfelt_mk n) with Ok k => k | _ => dexist (zfelt_mk 0) eq_refl end.

#[export] Instance zfelt_addresses : ContractAddresses := {
  get_contract_addresses m :=
    list_to_set ((map_to_list (storage m)).*1.*1) ∪ dom (nonces m) ∪ dom (class_hashes m);
}.
#[export] Instance zfelt_addresses_laws : ContractAddressesLaws.
Proof.
  split; intros m a; simpl.
  - intros k [v Hv]. rewrite !elem_of_union, elem_of_list_to_set. left; left.
    apply list_elem_of_fmap. exists (a, k). split; [done|].
    apply list_elem_of_fmap. exists (a, k, v). split; [done|]. by apply elem_of_map_to_list.
  - intros Hs. rewrite !elem_of_union. left; right. by apply elem_of_dom.
  - intros Hs. rewrite !elem_of_union. right. by apply elem_of_dom.
Qed.
