(* ===== verification/StateReader.v ===== *)
(** * The JSON-RPC state reader ([crates/blockifier-reexecution-wasm/src/])

    [rpc_objects.rs]: block ids, the untagged reply and the conversion of a
    block header; [errors.rs]; [utils.rs]; [state_reader/rpc_state_reader.rs]:
    the asynchronous queries, the synchronous trait that a browser cannot
    serve, and the conversion of legacy classes; and, from
    [crates/starknet-transaction-prover-wasm], [running/serde_utils.rs]. *)

From S2P Require Import Prelude RustNum Json Felt StarknetApi.

(** ** Foreign serialisation and classes *)

(** serde's forms of the foreign types. *)
Class ApiSerde `{StarknetApi} := {
  ser_felt : Felt → Value;
  ser_address : ContractAddress → Value;
  ser_storage_key : StorageKey → Value;
  de_felt : Value → res string Felt;
  de_address : Value → res string ContractAddress;
  de_storage_key : Value → res string StorageKey;
  de_bool : Value → res string bool;
  to_hex_string : Felt → string;
}.

(** The class types of starknet-rust, starknet-api and blockifier, gzip, and
    the width of [usize] on the target. *)
Record LegacyContractEntryPoint `{FeltOps} := { ep_offset : Z; ep_selector : Felt }.

Record LegacyEntryPointsByType `{FeltOps} := {
  ep_constructor : list LegacyContractEntryPoint;
  ep_external : list LegacyContractEntryPoint;
  ep_l1_handler : list LegacyContractEntryPoint;
}.

Record CompressedLegacyContractClass `{FeltOps} := {
  lc_program : list Z;
  lc_entry_points_by_type : LegacyEntryPointsByType;
}.

Inductive EntryPointType := Constructor | External | L1Handler.
#[export] Instance entry_point_type_eq : EqDecision EntryPointType.
Proof. solve_decision. Defined.

(** [EntryPointV0 { offset, selector }]. *)
Record EntryPointV0 `{FeltOps} := { v0_offset : Z; v0_selector : Felt }.

Class Classes `{FeltOps} := {
  FlattenedSierra : Type;
  SierraContractClass : Type;
  SierraVersion : Type;
  CompiledClassV0 : Type;
  CompiledClassV1 : Type;
  Program : Type;
  usize_max : Z;
  de_contract_class : Value → res string (FlattenedSierra + CompressedLegacyContractClass);
  sierra_from : FlattenedSierra → SierraContractClass;
  extract_from_program : SierraContractClass → res string SierraVersion;
  compiled_v1_from_json : string → SierraVersion → res string CompiledClassV1;
  gunzip : list Z → res string string;
  parse_program : string → res string Program;
  compiled_v0_from : Program → list (EntryPointType * list EntryPointV0) → res string CompiledClassV0;
}.

(** ** Errors *)

Inductive ReexecutionError :=
  | RpcRequest (msg : string)
  | RpcStatus (msg : string)
  | RpcParse (msg : string)
  | BlockNotFound
  | ContractAddressNotFound
  | ClassHashNotFound
  | InvalidParams (msg : string)
  | TransactionExecution (msg : string)
  | UnexpectedRpc (code : Z) (message : string)
  | Serde (msg : string)
  | State (msg : string)
  | CompiledClass (msg : string).

(** [Display for ReexecutionError]. *)
Definition reexecution_error_text (e : ReexecutionError) : string :=
  match e with
  | RpcRequest m => "rpc request failed: " +:+ m
  | RpcStatus m => "rpc status error: " +:+ m
  | RpcParse m => "rpc response parse error: " +:+ m
  | BlockNotFound => "block not found"
  | ContractAddressNotFound => "contract address not found"
  | ClassHashNotFound => "class hash not found"
  | InvalidParams m => "invalid params: " +:+ m
  | TransactionExecution m => "transaction execution error: " +:+ m
  | UnexpectedRpc c m => "unexpected rpc error " +:+ pretty c +:+ ": " +:+ m
  | Serde m => "serde error: " +:+ m
  | State m => "state error: " +:+ m
  | CompiledClass m => "compiled class error: " +:+ m
  end.

(** ** [rpc_objects.rs] *)

Definition RPC_ERROR_CONTRACT_ADDRESS_NOT_FOUND : Z := 20.
Definition RPC_ERROR_BLOCK_NOT_FOUND : Z := 24.
Definition RPC_CLASS_HASH_NOT_FOUND : Z := 28.
Definition RPC_TRANSACTION_EXECUTION_ERROR : Z := 41.
Definition RPC_ERROR_INVALID_PARAMS : Z := -32602.

Inductive BlockId `{FeltOps} := Latest | Pending | Hash (h : BlockHash) | Number (n : Z).

Record RpcSpecError := { code : Z; message : string; data : option Value }.

Inductive RpcResponse :=
  | Success (jsonrpc : option string) (result : Value) (id : Z)
  | Error (jsonrpc : option string) (error : RpcSpecError) (id : Z).

(** How serde's derived [Deserialize] finds the named fields of a struct: by
    name in an object, by position in an array of exactly that many. *)
Definition struct_fields (names : list string) (v : Value) : option (list (option Value)) :=
  match v with
  | JObject m => Some ((λ k, assoc k m) <$> names)
  | JArray l => if Nat.eqb (length l) (length names) then Some (Some <$> l) else None
  | _ => None
  end.

Definition de_option {A} (f : Value → option A) (v : option Value) : option (option A) :=
  match v with
  | None | Some JNull => Some None
  | Some x => Some <$> f x
  end.

Definition as_u32 (v : Value) : option Z :=
  n ← as_u64 v; if n <=? u32_max then Some n else None.

Definition as_i32 (v : Value) : option Z :=
  match v with
  | JNumber (PosInt n) => if n <? 2 ^ 31 then Some n else None
  | JNumber (NegInt z) => if - 2 ^ 31 <=? z then Some z else None
  | _ => None
  end.

Definition de_spec_error (v : Value) : option RpcSpecError :=
  match struct_fields ["code"; "message"; "data"] v with
  | Some [Some c; Some m; d] =>
      c ← as_i32 c; m ← as_str m; d ← de_option Some d;
      Some {| code := c; message := m; data := d |}
  | _ => None
  end.

Definition de_success (v : Value) : option RpcResponse :=
  match struct_fields ["jsonrpc"; "result"; "id"] v with
  | Some [j; Some r; Some i] => j ← de_option as_str j; i ← as_u32 i; Some (Success j r i)
  | _ => None
  end.

Definition de_error (v : Value) : option RpcResponse :=
  match struct_fields ["jsonrpc"; "error"; "id"] v with
  | Some [j; Some e; Some i] =>
      j ← de_option as_str j; e ← de_spec_error e; i ← as_u32 i; Some (Error j e i)
  | _ => None
  end.

(** [#[serde(untagged)]]: the variants in order, so a reply with both members
    is a success. *)
Definition de_rpc_response (v : Value) : res string RpcResponse :=
  match de_success v with
  | Some r => Ok r
  | None => ok_or (de_error v) "data did not match any variant of untagged enum RpcResponse"
  end.

(** Block headers. *)
Record GasPricePerToken := { price_in_fri : Z; price_in_wei : Z }.

Class BlockTypes := {
  StarknetVersion : Type;
  starknet_version_parse : string → res string StarknetVersion;
  GasPrices : Type;
  (** [validated_gas_prices] of blockifier, on six nonzero prices. *)
  validated_gas_prices : Z → Z → Z → Z → Z → Z → GasPrices;
}.

Inductive L1DataAvailabilityMode := Calldata | Blob.
Definition is_use_kzg_da (m : L1DataAvailabilityMode) : bool :=
  match m with Calldata => false | Blob => true end.

Record BlockHeader `{StarknetApi} := {
  bh_block_hash : BlockHash;
  bh_parent_hash : BlockHash;
  bh_block_number : Z;
  bh_sequencer_address : ContractAddress;
  bh_new_root : Felt;
  bh_timestamp : Z;
  bh_l1_gas_price : GasPricePerToken;
  bh_l1_data_gas_price : GasPricePerToken;
  bh_l2_gas_price : GasPricePerToken;
  bh_l1_da_mode : L1DataAvailabilityMode;
  bh_starknet_version : string;
  bh_state_diff_commitment : Felt;
  bh_event_commitment : Felt;
  bh_receipt_commitment : Felt;
  bh_transaction_commitment : Felt;
  bh_transaction_count : Z;
  bh_event_count : Z;
  bh_state_diff_length : Z;
}.

Record BlockInfo `{StarknetApi} `{BlockTypes} := {
  bi_block_number : Z;
  bi_sequencer_address : ContractAddress;
  bi_block_timestamp : Z;
  bi_gas_prices : GasPrices;
  bi_use_kzg_da : bool;
  bi_starknet_version : StarknetVersion;
}.

(** [NonzeroGasPrice::new] rejects zero. *)
Definition parse_gas_price (gas_price : Z) : res string Z :=
  if gas_price =? 0 then Err ("invalid gas price: " +:+ pretty gas_price) else Ok gas_price.

Definition block_info_of_header `{StarknetApi} `{BlockTypes} (self : BlockHeader)
    : res string BlockInfo :=
  p1 ← parse_gas_price (price_in_wei (bh_l1_gas_price self));
  p2 ← parse_gas_price (price_in_fri (bh_l1_gas_price self));
  p3 ← parse_gas_price (price_in_wei (bh_l1_data_gas_price self));
  p4 ← parse_gas_price (price_in_fri (bh_l1_data_gas_price self));
  p5 ← parse_gas_price (price_in_wei (bh_l2_gas_price self));
  p6 ← parse_gas_price (price_in_fri (bh_l2_gas_price self));
  v ← starknet_version_parse (bh_starknet_version self);
  Ok {| bi_block_number := bh_block_number self;
        bi_sequencer_address := bh_sequencer_address self;
        bi_block_timestamp := bh_timestamp self;
        bi_gas_prices := validated_gas_prices p1 p2 p3 p4 p5 p6;
        bi_use_kzg_da := is_use_kzg_da (bh_l1_da_mode self);
        bi_starknet_version := v |}.

(** ** [utils.rs] *)

Inductive ChainId := Mainnet | Sepolia | IntegrationSepolia | OtherChain (name : string).

Record FeeTokenAddresses `{StarknetApi} := {
  strk_fee_token_address : ContractAddress;
  eth_fee_token_address : ContractAddress;
}.

Record ChainInfo `{StarknetApi} := {
  ci_chain_id : ChainId;
  fee_token_addresses : FeeTokenAddresses;
  is_l3 : bool;
}.

Section utils.
Context `{StarknetApi}.

(** The [LazyLock] initialisers. *)
Definition expect {E A} (r : res E A) (msg : string) : res string A :=
  match r with Ok a => Ok a | OutOfFuel => OutOfFuel | _ => Panic msg end.

Definition STRK_FEE_CONTRACT_ADDRESS : res string ContractAddress :=
  f ← expect (felt_parse_hex
        "0x04718f5a0fc34cc1af16a1cdee98ffb20c31f5cd61d6ab07201858f4287c938d")
      "invalid STRK fee contract address";
  expect (address_try_from f) "failed to convert STRK fee contract address".

Definition ETH_FEE_CONTRACT_ADDRESS : res string ContractAddress :=
  f ← expect (felt_parse_hex
        "0x49d36570d4e46f48e99674bd3fcc84644ddd6b96f7c741b1562b82f9e004dc7")
      "invalid ETH fee contract address";
  expect (address_try_from f) "failed to convert ETH fee contract address".

(** The default [STRK_FEE_CONTRACT_ADDRESS] is evaluated even when
    there is an override. *)
Definition get_chain_info (chain_id : ChainId)
    (strk_override : option ContractAddress) : res string ChainInfo :=
  match chain_id with
  | OtherChain name => Panic ("not implemented: Unknown chain ID " +:+ name +:+ ".")
  | _ =>
      strk ← STRK_FEE_CONTRACT_ADDRESS;
      eth ← ETH_FEE_CONTRACT_ADDRESS;
      Ok {| ci_chain_id := chain_id;
            fee_token_addresses :=
              {| strk_fee_token_address := default strk strk_override;
                 eth_fee_token_address := eth |};
            is_l3 := false |}
  end.
End utils.

(** ** The asynchronous reader *)

Record HttpResponse := {
  is_success : bool;
  status_text : string;
  (** The body parsed as JSON, or the text of the error. *)
  body : string + Value;
}.

(** [Client::new().post(url).header(..).json(&body).send()]. *)
Class HttpStatus (W : Type) := {
  post_status : string → Value → W → (string + HttpResponse) * W;
}.

(** [RpcStateReaderConfig] of [config.rs]. *)
Record RpcStateReaderConfig := { rs_url : string; json_rpc_version : string }.

Record RpcStateReader `{StarknetApi} := {
  rs_config : RpcStateReaderConfig;
  rs_block_id : BlockId;
  rs_chain_info : ChainInfo;
}.

Definition from_url (url : string) : RpcStateReaderConfig :=
  {| rs_url := url; json_rpc_version := "2.0" |}.

Definition new_with_config_from_url `{StarknetApi} (node_url : string) (chain_info : ChainInfo)
    (block_id : BlockId) : RpcStateReader :=
  {| rs_config := from_url node_url; rs_block_id := block_id; rs_chain_info := chain_info |}.

Inductive RunnableCompiledClass `{Classes} :=
  | RunnableV0 (c : CompiledClassV0)
  | RunnableV1 (c : CompiledClassV1).

Inductive CompiledClasses `{Classes} :=
  | ClassesV0 (c : CompiledClassV0)
  | ClassesV1 (c : CompiledClassV1) (sierra : SierraContractClass).

Section block_id.
Context `{ApiSerde}.

(** Derived [Serialize] of an externally tagged enum. *)
Definition ser_block_id (b : BlockId) : Value :=
  match b with
  | Latest => JString "latest"
  | Pending => JString "pending"
  | Hash h => JObject [("block_hash", ser_felt h)]
  | Number n => JObject [("block_number", json_u64 n)]
  end.

(** The parameters of the requests, serialised with their members in the order
    of the structs. *)
Definition GetNonceParams (block_id : BlockId) (contract_address : ContractAddress) : Value := JObject [
  ("block_id", ser_block_id block_id); ("contract_address", ser_address contract_address)].

Definition GetStorageAtParams (contract_address : ContractAddress) (key : StorageKey) (block_id : BlockId)
    : Value := JObject [
  ("contract_address", ser_address contract_address); ("key", ser_storage_key key);
  ("block_id", ser_block_id block_id)].

Definition GetClassHashAtParams (contract_address : ContractAddress) (block_id : BlockId) : Value := JObject [
  ("contract_address", ser_address contract_address); ("block_id", ser_block_id block_id)].

Definition GetBlockWithTxHashesParams (block_id : BlockId) : Value := JObject [
  ("block_id", ser_block_id block_id)].
End block_id.

Section reader.
Context {W : Type} `{HttpStatus W} `{ApiSerde} `{SerdeJson} `{BlockTypes} `{!Classes}.
(** [serde_json::from_value::<BlockHeader>]. *)
Context (de_block_header : Value → res string BlockHeader).
Context (self : RpcStateReader).

(** The [match rpc_response] of [send_rpc_request_async]. *)
Definition classify_rpc_response (method : string) (params_json : Value) (r : RpcResponse)
    : res ReexecutionError Value :=
  match r with
  | Success _ result _ => Ok result
  | Error _ err _ =>
      if code err =? RPC_ERROR_BLOCK_NOT_FOUND then Err BlockNotFound
      else if code err =? RPC_ERROR_CONTRACT_ADDRESS_NOT_FOUND then Err ContractAddressNotFound
      else if code err =? RPC_CLASS_HASH_NOT_FOUND then Err ClassHashNotFound
      else if code err =? RPC_TRANSACTION_EXECUTION_ERROR then
        Err (TransactionExecution (message err))
      else if code err =? RPC_ERROR_INVALID_PARAMS then
        let data := match data err with
                    | Some d => " data=" +:+ json_to_string d
                    | None => ""
                    end in
        Err (InvalidParams (method +:+ ": " +:+ message err +:+ data +:+ " params="
               +:+ json_to_string params_json))
      else Err (UnexpectedRpc (code err) (message err))
  end.

Definition send_rpc_request_async (method : string) (params_json : Value)
    : prog W ReexecutionError Value := λ w,
  let request_body := JObject [
    ("jsonrpc", JString (json_rpc_version (rs_config self)));
    ("id", json_u64 0);
    ("method", JString method);
    ("params", params_json)] in
  let '(r, w1) := post_status (rs_url (rs_config self)) request_body w in
  (match r with
   | inl e => Err (RpcRequest e)
   | inr response =>
       if negb (is_success response) then Err (RpcStatus (status_text response))
       else match body response with
            | inl e => Err (RpcParse e)
            | inr v =>
                rpc_response ← map_err RpcParse (de_rpc_response v);
                classify_rpc_response method params_json rpc_response
            end
   end, w1).

Definition get_block_header : res ReexecutionError BlockHeader :=
  Err (State "blocking rpc_state_reader::get_block_header is not browser-safe; wasm callers must use async flow").

Definition get_block_header_async : prog W ReexecutionError BlockHeader :=
  json ← send_rpc_request_async "starknet_getBlockWithTxHashes"
    (GetBlockWithTxHashesParams (rs_block_id self));
  lift (map_err Serde (de_block_header json)).

Definition get_block_info_async : prog W ReexecutionError BlockInfo :=
  header ← get_block_header_async;
  lift (map_err State (block_info_of_header header)).

(** The three state queries share the treatment of an unknown contract. *)
Definition value_or_default (r : ReexecutionError + Value) : res ReexecutionError Felt :=
  match r with
  | inr value => map_err Serde (de_felt value)
  | inl ContractAddressNotFound => Ok (felt_of 0)
  | inl e => Err e
  end.

Definition get_nonce_at_async (contract_address : ContractAddress)
    : prog W ReexecutionError Nonce :=
  r ← attempt (send_rpc_request_async "starknet_getNonce"
    (GetNonceParams (rs_block_id self) contract_address));
  lift (value_or_default r).

Definition get_storage_at_async (contract_address : ContractAddress) (key : StorageKey)
    : prog W ReexecutionError Felt :=
  r ← attempt (send_rpc_request_async "starknet_getStorageAt"
    (GetStorageAtParams contract_address key (rs_block_id self)));
  lift (value_or_default r).

Definition get_class_hash_at_async (contract_address : ContractAddress)
    : prog W ReexecutionError ClassHash :=
  r ← attempt (send_rpc_request_async "starknet_getClassHashAt"
    (GetClassHashAtParams contract_address (rs_block_id self)));
  lift (value_or_default r).

Definition get_contract_class_async (class_hash : ClassHash)
    : prog W ReexecutionError (FlattenedSierra + CompressedLegacyContractClass) :=
  raw ← send_rpc_request_async "starknet_getClass" (JObject [
    ("block_id", ser_block_id (rs_block_id self));
    ("class_hash", JString (to_hex_string class_hash))]);
  lift (map_err RpcParse (de_contract_class raw)).

(** The [to_v0] closure; the [expect] is a panic on a 32-bit target. *)
Definition to_v0 (ep : LegacyContractEntryPoint) : res ReexecutionError EntryPointV0 :=
  if ep_offset ep <=? usize_max
  then Ok {| v0_offset := ep_offset ep;
             v0_selector := felt_from_bytes_be (felt_to_bytes_be (ep_selector ep)) |}
  else Panic "entry point offset overflow".

Definition map_legacy_entry_points (entry_points : LegacyEntryPointsByType)
    : res ReexecutionError (list (EntryPointType * list EntryPointV0)) :=
  c ← collect_res to_v0 (ep_constructor entry_points);
  e ← collect_res to_v0 (ep_external entry_points);
  l ← collect_res to_v0 (ep_l1_handler entry_points);
  Ok [(Constructor, c); (External, e); (L1Handler, l)].

Definition legacy_to_compiled_class_v0 (legacy : CompressedLegacyContractClass)
    : res ReexecutionError CompiledClassV0 :=
  program_json ← map_err (λ e, CompiledClass ("decompress legacy program: " +:+ e))
    (gunzip (lc_program legacy));
  program ← map_err (λ e, CompiledClass ("parse legacy program: " +:+ e))
    (parse_program program_json);
  entry_points_by_type ← map_legacy_entry_points (lc_entry_points_by_type legacy);
  map_err CompiledClass (compiled_v0_from program entry_points_by_type).

(** The CASM request that both class queries make for a Sierra class. *)
Definition get_casm_async (class_hash : ClassHash) (sierra_api : SierraContractClass)
    : prog W ReexecutionError CompiledClassV1 :=
  sierra_version ← lift (map_err (λ e, CompiledClass ("extract sierra version: " +:+ e))
    (extract_from_program sierra_api));
  casm_json ← send_rpc_request_async "starknet_getCompiledCasm"
    (JObject [("class_hash", JString (to_hex_string class_hash))]);
  lift (map_err CompiledClass (compiled_v1_from_json (json_to_string casm_json) sierra_version)).

Definition get_runnable_compiled_class_async (class_hash : ClassHash)
    : prog W ReexecutionError RunnableCompiledClass :=
  contract_class ← get_contract_class_async class_hash;
  match contract_class with
  | inl sierra =>
      compiled ← get_casm_async class_hash (sierra_from sierra);
      mret (RunnableV1 compiled)
  | inr legacy =>
      compiled ← lift (legacy_to_compiled_class_v0 legacy);
      mret (RunnableV0 compiled)
  end.

Definition get_compiled_classes_async (class_hash : ClassHash)
    : prog W ReexecutionError CompiledClasses :=
  contract_class ← get_contract_class_async class_hash;
  match contract_class with
  | inl sierra =>
      let sierra_api := sierra_from sierra in
      compiled ← get_casm_async class_hash sierra_api;
      mret (ClassesV1 compiled sierra_api)
  | inr legacy =>
      compiled ← lift (legacy_to_compiled_class_v0 legacy);
      mret (ClassesV0 compiled)
  end.

Definition is_declared_async (class_hash : ClassHash) : prog W ReexecutionError bool :=
  r ← attempt (get_contract_class_async class_hash);
  match r with
  | inr _ => mret true
  | inl ClassHashNotFound => mret false
  | inl e => throw e
  end.
End reader.

(** ** The synchronous reader

    blockifier's traits [StateReader] and [FetchCompiledClasses], as a record
    of operations; the virtual machine reads the state only through it. *)
Inductive StateError := StateReadError (msg : string).

Record StateReader `{StarknetApi} `{!Classes} := {
  get_storage_at : ContractAddress → StorageKey → res StateError Felt;
  get_nonce_at : ContractAddress → res StateError Nonce;
  get_class_hash_at : ContractAddress → res StateError ClassHash;
  get_compiled_class : ClassHash → res StateError RunnableCompiledClass;
  get_compiled_class_hash : ClassHash → res StateError CompiledClassHash;
  get_compiled_classes : ClassHash → res StateError CompiledClasses;
  is_declared : ClassHash → res StateError bool;
}.

(** A browser cannot block on a request: every read but [is_declared] fails. *)
Definition rpc_sync_reader `{StarknetApi} `{!Classes} : StateReader := {|
  get_storage_at _ _ := Err (StateReadError
    "browser-safe rpc reader does not expose blocking storage access; use get_storage_at_async");
  get_nonce_at _ := Err (StateReadError
    "browser-safe rpc reader does not expose blocking nonce access; use get_nonce_at_async");
  get_class_hash_at _ := Err (StateReadError
    "browser-safe rpc reader does not expose blocking class hash access; use get_class_hash_at_async");
  get_compiled_class _ := Err (StateReadError
    "browser-safe rpc reader does not expose blocking compiled class access; use get_runnable_compiled_class_async");
  get_compiled_class_hash _ := Err (StateReadError
    "browser-safe rpc reader does not support get_compiled_class_hash");
  get_compiled_classes _ := Err (StateReadError
    "browser-safe rpc reader does not expose blocking compiled classes access; use get_compiled_classes_async");
  is_declared _ := Ok true;
|}.

(** ** Initial reads of a simulation ([running/serde_utils.rs]) *)

Section initial_reads.
Context `{ApiSerde}.
(** serde's text for a value that does not fit the type. *)
Context (serde_message : Value → string).

Record StorageEntry := { se_contract_address : ContractAddress; se_key : StorageKey; se_value : Felt }.
Record NonceEntry := { ne_contract_address : ContractAddress; ne_nonce : Nonce }.
Record ClassHashEntry := { ce_contract_address : ContractAddress; ce_class_hash : ClassHash }.
Record DeclaredEntry := { de_class_hash : ClassHash; de_is_declared : bool }.

Record RpcInitialReads := {
  ir_storage : list StorageEntry;
  ir_nonces : list NonceEntry;
  ir_class_hashes : list ClassHashEntry;
  ir_declared_contracts : list DeclaredEntry;
}.

Definition de_storage_entry (v : Value) : option StorageEntry :=
  match struct_fields ["contract_address"; "key"; "value"] v with
  | Some [Some a; Some k; Some x] =>
      a ← ok (de_address a); k ← ok (de_storage_key k); x ← ok (de_felt x);
      Some {| se_contract_address := a; se_key := k; se_value := x |}
  | _ => None
  end.

Definition de_nonce_entry (v : Value) : option NonceEntry :=
  match struct_fields ["contract_address"; "nonce"] v with
  | Some [Some a; Some n] =>
      a ← ok (de_address a); n ← ok (de_felt n);
      Some {| ne_contract_address := a; ne_nonce := n |}
  | _ => None
  end.

Definition de_class_hash_entry (v : Value) : option ClassHashEntry :=
  match struct_fields ["contract_address"; "class_hash"] v with
  | Some [Some a; Some c] =>
      a ← ok (de_address a); c ← ok (de_felt c);
      Some {| ce_contract_address := a; ce_class_hash := c |}
  | _ => None
  end.

Definition de_declared_entry (v : Value) : option DeclaredEntry :=
  match struct_fields ["class_hash"; "is_declared"] v with
  | Some [Some c; Some b] =>
      c ← ok (de_felt c); b ← ok (de_bool b);
      Some {| de_class_hash := c; de_is_declared := b |}
  | _ => None
  end.

Definition de_vec {A} (f : Value → option A) (v : Value) : option (list A) :=
  match v with JArray l => mapM f l | _ => None end.

(** [#[serde(default)]]: a missing member is empty, [null] is an error. *)
Definition de_default {A} (f : Value → option (list A)) (v : option Value) : option (list A) :=
  match v with None => Some [] | Some v => f v end.

Definition initial_reads_fields (v : Value) : option (list (option Value)) :=
  match v with
  | JObject m => Some ((λ k, assoc k m) <$> ["storage"; "nonces"; "class_hashes"; "declared_contracts"])
  | JArray l =>
      if Nat.leb (length l) 4 then Some ((λ i, l !! i) <$> [0; 1; 2; 3]%nat) else None
  | _ => None
  end.

Definition de_initial_reads (v : Value) : option RpcInitialReads :=
  match initial_reads_fields v with
  | Some [s; n; c; d] =>
      s ← de_default (de_vec de_storage_entry) s;
      n ← de_default (de_vec de_nonce_entry) n;
      c ← de_default (de_vec de_class_hash_entry) c;
      d ← de_default (de_vec de_declared_entry) d;
      Some {| ir_storage := s; ir_nonces := n; ir_class_hashes := c; ir_declared_contracts := d |}
  | _ => None
  end.

(** [impl From<RpcInitialReads> for StateMaps]. *)
Definition state_maps_of_reads (reads : RpcInitialReads) : StateMaps := {|
  storage := map_extend ∅
    ((λ e, ((se_contract_address e, se_key e), se_value e)) <$> ir_storage reads);
  nonces := map_extend ∅ ((λ e, (ne_contract_address e, ne_nonce e)) <$> ir_nonces reads);
  class_hashes := map_extend ∅
    ((λ e, (ce_contract_address e, ce_class_hash e)) <$> ir_class_hashes reads);
  declared_contracts := map_extend ∅
    ((λ e, (de_class_hash e, de_is_declared e)) <$> ir_declared_contracts reads);
  compiled_class_hashes := ∅ |}.

Definition deserialize_rpc_initial_reads (value : Value) : res string StateMaps :=
  match de_initial_reads value with
  | Some reads => Ok (state_maps_of_reads reads)
  | None => Err (serde_message value)
  end.
End initial_reads.

(** ** Facts *)

(** serde reads back what it writes. *)
Class ApiSerdeLaws `{ApiSerde} := {
  de_ser_felt f : de_felt (ser_felt f) = Ok f;
  de_ser_address a : de_address (ser_address a) = Ok a;
  de_ser_storage_key k : de_storage_key (ser_storage_key k) = Ok k;
  de_ser_bool b : de_bool (JBool b) = Ok b;
}.

Section reader_facts.
Context {W : Type} `{HttpStatus W} `{ApiSerde} `{SerdeJson} `{BlockTypes} `{!Classes}.
Context (self : RpcStateReader).

(** The body of a successful exchange of [send_rpc_request_async]. *)
Definition rpc_exchange (method : string) (params : Value) (w w' : W) (v : Value) : Prop :=
  ∃ response,
    post_status (rs_url (rs_config self))
      (JObject [("jsonrpc", JString (json_rpc_version (rs_config self)));
                ("id", json_u64 0); ("method", JString method); ("params", params)]) w
      = (inr response, w') ∧
    is_success response = true ∧ body response = inr v.

Lemma exchange_inv method params w w' b r w1 :
  post_status (rs_url (rs_config self))
    (JObject [("jsonrpc", JString (json_rpc_version (rs_config self)));
              ("id", json_u64 0); ("method", JString method); ("params", params)]) w = (r, w1) →
  rpc_exchange method params w w' b ↔
  w' = w1 ∧ ∃ response, r = inr response ∧ is_success response = true ∧ body response = inr b.
Proof.
  intros Hp. unfold rpc_exchange. rewrite Hp. split.
  - intros (response & [= -> ->] & ?). eauto.
  - intros (-> & response & -> & ?). eauto.
Qed.

Lemma send_eq method params w r w1 :
  post_status (rs_url (rs_config self))
    (JObject [("jsonrpc", JString (json_rpc_version (rs_config self)));
              ("id", json_u64 0); ("method", JString method); ("params", params)]) w = (r, w1) →
  (∃ b, rpc_exchange method params w w1 b ∧
     send_rpc_request_async self method params w =
       (map_err RpcParse (de_rpc_response b) ≫= classify_rpc_response method params, w1)) ∨
  (∃ e, send_rpc_request_async self method params w = (Err e, w1) ∧
     e ≠ ContractAddressNotFound ∧ ∀ b w', ¬ rpc_exchange method params w w' b).
Proof.
  intros Hp. pose proof (λ w' b, exchange_inv method params w w' b r w1 Hp) as Hx.
  unfold send_rpc_request_async. rewrite Hp.
  destruct r as [e|response]; [|destruct (is_success response) eqn:Hs;
    [destruct (body response) as [e|b] eqn:Hb|]]; simpl.
  - right. eexists. split; [done|]. split; [done|].
    intros b w' (_ & ? & ? & _)%Hx. done.
  - right. eexists. split; [done|]. split; [done|].
    intros b w' (_ & ? & [= <-] & _ & ?)%Hx. congruence.
  - left. exists b. split; [|done]. apply Hx. eauto.
  - right. eexists. split; [done|]. split; [done|].
    intros b w' (_ & ? & [= <-] & ? & _)%Hx. congruence.
Qed.

Lemma exchange_fun method params w w1 w2 b1 b2 :
  rpc_exchange method params w w1 b1 → rpc_exchange method params w w2 b2 → w1 = w2 ∧ b1 = b2.
Proof.
  intros (r1 & H1' & _ & Hb1) (r2 & H2' & _ & Hb2). rewrite H1' in H2'.
  injection H2' as <- <-. rewrite Hb1 in Hb2. by injection Hb2 as <-.
Qed.

Lemma classify_Ok method params r v :
  classify_rpc_response method params r = Ok v ↔ ∃ j i, r = Success j v i.
Proof.
  unfold classify_rpc_response. destruct r as [j v' i|j e i].
  - split; [intros [= ->]; eauto|]. by intros (? & ? & [= <- <- <-]).
  - split; [|by intros (? & ? & ?)]. repeat (case_match; try done).
Qed.

Lemma classify_not_found method params r :
  classify_rpc_response method params r = Err ContractAddressNotFound ↔
  ∃ j e i, r = Error j e i ∧ code e = RPC_ERROR_CONTRACT_ADDRESS_NOT_FOUND.
Proof.
  unfold classify_rpc_response. destruct r as [j v' i|j e i].
  { split; [done|]. by intros (? & ? & ? & ? & _). }
  split.
  - intros Heq. exists j, e, i. split; [done|].
    destruct (code e =? RPC_ERROR_BLOCK_NOT_FOUND); [done|].
    destruct (Z.eqb_spec (code e) RPC_ERROR_CONTRACT_ADDRESS_NOT_FOUND); [done|].
    repeat (case_match; try done).
  - intros (? & ? & ? & [= <- <- <-] & Hc). by rewrite Hc.
Qed.

Lemma send_Ok method params w v w' :
  send_rpc_request_async self method params w = (Ok v, w') ↔
  ∃ b j i, rpc_exchange method params w w' b ∧ de_rpc_response b = Ok (Success j v i).
Proof.
  destruct (post_status (rs_url (rs_config self))
    (JObject [("jsonrpc", JString (json_rpc_version (rs_config self)));
              ("id", json_u64 0); ("method", JString method); ("params", params)]) w)
    as [r w1] eqn:Hp.
  destruct (send_eq method params w r w1 Hp) as [(b & Hx & ->)|(e & -> & _ & Hno)].
  - split.
    + intros [= Hm ->]. apply res_bind_Ok in Hm as (r' & Hr%map_err_Ok & Hc).
      apply classify_Ok in Hc as (j & i & ->). eauto.
    + intros (b' & j & i & Hx' & Hr). destruct (exchange_fun _ _ _ _ _ _ _ Hx Hx') as [-> ->].
      by rewrite Hr.
  - split; [done|]. intros (b & j & i & Hx & _). by destruct (Hno b w').
Qed.

Lemma send_not_found method params w w' :
  send_rpc_request_async self method params w = (Err ContractAddressNotFound, w') ↔
  ∃ b j err i, rpc_exchange method params w w' b ∧
    de_rpc_response b = Ok (Error j err i) ∧
    code err = RPC_ERROR_CONTRACT_ADDRESS_NOT_FOUND.
Proof.
  destruct (post_status (rs_url (rs_config self))
    (JObject [("jsonrpc", JString (json_rpc_version (rs_config self)));
              ("id", json_u64 0); ("method", JString method); ("params", params)]) w)
    as [r w1] eqn:Hp.
  destruct (send_eq method params w r w1 Hp) as [(b & Hx & ->)|(e & -> & Hne & Hno)].
  - split.
    + intros [= Hm ->]. destruct (de_rpc_response b) as [r'| | |] eqn:Hr; try done.
      apply classify_not_found in Hm as (j & err & i & -> & ?). eauto 10.
    + intros (b' & j & err & i & Hx' & Hr & Hc).
      destruct (exchange_fun _ _ _ _ _ _ _ Hx Hx') as [-> ->].
      rewrite Hr. simpl. by rewrite Hc.
  - split; [congruence|]. intros (b & j & err & i & Hx & _). by destruct (Hno b w').
Qed.

Lemma attempt_bind_eq {E' A B E} (m : prog W E' A) (k : E' + A → prog W E B) w :
  (attempt m ≫= k) w =
  match m w with
  | (Ok a, w1) => k (inr a) w1
  | (Err e, w1) => k (inl e) w1
  | (Panic s, w1) => (Panic s, w1)
  | (OutOfFuel, w1) => (OutOfFuel, w1)
  end.
Proof. unfold mbind, prog_bind, attempt. by destruct (m w) as [[] ?]. Qed.

(** A state query: the value the node reports, or zero for a contract the
    node does not know; any other failure is an error. *)
Definition query_result (method : string) (params : Value) (w w' : W) (f : Felt) : Prop :=
  (∃ b j v i, rpc_exchange method params w w' b ∧ de_rpc_response b = Ok (Success j v i) ∧
     de_felt v = Ok f) ∨
  (f = felt_of 0 ∧ ∃ b j err i, rpc_exchange method params w w' b ∧
     de_rpc_response b = Ok (Error j err i) ∧ code err = RPC_ERROR_CONTRACT_ADDRESS_NOT_FOUND).

Lemma query_Ok method params w f w' :
  (r ← attempt (send_rpc_request_async self method params); lift (value_or_default r)) w
    = (Ok f, w') ↔ query_result method params w w' f.
Proof.
  rewrite attempt_bind_eq. unfold query_result, lift.
  pose proof (send_Ok method params w) as Hok.
  pose proof (send_not_found method params w w') as Hnf.
  destruct (send_rpc_request_async self method params w) as [[v|e| |] w1]; simpl.
  - split.
    + intros [= Hm ->]. apply map_err_Ok in Hm. left.
      destruct (proj1 (Hok v w') eq_refl) as (b & j & i & ? & ?). eauto 10.
    + intros [(b & j & v' & i & He & Hr & Hd)|(-> & Hex)].
      * pose proof (proj2 (Hok v' w') ltac:(eauto)) as [= -> ->]. by rewrite Hd.
      * by apply Hnf in Hex.
  - assert (∀ v w2, ¬ ∃ b j i, rpc_exchange method params w w2 b ∧
      de_rpc_response b = Ok (Success j v i)) as Hno.
    { intros v w2 Hex. by apply Hok in Hex. }
    split.
    + intros Heq. destruct e; simpl in Heq; try done. injection Heq as -> ->.
      right. split; [done|]. by apply Hnf.
    + intros [(b & j & v & i & He & Hr & Hd)|(-> & Hex)]; [destruct (Hno v w'); eauto|].
      apply Hnf in Hex. injection Hex as -> ->. done.
  - split; [done|]. intros [(b & j & v' & i & He & Hr & Hd)|(-> & Hex)].
    + by pose proof (proj2 (Hok v' w') ltac:(eauto)).
    + by apply Hnf in Hex.
  - split; [done|]. intros [(b & j & v' & i & He & Hr & Hd)|(-> & Hex)].
    + by pose proof (proj2 (Hok v' w') ltac:(eauto)).
    + by apply Hnf in Hex.
Qed.

(** The nonce, storage and class-hash queries succeed with a felt exactly
    when the node answered the corresponding method with that felt or with
    the contract-not-found error, in which case the felt is zero. *)
Theorem state_queries_spec a k w f w' :
  (get_nonce_at_async self a w = (Ok f, w') ↔
   query_result "starknet_getNonce" (GetNonceParams (rs_block_id self) a) w w' f) ∧
  (get_storage_at_async self a k w = (Ok f, w') ↔
   query_result "starknet_getStorageAt" (GetStorageAtParams a k (rs_block_id self)) w w' f) ∧
  (get_class_hash_at_async self a w = (Ok f, w') ↔
   query_result "starknet_getClassHashAt" (GetClassHashAtParams a (rs_block_id self)) w w' f).
Proof. repeat split; apply query_Ok. Qed.
End reader_facts.

Section header_facts.
Context `{StarknetApi} `{BlockTypes}.

Definition header_prices (h : BlockHeader) : list Z :=
  [price_in_wei (bh_l1_gas_price h); price_in_fri (bh_l1_gas_price h);
   price_in_wei (bh_l1_data_gas_price h); price_in_fri (bh_l1_data_gas_price h);
   price_in_wei (bh_l2_gas_price h); price_in_fri (bh_l2_gas_price h)].

Lemma parse_gas_price_eq p :
  parse_gas_price p = if p =? 0 then Err ("invalid gas price: " +:+ pretty p) else Ok p.
Proof. done. Qed.

(** A block header becomes a block info exactly when its six gas prices are
    nonzero and its version parses; the number, the timestamp and the data-
    availability flag are the header's, and an error means that a price is
    zero or is the version parser's. *)
Theorem block_info_spec h :
  match block_info_of_header h with
  | Ok b => Forall (λ p, p ≠ 0) (header_prices h) ∧
      starknet_version_parse (bh_starknet_version h) = Ok (bi_starknet_version b) ∧
      bi_block_number b = bh_block_number h ∧ bi_block_timestamp b = bh_timestamp h ∧
      (bi_use_kzg_da b = true ↔ bh_l1_da_mode h = Blob)
  | Err e => Exists (λ p, p = 0) (header_prices h) ∨
      starknet_version_parse (bh_starknet_version h) = Err e
  | Panic e => starknet_version_parse (bh_starknet_version h) = Panic e
  | OutOfFuel => starknet_version_parse (bh_starknet_version h) = OutOfFuel
  end.
Proof.
  unfold block_info_of_header, header_prices, parse_gas_price.
  destruct (Z.eqb_spec (price_in_wei (bh_l1_gas_price h)) 0); simpl; [left; by constructor|].
  destruct (Z.eqb_spec (price_in_fri (bh_l1_gas_price h)) 0); simpl; [left; by do 2 constructor|].
  destruct (Z.eqb_spec (price_in_wei (bh_l1_data_gas_price h)) 0); simpl;
    [left; rewrite !Exists_cons; tauto|].
  destruct (Z.eqb_spec (price_in_fri (bh_l1_data_gas_price h)) 0); simpl;
    [left; rewrite !Exists_cons; tauto|].
  destruct (Z.eqb_spec (price_in_wei (bh_l2_gas_price h)) 0); simpl;
    [left; rewrite !Exists_cons; tauto|].
  destruct (Z.eqb_spec (price_in_fri (bh_l2_gas_price h)) 0); simpl;
    [left; rewrite !Exists_cons; tauto|].
  destruct (starknet_version_parse (bh_starknet_version h)); simpl; [|by right|done..].
  split; [by repeat constructor|]. repeat split; try done; by destruct (bh_l1_da_mode h).
Qed.
End header_facts.

Section initial_reads_facts.
Context `{ApiSerdeLaws} (serde_message : Value → string).

(** The JSON of [RETURN_INITIAL_READS]. *)
Definition initial_reads_json (reads : RpcInitialReads) : Value := JObject [
  ("storage", JArray ((λ e, JObject [
     ("contract_address", ser_address (se_contract_address e));
     ("key", ser_storage_key (se_key e)); ("value", ser_felt (se_value e))]) <$> ir_storage reads));
  ("nonces", JArray ((λ e, JObject [
     ("contract_address", ser_address (ne_contract_address e));
     ("nonce", ser_felt (ne_nonce e))]) <$> ir_nonces reads));
  ("class_hashes", JArray ((λ e, JObject [
     ("contract_address", ser_address (ce_contract_address e));
     ("class_hash", ser_felt (ce_class_hash e))]) <$> ir_class_hashes reads));
  ("declared_contracts", JArray ((λ e, JObject [
     ("class_hash", ser_felt (de_class_hash e));
     ("is_declared", JBool (de_is_declared e))]) <$> ir_declared_contracts reads))].

Lemma mapM_fmap_id {A} (f : Value → option A) (g : A → Value) l :
  (∀ x, f (g x) = Some x) → mapM f (g <$> l) = Some l.
Proof.
  intros Hfg. induction l as [|x l IH]; [done|].
  rewrite fmap_cons. cbn [mapM]. rewrite Hfg. simpl. by rewrite IH.
Qed.

Lemma de_initial_reads_json reads : de_initial_reads (initial_reads_json reads) = Some reads.
Proof.
  unfold de_initial_reads, initial_reads_json, initial_reads_fields. simpl.
  rewrite !mapM_fmap_id.
  1: by destruct reads.
  all: intros [];
    unfold de_declared_entry, de_class_hash_entry, de_nonce_entry, de_storage_entry; simpl.
  - by rewrite de_ser_address; simpl; rewrite de_ser_storage_key; simpl; rewrite de_ser_felt.
  - by rewrite de_ser_address; simpl; rewrite de_ser_felt.
  - by rewrite de_ser_address; simpl; rewrite de_ser_felt.
  - by rewrite de_ser_felt; simpl; rewrite de_ser_bool.
Qed.

(** The initial reads of a simulation are read back from their JSON as the
    state maps they describe, and each distinct storage and nonce entry is
    found under its key. *)
Theorem initial_reads_roundtrip reads :
  deserialize_rpc_initial_reads serde_message (initial_reads_json reads)
    = Ok (state_maps_of_reads reads) ∧
  (∀ e, e ∈ ir_storage reads →
     NoDup ((λ e, (se_contract_address e, se_key e)) <$> ir_storage reads) →
     storage (state_maps_of_reads reads) !! (se_contract_address e, se_key e) = Some (se_value e)) ∧
  (∀ e, e ∈ ir_nonces reads → NoDup (ne_contract_address <$> ir_nonces reads) →
     nonces (state_maps_of_reads reads) !! ne_contract_address e = Some (ne_nonce e)).
Proof.
  split; [|split].
  - unfold deserialize_rpc_initial_reads. by rewrite de_initial_reads_json.
  - intros e He Hnd. simpl. apply map_extend_NoDup.
    + rewrite <-list_fmap_compose. done.
    + apply list_elem_of_fmap. by exists e.
  - intros e He Hnd. simpl. apply map_extend_NoDup.
    + rewrite <-list_fmap_compose. done.
    + apply list_elem_of_fmap. by exists e.
Qed.
End initial_reads_facts.
