(* ===== verification/ReaderCopy.v ===== *)
(** * The older copy of the state reader

    [blockifier-reexecution-wasm/src/rpc_state_reader.rs] is no module of its
    crate any more; [state_reader/rpc_state_reader.rs] replaced it.  The copy
    is modelled to compare the two: it makes the same exchange and gives the
    same results, up to the text of one error, and its blocking request of a
    block header succeeds exactly when the asynchronous one does. *)

From S2P Require Import Prelude RustNum RustStr Json Felt StarknetApi StateReader.

Record OldReader `{StarknetApi} := {
  or_url : string;
  or_block_id : BlockId;
  or_chain_info : ChainInfo;
}.

Section old_reader.
Context {W : Type} `{HttpStatus W} `{ApiSerde} `{SerdeJson} `{BlockTypes} `{!Classes}.
Context (de_block_header : Value → res string BlockHeader) (url_parse : string → option string).

(** The URL is parsed here, and a panic when it is none. *)
Definition old_with_config_from_url (node_url : string) (chain_info : ChainInfo) (block_id : BlockId)
    : res string OldReader :=
  match url_parse node_url with
  | Some url => Ok {| or_url := url; or_block_id := block_id; or_chain_info := chain_info |}
  | None => Panic "Invalid RPC node URL"
  end.

Context (self : OldReader).

Definition old_classify (r : RpcResponse) : res ReexecutionError Value :=
  match r with
  | Success _ result _ => Ok result
  | Error _ err _ =>
      if code err =? RPC_ERROR_BLOCK_NOT_FOUND then Err BlockNotFound
      else if code err =? RPC_ERROR_CONTRACT_ADDRESS_NOT_FOUND then Err ContractAddressNotFound
      else if code err =? RPC_CLASS_HASH_NOT_FOUND then Err ClassHashNotFound
      else if code err =? RPC_TRANSACTION_EXECUTION_ERROR then Err (TransactionExecution (message err))
      else if code err =? RPC_ERROR_INVALID_PARAMS then Err (InvalidParams (message err))
      else Err (UnexpectedRpc (code err) (message err))
  end.

(** The request and the checks of its reply, which both requests make. *)
Definition old_request (method : string) (params : Value) : prog W ReexecutionError RpcResponse := λ w,
  let request_body := JObject [
    ("jsonrpc", JString "2.0"); ("id", json_u64 0); ("method", JString method); ("params", params)] in
  let '(r, w1) := post_status (or_url self) request_body w in
  (match r with
   | inl e => Err (RpcRequest e)
   | inr response =>
       if negb (is_success response) then Err (RpcStatus (status_text response))
       else match body response with
            | inl e => Err (RpcParse e)
            | inr v => map_err RpcParse (de_rpc_response v)
            end
   end, w1).

Definition old_send_rpc_request_async (method : string) (params : Value) : prog W ReexecutionError Value :=
  rpc_response ← old_request method params;
  lift (old_classify rpc_response).

(** Blocking, and refused on wasm; here every RPC error is unexpected. *)
Definition old_get_block_header (wasm : bool) : prog W ReexecutionError BlockHeader :=
  if wasm then
    throw (State "blocking get_block_header is unavailable on wasm; use async RPC flow")
  else
    rpc_response ← old_request "starknet_getBlockWithTxHashes"
      (GetBlockWithTxHashesParams (or_block_id self));
    value ← lift (match rpc_response with
                  | Success _ result _ => Ok result
                  | Error _ err _ => Err (UnexpectedRpc (code err) (message err))
                  end);
    lift (map_err Serde (de_block_header value)).

Definition old_get_block_info (wasm : bool) : prog W ReexecutionError BlockInfo :=
  header ← old_get_block_header wasm;
  lift (map_err State (block_info_of_header header)).

(** The synchronous traits: every read fails, the declaration of a class too. *)
Definition old_sync_reader : StateReader := {|
  get_storage_at _ _ := Err (StateReadError "wasm rpc state reader storage access must use async path");
  get_nonce_at _ := Err (StateReadError "wasm rpc state reader nonce access must use async path");
  get_class_hash_at _ := Err (StateReadError "wasm rpc state reader class hash access must use async path");
  get_compiled_class _ := Err (StateReadError
    "wasm rpc state reader compiled class access not implemented yet");
  get_compiled_class_hash _ := Err (StateReadError
    "wasm rpc state reader compiled class hash access not implemented yet");
  get_compiled_classes _ := Err (StateReadError
    "wasm rpc state reader compiled classes access not implemented yet");
  is_declared _ := Err (StateReadError "wasm rpc state reader declaration access not implemented yet");
|}.

(** ** The comparison *)

(** The reader that replaced it, for the same node and block. *)
Definition replacement_reader : RpcStateReader :=
  new_with_config_from_url (or_url self) (or_chain_info self) (or_block_id self).

(** The same result, or both reject the parameters, in different words. *)
Definition same_result {A} (r r' : res ReexecutionError A) : Prop :=
  r = r' ∨ ∃ m m', r = Err (InvalidParams m) ∧ r' = Err (InvalidParams m').

Lemma send_split method params w :
  send_rpc_request_async replacement_reader method params w
  = (let '(r, w1) := old_request method params w in (r ≫= classify_rpc_response method params, w1)).
Proof.
  unfold send_rpc_request_async, old_request, replacement_reader, new_with_config_from_url, from_url. cbn.
  destruct (post_status _ _ w) as [[e|response] w1]; [done|].
  destruct (is_success response); [|done]. by destruct (body response).
Qed.

Lemma classify_same method params r : same_result (old_classify r) (classify_rpc_response method params r).
Proof.
  unfold old_classify, classify_rpc_response. destruct r as [j v i|j e i]; [by left|].
  repeat (case_match; [by left|]). case_match; [right; eauto|by left].
Qed.

(** The older reader and the one that replaced it make the same exchange and
    return the same result of every request, up to the text of rejected
    parameters; where blocking is possible the older one obtains a block
    header exactly when the other does; and of the reads of the synchronous
    traits they differ in [is_declared], which the older one refuses and the
    other answers with true. *)
Theorem copies_agree method params w w' h :
  (let '(r, w1) := old_send_rpc_request_async method params w in
   let '(r', w2) := send_rpc_request_async replacement_reader method params w in
   same_result r r' ∧ w1 = w2) ∧
  (old_get_block_header false w = (Ok h, w') ↔
   get_block_header_async de_block_header replacement_reader w = (Ok h, w')) ∧
  (∀ c, is_declared old_sync_reader c ≠ is_declared rpc_sync_reader c).
Proof.
  split_and!; [| |done].
  - rewrite send_split. unfold old_send_rpc_request_async, mbind at 1, prog_bind at 1.
    destruct (old_request method params w) as [[r|e|e|] w1]; [|by split; [left|]..].
    split; [apply classify_same|done].
  - unfold old_get_block_header, get_block_header_async, mbind, prog_bind. rewrite send_split.
    change (rs_block_id replacement_reader) with (or_block_id self).
    destruct (old_request _ _ w) as [[r|e|e|] w1]; cbn; [|done..].
    destruct r as [j v i|j e i]; [done|]. split; [done|].
    match goal with |- context [classify_rpc_response ?m ?p ?r] =>
      destruct (classify_rpc_response m p r) eqn:Hc end; [|done..].
    by apply classify_Ok in Hc as (? & ? & ?).
Qed.
End old_reader.
