(* ===== verification/ProofQuery.v ===== *)
(** * Chunked storage-proof queries
    ([crates/starknet-transaction-prover-wasm/src/running/storage_proofs.rs], 42-254)

    A query for more than [MAX_KEYS_PER_REQUEST] keys is flattened, cut into
    chunks, asked chunk by chunk and merged.  [fetch_proofs_honest] shows that
    against a node that answers key by key this is indistinguishable from one
    request; [fetch_proofs_total] that no reply of any node makes it panic. *)

From S2P Require Import Prelude RustNum Json Felt StarknetApi.

Inductive ProofProviderError :=
  | InvalidStateDiff (msg : string)
  | ProviderRpc (msg : string)
  | SerializationError (msg : string)
  | InvalidProofResponse (msg : string)
  | BlockCommitmentError (msg : string).

(** [Display]; an error of another crate is its text. *)
Definition proof_provider_error_text (e : ProofProviderError) : string :=
  match e with
  | InvalidStateDiff m => "Invalid state diff: " +:+ m
  | ProviderRpc m => "RPC provider error: " +:+ m
  | SerializationError m => m
  | InvalidProofResponse m => "Invalid RPC proof response: " +:+ m
  | BlockCommitmentError m => "Block commitment error: " +:+ m
  end.

Definition MAX_KEYS_PER_REQUEST : nat := 100.

(** [starknet_getStorageProof] of the starknet-rust client: block number,
    class hashes, contract addresses, storage keys. *)
Class ProofRpc (W : Type) `{FeltOps} := {
  get_storage_proof :
    Z → list Felt → list Felt → list ContractStorageKeys → W → (string + RpcStorageProof) * W;
}.

(** [slice::chunks]. *)
Fixpoint chunks_fuel {A} (fuel n : nat) (l : list A) : list (list A) :=
  match fuel, l with
  | S fuel, _ :: _ => take n l :: chunks_fuel fuel n (drop n l)
  | _, _ => []
  end.
Definition chunks {A} (n : nat) (l : list A) : list (list A) := chunks_fuel (length l) n l.

Section query.
Context `{StarknetApi}.

Record RpcStorageProofsQuery := {
  q_class_hashes : list Felt;
  q_contract_addresses : list ContractAddress;
  q_contract_storage_keys : list ContractStorageKeys;
}.

Definition default_query : RpcStorageProofsQuery :=
  {| q_class_hashes := []; q_contract_addresses := []; q_contract_storage_keys := [] |}.

Definition count_total_keys (query : RpcStorageProofsQuery) : nat :=
  length (q_class_hashes query) + length (q_contract_addresses query)
  + sum_list_with (λ csk, length (csk_storage_keys csk)) (q_contract_storage_keys query).

Inductive QueryItem :=
  | QClassHash (h : Felt)
  | QContractAddress (a : ContractAddress)
  | QStorageKey (contract_address key : Felt).

Definition csk_items (contract : ContractStorageKeys) : list QueryItem :=
  QStorageKey (csk_contract_address contract) <$> csk_storage_keys contract.

Definition flatten_query (query : RpcStorageProofsQuery) : list QueryItem :=
  (QClassHash <$> q_class_hashes query)
  ++ (QContractAddress <$> q_contract_addresses query)
  ++ mjoin (csk_items <$> q_contract_storage_keys query).

(** Push a storage key: onto the last group when it has the same contract,
    otherwise as a new group. *)
Definition push_storage_key (contract_address key : Felt) (l : list ContractStorageKeys)
    : list ContractStorageKeys :=
  match last l with
  | Some g =>
      if decide (csk_contract_address g = contract_address)
      then removelast l ++ [{| csk_contract_address := csk_contract_address g;
                               csk_storage_keys := csk_storage_keys g ++ [key] |}]
      else l ++ [{| csk_contract_address := contract_address; csk_storage_keys := [key] |}]
  | None => l ++ [{| csk_contract_address := contract_address; csk_storage_keys := [key] |}]
  end.

Definition push_item (query : RpcStorageProofsQuery) (item : QueryItem) : RpcStorageProofsQuery :=
  match item with
  | QClassHash h =>
      {| q_class_hashes := q_class_hashes query ++ [h];
         q_contract_addresses := q_contract_addresses query;
         q_contract_storage_keys := q_contract_storage_keys query |}
  | QContractAddress a =>
      {| q_class_hashes := q_class_hashes query;
         q_contract_addresses := q_contract_addresses query ++ [a];
         q_contract_storage_keys := q_contract_storage_keys query |}
  | QStorageKey a k =>
      {| q_class_hashes := q_class_hashes query;
         q_contract_addresses := q_contract_addresses query;
         q_contract_storage_keys := push_storage_key a k (q_contract_storage_keys query) |}
  end.

Definition collect_query (items : list QueryItem) : RpcStorageProofsQuery :=
  fold_left push_item items default_query.

Definition split_query (query : RpcStorageProofsQuery) (max_keys : nat)
    : res ProofProviderError (list RpcStorageProofsQuery) :=
  if Nat.ltb 0 max_keys
  then Ok (collect_query <$> chunks max_keys (flatten_query query))
  else Panic "max_keys must be positive".

(** ** Merging *)

(** [addr_to_idx]: a later index replaces an earlier one. *)
Definition addr_to_idx (query : RpcStorageProofsQuery) : gmap Felt nat :=
  map_extend ∅ (imap (λ i csk, (csk_contract_address csk, i)) (q_contract_storage_keys query)).

(** The inner loop over the groups of one chunk. *)
Fixpoint merge_groups (idx : gmap Felt nat) (groups : list (ContractStorageKeys * (list (Felt * MerkleNode))))
    (acc : list (list (Felt * MerkleNode))) : res ProofProviderError (list (list (Felt * MerkleNode))) :=
  match groups with
  | [] => Ok acc
  | (csk, storage_proof) :: groups =>
      match idx !! csk_contract_address csk with
      | None => Panic "chunk address not in original query"
      | Some i =>
          match acc !! i with
          | None => Panic "index out of bounds"
          | Some m => merge_groups idx groups (<[i := index_extend m storage_proof]> acc)
          end
      end
  end.

(** The outer loop; [zip] stops at the shorter list. *)
Fixpoint merge_chunks (idx : gmap Felt nat)
    (pairs : list (RpcStorageProofsQuery * RpcStorageProof)) (acc : RpcStorageProof)
    : res ProofProviderError RpcStorageProof :=
  match pairs with
  | [] => Ok acc
  | (chunk_query, proof) :: pairs =>
      storage ← merge_groups idx
        (zip (q_contract_storage_keys chunk_query) (contracts_storage_proofs proof))
        (contracts_storage_proofs acc);
      merge_chunks idx pairs {|
        classes_proof := index_extend (classes_proof acc) (classes_proof proof);
        contracts_proof := {|
          nodes := index_extend (nodes (contracts_proof acc)) (nodes (contracts_proof proof));
          contract_leaves_data := contract_leaves_data (contracts_proof acc)
            ++ contract_leaves_data (contracts_proof proof) |};
        contracts_storage_proofs := storage;
        global_roots := global_roots acc |}
  end.

Definition merge_storage_proofs (proofs : list RpcStorageProof)
    (split_queries : list RpcStorageProofsQuery) (original_query : RpcStorageProofsQuery)
    : res ProofProviderError RpcStorageProof :=
  if negb (Nat.eqb (length proofs) (length split_queries))
  then Panic "proofs/queries length mismatch"
  else match proofs with
       | [] => Panic "cannot merge zero proofs"
       | first :: _ =>
           merge_chunks (addr_to_idx original_query) (zip split_queries proofs) {|
             classes_proof := [];
             contracts_proof := {| nodes := []; contract_leaves_data := [] |};
             contracts_storage_proofs :=
               replicate (length (q_contract_storage_keys original_query)) [];
             global_roots := global_roots first |}
       end.
End query.

Section fetch.
Context {W : Type} `{StarknetApi} `{!ProofRpc W}.

Definition fetch_single_proof (block_number : Z) (query : RpcStorageProofsQuery)
    : prog W ProofProviderError RpcStorageProof := λ w,
  let contract_addresses := address_key <$> q_contract_addresses query in
  let '(r, w1) := get_storage_proof block_number (q_class_hashes query) contract_addresses
                    (q_contract_storage_keys query) w in
  (match r with inl e => Err (ProviderRpc e) | inr p => Ok p end, w1).

Definition fetch_proofs (block_number : Z) (query : RpcStorageProofsQuery)
    : prog W ProofProviderError RpcStorageProof :=
  if Nat.leb (count_total_keys query) MAX_KEYS_PER_REQUEST
  then fetch_single_proof block_number query
  else
    chunks ← lift (split_query query MAX_KEYS_PER_REQUEST);
    proofs ← for_each (fetch_single_proof block_number) chunks;
    lift (merge_storage_proofs proofs chunks query).
End fetch.

(** ** Splitting *)

Section chunks_facts.
Context {A : Type}.
Implicit Types l : list A.

Lemma chunks_fuel_spec fuel n l :
  (0 < n)%nat → (length l ≤ fuel)%nat →
  mjoin (chunks_fuel fuel n l) = l ∧
  Forall (λ c, (0 < length c ≤ n)%nat) (chunks_fuel fuel n l).
Proof.
  intros Hn. revert l. induction fuel as [|fuel IH]; intros [|x l] Hl; simpl in Hl; try lia;
    [done..|]. cbn [chunks_fuel].
  destruct (IH (drop n (x :: l))) as [IHj IHl].
  { rewrite length_drop. simpl. lia. }
  split.
  - by rewrite mjoin_cons, IHj, take_drop.
  - constructor; [|done]. rewrite length_take. simpl. lia.
Qed.

Lemma mjoin_chunks n l : (0 < n)%nat → mjoin (chunks n l) = l.
Proof. intros. by apply chunks_fuel_spec. Qed.

Lemma chunks_lengths n l : (0 < n)%nat → Forall (λ c, (0 < length c ≤ n)%nat) (chunks n l).
Proof. intros. by apply chunks_fuel_spec. Qed.

(** What holds of the list and passes to prefixes and suffixes holds of
    every chunk. *)
Lemma chunks_closed (P : list A → Prop) n l :
  (∀ k l, P l → P (take k l)) → (∀ k l, P l → P (drop k l)) → P l → Forall P (chunks n l).
Proof.
  intros Ht Hd. unfold chunks. generalize (length l) as fuel. intros fuel. revert l.
  induction fuel as [|fuel IH]; intros [|x l] Hl; try constructor; auto.
Qed.
End chunks_facts.

Section split_facts.
Context `{StarknetApi}.
Implicit Types (items : list QueryItem) (q : RpcStorageProofsQuery).

Definition item_class (x : QueryItem) : option Felt :=
  match x with QClassHash h => Some h | _ => None end.
Definition item_address (x : QueryItem) : option ContractAddress :=
  match x with QContractAddress a => Some a | _ => None end.
Definition item_storage (x : QueryItem) : option (Felt * Felt) :=
  match x with QStorageKey a k => Some (a, k) | _ => None end.

(** The order of a flattened query: classes, contracts, storage keys. *)
Definition in_order items : Prop :=
  items = ((QClassHash <$> omap item_class items)
    ++ (QContractAddress <$> omap item_address items)
    ++ ((λ p, QStorageKey p.1 p.2) <$> omap item_storage items))%list.

(** The (contract, key) pairs of the groups. *)
Definition csk_pairs (csk : ContractStorageKeys) : list (Felt * Felt) :=
  pair (csk_contract_address csk) <$> csk_storage_keys csk.
Definition groups_pairs (l : list ContractStorageKeys) : list (Felt * Felt) :=
  mjoin (csk_pairs <$> l).

Lemma groups_pairs_app l l' : groups_pairs (l ++ l') = (groups_pairs l ++ groups_pairs l')%list.
Proof. unfold groups_pairs. by rewrite fmap_app, join_app. Qed.

Lemma push_storage_key_pairs a k l :
  groups_pairs (push_storage_key a k l) = (groups_pairs l ++ [(a, k)])%list.
Proof.
  unfold push_storage_key. destruct l as [|g l _] using rev_ind; [done|].
  rewrite last_snoc, removelast_last. case_decide as Hg; rewrite !groups_pairs_app.
  - rewrite <-app_assoc. f_equal. unfold groups_pairs, csk_pairs. simpl.
    rewrite fmap_app, !app_nil_r, Hg. done.
  - done.
Qed.

Lemma collect_query_snoc items x :
  collect_query (items ++ [x]) = push_item (collect_query items) x.
Proof. unfold collect_query. by rewrite fold_left_app. Qed.

Lemma collect_query_spec items :
  q_class_hashes (collect_query items) = omap item_class items ∧
  q_contract_addresses (collect_query items) = omap item_address items ∧
  groups_pairs (q_contract_storage_keys (collect_query items)) = omap item_storage items.
Proof.
  induction items as [|x items (IH1 & IH2 & IH3)] using rev_ind; [done|].
  rewrite collect_query_snoc, !omap_app.
  destruct x; simpl; rewrite ?IH1, ?IH2, ?IH3, ?app_nil_r; try done.
  rewrite push_storage_key_pairs. by rewrite IH3.
Qed.

Lemma flatten_pairs q :
  flatten_query q = ((QClassHash <$> q_class_hashes q)
    ++ (QContractAddress <$> q_contract_addresses q)
    ++ ((λ p, QStorageKey p.1 p.2) <$> groups_pairs (q_contract_storage_keys q)))%list.
Proof.
  unfold flatten_query. do 2 f_equal. unfold groups_pairs.
  induction (q_contract_storage_keys q) as [|g l IH]; [done|].
  rewrite !fmap_cons, !mjoin_cons, fmap_app, <-IH. f_equal.
  unfold csk_items, csk_pairs. by rewrite <-list_fmap_compose.
Qed.

Lemma flatten_collect items : in_order items → flatten_query (collect_query items) = items.
Proof.
  intros Ho. rewrite flatten_pairs.
  destruct (collect_query_spec items) as (-> & -> & ->). by rewrite <-Ho.
Qed.

Lemma omap_fmap_Some {A B} (f : A → B) (g : B → option A) (l : list A) :
  (∀ x, g (f x) = Some x) → omap g (f <$> l) = l.
Proof. intros Hg. induction l as [|x l IH]; [done|]. csimpl. by rewrite Hg, IH. Qed.

Lemma omap_fmap_const_None {A B C} (f : A → B) (g : B → option C) (l : list A) :
  (∀ x, g (f x) = None) → omap g (f <$> l) = [].
Proof. intros Hg. induction l as [|x l IH]; [done|]. csimpl. by rewrite Hg, IH. Qed.

Lemma omap_parts l1 l2 l3 :
  let items := ((QClassHash <$> l1) ++ (QContractAddress <$> l2)
    ++ ((λ p, QStorageKey p.1 p.2) <$> l3))%list in
  omap item_class items = l1 ∧ omap item_address items = l2 ∧ omap item_storage items = l3.
Proof.
  intros items. unfold items. rewrite !omap_app.
  set (st := λ p, QStorageKey p.1 p.2).
  rewrite (omap_fmap_Some QClassHash item_class), (omap_fmap_Some QContractAddress item_address),
    (omap_fmap_Some st item_storage) by (done || by intros []).
  rewrite (omap_fmap_const_None QClassHash item_address),
    (omap_fmap_const_None QClassHash item_storage),
    (omap_fmap_const_None QContractAddress item_class),
    (omap_fmap_const_None QContractAddress item_storage),
    (omap_fmap_const_None st item_class), (omap_fmap_const_None st item_address) by done.
  by rewrite !app_nil_r.
Qed.

Lemma in_order_intro l1 l2 l3 :
  in_order ((QClassHash <$> l1) ++ (QContractAddress <$> l2)
    ++ ((λ p, QStorageKey p.1 p.2) <$> l3))%list.
Proof. unfold in_order. by destruct (omap_parts l1 l2 l3) as (-> & -> & ->). Qed.

Lemma in_order_take n items : in_order items → in_order (take n items).
Proof. intros Ho. rewrite Ho, !take_app, <-!fmap_take. apply in_order_intro. Qed.

Lemma in_order_drop n items : in_order items → in_order (drop n items).
Proof. intros Ho. rewrite Ho, !drop_app, <-!fmap_drop. apply in_order_intro. Qed.

Lemma in_order_flatten q : in_order (flatten_query q).
Proof. rewrite flatten_pairs. apply in_order_intro. Qed.

Lemma count_total_keys_flatten q : count_total_keys q = length (flatten_query q).
Proof.
  unfold count_total_keys, flatten_query. rewrite !length_app, !length_fmap, <-Nat.add_assoc.
  do 2 f_equal. induction (q_contract_storage_keys q) as [|g l IH]; [done|].
  rewrite fmap_cons, mjoin_cons, length_app, <-IH. cbn [sum_list_with]. unfold csk_items. by rewrite length_fmap.
Qed.

Lemma split_query_eq q n :
  (0 < n)%nat → split_query q n = Ok (collect_query <$> chunks n (flatten_query q)).
Proof. intros ?. unfold split_query. by rewrite (proj2 (Nat.ltb_lt 0 n)). Qed.

Lemma split_flatten q n :
  (0 < n)%nat →
  flatten_query <$> (collect_query <$> chunks n (flatten_query q)) = chunks n (flatten_query q).
Proof.
  intros Hn. rewrite <-list_fmap_compose. rewrite <-(list_fmap_id (chunks n (flatten_query q))) at 2.
  apply list_fmap_ext. intros i c Hc. simpl. apply flatten_collect.
  pose proof (chunks_closed in_order n (flatten_query q) in_order_take in_order_drop
    (in_order_flatten q)) as Hall.
  rewrite Forall_lookup in Hall. eauto.
Qed.

(** split_query partitions a query: the items of the chunks, concatenated,
    are the items of the query in order, and every chunk has between 1 and
    max_keys keys; it panics exactly when max_keys is zero. *)
Theorem split_query_partition q max_keys :
  match split_query q max_keys with
  | Ok qs => (0 < max_keys)%nat ∧ mjoin (flatten_query <$> qs) = flatten_query q ∧
      Forall (λ c, (0 < count_total_keys c ≤ max_keys)%nat) qs
  | Panic _ => max_keys = 0%nat
  | _ => False
  end.
Proof.
  unfold split_query. destruct (Nat.ltb_spec 0 max_keys) as [Hn|]; [|lia].
  split; [done|]. rewrite split_flatten by done. split; [by apply mjoin_chunks|].
  pose proof (chunks_lengths max_keys (flatten_query q) Hn) as Hl.
  rewrite <-split_flatten in Hl by done. rewrite Forall_fmap in Hl.
  eapply Forall_impl; [exact Hl|]. intros c. simpl. by rewrite count_total_keys_flatten.
Qed.
End split_facts.

(** ** Merging *)

Section merge_facts.
Context `{StarknetApi}.
Implicit Types q : RpcStorageProofsQuery.

Lemma groups_pairs_collect items a :
  a ∈ csk_contract_address <$> q_contract_storage_keys (collect_query items) →
  ∃ k, QStorageKey a k ∈ items.
Proof.
  induction items as [|x items IH] using rev_ind; [by intros ?%elem_of_nil|].
  rewrite collect_query_snoc. intros Hin.
  assert (a ∈ csk_contract_address <$> q_contract_storage_keys (collect_query items) ∨
    ∃ k, x = QStorageKey a k) as [Hin'|[k ->]].
  { destruct x as [h|c|a' k]; simpl in Hin; [by left..|].
    unfold push_storage_key in Hin.
    destruct (q_contract_storage_keys (collect_query items)) as [|g l _] using rev_ind.
    { apply list_elem_of_singleton in Hin as ->. right. eauto. }
    rewrite last_snoc, removelast_last in Hin. case_decide; rewrite !fmap_app in Hin.
    - left. rewrite fmap_app. done.
    - apply elem_of_app in Hin as [?|Hin]; [left; by rewrite fmap_app|].
      apply list_elem_of_singleton in Hin as ->. right. eauto. }
  - destruct (IH Hin') as [k ?]. exists k. apply elem_of_app. by left.
  - exists k. apply elem_of_app. right. by left.
Qed.

Lemma flatten_storage_key q a k :
  QStorageKey a k ∈ flatten_query q →
  a ∈ csk_contract_address <$> q_contract_storage_keys q.
Proof.
  unfold flatten_query. rewrite !elem_of_app, !list_elem_of_fmap.
  intros [(? & ? & _)|[(? & ? & _)|Hin]]; [done..|].
  apply list_elem_of_join in Hin as (l & Hin & Hl).
  apply list_elem_of_fmap in Hl as (g & -> & Hg).
  apply list_elem_of_fmap in Hin as (k' & [= -> _] & _). by exists g.
Qed.

(** Every group of a chunk belongs to a contract of the original query. *)
Lemma split_addresses q n qs :
  split_query q n = Ok qs →
  Forall (λ c, Forall (λ g, csk_contract_address g ∈
    csk_contract_address <$> q_contract_storage_keys q) (q_contract_storage_keys c)) qs.
Proof.
  unfold split_query. destruct (Nat.ltb_spec 0 n) as [Hn|]; [|done]. intros [= <-].
  apply Forall_fmap, Forall_forall. intros c Hc. simpl. apply Forall_forall. intros g Hg.
  destruct (groups_pairs_collect c (csk_contract_address g)) as [k Hk].
  { apply list_elem_of_fmap. by exists g. }
  apply (flatten_storage_key q _ k). rewrite <-(mjoin_chunks n) by done.
  apply list_elem_of_join. eauto.
Qed.

Lemma addr_to_idx_lookup q a :
  a ∈ csk_contract_address <$> q_contract_storage_keys q →
  ∃ i csk, addr_to_idx q !! a = Some i ∧ q_contract_storage_keys q !! i = Some csk ∧
    csk_contract_address csk = a.
Proof.
  intros Ha. unfold addr_to_idx.
  set (l := imap _ _).
  assert (l.*1 = csk_contract_address <$> q_contract_storage_keys q) as Hl.
  { unfold l. rewrite fmap_imap. apply list_eq. intros i.
    rewrite list_lookup_imap, list_lookup_fmap. done. }
  destruct (map_extend_in (∅ : gmap Felt nat) l a) as (i & Hi & ->); [by rewrite Hl|].
  unfold l in Hi. apply list_elem_of_lookup in Hi as [j Hj].
  rewrite list_lookup_imap in Hj. apply fmap_Some in Hj as (csk & Hcsk & [= -> ->]).
  exists j, csk. done.
Qed.

Lemma addr_to_idx_NoDup q i csk :
  NoDup (csk_contract_address <$> q_contract_storage_keys q) →
  q_contract_storage_keys q !! i = Some csk →
  addr_to_idx q !! csk_contract_address csk = Some i.
Proof.
  intros Hnd Hi. destruct (addr_to_idx_lookup q (csk_contract_address csk)) as (j & csk' & -> & Hj & Heq).
  { apply list_elem_of_fmap. exists csk. split; [done|]. by eapply list_elem_of_lookup_2. }
  f_equal. eapply (NoDup_lookup _ j i (csk_contract_address csk) Hnd);
    rewrite list_lookup_fmap; [rewrite Hj|rewrite Hi]; simpl; congruence.
Qed.

(** The loops neither panic nor change the number of storage proofs. *)
Lemma merge_groups_total idx groups acc :
  Forall (λ p, ∃ i, idx !! csk_contract_address p.1 = Some i ∧ (i < length acc)%nat) groups →
  ∃ acc', merge_groups idx groups acc = Ok acc' ∧ length acc' = length acc.
Proof.
  revert acc. induction groups as [|[g m] groups IH]; intros acc Hall; [by exists acc|].
  apply Forall_cons in Hall as [(i & Hi & Hlt) Hall]. simpl in Hi.
  cbn [merge_groups]. rewrite Hi.
  destruct (acc !! i) as [x|] eqn:Hx; [|apply lookup_ge_None in Hx; lia].
  destruct (IH (<[i := index_extend x m]> acc)) as (acc' & Hacc' & Hlen).
  { eapply Forall_impl; [exact Hall|]. intros p. by rewrite length_insert. }
  exists acc'. split; [done|]. by rewrite Hlen, length_insert.
Qed.

Lemma merge_chunks_total idx pairs acc n :
  length (contracts_storage_proofs acc) = n →
  Forall (λ p, Forall (λ g, ∃ i, idx !! csk_contract_address g = Some i ∧ (i < n)%nat)
    (q_contract_storage_keys p.1)) pairs →
  ∃ acc', merge_chunks idx pairs acc = Ok acc' ∧ length (contracts_storage_proofs acc') = n.
Proof.
  revert acc. induction pairs as [|[c p] pairs IH]; intros acc Hn Hall; simpl; [eauto|].
  apply Forall_cons in Hall as [Hc Hall]. simpl in Hc.
  destruct (merge_groups_total idx (zip (q_contract_storage_keys c) (contracts_storage_proofs p))
    (contracts_storage_proofs acc)) as (storage & -> & Hlen).
  { apply Forall_forall. intros [g m] Hin. apply elem_of_zip_l in Hin. simpl.
    rewrite Forall_forall in Hc. rewrite Hn. by apply Hc. }
  simpl. apply IH; [|done]. simpl. congruence.
Qed.

Lemma merge_storage_proofs_total q n qs proofs :
  split_query q n = Ok qs → qs ≠ [] → length proofs = length qs →
  ∃ p, merge_storage_proofs proofs qs q = Ok p ∧
    length (contracts_storage_proofs p) = length (q_contract_storage_keys q).
Proof.
  intros Hs Hne Hlen. unfold merge_storage_proofs. rewrite Hlen, Nat.eqb_refl. simpl.
  destruct proofs as [|p0 proofs]; [by destruct qs|].
  apply merge_chunks_total; [simpl; by rewrite length_replicate|].
  pose proof (split_addresses q n qs Hs) as Hall.
  apply Forall_forall. intros [c p] Hin. apply elem_of_zip_l in Hin. simpl.
  rewrite Forall_forall in Hall. eapply Forall_impl; [by apply Hall|].
  intros g Hg. simpl in Hg. apply addr_to_idx_lookup in Hg as (i & csk & Hi & Hcsk & _).
  exists i. split; [done|]. by eapply lookup_lt_Some.
Qed.
End merge_facts.

(** ** A node that answers key by key

    [starknet_getStorageProof] documents each member of its reply as the
    nodes on the paths to the requested keys; [node_db] gives the nodes of
    each single path, and the reply to a request is their union. *)

Record node_db `{FeltOps} := {
  db_class : Felt → list (Felt * MerkleNode);
  db_contract : Felt → list (Felt * MerkleNode);
  db_leaf : Felt → ContractLeafData;
  db_storage : Felt → Felt → list (Felt * MerkleNode);
  db_roots : GlobalRoots;
}.

Section honest.
Context `{StarknetApi} (db : node_db).

Definition union_paths (ls : list (list (Felt * MerkleNode))) : list (Felt * MerkleNode) :=
  fold_left index_extend ls [].

Definition storage_answer (csk : ContractStorageKeys) : list (Felt * MerkleNode) :=
  union_paths (db_storage db (csk_contract_address csk) <$> csk_storage_keys csk).

Definition node_answer (class_hashes contract_addresses : list Felt)
    (keys : list ContractStorageKeys) : RpcStorageProof := {|
  classes_proof := union_paths (db_class db <$> class_hashes);
  contracts_proof := {|
    nodes := union_paths (db_contract db <$> contract_addresses);
    contract_leaves_data := db_leaf db <$> contract_addresses |};
  contracts_storage_proofs := storage_answer <$> keys;
  global_roots := db_roots db |}.

Definition query_answer (q : RpcStorageProofsQuery) : RpcStorageProof :=
  node_answer (q_class_hashes q) (address_key <$> q_contract_addresses q)
    (q_contract_storage_keys q).

Lemma union_paths_NoDup ls : NoDup (union_paths ls).*1.
Proof.
  unfold union_paths. induction ls as [|l ls IH] using rev_ind; [constructor|].
  rewrite fold_left_app. simpl. by apply index_extend_NoDup.
Qed.

Lemma index_extend_union m ls :
  index_extend m (union_paths ls) = fold_left index_extend ls m.
Proof.
  unfold union_paths. induction ls as [|l ls IH] using rev_ind; [done|].
  rewrite !fold_left_app. simpl. rewrite index_extend_assoc by apply union_paths_NoDup.
  by rewrite IH.
Qed.

Definition apply_pair (idx : gmap Felt nat) (acc : list (list (Felt * MerkleNode)))
    (p : Felt * Felt) : list (list (Felt * MerkleNode)) :=
  match idx !! p.1 with
  | Some i => alter (λ m, index_extend m (db_storage db p.1 p.2)) i acc
  | None => acc
  end.

Lemma apply_pairs_group idx g i acc :
  idx !! csk_contract_address g = Some i →
  fold_left (apply_pair idx) (csk_pairs g) acc =
  alter (λ m, index_extend m (storage_answer g)) i acc.
Proof.
  intros Hi. unfold storage_answer, csk_pairs.
  revert acc. induction (csk_storage_keys g) as [|k ks IH] using rev_ind; intros acc.
  { simpl. symmetry. by apply list_alter_id. }
  rewrite !fmap_app, fold_left_app, IH. simpl. unfold apply_pair. simpl. rewrite Hi.
  rewrite list_alter_alter_eq. apply list_alter_ext; [|done]. intros m _.
  cbn [compose]. rewrite !index_extend_union, fold_left_app. done.
Qed.

Lemma merge_groups_honest idx gs acc :
  Forall (λ g, ∃ i, idx !! csk_contract_address g = Some i ∧ (i < length acc)%nat) gs →
  merge_groups idx (zip gs (storage_answer <$> gs)) acc =
    Ok (fold_left (apply_pair idx) (groups_pairs gs) acc).
Proof.
  revert acc. induction gs as [|g gs IH]; intros acc Hall; [done|].
  apply Forall_cons in Hall as [(i & Hi & Hlt) Hall].
  rewrite fmap_cons. cbn [zip zip_with merge_groups]. rewrite Hi.
  destruct (acc !! i) as [x|] eqn:Hx; [|apply lookup_ge_None in Hx; lia].
  unfold groups_pairs. rewrite fmap_cons, mjoin_cons, fold_left_app.
  rewrite (apply_pairs_group idx g i acc Hi).
  assert (<[i:=index_extend x (storage_answer g)]> acc =
    alter (λ m, index_extend m (storage_answer g)) i acc) as ->.
  { apply list_eq. intros j. destruct (decide (i = j)) as [<-|].
    - rewrite list_lookup_insert_eq, list_lookup_alter_eq, Hx by done. done.
    - by rewrite list_lookup_insert_ne, list_lookup_alter_ne. }
  apply IH. eapply Forall_impl; [exact Hall|]. intros g'. by rewrite length_alter.
Qed.

Lemma length_apply_pairs idx ps acc : length (fold_left (apply_pair idx) ps acc) = length acc.
Proof.
  revert acc. induction ps as [|p ps IH]; intros acc; [done|]. simpl. rewrite IH.
  unfold apply_pair. case_match; [apply length_alter|done].
Qed.

Lemma merge_chunks_honest idx qs acc :
  Forall (λ q, Forall (λ g, ∃ i, idx !! csk_contract_address g = Some i ∧
    (i < length (contracts_storage_proofs acc))%nat) (q_contract_storage_keys q)) qs →
  merge_chunks idx (zip qs (query_answer <$> qs)) acc = Ok {|
    classes_proof := fold_left index_extend
      (db_class db <$> mjoin (q_class_hashes <$> qs)) (classes_proof acc);
    contracts_proof := {|
      nodes := fold_left index_extend
        (db_contract db <$> (address_key <$> mjoin (q_contract_addresses <$> qs)))
        (nodes (contracts_proof acc));
      contract_leaves_data := contract_leaves_data (contracts_proof acc)
        ++ (db_leaf db <$> (address_key <$> mjoin (q_contract_addresses <$> qs))) |};
    contracts_storage_proofs := fold_left (apply_pair idx)
      (mjoin ((λ q, groups_pairs (q_contract_storage_keys q)) <$> qs))
      (contracts_storage_proofs acc);
    global_roots := global_roots acc |}.
Proof.
  revert acc. induction qs as [|q qs IH]; intros acc Hall.
  { simpl. rewrite app_nil_r. by destruct acc as [? [] ? ?]. }
  apply Forall_cons in Hall as [Hq Hall].
  rewrite !fmap_cons, !mjoin_cons. cbn [zip zip_with merge_chunks].
  change (contracts_storage_proofs (query_answer q))
    with (storage_answer <$> q_contract_storage_keys q).
  rewrite merge_groups_honest by done. cbn [mbind res_bind].
  rewrite IH.
  - cbn [classes_proof contracts_proof nodes contract_leaves_data contracts_storage_proofs
      global_roots query_answer node_answer].
    rewrite !index_extend_union, !fmap_app, !fold_left_app, <-app_assoc. done.
  - eapply Forall_impl; [exact Hall|]. intros q' Hq'. cbn [contracts_storage_proofs].
    by rewrite length_apply_pairs.
Qed.

Lemma omap_join {A B} (f : A → option B) (ls : list (list A)) :
  omap f (mjoin ls) = mjoin (omap f <$> ls).
Proof.
  induction ls as [|l ls IH]; [done|]. by rewrite fmap_cons, !mjoin_cons, omap_app, IH.
Qed.

Lemma collected_chunks q n :
  (0 < n)%nat →
  let qs := collect_query <$> chunks n (flatten_query q) in
  mjoin (q_class_hashes <$> qs) = q_class_hashes q ∧
  mjoin (q_contract_addresses <$> qs) = q_contract_addresses q ∧
  mjoin ((λ q, groups_pairs (q_contract_storage_keys q)) <$> qs)
    = groups_pairs (q_contract_storage_keys q).
Proof.
  intros Hn qs. unfold qs. rewrite <-!list_fmap_compose.
  assert (∀ {B} (f : RpcStorageProofsQuery → list B) (g : QueryItem → option B),
    (∀ items, f (collect_query items) = omap g items) →
    f q = omap g (flatten_query q) →
    mjoin (f ∘ collect_query <$> chunks n (flatten_query q)) = f q) as Hgen.
  { intros B f g Hf ->. rewrite <-(mjoin_chunks n (flatten_query q)) at 2 by done.
    rewrite omap_join. f_equal. apply list_fmap_ext. intros ? c _. apply Hf. }
  destruct (omap_parts (q_class_hashes q) (q_contract_addresses q)
    (groups_pairs (q_contract_storage_keys q))) as (Hc & Ha & Hs).
  rewrite <-flatten_pairs in Hc, Ha, Hs.
  split; [|split].
  - apply (Hgen _ q_class_hashes item_class); [intros; apply collect_query_spec|done].
  - apply (Hgen _ q_contract_addresses item_address); [intros; apply collect_query_spec|done].
  - apply (Hgen _ (λ q, groups_pairs (q_contract_storage_keys q)) item_storage);
      [intros; apply collect_query_spec|done].
Qed.

(** Folding the pairs of the query over empty maps gives its answers. *)
Lemma apply_pairs_all idx l1 l2 :
  (∀ i g, (l1 ++ l2)%list !! i = Some g → idx !! csk_contract_address g = Some i) →
  fold_left (apply_pair idx) (groups_pairs l2)
    ((storage_answer <$> l1) ++ replicate (length l2) [])%list
  = storage_answer <$> (l1 ++ l2)%list.
Proof.
  revert l1. induction l2 as [|g l2 IH]; intros l1 Hidx.
  { simpl. by rewrite !app_nil_r. }
  unfold groups_pairs. rewrite fmap_cons, mjoin_cons, fold_left_app.
  rewrite (apply_pairs_group idx g (length l1)).
  2: { apply Hidx. rewrite lookup_app_r, Nat.sub_diag by done. done. }
  rewrite alter_app_r_alt by (by rewrite length_fmap).
  rewrite length_fmap, Nat.sub_diag. cbn [length replicate].
  change (alter ?f 0%nat (?x :: ?l)) with (f x :: l). cbn beta.
  unfold storage_answer at 2. rewrite index_extend_union. fold (storage_answer g).
  specialize (IH (l1 ++ [g])%list). rewrite fmap_app, <-!app_assoc in IH. apply IH.
  intros i g'. by apply Hidx.
Qed.
End honest.

(** ** [fetch_proofs] *)

Section fetch_facts.
Context {W : Type} `{StarknetApi} `{!ProofRpc W}.

(** The node answers requests about the block from [db]. *)
Definition honest (db : node_db) (block_number : Z) : Prop :=
  ∀ cs addrs keys w, ∃ w',
    get_storage_proof block_number cs addrs keys w = (inr (node_answer db cs addrs keys), w').

Lemma fetch_single_honest db b q w :
  honest db b → ∃ w', fetch_single_proof b q w = (Ok (query_answer db q), w').
Proof.
  intros Hh. unfold fetch_single_proof.
  destruct (Hh (q_class_hashes q) (address_key <$> q_contract_addresses q)
    (q_contract_storage_keys q) w) as [w' Heq].
  rewrite Heq. by exists w'.
Qed.

Lemma for_each_honest db b qs w :
  honest db b → ∃ w', for_each (fetch_single_proof b) qs w = (Ok (query_answer db <$> qs), w').
Proof.
  intros Hh. revert w. induction qs as [|q qs IH]; intros w; [by exists w|].
  destruct (fetch_single_honest db b q w Hh) as [w1 H1'].
  destruct (IH w1) as [w2 H2']. exists w2. cbn [for_each].
  rewrite (prog_bind_eq _ _ _ _ _ H1'), (prog_bind_eq _ _ _ _ _ H2'). done.
Qed.

Lemma merge_honest db q n :
  (0 < n)%nat → NoDup (csk_contract_address <$> q_contract_storage_keys q) →
  flatten_query q ≠ [] →
  let qs := collect_query <$> chunks n (flatten_query q) in
  merge_storage_proofs (query_answer db <$> qs) qs q = Ok (query_answer db q).
Proof.
  intros Hn Hnd Hne qs. unfold merge_storage_proofs. rewrite length_fmap, Nat.eqb_refl. simpl.
  assert (qs ≠ []) as Hqs.
  { unfold qs, chunks. destruct (flatten_query q); [done|]. done. }
  pose proof (collected_chunks q n Hn) as (Hc & Ha & Hs). fold qs in Hc, Ha, Hs.
  pose proof (split_addresses q n qs (split_query_eq q n Hn)) as Hall. clearbody qs.
  assert (∃ q0 ps, query_answer db <$> qs = query_answer db q0 :: ps) as (q0 & ps & Hps).
  { destruct qs as [|q0 qs']; [done|]. exists q0, (query_answer db <$> qs'). done. }
  rewrite Hps. cbn [global_roots query_answer node_answer]. rewrite <-Hps.
  rewrite merge_chunks_honest.
  - rewrite Hc, Ha, Hs. cbn [classes_proof contracts_proof nodes contract_leaves_data
      contracts_storage_proofs global_roots].
    pose proof (apply_pairs_all db (addr_to_idx q) [] (q_contract_storage_keys q)) as Hap.
    simpl in Hap. rewrite Hap; [done|]. intros i g Hi. by apply addr_to_idx_NoDup.
  - eapply Forall_impl; [exact Hall|]. intros c Hc'. eapply Forall_impl; [exact Hc'|].
    intros g Hg. simpl in Hg. apply addr_to_idx_lookup in Hg as (i & csk & Hi & Hcsk & _).
    exists i. split; [done|]. cbn [contracts_storage_proofs]. rewrite length_replicate.
    by eapply lookup_lt_Some.
Qed.

Lemma fetch_proofs_honest_any db b q w :
  honest db b → NoDup (csk_contract_address <$> q_contract_storage_keys q) →
  ∃ w', fetch_proofs b q w = (Ok (query_answer db q), w').
Proof.
  intros Hh Hnd. unfold fetch_proofs.
  destruct (Nat.leb_spec (count_total_keys q) MAX_KEYS_PER_REQUEST) as [|Hgt].
  { by apply fetch_single_honest. }
  assert (0 < MAX_KEYS_PER_REQUEST)%nat as Hmax by (unfold MAX_KEYS_PER_REQUEST; lia).
  rewrite split_query_eq by done.
  destruct (for_each_honest db b (collect_query <$> chunks MAX_KEYS_PER_REQUEST (flatten_query q))
    w Hh) as [w' Hw].
  exists w'. erewrite prog_bind_eq by done. erewrite prog_bind_eq by exact Hw.
  unfold lift. rewrite merge_honest; try done.
  rewrite count_total_keys_flatten in Hgt. destruct (flatten_query q); [simpl in Hgt; lia|done].
Qed.

(** C5: Chunking is invisible: against a node that answers every getStorageProof
    request from one fixed state, fetching a query of any size in chunks of
    at most 100 keys and merging the answers gives exactly the answer to the
    whole query (tries in order, leaves in order, one storage proof per
    contract). *)
Theorem fetch_proofs_honest db b q w :
  honest db b → NoDup (csk_contract_address <$> q_contract_storage_keys q) →
  ∃ w', fetch_proofs b q w = (Ok (query_answer db q), w').
Proof. apply fetch_proofs_honest_any. Qed.

Lemma for_each_single_outcome b qs w :
  (∃ ps w', for_each (fetch_single_proof b) qs w = (Ok ps, w') ∧ length ps = length qs) ∨
  (∃ e w', for_each (fetch_single_proof b) qs w = (Err (ProviderRpc e), w')).
Proof.
  revert w. induction qs as [|q qs IH]; intros w; [left; by exists [], w|].
  cbn [for_each]. unfold mbind, prog_bind. unfold fetch_single_proof at 1 3.
  destruct (get_storage_proof _ _ _ _ w) as [[e|p] w1]; [right; eauto|].
  destruct (IH w1) as [(ps & w' & -> & Hl)|(e & w' & ->)]; [left|right; eauto].
  exists (p :: ps), w'. split; [done|]. simpl. lia.
Qed.

(** Whatever the node answers, fetch_proofs returns a proof or the
    transport's error: no assertion of the merge fails, no index is out of
    range, and a chunked answer has one storage proof per queried contract. *)
Theorem fetch_proofs_total b q w :
  ∃ r w', fetch_proofs b q w = (r, w') ∧
    match r with
    | Ok p => (MAX_KEYS_PER_REQUEST < count_total_keys q)%nat →
        length (contracts_storage_proofs p) = length (q_contract_storage_keys q)
    | Err (ProviderRpc _) => True
    | _ => False
    end.
Proof.
  unfold fetch_proofs.
  destruct (Nat.leb_spec (count_total_keys q) MAX_KEYS_PER_REQUEST) as [|Hgt].
  { unfold fetch_single_proof. destruct (get_storage_proof _ _ _ _ w) as [[e|p] w1].
    - by exists (Err (ProviderRpc e)), w1.
    - exists (Ok p), w1. split; [done|]. lia. }
  assert (0 < MAX_KEYS_PER_REQUEST)%nat as Hmax by (unfold MAX_KEYS_PER_REQUEST; lia).
  pose proof (split_query_eq q MAX_KEYS_PER_REQUEST Hmax) as Hs. rewrite Hs.
  set (qs := collect_query <$> _) in *.
  assert (qs ≠ []) as Hne.
  { unfold qs, chunks. rewrite count_total_keys_flatten in Hgt.
    destruct (flatten_query q); [simpl in Hgt; lia|done]. }
  erewrite prog_bind_eq by done.
  destruct (for_each_single_outcome b qs w) as [(ps & w' & Hps & Hl)|(e & w' & Hps)].
  - destruct (merge_storage_proofs_total q MAX_KEYS_PER_REQUEST qs ps Hs Hne Hl) as (p & Hp & Hlen).
    erewrite prog_bind_eq by exact Hps. exists (Ok p), w'. unfold lift. by rewrite Hp.
  - exists (Err (ProviderRpc e)), w'. unfold mbind, prog_bind. by rewrite Hps.
Qed.
End fetch_facts.

(** ** Example *)

Definition toy_db : node_db := {|
  db_class h := [(h, BinaryNode h h)];
  db_contract a := [(a, EdgeNode a 1 a)];
  db_leaf a := {| leaf_nonce := a; leaf_class_hash := a; leaf_storage_root := Some a |};
  db_storage a k := [(a, BinaryNode a k); (k, EdgeNode k 2 a)];
  db_roots := {| contracts_tree_root := zfelt_mk 1; classes_tree_root := zfelt_mk 2;
                 block_hash := zfelt_mk 3 |} |}.

#[local] Instance toy_proof_rpc : ProofRpc nat := {
  get_storage_proof _ cs addrs keys w := (inr (node_answer toy_db cs addrs keys), S w) }.

(** 130 keys: two requests. *)
Definition toy_query : RpcStorageProofsQuery := {|
  q_class_hashes := [zfelt_mk 1];
  q_contract_addresses := [zaddr 5; zaddr 6];
  q_contract_storage_keys :=
    [{| csk_contract_address := zfelt_mk 5; csk_storage_keys := zfelt_mk ∘ Z.of_nat <$> seq 0 90 |};
     {| csk_contract_address := zfelt_mk 6; csk_storage_keys := zfelt_mk ∘ Z.of_nat <$> seq 0 37 |}] |}.

Lemma fetch_proofs_honest_witness :
  (count_total_keys toy_query = 130)%nat ∧
  ∃ w', fetch_proofs 7 toy_query 0%nat = (Ok (query_answer toy_db toy_query), w').
Proof.
  split; [vm_compute; reflexivity|].
  apply fetch_proofs_honest.
  - intros cs addrs keys w. exists (S w). reflexivity.
  - apply (bool_decide_unpack _). vm_compute. exact I.
Defined.
