(* ===== verification/CommitterUtils.v ===== *)
(** * The facts database of a virtual block
    ([crates/starknet-transaction-prover-wasm/src/running/committer_utils.rs])

    From a storage proof the prover builds a key/value store of trie nodes and
    leaves, adds a dummy node for every child hash that the proof does not
    open, and commits the state diff on it.  [facts_db_closed] is what the
    committer relies on: every node of the proof is stored under its hash,
    every child of a node has an entry, and no dummy replaces a real node. *)

From S2P Require Import Prelude RustNum Json Felt StarknetApi ProofQuery.

(** ** The committer's crates *)

(** starknet-committer's leaves; a storage leaf is keyed by its contract. *)
Inductive DbLeaf `{StarknetApi} :=
  | ContractState (nonce : Nonce) (class_hash : ClassHash) (storage_root_hash : HashOutput)
  | StarknetStorageValue (value : Felt)
  | CompiledClassLeaf (hash : CompiledClassHash).

Inductive KeyContext `{StarknetApi} := EmptyKeyContext | AddressContext (a : ContractAddress).

Class FactsDbOps `{StarknetApi} := {
  DbKey : Type;
  db_key_eq_dec :: EqDecision DbKey;
  db_key_countable :: Countable DbKey;
  DbValue : Type;
  (** [create_db_key(PatriciaPrefix::InnerNode.into(), SEPARATOR, bytes)]. *)
  inner_node_key : list Z → DbKey;
  (** [FactDbFilledNode::from((hash, node)).serialize()]. *)
  serialize_inner : HashOutput → MerkleNode → res string DbValue;
  (** [FilledNode { hash, data: Binary { left, right } }.serialize()]. *)
  serialize_binary : HashOutput → HashOutput → HashOutput → res string DbValue;
  (** [get_db_key] and [serialize] of a leaf node. *)
  leaf_key : DbLeaf → KeyContext → list Z → DbKey;
  serialize_leaf : HashOutput → DbLeaf → res string DbValue;
  compute_leaf_hash : DbLeaf → HashOutput;
}.

(** Keys are a prefix, a separator and the hash: keys of inner nodes determine
    the hash and are never keys of leaves. *)
Class FactsDbLaws `{FactsDbOps} := {
  inner_node_key_inj l l' : inner_node_key l = inner_node_key l' → l = l';
  leaf_key_inner l c b b' : leaf_key l c b ≠ inner_node_key b';
}.

Section state_diff.
Context `{StarknetApi} `{HashOrder}.

Record StateDiff := {
  address_to_class_hash : gmap ContractAddress ClassHash;
  address_to_nonce : gmap ContractAddress Nonce;
  class_hash_to_compiled_class_hash : gmap ClassHash CompiledClassHash;
  storage_updates : gmap ContractAddress (gmap StorageKey Felt);
}.

(** [StorageDiff::from(StorageView(..))] of blockifier: the writes grouped
    by contract, as ordered maps. *)
Class StorageDiffFrom := {
  storage_diff_from :
    gmap (ContractAddress * StorageKey) Felt → list (ContractAddress * list (StorageKey * Felt));
}.
Class StorageDiffLaws `{StorageDiffFrom} := {
  storage_diff_NoDup m : NoDup (storage_diff_from m).*1;
  storage_diff_inner m a us : (a, us) ∈ storage_diff_from m → NoDup us.*1;
  storage_diff_spec m a k v :
    (∃ us, (a, us) ∈ storage_diff_from m ∧ (k, v) ∈ us) ↔ m !! (a, k) = Some v;
}.

Context `{StorageDiffFrom}.

Definition state_maps_to_committer_state_diff (state_maps : StateMaps) : StateDiff := {|
  address_to_class_hash := class_hashes state_maps;
  address_to_nonce := nonces state_maps;
  class_hash_to_compiled_class_hash := map_extend ∅ (map_iter (compiled_class_hashes state_maps));
  storage_updates := map_extend ∅
    ((λ '(address, updates), (address, map_extend ∅ updates))
       <$> storage_diff_from (storage state_maps));
|}.

Context `{!DebugFmt ContractAddress} `{!DebugFmt StorageKey}
  `{!DebugFmt (gmap ContractAddress ClassHash)} `{!DebugFmt (gmap ClassHash CompiledClassHash)}.

Definition check_storage_diffs (address : ContractAddress) (storage_diffs : gmap StorageKey Felt)
    : res ProofProviderError unit :=
  fold_res (λ _ '(key, value),
    if decide (value = felt_of 0) then
      Err (InvalidStateDiff
        ("Storage deletion not allowed: try to delete storage at address " +:+ debug address
         +:+ ", key " +:+ debug key))
    else Ok tt) (map_iter storage_diffs) tt.

Definition validate_virtual_os_state_diff (state_diff : StateDiff) : res ProofProviderError unit :=
  _ ← fold_res (λ _ '(address, storage_diffs), check_storage_diffs address storage_diffs)
        (map_iter (storage_updates state_diff)) tt;
  _ ← (if decide (address_to_class_hash state_diff = ∅) then Ok tt
       else Err (InvalidStateDiff
         ("Contract deployments not allowed: try to deploy contracts(address to class hash): "
          +:+ debug (address_to_class_hash state_diff))));
  if decide (class_hash_to_compiled_class_hash state_diff = ∅) then Ok tt
  else Err (InvalidStateDiff
    ("Contract declarations not allowed: try to declare classes(class hash to compiled class hash): "
     +:+ debug (class_hash_to_compiled_class_hash state_diff))).
End state_diff.

Section facts_db.
Context `{FactsDbOps} `{HashOrder}.

Abbreviation DbHashMap := (gmap DbKey DbValue) (only parsing).

Definition hash_key (hash : Felt) : DbKey := inner_node_key (felt_to_bytes_be hash).

Definition insert_inner_nodes (nodes : list (Felt * MerkleNode)) (db_map : DbHashMap)
    : res ProofProviderError DbHashMap :=
  fold_res (λ db_map '(hash, node),
    value ← map_err SerializationError (serialize_inner hash node);
    Ok (<[hash_key hash := value]> db_map)) nodes db_map.

Definition insert_leaf_node (leaf_hash : HashOutput) (leaf : DbLeaf) (key_context : KeyContext)
    (db_map : DbHashMap) : res ProofProviderError DbHashMap :=
  let key := leaf_key leaf key_context (felt_to_bytes_be leaf_hash) in
  serialized ← map_err SerializationError (serialize_leaf leaf_hash leaf);
  Ok (<[key := serialized]> db_map).

Definition leaf_state (leaf : ContractLeafData) : DbLeaf :=
  ContractState (leaf_nonce leaf) (leaf_class_hash leaf)
    (default (felt_of 0) (leaf_storage_root leaf)).

Definition leaves_mismatch (addresses_len leaves_len : nat) : ProofProviderError :=
  InvalidProofResponse ("Contract leaves length mismatch: expected " +:+ pretty addresses_len
    +:+ " leaves for requested contracts, got " +:+ pretty leaves_len).

Definition insert_contract_leaves (rpc_proof : RpcStorageProof) (query : RpcStorageProofsQuery)
    (db_map : DbHashMap) : res ProofProviderError DbHashMap :=
  let leaves := contract_leaves_data (contracts_proof rpc_proof) in
  let leaves_len := length leaves in
  let addresses_len := length (q_contract_addresses query) in
  if negb (Nat.eqb leaves_len addresses_len) then Err (leaves_mismatch addresses_len leaves_len)
  else fold_res (λ db_map '(leaf, _),
    let contract_state := leaf_state leaf in
    insert_leaf_node (compute_leaf_hash contract_state) contract_state EmptyKeyContext db_map)
    (zip leaves (q_contract_addresses query)) db_map.

Definition insert_storage_leaves (initial_reads : StateMaps) (db_map : DbHashMap)
    : res ProofProviderError DbHashMap :=
  fold_res (λ db_map '((address, _), value),
    let storage_value := StarknetStorageValue value in
    insert_leaf_node (compute_leaf_hash storage_value) storage_value (AddressContext address) db_map)
    (map_iter (storage initial_reads)) db_map.

Definition insert_compiled_class_leaves (initial_reads : StateMaps) (db_map : DbHashMap)
    : res ProofProviderError DbHashMap :=
  fold_res (λ db_map '(_, class_hash_value),
    let compiled := CompiledClassLeaf class_hash_value in
    insert_leaf_node (compute_leaf_hash compiled) compiled EmptyKeyContext db_map)
    (map_iter (compiled_class_hashes initial_reads)) db_map.

(** [db_map.entry(key).or_insert_with(..)] for a hash without a preimage. *)
Definition add_dummy_node_for_orphan_child (child_hash : Felt) (has_preimage : gset Felt)
    (dummy_value : DbValue) (db_map : DbHashMap) : DbHashMap :=
  if decide (child_hash ∈ has_preimage) then db_map
  else match db_map !! hash_key child_hash with
       | Some _ => db_map
       | None => <[hash_key child_hash := dummy_value]> db_map
       end.

Definition add_dummy_nodes_for_node (has_preimage : gset Felt) (dummy_value : DbValue)
    (db_map : DbHashMap) (node : MerkleNode) : DbHashMap :=
  match node with
  | BinaryNode l r =>
      add_dummy_node_for_orphan_child r has_preimage dummy_value
        (add_dummy_node_for_orphan_child l has_preimage dummy_value db_map)
  | EdgeNode _ _ child =>
      add_dummy_node_for_orphan_child child has_preimage dummy_value db_map
  end.

Definition add_dummy_nodes_for_orphan_hashes (nodes : list (Felt * MerkleNode))
    (db_map : DbHashMap) : res ProofProviderError DbHashMap :=
  let has_preimage : gset Felt := list_to_set nodes.*1 in
  dummy_value ← map_err SerializationError
    (serialize_binary (felt_of 0) (felt_of 0) (felt_of 0));
  Ok (fold_left (add_dummy_nodes_for_node has_preimage dummy_value) nodes.*2 db_map).

(** [for storage_proof in &rpc_proof.contracts_storage_proofs] and the two
    calls before it, in the source's order. *)
Definition all_tries (rpc_proof : RpcStorageProof) : list (list (Felt * MerkleNode)) :=
  nodes (contracts_proof rpc_proof) :: classes_proof rpc_proof
  :: contracts_storage_proofs rpc_proof.

Definition create_facts_db_from_storage_proof (rpc_proof : RpcStorageProof)
    (query : RpcStorageProofsQuery) (initial_reads : StateMaps)
    : res ProofProviderError DbHashMap :=
  db_map ← fold_res (λ db_map trie, insert_inner_nodes trie db_map) (all_tries rpc_proof) ∅;
  db_map ← insert_contract_leaves rpc_proof query db_map;
  db_map ← insert_storage_leaves initial_reads db_map;
  db_map ← insert_compiled_class_leaves initial_reads db_map;
  fold_res (λ db_map trie, add_dummy_nodes_for_orphan_hashes trie db_map)
    (all_tries rpc_proof) db_map.
End facts_db.

(** ** Committing *)

Record StateRoots `{FeltOps} := {
  contracts_trie_root_hash : HashOutput;
  classes_trie_root_hash : HashOutput;
}.

(** [CommitBlockImpl::commit_block], [FactsDb::write] and the roots of the
    forest they produce. *)
Class Committer `{FactsDbOps} := {
  FilledForest : Type;
  commit_block : StateDiff → StateRoots → gmap DbKey DbValue
    → res string FilledForest * gmap DbKey DbValue;
  forest_write : FilledForest → gmap DbKey DbValue → res string (gmap DbKey DbValue);
  get_contract_root_hash : FilledForest → HashOutput;
  get_compiled_class_root_hash : FilledForest → HashOutput;
}.

(** The new roots and the database after the write. *)
Definition commit_state_diff `{Committer} (facts_db : gmap DbKey DbValue)
    (contracts_root classes_root : HashOutput) (state_diff : StateDiff)
    : res ProofProviderError (StateRoots * gmap DbKey DbValue) :=
  let roots := {| contracts_trie_root_hash := contracts_root;
                  classes_trie_root_hash := classes_root |} in
  let '(r, facts_db) := commit_block state_diff roots facts_db in
  filled_forest ← map_err BlockCommitmentError r;
  facts_db ← map_err SerializationError (forest_write filled_forest facts_db);
  Ok ({| contracts_trie_root_hash := get_contract_root_hash filled_forest;
         classes_trie_root_hash := get_compiled_class_root_hash filled_forest |}, facts_db).

(** ** Facts *)

(** The hashes a node points to. *)
Definition node_children `{FeltOps} (n : MerkleNode) : list Felt :=
  match n with BinaryNode l r => [l; r] | EdgeNode _ _ c => [c] end.

Section facts_db_facts.
Context `{FactsDbLaws} `{!FeltLaws} `{HashOrder}.
Implicit Types db : gmap DbKey DbValue.

Lemma hash_key_inj h h' : hash_key h = hash_key h' → h = h'.
Proof.
  unfold hash_key. intros Hk%inner_node_key_inj. apply felt_val_inj.
  rewrite !felt_to_bytes_be_val in Hk.
  apply (f_equal from_be_bytes) in Hk. rewrite !from_to_be_bytes in Hk.
  pose proof (felt_val_range h). pose proof (felt_val_range h').
  assert (stark_prime < 256 ^ Z.of_nat 32) by done.
  rewrite !Z.mod_small in Hk by lia. done.
Qed.

(** Entries for inner nodes, all of them serialised from nodes of [ts]. *)
Definition inner_sound (ts : list (list (Felt * MerkleNode))) db : Prop :=
  ∀ h v, db !! hash_key h = Some v → ∃ t n, t ∈ ts ∧ (h, n) ∈ t ∧ serialize_inner h n = Ok v.

Lemma insert_inner_nodes_sound ts t db db' :
  t ∈ ts → inner_sound ts db → insert_inner_nodes t db = Ok db' → inner_sound ts db'.
Proof.
  intros Ht. unfold insert_inner_nodes. apply (fold_res_inv _ (inner_sound ts)).
  intros [h n] a a' Hin Ha (v & Hv%map_err_Ok & [= <-])%res_bind_Ok h' v'.
  rewrite lookup_insert_Some. intros [[<-%hash_key_inj <-]|[_ Hl]]; [|by apply Ha].
  exists t, n. done.
Qed.

Lemma insert_inner_nodes_keeps t db db' k :
  is_Some (db !! k) → insert_inner_nodes t db = Ok db' → is_Some (db' !! k).
Proof.
  intros Hk. unfold insert_inner_nodes.
  apply (fold_res_inv _ (λ db, is_Some (db !! k))); [|done].
  intros [h n] a a' _ Ha (v & _ & [= <-])%res_bind_Ok. rewrite lookup_insert_is_Some'. by right.
Qed.

Lemma insert_inner_nodes_has t db db' h n :
  (h, n) ∈ t → insert_inner_nodes t db = Ok db' → is_Some (db' !! hash_key h).
Proof.
  intros Hin. unfold insert_inner_nodes.
  apply (fold_res_reached _ (λ db, is_Some (db !! hash_key h)) _ _ _ (h, n) Hin).
  - intros a a' (v & _ & [= <-])%res_bind_Ok. rewrite lookup_insert_is_Some'. by left.
  - intros [h' n'] a a' _ Ha (v & _ & [= <-])%res_bind_Ok. rewrite lookup_insert_is_Some'. by right.
Qed.

(** Inserting leaves leaves the inner nodes alone. *)
Definition same_inner db db' : Prop := ∀ h, db' !! hash_key h = db !! hash_key h.

Lemma insert_leaf_node_same h l c db db' :
  insert_leaf_node h l c db = Ok db' → same_inner db db'.
Proof.
  intros (v & _ & [= <-])%res_bind_Ok h'. apply lookup_insert_ne. apply leaf_key_inner.
Qed.

Lemma fold_same_inner {B} (f : gmap DbKey DbValue → B → res ProofProviderError (gmap DbKey DbValue)) l db db' :
  (∀ x a a', f a x = Ok a' → same_inner a a') → fold_res f l db = Ok db' → same_inner db db'.
Proof.
  intros Hf. apply (fold_res_inv f (same_inner db)); [|done].
  intros x a a' _ Ha Haa' h. by rewrite (Hf _ _ _ Haa'), Ha.
Qed.

Lemma leaves_same p q reads db db1 db2 db3 :
  insert_contract_leaves p q db = Ok db1 → insert_storage_leaves reads db1 = Ok db2 →
  insert_compiled_class_leaves reads db2 = Ok db3 → same_inner db db3.
Proof.
  unfold insert_contract_leaves, insert_storage_leaves, insert_compiled_class_leaves.
  intros Hc Hs Hk. destruct (negb _); [done|].
  apply fold_same_inner in Hc, Hs, Hk.
  - intros h. by rewrite Hk, Hs, Hc.
  - intros [_ ch] a a'. apply insert_leaf_node_same.
  - intros [[? ?] v] a a'. apply insert_leaf_node_same.
  - intros [leaf _] a a'. apply insert_leaf_node_same.
Qed.

(** A dummy is only ever added where there was nothing. *)
Definition extends_with (dummy : DbValue) db db' : Prop :=
  ∀ k v, db' !! k = Some v → db !! k = Some v ∨ (db !! k = None ∧ v = dummy).

Definition keeps db db' : Prop := ∀ k v, db !! k = Some v → db' !! k = Some v.

Lemma orphan_child_spec c pre d db :
  let db' := add_dummy_node_for_orphan_child c pre d db in
  keeps db db' ∧ extends_with d db db' ∧ (c ∉ pre → is_Some (db' !! hash_key c)).
Proof.
  unfold add_dummy_node_for_orphan_child, keeps, extends_with.
  destruct (decide (c ∈ pre)); [naive_solver|].
  destruct (db !! hash_key c) as [v0|] eqn:Hc; [naive_solver|].
  split; [|split].
  - intros k v Hk. rewrite lookup_insert_ne; [done|congruence].
  - intros k v. rewrite lookup_insert_Some. intros [[<- <-]|[_ ?]]; [right; done|by left].
  - intros _. rewrite lookup_insert_eq. eauto.
Qed.

Lemma extends_trans d db1 db2 db3 :
  keeps db1 db2 → extends_with d db1 db2 → extends_with d db2 db3 → extends_with d db1 db3.
Proof.
  intros Hk H12 H23 k v Hv. destruct (H23 k v Hv) as [?|[Hn ->]]; [by apply H12|].
  right. split; [|done]. destruct (db1 !! k) eqn:Hd; [|done].
  apply Hk in Hd. congruence.
Qed.

Lemma dummy_node_spec pre d db n :
  let db' := add_dummy_nodes_for_node pre d db n in
  keeps db db' ∧ extends_with d db db' ∧
  ∀ c, c ∈ node_children n → c ∉ pre → is_Some (db' !! hash_key c).
Proof.
  destruct n as [l r|? ? c]; cbn [add_dummy_nodes_for_node node_children].
  - destruct (orphan_child_spec l pre d db) as (K1 & E1 & S1).
    set (db1 := add_dummy_node_for_orphan_child l pre d db) in *.
    destruct (orphan_child_spec r pre d db1) as (K2 & E2 & S2).
    split; [intros k v ?; by apply K2, K1|]. split; [by eapply extends_trans|].
    intros c Hc Hpre. apply elem_of_cons in Hc as [->|Hc];
      [|apply list_elem_of_singleton in Hc as ->; by apply S2].
    destruct (S1 Hpre) as [v Hv]. exists v. by apply K2.
  - destruct (orphan_child_spec c pre d db) as (K1 & E1 & S1).
    split; [done|]. split; [done|]. intros c' Hc'. by apply list_elem_of_singleton in Hc' as ->.
Qed.

Lemma dummy_nodes_spec pre d ns db :
  let db' := fold_left (add_dummy_nodes_for_node pre d) ns db in
  keeps db db' ∧ extends_with d db db' ∧
  ∀ n c, n ∈ ns → c ∈ node_children n → c ∉ pre → is_Some (db' !! hash_key c).
Proof.
  revert db. induction ns as [|n ns IH]; intros db; simpl.
  { split; [by intros k v|]. split; [by intros k v ?; left|]. intros n c Hn. by apply elem_of_nil in Hn. }
  destruct (dummy_node_spec pre d db n) as (K1 & E1 & S1).
  destruct (IH (add_dummy_nodes_for_node pre d db n)) as (K2 & E2 & S2).
  split; [intros k v ?; by apply K2, K1|]. split; [by eapply extends_trans|].
  intros n' c [->|Hn]%elem_of_cons Hc Hpre; [|by eapply S2].
  destruct (S1 c Hc Hpre) as [v Hv]. exists v. by apply K2.
Qed.

Lemma all_dummies_spec d ts db db' :
  serialize_binary (felt_of 0) (felt_of 0) (felt_of 0) = Ok d →
  fold_res (λ db t, add_dummy_nodes_for_orphan_hashes t db) ts db = Ok db' →
  keeps db db' ∧ extends_with d db db' ∧
  ∀ t h n c, t ∈ ts → (h, n) ∈ t → c ∈ node_children n → c ∉ t.*1 →
    is_Some (db' !! hash_key c).
Proof.
  intros Hd. revert db. induction ts as [|t ts IH]; intros db; cbn [fold_res].
  { intros [= <-]. split; [by intros k v|]. split; [by intros k v ?; left|].
    intros t h n c Ht. by apply elem_of_nil in Ht. }
  intros (db1 & Hdb1 & Hrest)%res_bind_Ok.
  unfold add_dummy_nodes_for_orphan_hashes in Hdb1. rewrite Hd in Hdb1. injection Hdb1 as <-.
  destruct (dummy_nodes_spec (list_to_set t.*1) d t.*2 db) as (K1 & E1 & S1).
  destruct (IH _ Hrest) as (K2 & E2 & S2).
  split; [intros k v ?; by apply K2, K1|]. split; [by eapply extends_trans|].
  intros t' h n c Ht Hin Hc Hno. apply elem_of_cons in Ht as [->|Ht]; [|by eapply S2].
  destruct (S1 n c) as [v Hv]; [|done| |exists v; by apply K2].
  - apply list_elem_of_fmap. by exists (h, n).
  - by rewrite elem_of_list_to_set.
Qed.

Lemma inner_phase_spec ts db :
  fold_res (λ db t, insert_inner_nodes t db) ts ∅ = Ok db →
  inner_sound ts db ∧ ∀ t h n, t ∈ ts → (h, n) ∈ t → is_Some (db !! hash_key h).
Proof.
  intros Hf. split.
  - apply (fold_res_inv _ (inner_sound ts) _ _ _) in Hf; [done| |].
    + intros t a a' Ht. by apply insert_inner_nodes_sound.
    + intros h v. by rewrite lookup_empty.
  - intros t h n Ht Hin.
    apply (fold_res_reached _ (λ db, is_Some (db !! hash_key h)) _ _ _ t Ht) in Hf; [done| |].
    + intros a a'. by eapply insert_inner_nodes_has.
    + intros t' a a' _. by apply insert_inner_nodes_keeps.
Qed.

Lemma insert_leaf_node_has h l c db db' :
  insert_leaf_node h l c db = Ok db' → is_Some (db' !! leaf_key l c (felt_to_bytes_be h)).
Proof. intros (v & _ & [= <-])%res_bind_Ok. rewrite lookup_insert_is_Some'. by left. Qed.

Lemma insert_leaf_node_keeps h l c db db' k :
  is_Some (db !! k) → insert_leaf_node h l c db = Ok db' → is_Some (db' !! k).
Proof. intros Hk (v & _ & [= <-])%res_bind_Ok. rewrite lookup_insert_is_Some'. by right. Qed.

Definition stored_leaf db (l : DbLeaf) (c : KeyContext) : Prop :=
  is_Some (db !! leaf_key l c (felt_to_bytes_be (compute_leaf_hash l))).

Lemma leaf_phase_spec p q reads db db1 db2 db3 :
  insert_contract_leaves p q db = Ok db1 → insert_storage_leaves reads db1 = Ok db2 →
  insert_compiled_class_leaves reads db2 = Ok db3 →
  length (contract_leaves_data (contracts_proof p)) = length (q_contract_addresses q) ∧
  (∀ l, l ∈ contract_leaves_data (contracts_proof p) →
     stored_leaf db3 (leaf_state l) EmptyKeyContext) ∧
  (∀ a k v, storage reads !! (a, k) = Some v →
     stored_leaf db3 (StarknetStorageValue v) (AddressContext a)).
Proof.
  unfold insert_contract_leaves, insert_storage_leaves, insert_compiled_class_leaves.
  intros Hc Hs Hk.
  destruct (Nat.eqb_spec (length (contract_leaves_data (contracts_proof p)))
    (length (q_contract_addresses q))) as [Hlen|]; [|done]. simpl in Hc. split; [done|].
  assert (∀ k, is_Some (db2 !! k) → is_Some (db3 !! k)) as Hk23.
  { intros k Hdb. eapply (fold_res_inv _ (λ db, is_Some (db !! k))); [|exact Hdb|exact Hk].
    intros [? ?] a a' _. apply insert_leaf_node_keeps. }
  split.
  - intros l Hl. unfold stored_leaf. apply Hk23.
    apply (fold_res_inv _ (λ db, is_Some (db !! leaf_key (leaf_state l) EmptyKeyContext
      (felt_to_bytes_be (compute_leaf_hash (leaf_state l)))))) in Hs; [done| |].
    { intros [[? ?] ?] a a' _. apply insert_leaf_node_keeps. }
    apply list_elem_of_lookup in Hl as [i Hi].
    destruct (lookup_lt_is_Some_2 (q_contract_addresses q) i) as [addr Haddr].
    { rewrite <-Hlen. by eapply lookup_lt_Some. }
    assert ((l, addr) ∈ zip (contract_leaves_data (contracts_proof p)) (q_contract_addresses q)) as Hz.
    { apply list_elem_of_lookup. exists i. apply lookup_zip_Some. done. }
    eapply (fold_res_reached _ (λ db, is_Some (db !! leaf_key (leaf_state l) EmptyKeyContext
      (felt_to_bytes_be (compute_leaf_hash (leaf_state l))))) _ _ _ _ Hz); [| |exact Hc].
    + intros a a'. apply insert_leaf_node_has.
    + intros [? ?] a a' _. apply insert_leaf_node_keeps.
  - intros a k v Hv. unfold stored_leaf. apply Hk23.
    apply elem_of_map_iter in Hv.
    eapply (fold_res_reached _ (λ db, is_Some (db !! leaf_key (StarknetStorageValue v) (AddressContext a)
      (felt_to_bytes_be (compute_leaf_hash (StarknetStorageValue v))))) _ _ _ _ Hv); [| |exact Hs].
    + intros b b'. apply insert_leaf_node_has.
    + intros [[? ?] ?] b b' _. apply insert_leaf_node_keeps.
Qed.

(** C6: The facts database built from a storage proof is closed and faithful:
    every node of the proof has an entry that serialises a node of the proof
    under its hash, every child of a node has an entry, an entry under an
    inner-node key is a real node of the proof or the dummy of a hash that
    no node of the proof opens, and all contract leaves and all read storage
    values are stored. *)
Theorem facts_db_closed p q reads db dummy :
  serialize_binary (felt_of 0) (felt_of 0) (felt_of 0) = Ok dummy →
  create_facts_db_from_storage_proof p q reads = Ok db →
  (∀ t h n, t ∈ all_tries p → (h, n) ∈ t →
     (∃ t' n' v, t' ∈ all_tries p ∧ (h, n') ∈ t' ∧ serialize_inner h n' = Ok v ∧
        db !! hash_key h = Some v) ∧
     ∀ c, c ∈ node_children n → is_Some (db !! hash_key c)) ∧
  (∀ h v, db !! hash_key h = Some v →
     (∃ t n, t ∈ all_tries p ∧ (h, n) ∈ t ∧ serialize_inner h n = Ok v) ∨
     (v = dummy ∧ ∀ t n, t ∈ all_tries p → (h, n) ∉ t)) ∧
  (∀ l, l ∈ contract_leaves_data (contracts_proof p) →
     stored_leaf db (leaf_state l) EmptyKeyContext) ∧
  (∀ a k v, storage reads !! (a, k) = Some v →
     stored_leaf db (StarknetStorageValue v) (AddressContext a)).
Proof.
  intros Hd (db0 & H0' & (db1 & H1' & (db2 & H2' & (db3 & H3' & Hf)%res_bind_Ok)%res_bind_Ok)%res_bind_Ok)%res_bind_Ok.
  destruct (inner_phase_spec _ _ H0') as [Hsound Hhas].
  pose proof (leaves_same _ _ _ _ _ _ _ H1' H2' H3') as Hsame.
  destruct (leaf_phase_spec _ _ _ _ _ _ _ H1' H2' H3') as (_ & Hcl & Hsl).
  destruct (all_dummies_spec _ _ _ _ Hd Hf) as (Hkeep & Hext & Hch).
  assert (∀ t h n, t ∈ all_tries p → (h, n) ∈ t →
    ∃ v, db3 !! hash_key h = Some v ∧ db !! hash_key h = Some v) as Hreal.
  { intros t h n Ht Hin. destruct (Hhas t h n Ht Hin) as [v Hv].
    exists v. split; [by rewrite Hsame|]. apply Hkeep. by rewrite Hsame. }
  split; [|split; [|split]].
  - intros t h n Ht Hin. split.
    + destruct (Hreal t h n Ht Hin) as (v & Hv & Hdb). rewrite Hsame in Hv.
      destruct (Hsound _ _ Hv) as (t' & n' & ? & ? & ?). by exists t', n', v.
    + intros c Hc. destruct (decide (c ∈ t.*1)) as [Hin'|Hno]; [|by eapply Hch].
      apply list_elem_of_fmap in Hin' as ([c' n'] & -> & Hin').
      destruct (Hreal t c' n' Ht Hin') as (v & _ & Hdb). by exists v.
  - intros h v Hv. destruct (Hext _ _ Hv) as [Hv3|[Hn ->]].
    + left. rewrite Hsame in Hv3. by apply Hsound.
    + right. split; [done|]. intros t n Ht Hin.
      destruct (Hreal t h n Ht Hin) as (? & ? & _). congruence.
  - intros l Hl. destruct (Hcl l Hl) as [v Hv]. exists v. by apply Hkeep.
  - intros a k v Hv. destruct (Hsl a k v Hv) as [x Hx]. exists x. by apply Hkeep.
Qed.
End facts_db_facts.

Section validate_facts.
Context `{StarknetApi} `{HashOrder} `{StorageDiffLaws}.
Context `{!DebugFmt ContractAddress} `{!DebugFmt StorageKey}
  `{!DebugFmt (gmap ContractAddress ClassHash)} `{!DebugFmt (gmap ClassHash CompiledClassHash)}.

(** A check that only ever succeeds with [tt] or fails. *)
Lemma fold_res_unit {E B} (f : unit → B → res E unit) (P : B → Prop) (Q : E → Prop) l :
  (∀ x u, (f u x = Ok tt ∧ P x) ∨ (∃ e, f u x = Err e ∧ ¬ P x ∧ Q e)) →
  (fold_res f l tt = Ok tt ∧ Forall P l) ∨ (∃ e, fold_res f l tt = Err e ∧ ¬ Forall P l ∧ Q e).
Proof.
  intros Hf. induction l as [|x l IH]; [by left|]. cbn [fold_res].
  destruct (Hf x tt) as [[-> HP]|(e & -> & HP & HQ)]; cbn [mbind res_bind].
  - destruct IH as [[-> HF]|(e & -> & HF & HQ)]; [left; auto|right].
    exists e. split; [done|]. split; [|done]. by rewrite Forall_cons; intros [_ ?].
  - right. exists e. split; [done|]. split; [|done]. by rewrite Forall_cons; intros [? _].
Qed.

Definition invalid_state_diff (e : ProofProviderError) : Prop := ∃ m, e = InvalidStateDiff m.

(** The diffs the virtual OS supports. *)
Definition allowed (d : StateDiff) : Prop :=
  (∀ a us k v, storage_updates d !! a = Some us → us !! k = Some v → v ≠ felt_of 0) ∧
  address_to_class_hash d = ∅ ∧ class_hash_to_compiled_class_hash d = ∅.

Lemma check_storage_diffs_spec a us :
  (check_storage_diffs a us = Ok tt ∧ ∀ k v, us !! k = Some v → v ≠ felt_of 0) ∨
  (∃ e, check_storage_diffs a us = Err e ∧
     ¬ (∀ k v, us !! k = Some v → v ≠ felt_of 0) ∧ invalid_state_diff e).
Proof.
  unfold check_storage_diffs. set (f := λ (_ : unit) '(_, _), _).
  destruct (fold_res_unit f (λ kv, kv.2 ≠ felt_of 0) invalid_state_diff (map_iter us))
    as [[-> HF]|(e & -> & HF & HQ)].
  - intros [k v] u. simpl. destruct (decide (v = felt_of 0)); [right|by left].
    eexists. split; [done|]. split; [naive_solver|]. by eexists.
  - left. split; [done|]. intros k v Hv. rewrite Forall_forall in HF.
    apply (HF (k, v)). by apply elem_of_map_iter.
  - right. exists e. split; [done|]. split; [|done]. intros Hall. apply HF.
    apply Forall_forall. intros [k v] Hin%elem_of_map_iter. by eapply Hall.
Qed.

Lemma validate_spec d :
  (validate_virtual_os_state_diff d = Ok tt ∧ allowed d) ∨
  (∃ m, validate_virtual_os_state_diff d = Err (InvalidStateDiff m) ∧ ¬ allowed d).
Proof.
  unfold validate_virtual_os_state_diff, allowed. set (f := λ (_ : unit) '(_, _), _).
  destruct (fold_res_unit f (λ p, ∀ k v, p.2 !! k = Some v → v ≠ felt_of 0)
    invalid_state_diff (map_iter (storage_updates d))) as [[-> HF]|(e & -> & HF & [m ->])].
  { intros [a us] u. apply check_storage_diffs_spec. }
  - cbn [mbind res_bind]. rewrite Forall_forall in HF.
    assert (∀ a us k v, storage_updates d !! a = Some us → us !! k = Some v → v ≠ felt_of 0) as Hst.
    { intros a us k v Ha. apply (HF (a, us)). by apply elem_of_map_iter. }
    destruct (decide (address_to_class_hash d = ∅)); cbn [mbind res_bind];
      [|right; eexists; split; [done|]; by intros (_ & ? & _)].
    destruct (decide (class_hash_to_compiled_class_hash d = ∅)); cbn [mbind res_bind];
      [by left|right; eexists; split; [done|]; by intros (_ & _ & ?)].
  - right. exists m. split; [done|]. intros (Hst & _). apply HF, Forall_forall.
    intros [a us] Hin%elem_of_map_iter k v. by eapply Hst.
Qed.

Lemma committer_diff_storage m a k v :
  (∃ us, storage_updates (state_maps_to_committer_state_diff m) !! a = Some us ∧ us !! k = Some v)
  ↔ storage m !! (a, k) = Some v.
Proof.
  rewrite <-storage_diff_spec. simpl.
  set (l := _ <$> storage_diff_from (storage m)).
  assert (l.*1 = (storage_diff_from (storage m)).*1) as Hl1.
  { unfold l. rewrite <-list_fmap_compose. apply list_fmap_ext. by intros ? [] _. }
  assert (NoDup l.*1) as Hnd by (rewrite Hl1; apply storage_diff_NoDup).
  split.
  - intros (us & Hus & Hk). apply map_extend_Some in Hus as [Hus|Hus]; [|by rewrite lookup_empty in Hus].
    apply list_elem_of_fmap in Hus as ([a' us'] & [= -> ->] & Hin).
    apply map_extend_Some in Hk as [Hk|Hk]; [|by rewrite lookup_empty in Hk]. eauto.
  - intros (us & Hin & Hk). exists (map_extend ∅ us). split.
    + apply map_extend_NoDup; [done|]. apply list_elem_of_fmap. by exists (a, us).
    + apply map_extend_NoDup; [|done]. by eapply storage_diff_inner.
Qed.

Lemma allowed_state_maps m :
  allowed (state_maps_to_committer_state_diff m) ↔
  (∀ a k v, storage m !! (a, k) = Some v → v ≠ felt_of 0) ∧
  class_hashes m = ∅ ∧ compiled_class_hashes m = ∅.
Proof.
  assert (class_hash_to_compiled_class_hash (state_maps_to_committer_state_diff m)
    = compiled_class_hashes m) as Hcc.
  { simpl. apply map_eq. intros c. apply option_eq. intros x. split.
    - intros [Hin|Hin]%map_extend_Some; [by apply elem_of_map_iter in Hin|by rewrite lookup_empty in Hin].
    - intros Hx. apply map_extend_NoDup; [|by apply elem_of_map_iter].
      rewrite map_iter_perm. apply NoDup_fst_map_to_list. }
  unfold allowed. rewrite Hcc. setoid_rewrite <-committer_diff_storage. naive_solver.
Qed.

Lemma validate_Ok d : validate_virtual_os_state_diff d = Ok tt ↔ allowed d.
Proof. destruct (validate_spec d) as [[-> ?]|(e & -> & ?)]; done. Qed.

(** The converted state diff passes the virtual OS validation exactly when
    it writes no zero to storage, deploys no contract and declares no class. *)
Theorem validate_state_maps m :
  validate_virtual_os_state_diff (state_maps_to_committer_state_diff m) = Ok tt ↔
  (∀ a k v, storage m !! (a, k) = Some v → v ≠ felt_of 0) ∧
  class_hashes m = ∅ ∧ compiled_class_hashes m = ∅.
Proof. rewrite validate_Ok. apply allowed_state_maps. Qed.
End validate_facts.
