(* ===== verification/Blockifier.v ===== *)
(** * Transactions and the transaction executor

    The parts of starknet-api and blockifier that execute a transaction: the
    transaction types, the block context, the class cache that is shared
    between the asynchronous prefetch and the synchronous execution, and the
    executor itself.  None is part of the repository; [Blockifier] is their
    interface and [BlockifierLaws] the behaviour the source relies on. *)

From S2P Require Import Prelude RustNum Json Felt Types StarknetApi StateReader.

(** starknet-api's [RpcInvokeTransactionV3]; [AllResourceBounds] has the shape
    of the repository's own [ResourceBounds]. *)
Record RpcInvokeTransactionV3 `{StarknetApi} := {
  rt_sender_address : ContractAddress;
  rt_calldata : list Felt;
  rt_signature : list Felt;
  rt_nonce : Nonce;
  rt_resource_bounds : ResourceBounds;
  rt_tip : Z;
  rt_paymaster_data : list Felt;
  rt_account_deployment_data : list Felt;
  rt_nonce_data_availability_mode : L1DataAvailabilityMode;
  rt_fee_data_availability_mode : L1DataAvailabilityMode;
  rt_proof_facts : list Felt;
  rt_proof : list Z;
}.

Record ExecutionFlags := {
  only_query : bool;
  charge_fee : bool;
  validate : bool;
  strict_nonce_check : bool;
}.

(** [MessageToL1]: sender, L1 address, payload. *)
Record MessageToL1 `{StarknetApi} := {
  msg_from_address : ContractAddress;
  msg_to_address : list Z;
  msg_payload : list Felt;
}.

Class Blockifier `{StarknetApi} `{BlockTypes} `{!Classes} := {
  (** Transactions. *)
  InvokeTransactionV0 : Type;
  InvokeTransactionV1 : Type;
  InvokeTransactionV3 : Type;
  RpcDeclareTransaction : Type;
  RpcDeployAccountTransaction : Type;
  v3_of_rpc : RpcInvokeTransactionV3 → InvokeTransactionV3;
  rpc_of_v3 : InvokeTransactionV3 → res string RpcInvokeTransactionV3;
  ser_rpc_invoke : RpcInvokeTransactionV3 → Value;
  (** [ValidResourceBounds::AllResources(b).max_possible_fee(tip)]. *)
  all_resources_max_fee : ResourceBounds → Z → Z;
  (** [tx.resource_bounds().max_possible_fee(tx.tip())] of each version. *)
  v0_max_possible_fee : InvokeTransactionV0 → Z;
  v1_max_possible_fee : InvokeTransactionV1 → Z;
  v3_max_possible_fee : InvokeTransactionV3 → Z;
  BlockifierTransaction : Type;
  (** Block context. *)
  VersionedConstants : Type;
  latest_constants : VersionedConstants;
  versioned_constants_get : StarknetVersion → res string VersionedConstants;
  set_enable_casm_hash_migration : bool → VersionedConstants → VersionedConstants;
  set_min_sierra_version : Z * Z * Z → VersionedConstants → VersionedConstants;
  BouncerConfig : Type;
  default_bouncer_config : BouncerConfig;
  concat_counts : Z → Z → Z → L1DataAvailabilityMode → Felt;
  (** Execution. *)
  CallInfo : Type;
  TransactionExecutionInfo : Type;
  revert_error : TransactionExecutionInfo → option string;
  non_optional_call_infos : TransactionExecutionInfo → list CallInfo;
  get_sorted_l2_to_l1_messages : CallInfo → list MessageToL1;
  CachedState : Type;
  get_initial_reads : CachedState → res string StateMaps;
  to_state_diff : CachedState → res string StateMaps;
}.

(** [TransactionExecutionOutput]. *)
Abbreviation ExecutionOutput := (TransactionExecutionInfo * StateMaps)%type (only parsing).

Section types.
Context `{Blockifier}.

Inductive InvokeTransaction :=
  | InvokeV0 (t : InvokeTransactionV0)
  | InvokeV1 (t : InvokeTransactionV1)
  | InvokeV3 (t : InvokeTransactionV3).

Definition max_possible_fee (tx : InvokeTransaction) : Z :=
  match tx with
  | InvokeV0 t => v0_max_possible_fee t
  | InvokeV1 t => v1_max_possible_fee t
  | InvokeV3 t => v3_max_possible_fee t
  end.

Inductive RpcTransaction :=
  | RpcDeclare (t : RpcDeclareTransaction)
  | RpcDeployAccount (t : RpcDeployAccountTransaction)
  | RpcInvoke (t : RpcInvokeTransactionV3).

(** [BlockContext] has a public bouncer configuration. *)
Record BlockContext := {
  bc_block_info : BlockInfo;
  bc_chain_info : ChainInfo;
  bc_versioned_constants : VersionedConstants;
  bc_bouncer_config : BouncerConfig;
}.

(** What the executor holds after [execute_txs]: its state, if it is still
    there, and the bouncer's executed classes, behind a lock. *)
Record ExecutorState := {
  block_state : option CachedState;
  bouncer_executed_class_hashes : res string (gset ClassHash);
}.
End types.

(** Building a blockifier transaction and running a list of them against a
    state reader and the class cache of the world. *)
Class Executes (W : Type) `{Blockifier} := {
  blockifier_tx_from_api :
    InvokeTransaction → TransactionHash → ExecutionFlags → res string BlockifierTransaction;
  (** [ContractClassManager::set_and_compile] and a lookup in its cache. *)
  set_and_compile : ClassHash → CompiledClasses → W → W;
  cached_class : W → ClassHash → option CompiledClasses;
  execute_txs : StateReader → BlockContext → list BlockifierTransaction → W →
    (list (res string ExecutionOutput) * ExecutorState) * W;
}.

Class BlockifierLaws (W : Type) `{HttpStatus W} `{Executes W} := {
  (** The executor may stop early but never invents results. *)
  execute_txs_length reader ctx txs w :
    (length (execute_txs reader ctx txs w).1.1 ≤ length txs)%nat;
  cached_set h c w : cached_class (set_and_compile h c w) h = Some c;
  cached_set_ne h h' c w :
    is_Some (cached_class w h') → is_Some (cached_class (set_and_compile h c w) h');
  cached_post url body w h :
    is_Some (cached_class w h) → is_Some (cached_class (post_status url body w).2 h);
  (** The fee of [AllResources]: amounts times prices, the tip added to the
      price of L2 gas, saturating. *)
  all_resources_max_fee_zero b tip :
    (max_amount (l1_gas b) = 0 ∨ max_price_per_unit (l1_gas b) = 0) →
    (max_amount (l2_gas b) = 0 ∨ max_price_per_unit (l2_gas b) + tip = 0) →
    (max_amount (l1_data_gas b) = 0 ∨ max_price_per_unit (l1_data_gas b) = 0) →
    all_resources_max_fee b tip = 0;
  (** The conversion from the RPC form keeps the bounds and the tip. *)
  v3_of_rpc_max_fee t :
    v3_max_possible_fee (v3_of_rpc t) = all_resources_max_fee (rt_resource_bounds t) (rt_tip t);
}.
