(* ===== verification/Executor.v ===== *)
(** * Executing the virtual block
    ([crates/starknet-transaction-prover-wasm/src/running/virtual_block_executor.rs])

    The base block's context, the prefetch of the state and of the classes
    that the synchronous executor will need, the state reader it runs on, and
    [RpcVirtualBlockExecutor::execute]. *)

From S2P Require Import Prelude RustNum Json Felt StarknetApi StateReader Blockifier.

Inductive VirtualBlockExecutorError `{FeltOps} :=
  | ReexecutionErr (e : ReexecutionError)
  | TransactionExecutionError (msg : string)
  | TransactionReverted (hash : TransactionHash) (msg : string)
  | StateUnavailable
  | BouncerLockError (msg : string).

(** How starknet-api writes a transaction's and a class's hash. *)
Class HashFmt `{FeltOps} := {
  debug_transaction_hash : TransactionHash → string;
  display_class_hash : ClassHash → string;
}.

(** [Display for VirtualBlockExecutorError]. *)
Definition virtual_block_executor_error_text `{HashFmt} (e : VirtualBlockExecutorError) : string :=
  match e with
  | ReexecutionErr e => reexecution_error_text e
  | TransactionExecutionError m => "Transaction execution failed: " +:+ m
  | TransactionReverted hash m => "Reverted transactions are not supported; hash: "
      +:+ debug_transaction_hash hash +:+ ", revert reason: " +:+ m
  | StateUnavailable => "Block state unavailable after execution"
  | BouncerLockError m => "Failed to acquire bouncer lock: " +:+ m
  end.

Record BlockHeaderCommitments `{FeltOps} := {
  transaction_commitment : Felt;
  event_commitment : Felt;
  receipt_commitment : Felt;
  state_diff_commitment : Felt;
  concatenated_counts : Felt;
}.

Section executor_types.
Context `{Blockifier}.

Record RpcVirtualBlockExecutorConfig := {
  prefetch_state : bool;
  bouncer_config : BouncerConfig;
  use_latest_versioned_constants : bool;
}.

(** [impl Default]. *)
Definition default_executor_config : RpcVirtualBlockExecutorConfig := {|
  prefetch_state := true;
  bouncer_config := default_bouncer_config;
  use_latest_versioned_constants := true |}.

(** What serde fills in for missing members: [#[serde(default)]] is the
    field type's default, not the one above. *)
Definition serde_executor_config (p : option bool) (b : option BouncerConfig) (u : option bool)
    : RpcVirtualBlockExecutorConfig := {|
  prefetch_state := default false p;
  bouncer_config := default default_bouncer_config b;
  use_latest_versioned_constants := default true u |}.

Record BaseBlockInfo := {
  block_context : BlockContext;
  base_block_hash : BlockHash;
  base_block_header_commitments : BlockHeaderCommitments;
  prev_base_block_hash : BlockHash;
}.

Record VirtualBlockExecutionData := {
  execution_outputs : list ExecutionOutput;
  initial_reads : StateMaps;
  state_diff : StateMaps;
  executed_class_hashes : gset ClassHash;
  l2_to_l1_messages : list MessageToL1;
  base_block_info : BaseBlockInfo;
}.

(** [BaseBlockInfo::new]. *)
Definition base_block_info_new (header : BlockHeader) (chain_info : ChainInfo)
    (use_latest : bool) : res VirtualBlockExecutorError BaseBlockInfo :=
  let commitments := {|
    transaction_commitment := bh_transaction_commitment header;
    event_commitment := bh_event_commitment header;
    receipt_commitment := bh_receipt_commitment header;
    state_diff_commitment := bh_state_diff_commitment header;
    concatenated_counts := concat_counts (bh_transaction_count header)
      (bh_event_count header) (bh_state_diff_length header) (bh_l1_da_mode header) |} in
  block_info ← map_err
    (λ e, TransactionExecutionError ("Failed to convert block header to block info: " +:+ e))
    (block_info_of_header header);
  versioned_constants ←
    (if use_latest then Ok latest_constants
     else map_err (λ e, TransactionExecutionError ("Failed to get versioned constants: " +:+ e))
            (versioned_constants_get (bi_starknet_version block_info)));
  let versioned_constants := set_enable_casm_hash_migration false versioned_constants in
  let versioned_constants := set_min_sierra_version (0, 0, 1) versioned_constants in
  Ok {|
    block_context := {|
      bc_block_info := block_info; bc_chain_info := chain_info;
      bc_versioned_constants := versioned_constants;
      bc_bouncer_config := default_bouncer_config |};
    base_block_hash := bh_block_hash header;
    base_block_header_commitments := commitments;
    prev_base_block_hash := bh_parent_hash header |}.

(** [impl StateReader for SimulatedStateReader]: prefetched values first,
    then the inner reader. *)
Definition simulated_reader (state_maps : StateMaps) (inner : StateReader) : StateReader := {|
  get_storage_at contract_address key :=
    match storage state_maps !! (contract_address, key) with
    | Some value => Ok value
    | None => get_storage_at inner contract_address key
    end;
  get_nonce_at contract_address :=
    match nonces state_maps !! contract_address with
    | Some value => Ok value
    | None => get_nonce_at inner contract_address
    end;
  get_class_hash_at contract_address :=
    match class_hashes state_maps !! contract_address with
    | Some value => Ok value
    | None => get_class_hash_at inner contract_address
    end;
  get_compiled_class := get_compiled_class inner;
  get_compiled_class_hash := get_compiled_class_hash inner;
  get_compiled_classes := get_compiled_classes inner;
  is_declared class_hash :=
    match declared_contracts state_maps !! class_hash with
    | Some value => Ok value
    | None => is_declared inner class_hash
    end;
|}.
End executor_types.

Section executor.
Context {W : Type} `{HttpStatus W} `{ApiSerde} `{SerdeJson} `{BlockTypes} `{!Classes}
  `{!Blockifier} `{!Executes W} `{HashOrder}.
Context (de_block_header : Value → res string BlockHeader) (serde_message : Value → string).

Record RpcVirtualBlockExecutor := {
  rpc_state_reader : RpcStateReader;
  validate_txs : bool;
  config : RpcVirtualBlockExecutorConfig;
}.

(** [RpcVirtualBlockExecutor::new]. *)
Definition executor_new (node_url : string) (chain_info : ChainInfo) (block_id : BlockId) (config : RpcVirtualBlockExecutorConfig)
    : RpcVirtualBlockExecutor := {|
  rpc_state_reader := new_with_config_from_url node_url chain_info block_id;
  validate_txs := true;
  config := config |}.

Context (self : RpcVirtualBlockExecutor).

Definition rpc_tx_of (tx : InvokeTransaction)
    : res VirtualBlockExecutorError RpcInvokeTransactionV3 :=
  match tx with
  | InvokeV3 v3 => map_err TransactionExecutionError (rpc_of_v3 v3)
  | _ => Err (TransactionExecutionError "Only Invoke V3 transactions are supported for simulate")
  end.

Definition simulation_flags : list string :=
  ["RETURN_INITIAL_READS"] ++ (if validate_txs self then [] else ["SKIP_VALIDATE"])
    ++ ["SKIP_FEE_CHARGE"].

Definition simulate_and_get_initial_reads (block_id : BlockId)
    (txs : list (InvokeTransaction * TransactionHash)) : prog W VirtualBlockExecutorError StateMaps :=
  rpc_txs ← lift (collect_res (λ p, rpc_tx_of p.1) txs);
  let params := JObject [
    ("block_id", ser_block_id block_id);
    ("transactions", JArray (ser_rpc_invoke <$> rpc_txs));
    ("simulation_flags", json_strings simulation_flags)] in
  result ← mapping_err ReexecutionErr
    (send_rpc_request_async (rpc_state_reader self) "starknet_simulateTransactions" params);
  initial_reads_value ← lift (ok_or (get result "initial_reads")
    (TransactionExecutionError
      "simulateTransactions response missing initial_reads (ensure RETURN_INITIAL_READS and v0.10 endpoint)"));
  lift (map_err (λ e, TransactionExecutionError ("Failed to deserialize initial_reads: " +:+ e))
    (deserialize_rpc_initial_reads serde_message initial_reads_value)).

Definition base_block_info_async : prog W VirtualBlockExecutorError BaseBlockInfo :=
  block_header ← mapping_err ReexecutionErr
    (get_block_header_async de_block_header (rpc_state_reader self));
  base ← lift (base_block_info_new block_header (rs_chain_info (rpc_state_reader self))
    (use_latest_versioned_constants (config self)));
  mret {|
    block_context := {|
      bc_block_info := bc_block_info (block_context base);
      bc_chain_info := bc_chain_info (block_context base);
      bc_versioned_constants := bc_versioned_constants (block_context base);
      bc_bouncer_config := bouncer_config (config self) |};
    base_block_hash := base_block_hash base;
    base_block_header_commitments := base_block_header_commitments base;
    prev_base_block_hash := prev_base_block_hash base |}.

(** The set of class hashes to fetch. *)
Definition class_hashes_to_fetch (state_maps : StateMaps) : gset ClassHash :=
  list_to_set (map_iter (class_hashes state_maps)).*2 ∪ dom (declared_contracts state_maps).

Definition prefetch_class (class_hash : ClassHash) : prog W VirtualBlockExecutorError unit :=
  if decide (class_hash = felt_of 0) then mret tt
  else
    compiled ← mapping_err ReexecutionErr
      (get_compiled_classes_async (rpc_state_reader self) class_hash);
    modify (set_and_compile class_hash compiled).

Definition prefetch_classes_into_cache (state_maps : StateMaps)
    : prog W VirtualBlockExecutorError unit :=
  _ ← for_each prefetch_class (set_iter (class_hashes_to_fetch state_maps));
  mret tt.

Definition execution_flags (invoke_tx : InvokeTransaction) : ExecutionFlags := {|
  only_query := false;
  charge_fee := 0 <? max_possible_fee invoke_tx;
  validate := validate_txs self;
  strict_nonce_check := false |}.

Definition convert_invoke_txs (txs : list (InvokeTransaction * TransactionHash))
    : res VirtualBlockExecutorError (list BlockifierTransaction) :=
  collect_res (λ '(invoke_tx, tx_hash),
    map_err TransactionExecutionError
      (blockifier_tx_from_api invoke_tx tx_hash (execution_flags invoke_tx))) txs.

(** The loop that rejects reverted transactions; [zip] with the hashes. *)
Fixpoint check_reverts (outputs : list (ExecutionOutput * TransactionHash))
    : res VirtualBlockExecutorError unit :=
  match outputs with
  | [] => Ok tt
  | (output, tx_hash) :: outputs =>
      match revert_error output.1 with
      | Some e => Err (TransactionReverted tx_hash e)
      | None => check_reverts outputs
      end
  end.

Definition output_messages (output : ExecutionOutput) : list MessageToL1 :=
  mjoin (get_sorted_l2_to_l1_messages <$> non_optional_call_infos output.1).

(** The part of [execute] after the transactions ran. *)
Definition finish_execution (base : BaseBlockInfo) (tx_hashes : list TransactionHash)
    (results : list (res string ExecutionOutput)) (st : ExecutorState)
    : res VirtualBlockExecutorError VirtualBlockExecutionData :=
  execution_outputs ← collect_res (map_err TransactionExecutionError) results;
  _ ← check_reverts (zip execution_outputs tx_hashes);
  block_state ← ok_or (block_state st) StateUnavailable;
  initial_reads ← map_err
    (λ e, TransactionExecutionError ("Failed to get initial reads: " +:+ e))
    (get_initial_reads block_state);
  state_diff ← map_err
    (λ e, TransactionExecutionError ("Failed to get state diff: " +:+ e))
    (to_state_diff block_state);
  executed_class_hashes ← map_err BouncerLockError (bouncer_executed_class_hashes st);
  Ok {|
    execution_outputs := execution_outputs;
    base_block_info := base;
    initial_reads := initial_reads;
    state_diff := state_diff;
    l2_to_l1_messages := mjoin (output_messages <$> execution_outputs);
    executed_class_hashes := executed_class_hashes |}.

(** Running the executor on the world's class cache. *)
Definition run_transactions (state_maps : StateMaps) (base : BaseBlockInfo)
    (tx_hashes : list TransactionHash) (blockifier_txs : list BlockifierTransaction)
    : prog W VirtualBlockExecutorError VirtualBlockExecutionData := λ w,
  let '((results, st), w1) :=
    execute_txs (simulated_reader state_maps rpc_sync_reader) (block_context base)
      blockifier_txs w in
  (finish_execution base tx_hashes results st, w1).

Definition execute (block_id : BlockId) (txs : list (InvokeTransaction * TransactionHash))
    : prog W VirtualBlockExecutorError VirtualBlockExecutionData :=
  base ← base_block_info_async;
  state_maps ← (if prefetch_state (config self)
                then simulate_and_get_initial_reads block_id txs
                else mret empty_state_maps);
  _ ← prefetch_classes_into_cache state_maps;
  let tx_hashes := txs.*2 in
  blockifier_txs ← lift (convert_invoke_txs txs);
  run_transactions state_maps base tx_hashes blockifier_txs.
End executor.

(** ** Facts *)

Section simulated_facts.
Context `{Blockifier}.

(** A reader that serves the state [m] alone: what [m] does not hold is an
    error, except that a class counts as declared, and compiled classes are
    not read from it. *)
Definition serves (m : StateMaps) (r : StateReader) : Prop :=
  (∀ a k v, get_storage_at r a k = Ok v ↔ storage m !! (a, k) = Some v) ∧
  (∀ a v, get_nonce_at r a = Ok v ↔ nonces m !! a = Some v) ∧
  (∀ a v, get_class_hash_at r a = Ok v ↔ class_hashes m !! a = Some v) ∧
  (∀ c b, is_declared r c = Ok b ↔ b = default true (declared_contracts m !! c)) ∧
  (∀ c v, get_compiled_class r c ≠ Ok v) ∧ (∀ c v, get_compiled_classes r c ≠ Ok v).

(** Reads are served from the prefetched maps, in a browser from nothing else. *)
Lemma simulated_reader_spec m : serves m (simulated_reader m rpc_sync_reader).
Proof.
  split_and!; simpl; intros; repeat case_match; simplify_eq/=; naive_solver.
Qed.
End simulated_facts.

Section revert_facts.
Context `{Blockifier}.
Implicit Types (outs : list ExecutionOutput) (hs : list TransactionHash).

Definition reverted (o : ExecutionOutput) : Prop := is_Some (revert_error o.1).

Lemma check_reverts_Ok ps :
  check_reverts ps = Ok tt ↔ Forall (λ p, revert_error p.1.1 = None) ps.
Proof.
  induction ps as [|[o h] ps IH]; simpl; [done|]. rewrite Forall_cons. simpl.
  destruct (revert_error o.1); naive_solver.
Qed.

(** The first reverted transaction, in execution order, is the one reported. *)
Lemma check_reverts_first outs hs i o h e :
  outs !! i = Some o → hs !! i = Some h → revert_error o.1 = Some e →
  Forall (λ o, revert_error o.1 = None) (take i outs) →
  check_reverts (zip outs hs) = Err (TransactionReverted h e).
Proof.
  revert outs hs. induction i as [|i IH]; intros [|o' outs] [|h' hs] Ho Hh He Hall; try done.
  - simpl in *. simplify_eq. by rewrite He.
  - simpl in Hall. apply Forall_cons in Hall as [Hn Hall]. simpl. rewrite Hn. by apply IH.
Qed.

Lemma collect_map_err_Ok results outs :
  collect_res (map_err TransactionExecutionError) results = Ok outs ↔ results = Ok <$> outs.
Proof.
  rewrite collect_res_Ok. split.
  - induction 1 as [|r o results outs Hr _ IH]; [done|].
    apply map_err_Ok in Hr as ->. by rewrite fmap_cons, IH.
  - intros ->. induction outs as [|o outs IH]; constructor; done.
Qed.

Theorem finish_execution_reverted base hs outs st i o h e :
  outs !! i = Some o → hs !! i = Some h → revert_error o.1 = Some e →
  Forall (λ o, revert_error o.1 = None) (take i outs) →
  finish_execution base hs (Ok <$> outs) st = Err (TransactionReverted h e).
Proof.
  intros Ho Hh He Hall. unfold finish_execution.
  rewrite (proj2 (collect_map_err_Ok (Ok <$> outs) outs) eq_refl). cbn [mbind res_bind].
  by rewrite (check_reverts_first outs hs i o h e).
Qed.

Lemma finish_execution_Ok base hs results st data :
  (length results ≤ length hs)%nat →
  finish_execution base hs results st = Ok data →
  results = Ok <$> execution_outputs data ∧ base_block_info data = base ∧
  Forall (λ o, revert_error o.1 = None) (execution_outputs data) ∧
  l2_to_l1_messages data = mjoin (output_messages <$> execution_outputs data) ∧
  bouncer_executed_class_hashes st = Ok (executed_class_hashes data) ∧
  ∃ s, block_state st = Some s ∧ get_initial_reads s = Ok (initial_reads data) ∧
    to_state_diff s = Ok (state_diff data).
Proof.
  intros Hlen (outs & Houts & Hfin)%res_bind_Ok. apply collect_map_err_Ok in Houts as ->.
  apply res_bind_Ok in Hfin as ([] & Hrev & Hfin). apply check_reverts_Ok in Hrev.
  prog_inv. injection Hfin as <-. simpl. split; [done|]. split; [done|]. split; [|eauto 10].
  rewrite length_fmap in Hlen. apply Forall_forall. intros o [i Hi]%list_elem_of_lookup.
  destruct (lookup_lt_is_Some_2 hs i) as [h Hh].
  { apply lookup_lt_Some in Hi. lia. }
  rewrite Forall_forall in Hrev. apply (Hrev (o, h)).
  apply list_elem_of_lookup. exists i. by apply lookup_zip_Some.
Qed.
End revert_facts.

Section execute_facts.
Context {W : Type} `{HttpStatus W} `{ApiSerde} `{SerdeJson} `{BlockTypes} `{!Classes}
  `{!Blockifier} `{!Executes W} `{!BlockifierLaws W} `{HashOrder}.
Context (de_block_header : Value → res string BlockHeader) (serde_message : Value → string).
Context (self : RpcVirtualBlockExecutor).

(** The class is in the cache. *)
Definition is_cached (h : ClassHash) (w : W) : Prop := is_Some (cached_class w h).

Lemma send_keeps_cache h r m p : preserves (is_cached h) (send_rpc_request_async r m p).
Proof.
  intros w Hw. unfold send_rpc_request_async.
  match goal with |- context [post_status ?u ?b w] => pose proof (cached_post u b w h Hw) as Hc;
    destruct (post_status u b w) end.
  done.
Qed.

Lemma compiled_classes_keeps_cache h r c :
  preserves (is_cached h) (get_compiled_classes_async r c).
Proof.
  unfold get_compiled_classes_async, get_contract_class_async, get_casm_async.
  apply preserves_bind.
  { apply preserves_bind; [apply send_keeps_cache|auto with snip]. }
  intros [s|l].
  - apply preserves_bind; [|auto with snip]. apply preserves_bind; [auto with snip|]. intros v.
    apply preserves_bind; [apply send_keeps_cache|auto with snip].
  - apply preserves_bind; auto with snip.
Qed.

Lemma prefetch_keeps_cache h c : preserves (is_cached h) (prefetch_class self c).
Proof.
  unfold prefetch_class. destruct (decide _); [auto with snip|].
  apply preserves_bind; [apply preserves_mapping_err, compiled_classes_keeps_cache|].
  intros cls. apply preserves_modify. intros w. apply cached_set_ne.
Qed.

Lemma prefetch_class_cached c w y w1 :
  c ≠ felt_of 0 → prefetch_class self c w = (Ok y, w1) → is_cached c w1.
Proof.
  intros Hc. unfold prefetch_class. rewrite decide_False by done.
  intros Hrun. apply prog_bind_Ok in Hrun as (cls & w2 & _ & [= _ <-]).
  unfold is_cached. rewrite cached_set. eauto.
Qed.

(** Every class the prefetched state mentions is in the cache when the
    prefetch succeeds. *)
Lemma prefetch_classes_cached m w u w' c :
  prefetch_classes_into_cache self m w = (Ok u, w') →
  c ∈ class_hashes_to_fetch m → c ≠ felt_of 0 → is_cached c w'.
Proof.
  intros Hrun Hc Hne. unfold prefetch_classes_into_cache in Hrun.
  apply prog_bind_Ok in Hrun as (ys & w1 & Hloop & [= _ <-]).
  eapply (for_each_reached _ (is_cached c) _ _ _ _ c); [| | |exact Hloop].
  - by apply elem_of_set_iter.
  - intros w2 y w3. by apply prefetch_class_cached.
  - intros x. apply prefetch_keeps_cache.
Qed.

Lemma class_hashes_to_fetch_spec m c :
  c ∈ class_hashes_to_fetch m ↔
  (∃ a, class_hashes m !! a = Some c) ∨ is_Some (declared_contracts m !! c).
Proof.
  unfold class_hashes_to_fetch. rewrite elem_of_union, elem_of_list_to_set, elem_of_dom.
  rewrite list_elem_of_fmap. f_equiv. split.
  - intros ([a c'] & -> & Hin%elem_of_map_iter). by exists a.
  - intros [a Ha]. exists (a, c). split; [done|]. by apply elem_of_map_iter.
Qed.

(** The base block of a run is the one the node's header describes: its hash,
    its parent and its commitments are the header's, and the context holds the
    header's block information, the reader's chain, the configured bouncer and
    the constants of the block's version (or the latest ones), with the
    migration of the compiled class hashes off and the lowest Sierra version
    0.0.1. *)
Definition based_on (header : BlockHeader) (base : BaseBlockInfo) : Prop :=
  let ctx := block_context base in
  block_info_of_header header = Ok (bc_block_info ctx) ∧
  bc_chain_info ctx = rs_chain_info (rpc_state_reader self) ∧
  bc_bouncer_config ctx = bouncer_config (config self) ∧
  (∃ vc, (if use_latest_versioned_constants (config self) then vc = latest_constants
          else versioned_constants_get (bi_starknet_version (bc_block_info ctx)) = Ok vc) ∧
     bc_versioned_constants ctx
       = set_min_sierra_version (0, 0, 1) (set_enable_casm_hash_migration false vc)) ∧
  base_block_hash base = bh_block_hash header ∧
  prev_base_block_hash base = bh_parent_hash header ∧
  base_block_header_commitments base = {|
    transaction_commitment := bh_transaction_commitment header;
    event_commitment := bh_event_commitment header;
    receipt_commitment := bh_receipt_commitment header;
    state_diff_commitment := bh_state_diff_commitment header;
    concatenated_counts := concat_counts (bh_transaction_count header)
      (bh_event_count header) (bh_state_diff_length header) (bh_l1_da_mode header) |}.

(** The state prefetched in the world [w0]: what the node's simulation of
    these very transactions at this block reports as initially read when the
    executor prefetches, nothing otherwise. *)
Definition prefetched (block_id : BlockId) (txs : list (InvokeTransaction * TransactionHash))
    (m : StateMaps) (w0 w1 : W) : Prop :=
  if prefetch_state (config self) then
    ∃ rpcs result reads,
      Forall2 (λ tx r, ∃ v3, tx.1 = InvokeV3 v3 ∧ rpc_of_v3 v3 = Ok r) txs rpcs ∧
      send_rpc_request_async (rpc_state_reader self) "starknet_simulateTransactions"
        (JObject [("block_id", ser_block_id block_id);
                  ("transactions", JArray (ser_rpc_invoke <$> rpcs));
                  ("simulation_flags", json_strings (simulation_flags self))]) w0
        = (Ok result, w1) ∧
      get result "initial_reads" = Some reads ∧
      deserialize_rpc_initial_reads serde_message reads = Ok m
  else m = empty_state_maps ∧ w1 = w0.

(** The transaction the blockifier runs for one of the request: it charges a
    fee exactly when the transaction can pay one, and runs the account's
    validation when the executor validates. *)
Definition converted (tx : InvokeTransaction * TransactionHash) (btx : BlockifierTransaction)
    : Prop :=
  blockifier_tx_from_api tx.1 tx.2 {|
    only_query := false; charge_fee := 0 <? max_possible_fee tx.1;
    validate := validate_txs self; strict_nonce_check := false |} = Ok btx.

Lemma base_block_info_async_Ok w base w0 :
  base_block_info_async de_block_header self w = (Ok base, w0) →
  ∃ header, get_block_header_async de_block_header (rpc_state_reader self) w = (Ok header, w0) ∧
    based_on header base.
Proof.
  intros (header & w1 & Hget%mapping_err_Ok & Hrun)%prog_bind_Ok.
  apply prog_bind_Ok in Hrun as (b & w2 & [Hnew ->]%lift_Ok & [= <- <-]).
  exists header. split; [done|]. unfold base_block_info_new in Hnew.
  apply res_bind_Ok in Hnew as (bi & Hbi%map_err_Ok & Hnew).
  apply res_bind_Ok in Hnew as (vc & Hvc & [= <-]). unfold based_on. simpl.
  repeat split; try done. exists vc. split; [|done].
  destruct (use_latest_versioned_constants _); [congruence|by apply map_err_Ok in Hvc].
Qed.

Lemma simulate_Ok block_id txs w0 m w1 :
  (if prefetch_state (config self)
   then simulate_and_get_initial_reads serde_message self block_id txs
   else mret empty_state_maps) w0 = (Ok m, w1) →
  prefetched block_id txs m w0 w1.
Proof.
  unfold prefetched. destruct (prefetch_state _); [|by intros [= <- <-]].
  intros (rpcs & w2 & [Hrpcs ->]%lift_Ok & Hrun)%prog_bind_Ok.
  apply prog_bind_Ok in Hrun as (result & w3 & Hsend%mapping_err_Ok & Hrun).
  apply prog_bind_Ok in Hrun as (reads & w4 & [Hreads%ok_or_Ok ->]%lift_Ok & [Hm%map_err_Ok ->]%lift_Ok).
  exists rpcs, result, reads. split; [|done].
  apply collect_res_Ok in Hrpcs. eapply Forall2_impl; [exact Hrpcs|].
  intros [tx h] r. simpl. destruct tx; simpl; try done. intros Hr%map_err_Ok. eauto.
Qed.

Lemma convert_invoke_txs_Ok txs btxs :
  convert_invoke_txs self txs = Ok btxs → Forall2 converted txs btxs.
Proof.
  intros Hc%collect_res_Ok. eapply Forall2_impl; [exact Hc|].
  intros [tx h] btx Hb%map_err_Ok. done.
Qed.

Lemma execute_Ok block_id txs w data w' :
  execute de_block_header serde_message self block_id txs w = (Ok data, w') →
  Forall (λ o, revert_error o.1 = None) (execution_outputs data) ∧
  l2_to_l1_messages data = mjoin (output_messages <$> execution_outputs data) ∧
  (length (execution_outputs data) ≤ length txs)%nat ∧
  ∃ header w0 m w1 w2 btxs reader st s,
    get_block_header_async de_block_header (rpc_state_reader self) w = (Ok header, w0) ∧
    based_on header (base_block_info data) ∧
    prefetched block_id txs m w0 w1 ∧
    prefetch_classes_into_cache self m w1 = (Ok tt, w2) ∧
    (∀ c, c ≠ felt_of 0 →
       (∃ a, class_hashes m !! a = Some c) ∨ is_Some (declared_contracts m !! c) →
       is_cached c w2) ∧
    Forall2 converted txs btxs ∧ serves m reader ∧
    execute_txs reader (block_context (base_block_info data)) btxs w2
      = ((Ok <$> execution_outputs data, st), w') ∧
    block_state st = Some s ∧ get_initial_reads s = Ok (initial_reads data) ∧
    to_state_diff s = Ok (state_diff data) ∧
    bouncer_executed_class_hashes st = Ok (executed_class_hashes data).
Proof.
  unfold execute. intros Hrun.
  apply prog_bind_Ok in Hrun as (base & w0 & (header & Hget & Hon)%base_block_info_async_Ok & Hrun).
  apply prog_bind_Ok in Hrun as (m & w1 & Hm%simulate_Ok & Hrun).
  apply prog_bind_Ok in Hrun as ([] & w2 & Hpre & Hrun).
  apply prog_bind_Ok in Hrun as (btxs & w3 & [Hconv ->]%lift_Ok & Hrun).
  pose proof (collect_res_length _ _ _ Hconv) as Hbl. apply convert_invoke_txs_Ok in Hconv.
  unfold run_transactions in Hrun.
  pose proof (execute_txs_length (simulated_reader m rpc_sync_reader) (block_context base) btxs w2) as Hlen.
  destruct (execute_txs _ _ btxs w2) as [[results st] w4] eqn:Hex. simpl in Hlen.
  injection Hrun as Hfin <-.
  apply finish_execution_Ok in Hfin
    as (-> & <- & Hrev & Hmsg & Hexec & s & Hst & Hreads & Hdiff); [|rewrite length_fmap; lia].
  rewrite length_fmap in Hlen. split; [done|]. split; [done|]. split; [lia|].
  exists header, w0, m, w1, w2, btxs, (simulated_reader m rpc_sync_reader), st, s.
  repeat (split; [done|]). split; [|split; [done|split; [apply simulated_reader_spec|done]]].
  intros c Hc Hin. eapply prefetch_classes_cached; [done| |done].
  by apply class_hashes_to_fetch_spec.
Qed.

(** C8: A successful execution of the virtual block contains no reverted
    transaction and at most one output per transaction, and its messages are
    those of the outputs in order. It is one run of the executor: in the
    context of the base block, which is the one that the node's header
    describes; on a reader that serves exactly the state that the node's
    simulation of these very transactions reports as initially read, or an
    empty one when prefetching is off, every nonzero class hash of which was
    compiled into the class cache before; and of the given transactions,
    each converted with a fee exactly when it can pay one. The reads, the
    state diff and the executed classes are those of that run's final state. *)
Theorem execute_sound block_id txs w data w' :
  execute de_block_header serde_message self block_id txs w = (Ok data, w') →
  Forall (λ o, revert_error o.1 = None) (execution_outputs data) ∧
  l2_to_l1_messages data = mjoin (output_messages <$> execution_outputs data) ∧
  (length (execution_outputs data) ≤ length txs)%nat ∧
  ∃ header w0 m w1 w2 btxs reader st s,
    get_block_header_async de_block_header (rpc_state_reader self) w = (Ok header, w0) ∧
    based_on header (base_block_info data) ∧
    prefetched block_id txs m w0 w1 ∧
    prefetch_classes_into_cache self m w1 = (Ok tt, w2) ∧
    (∀ c, c ≠ felt_of 0 →
       (∃ a, class_hashes m !! a = Some c) ∨ is_Some (declared_contracts m !! c) →
       is_cached c w2) ∧
    Forall2 converted txs btxs ∧ serves m reader ∧
    execute_txs reader (block_context (base_block_info data)) btxs w2
      = ((Ok <$> execution_outputs data, st), w') ∧
    block_state st = Some s ∧ get_initial_reads s = Ok (initial_reads data) ∧
    to_state_diff s = Ok (state_diff data) ∧
    bouncer_executed_class_hashes st = Ok (executed_class_hashes data).
Proof. apply execute_Ok. Qed.

(** Fees are charged exactly for transactions with a nonzero maximal fee. *)
Lemma execution_flags_fee tx :
  charge_fee (execution_flags self tx) = true ↔ 0 < max_possible_fee tx.
Proof. simpl. apply Z.ltb_lt. Qed.
End execute_facts.
