(* ===== verification/StorageProofs.v ===== *)
(** * Storage proofs and commitment infos
    ([crates/starknet-transaction-prover-wasm/src/running/storage_proofs.rs])

    The query made from an execution's reads, the commitment infos with and
    without the state changes, and [get_storage_proofs]. *)

From stdpp Require Import sorting.
From S2P Require Import Prelude RustNum Json Felt StarknetApi StateReader ProofQuery.
From S2P Require Import CommitterUtils Blockifier Executor.

Record StorageProofConfig := { include_state_changes : bool }.

Definition default_storage_proof_config : StorageProofConfig := {| include_state_changes := true |}.

Record CommitmentInfo `{FeltOps} := {
  previous_root : HashOutput;
  updated_root : HashOutput;
  tree_height : Z;
  commitment_facts : gmap HashOutput (list Felt);
}.

Record StateCommitmentInfos `{StarknetApi} := {
  contracts_trie_commitment_info : CommitmentInfo;
  classes_trie_commitment_info : CommitmentInfo;
  storage_tries_commitment_infos : gmap ContractAddress CommitmentInfo;
}.

(** starknet-os and starknet-patricia. *)
Class CommitmentInfos `{FactsDbOps} := {
  Preimage : Type;
  preimage_from : MerkleNode → Preimage;
  flatten_preimages : gmap HashOutput Preimage → gmap HashOutput (list Felt);
  (** [SubTreeHeight::ACTUAL_HEIGHT]. *)
  ACTUAL_HEIGHT : Z;
  (** [StateMaps::keys]. *)
  StateChangesKeys : Type;
  state_maps_keys : StateMaps → StateChangesKeys;
  create_commitment_infos :
    StateRoots → StateRoots → gmap DbKey DbValue → StateChangesKeys → res string StateCommitmentInfos;
}.

Record StorageProofs `{StarknetApi} := {
  extended_initial_reads : StateMaps;
  commitment_infos : StateCommitmentInfos;
}.

Section provider.
Context {W : Type} `{StarknetApi} `{!ProofRpc W} `{!ContractAddresses} `{BlockTypes} `{!Classes}
  `{!Blockifier} `{!FactsDbOps} `{!Committer} `{!CommitmentInfos} `{!StorageDiffFrom}
  `{HashOrder}.
Context `{!DebugFmt ContractAddress} `{!DebugFmt StorageKey}
  `{!DebugFmt (gmap ContractAddress ClassHash)} `{!DebugFmt (gmap ClassHash CompiledClassHash)}.

Definition rpc_nodes_to_preimage_map (nodes : list (Felt * MerkleNode))
    : gmap HashOutput Preimage :=
  map_extend ∅ ((λ '(hash, node), (hash, preimage_from node)) <$> nodes).

Definition node_facts (nodes : list (Felt * MerkleNode)) : gmap HashOutput (list Felt) :=
  flatten_preimages (rpc_nodes_to_preimage_map nodes).

(** [contract_addresses.sort()]: addresses are ordered by their field
    element. *)
Definition address_le (a b : ContractAddress) : Prop :=
  felt_val (address_key a) ≤ felt_val (address_key b).
#[global] Instance address_le_dec a b : Decision (address_le a b).
Proof. unfold address_le. apply _. Defined.

(** [storage_by_address.entry(address).or_default().push(key)]. *)
Definition push_key (m : gmap ContractAddress (list Felt))
    (e : (ContractAddress * StorageKey) * Felt) : gmap ContractAddress (list Felt) :=
  let '((address, key), _) := e in
  <[address := (default [] (m !! address) ++ [storage_key_key key])%list]> m.

Definition prepare_query (execution_data : VirtualBlockExecutionData) : RpcStorageProofsQuery :=
  let class_hashes := set_iter (executed_class_hashes execution_data) in
  let initial_reads := initial_reads execution_data in
  let contract_addresses := merge_sort address_le (set_iter (get_contract_addresses initial_reads)) in
  let storage_by_address := fold_left push_key (map_iter (storage initial_reads)) ∅ in
  let contract_storage_keys :=
    (λ address, {| csk_contract_address := address_key address;
                   csk_storage_keys := default [] (storage_by_address !! address) |})
      <$> contract_addresses in
  {| q_class_hashes := class_hashes; q_contract_addresses := contract_addresses;
     q_contract_storage_keys := contract_storage_keys |}.

Definition create_commitment_infos_with_state_changes (rpc_proof : RpcStorageProof)
    (query : RpcStorageProofsQuery) (extended_initial_reads state_diff : StateMaps)
    : res ProofProviderError StateCommitmentInfos :=
  facts_db ← create_facts_db_from_storage_proof rpc_proof query extended_initial_reads;
  let contracts_root := contracts_tree_root (global_roots rpc_proof) in
  let classes_root := classes_tree_root (global_roots rpc_proof) in
  let committer_state_diff := state_maps_to_committer_state_diff state_diff in
  _ ← validate_virtual_os_state_diff committer_state_diff;
  committed ← commit_state_diff facts_db contracts_root classes_root committer_state_diff;
  let '(new_roots, map_storage) := (committed : StateRoots * gmap DbKey DbValue) in
  let previous_state_roots := {| contracts_trie_root_hash := contracts_root;
                                 classes_trie_root_hash := classes_root |} in
  infos ← map_err BlockCommitmentError
    (create_commitment_infos previous_state_roots new_roots map_storage
       (state_maps_keys extended_initial_reads));
  let classes_info := classes_trie_commitment_info infos in
  Ok {|
    contracts_trie_commitment_info := contracts_trie_commitment_info infos;
    classes_trie_commitment_info := {|
      previous_root := previous_root classes_info;
      updated_root := updated_root classes_info;
      tree_height := tree_height classes_info;
      (** [extend]: the proof's facts replace equal keys. *)
      commitment_facts := node_facts (classes_proof rpc_proof) ∪ commitment_facts classes_info |};
    storage_tries_commitment_infos := storage_tries_commitment_infos infos |}.

Definition unchanged_info (root : HashOutput) (nodes : list (Felt * MerkleNode)) : CommitmentInfo := {|
  previous_root := root; updated_root := root; tree_height := ACTUAL_HEIGHT;
  commitment_facts := node_facts nodes |}.

Definition addr_to_leaf (rpc_proof : RpcStorageProof) (query : RpcStorageProofsQuery)
    : gmap ContractAddress ContractLeafData :=
  map_extend ∅ (zip (q_contract_addresses query)
    (contract_leaves_data (contracts_proof rpc_proof))).

Definition storage_commitment_info (leaves : gmap ContractAddress ContractLeafData)
    (p : ContractStorageKeys * list (Felt * MerkleNode))
    : res ProofProviderError (ContractAddress * CommitmentInfo) :=
  addr ← map_err (λ e, InvalidProofResponse ("Invalid contract address in storage keys: " +:+ e))
    (address_try_from (csk_contract_address p.1));
  leaf ← ok_or (leaves !! addr)
    (InvalidProofResponse ("Contract address " +:+ debug addr
       +:+ " in storage_keys not found in contract_addresses"));
  let storage_root := default (felt_of 0) (leaf_storage_root leaf) in
  Ok (addr, unchanged_info storage_root p.2).

Definition build_storage_commitment_infos (rpc_proof : RpcStorageProof)
    (query : RpcStorageProofsQuery)
    : res ProofProviderError (gmap ContractAddress CommitmentInfo) :=
  let storage_proofs := contracts_storage_proofs rpc_proof in
  if negb (Nat.eqb (length storage_proofs) (length (q_contract_storage_keys query))) then
    Err (InvalidProofResponse ("Storage proofs length mismatch: expected "
      +:+ pretty (length (q_contract_storage_keys query))
      +:+ " proofs for contracts with storage keys, got " +:+ pretty (length storage_proofs)))
  else
    infos ← collect_res (storage_commitment_info (addr_to_leaf rpc_proof query))
      (zip (q_contract_storage_keys query) storage_proofs);
    Ok (map_extend ∅ infos).

Definition create_commitment_infos_without_state_changes (rpc_proof : RpcStorageProof)
    (query : RpcStorageProofsQuery) : res ProofProviderError StateCommitmentInfos :=
  let contracts_root := contracts_tree_root (global_roots rpc_proof) in
  let classes_root := classes_tree_root (global_roots rpc_proof) in
  storage_infos ← build_storage_commitment_infos rpc_proof query;
  Ok {|
    contracts_trie_commitment_info :=
      unchanged_info contracts_root (nodes (contracts_proof rpc_proof));
    classes_trie_commitment_info := unchanged_info classes_root (classes_proof rpc_proof);
    storage_tries_commitment_infos := storage_infos |}.

(** The reads that [get_storage_proofs] hands on. *)
Definition extend_reads (rpc_proof : RpcStorageProof) (query : RpcStorageProofsQuery)
    (initial_reads : StateMaps) : StateMaps :=
  let leaves := zip (contract_leaves_data (contracts_proof rpc_proof)) (q_contract_addresses query) in
  {| class_hashes := map_extend ∅ ((λ '(leaf, addr), (addr, leaf_class_hash leaf)) <$> leaves);
     nonces := map_extend ∅ ((λ '(leaf, addr), (addr, leaf_nonce leaf)) <$> leaves);
     storage := map_extend ∅ (map_iter (storage initial_reads));
     compiled_class_hashes := ∅; declared_contracts := ∅ |}.

Definition finish_storage_proofs (execution_data : VirtualBlockExecutionData)
    (config : StorageProofConfig) (query : RpcStorageProofsQuery) (rpc_proof : RpcStorageProof)
    : res ProofProviderError StorageProofs :=
  let leaves_len := length (contract_leaves_data (contracts_proof rpc_proof)) in
  let addresses_len := length (q_contract_addresses query) in
  if negb (Nat.eqb leaves_len addresses_len) then Err (leaves_mismatch addresses_len leaves_len)
  else
    let reads := extend_reads rpc_proof query (initial_reads execution_data) in
    infos ← (if include_state_changes config
             then create_commitment_infos_with_state_changes rpc_proof query reads
                    (state_diff execution_data)
             else create_commitment_infos_without_state_changes rpc_proof query);
    Ok {| extended_initial_reads := reads; commitment_infos := infos |}.

Definition get_storage_proofs (block_number : Z) (execution_data : VirtualBlockExecutionData)
    (config : StorageProofConfig) : prog W ProofProviderError StorageProofs :=
  let query := prepare_query execution_data in
  rpc_proof ← fetch_proofs block_number query;
  lift (finish_storage_proofs execution_data config query rpc_proof).
End provider.

(** ** Facts *)

Section query_facts.
Context `{StarknetApiLaws} `{!ContractAddresses} `{!ContractAddressesLaws} `{BlockTypes}
  `{!Classes} `{!Blockifier} `{HashOrder}.
Implicit Types d : VirtualBlockExecutionData.

(** The storage keys of [a] among the entries, in order. *)
Definition keys_of (a : ContractAddress) (l : list ((ContractAddress * StorageKey) * Felt))
    : list Felt :=
  omap (λ e, if decide (e.1.1 = a) then Some (storage_key_key e.1.2) else None) l.

Lemma push_keys_lookup l m a :
  default [] (fold_left push_key l m !! a) = (default [] (m !! a) ++ keys_of a l)%list.
Proof.
  revert m. induction l as [|[[a' k] v] l IH]; intros m; simpl; [by rewrite app_nil_r|].
  rewrite IH, lookup_insert. destruct (decide (a' = a)) as [->|]; [|done].
  simpl. by rewrite <-app_assoc.
Qed.

Lemma elem_of_keys_of a (m : StateMaps) k :
  k ∈ keys_of a (map_iter (storage m)) ↔
  ∃ sk, k = storage_key_key sk ∧ is_Some (storage m !! (a, sk)).
Proof.
  unfold keys_of. rewrite list_elem_of_omap. split.
  - intros ([[a' sk] v] & Hin%elem_of_map_iter & Hk). simpl in Hk.
    destruct (decide (a' = a)) as [->|]; [|done]. injection Hk as <-. eauto.
  - intros (sk & -> & v & Hv). exists ((a, sk), v). split; [by apply elem_of_map_iter|].
    simpl. by rewrite decide_True.
Qed.

Lemma prepare_query_perm d :
  q_class_hashes (prepare_query d) ≡ₚ elements (executed_class_hashes d) ∧
  q_contract_addresses (prepare_query d) ≡ₚ elements (get_contract_addresses (initial_reads d)).
Proof. unfold prepare_query. simpl. by rewrite merge_sort_Permutation, !set_iter_perm. Qed.

(** The addresses and the groups of keys, in the same order. *)
Lemma prepare_query_groups d :
  let q := prepare_query d in
  NoDup (q_contract_addresses q) ∧
  (∀ a, a ∈ q_contract_addresses q ↔ a ∈ get_contract_addresses (initial_reads d)) ∧
  csk_contract_address <$> q_contract_storage_keys q = address_key <$> q_contract_addresses q ∧
  NoDup (csk_contract_address <$> q_contract_storage_keys q).
Proof.
  intros q. set (addrs := q_contract_addresses q).
  assert (addrs ≡ₚ elements (get_contract_addresses (initial_reads d))) as Hperm.
  { apply prepare_query_perm. }
  assert (NoDup addrs) as Hnd by (rewrite Hperm; apply NoDup_elements).
  assert (csk_contract_address <$> q_contract_storage_keys q = address_key <$> addrs) as Hcsk.
  { unfold addrs, q, prepare_query. simpl. by rewrite <-list_fmap_compose. }
  split; [done|]. split; [intros a; by rewrite Hperm, elem_of_elements|]. split; [done|].
  rewrite Hcsk. apply (NoDup_fmap_2 address_key). exact Hnd.
Qed.

Lemma prepare_query_keys d a sk :
  is_Some (storage (initial_reads d) !! (a, sk)) ↔
  ∃ g, g ∈ q_contract_storage_keys (prepare_query d) ∧ csk_contract_address g = address_key a ∧
    storage_key_key sk ∈ csk_storage_keys g.
Proof.
  destruct (prepare_query_groups d) as (_ & Hel & _ & _). revert Hel.
  unfold prepare_query. cbn [q_contract_storage_keys q_contract_addresses]. intros Hel.
  set (by_address := fold_left _ _ _).
  assert (∀ a, default [] (by_address !! a) = keys_of a (map_iter (storage (initial_reads d)))) as Hby.
  { intros a'. unfold by_address. rewrite push_keys_lookup. by rewrite lookup_empty. }
  split.
  - intros Hs. eexists. split.
    { apply list_elem_of_fmap. exists a. split; [done|]. apply Hel.
      by eapply get_contract_addresses_storage. }
    simpl. split; [done|]. rewrite Hby. apply elem_of_keys_of. eauto.
  - intros (g & Hg & Ha & Hk). apply list_elem_of_fmap in Hg as (a' & -> & _). simpl in Ha, Hk.
    apply (inj address_key) in Ha as ->. rewrite Hby in Hk.
    apply elem_of_keys_of in Hk as (sk' & Hsk & ?). by apply (inj storage_key_key) in Hsk as ->.
Qed.

(** The storage-proof query covers the execution: it has every executed
    class, every accessed contract once and in order, one group of keys per
    contract in the same order, and a storage key is in its contract's group
    exactly when the execution read it. *)
Theorem prepare_query_spec d :
  let q := prepare_query d in
  q_class_hashes q ≡ₚ elements (executed_class_hashes d) ∧
  NoDup (q_contract_addresses q) ∧
  (∀ a, a ∈ q_contract_addresses q ↔ a ∈ get_contract_addresses (initial_reads d)) ∧
  Sorted address_le (q_contract_addresses q) ∧
  csk_contract_address <$> q_contract_storage_keys q = address_key <$> q_contract_addresses q ∧
  NoDup (csk_contract_address <$> q_contract_storage_keys q) ∧
  (∀ a sk, is_Some (storage (initial_reads d) !! (a, sk)) ↔
     ∃ g, g ∈ q_contract_storage_keys q ∧ csk_contract_address g = address_key a ∧
       storage_key_key sk ∈ csk_storage_keys g).
Proof.
  destruct (prepare_query_groups d) as (Hnd & Hel & Hcsk & Hndk). cbv zeta in *.
  split; [apply prepare_query_perm|].
  split; [done|]. split; [done|]. split.
  { apply Sorted_merge_sort. intros x y. unfold address_le. lia. }
  split; [done|]. split; [done|]. apply prepare_query_keys.
Qed.
End query_facts.

Section infos_facts.
Context {W : Type} `{StarknetApiLaws} `{!ProofRpc W} `{!ContractAddresses}
  `{!ContractAddressesLaws} `{BlockTypes} `{!Classes} `{!Blockifier} `{!FactsDbOps}
  `{!Committer} `{!CommitmentInfos} `{!StorageDiffFrom} `{HashOrder}.
Context `{!DebugFmt ContractAddress} `{!DebugFmt StorageKey}
  `{!DebugFmt (gmap ContractAddress ClassHash)} `{!DebugFmt (gmap ClassHash CompiledClassHash)}.
Implicit Types (p : RpcStorageProof) (q : RpcStorageProofsQuery).

Lemma addr_to_leaf_lookup p q i a leaf :
  NoDup (q_contract_addresses q) →
  length (contract_leaves_data (contracts_proof p)) = length (q_contract_addresses q) →
  q_contract_addresses q !! i = Some a →
  contract_leaves_data (contracts_proof p) !! i = Some leaf →
  addr_to_leaf p q !! a = Some leaf.
Proof.
  intros Hnd Hlen Ha Hl. unfold addr_to_leaf. apply map_extend_NoDup.
  - by rewrite fst_zip by lia.
  - apply list_elem_of_lookup. exists i. by apply lookup_zip_Some.
Qed.

(** The group of keys, the leaf and the proof at one position belong to the
    address at that position. *)
Lemma storage_info_at p q i a leaf trie :
  NoDup (q_contract_addresses q) →
  csk_contract_address <$> q_contract_storage_keys q = address_key <$> q_contract_addresses q →
  length (contract_leaves_data (contracts_proof p)) = length (q_contract_addresses q) →
  q_contract_addresses q !! i = Some a →
  contract_leaves_data (contracts_proof p) !! i = Some leaf →
  contracts_storage_proofs p !! i = Some trie →
  ∃ g, zip (q_contract_storage_keys q) (contracts_storage_proofs p) !! i = Some (g, trie) ∧
    storage_commitment_info (addr_to_leaf p q) (g, trie) =
      Ok (a, unchanged_info (default (felt_of 0) (leaf_storage_root leaf)) trie).
Proof.
  intros Hnd Hcsk Hll Ha Hl Ht. pose proof (f_equal (.!! i) Hcsk) as Hi. cbn beta in Hi.
  rewrite !list_lookup_fmap, Ha in Hi.
  destruct (q_contract_storage_keys q !! i) as [g|] eqn:Hg; [|done]. injection Hi as Hga.
  exists g. split; [by apply lookup_zip_Some|].
  unfold storage_commitment_info. simpl. rewrite Hga, address_try_from_key. simpl.
  by rewrite (addr_to_leaf_lookup p q i a leaf).
Qed.

(** For a query whose storage keys follow its addresses, and a reply with as
    many leaves and storage proofs, the infos of a contract are its own leaf's
    root and its own proof. *)
Lemma build_infos_aligned p q :
  NoDup (q_contract_addresses q) →
  csk_contract_address <$> q_contract_storage_keys q = address_key <$> q_contract_addresses q →
  length (contract_leaves_data (contracts_proof p)) = length (q_contract_addresses q) →
  length (contracts_storage_proofs p) = length (q_contract_storage_keys q) →
  ∃ infos, build_storage_commitment_infos p q = Ok infos ∧
    ∀ i a leaf trie, q_contract_addresses q !! i = Some a →
      contract_leaves_data (contracts_proof p) !! i = Some leaf →
      contracts_storage_proofs p !! i = Some trie →
      infos !! a = Some (unchanged_info (default (felt_of 0) (leaf_storage_root leaf)) trie).
Proof.
  intros Hnd Hcsk Hll Hlp.
  assert (length (q_contract_storage_keys q) = length (q_contract_addresses q)) as Hlen.
  { rewrite <-(length_fmap csk_contract_address), Hcsk. apply length_fmap. }
  pose proof (λ i a leaf trie, storage_info_at p q i a leaf trie Hnd Hcsk Hll) as Hinfo.
  unfold build_storage_commitment_infos. rewrite Hlp, Nat.eqb_refl. cbn [negb].
  destruct (collect_res_exists (storage_commitment_info (addr_to_leaf p q))
    (zip (q_contract_storage_keys q) (contracts_storage_proofs p))) as [ys Hys].
  { apply Forall_lookup. intros i [g t] Hz. apply lookup_zip_Some in Hz as [Hg Ht].
    pose proof (lookup_lt_Some _ _ _ Hg) as Hi.
    destruct (lookup_lt_is_Some_2 (q_contract_addresses q) i ltac:(lia)) as [a Ha].
    destruct (lookup_lt_is_Some_2 (contract_leaves_data (contracts_proof p)) i ltac:(lia)) as [leaf Hl].
    destruct (Hinfo i a leaf t Ha Hl Ht) as (g' & Hz & Hok).
    apply lookup_zip_Some in Hz as [Hg' _]. rewrite Hg in Hg'. injection Hg' as <-. eauto. }
  rewrite Hys. simpl. eexists. split; [done|].
  apply collect_res_Ok in Hys.
  assert (ys.*1 = q_contract_addresses q) as Hy1.
  { apply list_eq_same_length with (length ys); [|by rewrite length_fmap|].
    { apply Forall2_length in Hys. rewrite length_zip in Hys. lia. }
    intros i a a' Hi Ha Ha'.
    destruct (lookup_lt_is_Some_2 (contract_leaves_data (contracts_proof p)) i) as [leaf Hl].
    { apply lookup_lt_Some in Ha. apply lookup_lt_Some in Ha'. lia. }
    destruct (lookup_lt_is_Some_2 (contracts_storage_proofs p) i) as [t Ht].
    { apply lookup_lt_Some in Ha'. lia. }
    destruct (Hinfo i a' leaf t Ha' Hl Ht) as (g & Hz & Hok).
    destruct (Forall2_lookup_l _ _ _ _ _ Hys Hz) as (y & Hy & Hoky).
    rewrite list_lookup_fmap, Hy in Ha. injection Ha as <-.
    rewrite Hok in Hoky. by injection Hoky as <-. }
  intros i a leaf trie Ha Hl Ht. destruct (Hinfo i a leaf trie Ha Hl Ht) as (g & Hz & Hok).
  destruct (Forall2_lookup_l _ _ _ _ _ Hys Hz) as (y & Hy & Hoky).
  apply map_extend_NoDup; [by rewrite Hy1|]. apply list_elem_of_lookup. exists i.
  rewrite Hy. f_equal. rewrite Hok in Hoky. by injection Hoky.
Qed.

(** The reads handed on: class hash and nonce of every queried contract from
    its leaf, and the storage that was read. *)
Lemma extend_reads_spec p q reads i a leaf :
  NoDup (q_contract_addresses q) →
  length (contract_leaves_data (contracts_proof p)) = length (q_contract_addresses q) →
  q_contract_addresses q !! i = Some a →
  contract_leaves_data (contracts_proof p) !! i = Some leaf →
  class_hashes (extend_reads p q reads) !! a = Some (leaf_class_hash leaf) ∧
  nonces (extend_reads p q reads) !! a = Some (leaf_nonce leaf).
Proof.
  intros Hnd Hlen Ha Hl. simpl.
  assert (∀ (f : ContractLeafData → Felt), map_extend ∅
    ((λ '(leaf, addr), (addr, f leaf)) <$>
      zip (contract_leaves_data (contracts_proof p)) (q_contract_addresses q)) !! a
    = Some (f leaf)) as Hgen; [|by split; apply Hgen].
  intros f. apply map_extend_NoDup.
  - rewrite <-list_fmap_compose.
    replace (fst ∘ _ <$> _) with (q_contract_addresses q); [done|].
    rewrite <-(snd_zip (contract_leaves_data (contracts_proof p)) (q_contract_addresses q)) at 1 by lia.
    apply list_fmap_ext. by intros ? [] _.
  - apply list_elem_of_fmap. exists (leaf, a). split; [done|].
    apply list_elem_of_lookup. exists i. by apply lookup_zip_Some.
Qed.

Lemma extend_reads_storage p q reads : storage (extend_reads p q reads) = storage reads.
Proof.
  simpl. apply map_eq. intros k. apply option_eq. intros v. split.
  - intros [Hin|Hin]%map_extend_Some; [by destruct k; apply elem_of_map_iter in Hin|].
    by rewrite lookup_empty in Hin.
  - intros Hv. apply map_extend_NoDup; [|by apply elem_of_map_iter].
    rewrite map_iter_perm. apply NoDup_fst_map_to_list.
Qed.

(** The info of a trie that does not change: the root it had is the root it
    has, over the full height, and its facts are the preimages of exactly the
    nodes, under their hashes. *)
Definition standing_info (root : HashOutput) (nodes : list (Felt * MerkleNode))
    (info : CommitmentInfo) : Prop :=
  previous_root info = root ∧ updated_root info = root ∧ tree_height info = ACTUAL_HEIGHT ∧
  ∃ preimages, commitment_facts info = flatten_preimages preimages ∧
    ∀ h image, preimages !! h = Some image ↔ ∃ n, (h, n) ∈ nodes ∧ image = preimage_from n.

Lemma unchanged_standing root ls :
  standing_info root (union_paths ls) (unchanged_info root (union_paths ls)).
Proof.
  split_and!; [done..|]. eexists. split; [reflexivity|]. intros h image. unfold rpc_nodes_to_preimage_map.
  split.
  - intros [Hin|Hin]%map_extend_Some; [|by rewrite lookup_empty in Hin].
    apply list_elem_of_fmap in Hin as ([h' n] & [= -> ->] & Hin). by exists n.
  - intros (n & Hin & ->). apply map_extend_NoDup.
    + rewrite <- list_fmap_compose. replace (fst ∘ _ <$> _) with ((union_paths ls).*1);
        [apply union_paths_NoDup|]. apply list_fmap_ext. by intros ? [] _.
    + apply list_elem_of_fmap. by exists (h, n).
Qed.

(** C9: Without state changes and against an honest node, get_storage_proofs
    succeeds and the storage reads are kept. The infos of the contracts trie
    and of the classes trie have the node's root of that trie, before and
    after, and the nodes of the paths of the accessed contracts and of the
    executed classes. Every accessed contract gets the class hash and the
    nonce of its leaf, and an info that has the leaf's storage root, before
    and after, and the nodes of the paths of keys that include every key the
    execution read. *)
Theorem storage_proofs_honest db b d w :
  honest (W:=W) db b →
  ∃ sp w' classes addrs,
    get_storage_proofs b d {| include_state_changes := false |} w = (Ok sp, w') ∧
    storage (extended_initial_reads sp) = storage (initial_reads d) ∧
    classes ≡ₚ elements (executed_class_hashes d) ∧
    standing_info (classes_tree_root (db_roots db)) (union_paths (db_class db <$> classes))
      (classes_trie_commitment_info (commitment_infos sp)) ∧
    addrs ≡ₚ elements (get_contract_addresses (initial_reads d)) ∧
    standing_info (contracts_tree_root (db_roots db))
      (union_paths (db_contract db <$> (address_key <$> addrs)))
      (contracts_trie_commitment_info (commitment_infos sp)) ∧
    ∀ a, a ∈ get_contract_addresses (initial_reads d) →
      let leaf := db_leaf db (address_key a) in
      class_hashes (extended_initial_reads sp) !! a = Some (leaf_class_hash leaf) ∧
      nonces (extended_initial_reads sp) !! a = Some (leaf_nonce leaf) ∧
      ∃ keys info,
        (∀ sk, is_Some (storage (initial_reads d) !! (a, sk)) → storage_key_key sk ∈ keys) ∧
        storage_tries_commitment_infos (commitment_infos sp) !! a = Some info ∧
        standing_info (default (felt_of 0) (leaf_storage_root leaf))
          (union_paths (db_storage db (address_key a) <$> keys)) info.
Proof.
  intros Hh. unfold get_storage_proofs.
  destruct (prepare_query_groups d) as (Hnd & Hel & Hcsk & Hndk).
  pose proof (prepare_query_perm d) as [Hqc Hqa].
  pose proof (prepare_query_keys d) as Hkeys.
  set (q := prepare_query d) in *.
  destruct (fetch_proofs_honest_any db b q w Hh Hndk) as [w' Hf].
  assert (length (contract_leaves_data (contracts_proof (query_answer db q)))
    = length (q_contract_addresses q)) as Hll.
  { cbn [query_answer node_answer contracts_proof contract_leaves_data].
    by rewrite !length_fmap. }
  destruct (build_infos_aligned (query_answer db q) q Hnd Hcsk Hll) as (infos & Hinfos & Hspec).
  { cbn [query_answer node_answer contracts_storage_proofs]. apply length_fmap. }
  erewrite prog_bind_eq by exact Hf. unfold finish_storage_proofs. rewrite Hll, Nat.eqb_refl.
  cbn [negb include_state_changes]. unfold create_commitment_infos_without_state_changes.
  rewrite Hinfos. cbn [mbind res_bind].
  eexists _, w', (q_class_hashes q), (q_contract_addresses q). split; [done|].
  cbn [extended_initial_reads commitment_infos contracts_trie_commitment_info
    classes_trie_commitment_info storage_tries_commitment_infos].
  split; [apply extend_reads_storage|].
  split; [done|]. split; [apply unchanged_standing|]. split; [done|]. split; [apply unchanged_standing|].
  intros a Ha. set (leaf := db_leaf db (address_key a)). apply Hel in Ha. apply list_elem_of_lookup in Ha as [i Hi].
  assert (contract_leaves_data (contracts_proof (query_answer db q)) !! i = Some leaf) as Hleaf.
  { cbn [query_answer node_answer contracts_proof contract_leaves_data].
    by rewrite !list_lookup_fmap, Hi. }
  destruct (extend_reads_spec _ q (initial_reads d) i a leaf Hnd Hll Hi Hleaf) as [Hc Hn].
  split; [done|]. split; [done|].
  assert (∃ g, q_contract_storage_keys q !! i = Some g ∧ csk_contract_address g = address_key a)
    as (g & Hg & Hga).
  { pose proof (f_equal (.!! i) Hcsk) as Hgi. cbn beta in Hgi.
    rewrite !list_lookup_fmap, Hi in Hgi. simpl in Hgi.
    apply fmap_Some in Hgi as (g & ? & ?). eauto. }
  exists (csk_storage_keys g). eexists. split; [|split].
  - intros sk Hs. apply Hkeys in Hs as (g' & Hg' & Hga' & Hk).
    assert (g' = g) as ->; [|done].
    eapply NoDup_fmap_inj_on; [exact Hndk|done|by eapply list_elem_of_lookup_2|congruence].
  - apply (Hspec i a leaf (storage_answer db g) Hi Hleaf).
    cbn [query_answer node_answer contracts_storage_proofs].
    by rewrite list_lookup_fmap, Hg.
  - rewrite <- Hga. apply unchanged_standing.
Qed.

Lemma storage_proofs_committed_inv `{!StorageDiffLaws} b d w sp w' :
  get_storage_proofs b d {| include_state_changes := true |} w = (Ok sp, w') →
  (∀ a k v, storage (state_diff d) !! (a, k) = Some v → v ≠ felt_of 0) ∧
  class_hashes (state_diff d) = ∅ ∧ compiled_class_hashes (state_diff d) = ∅ ∧
  ∃ p, fetch_proofs b (prepare_query d) w = (Ok p, w') ∧
    ∀ h facts, node_facts (classes_proof p) !! h = Some facts →
        commitment_facts (classes_trie_commitment_info (commitment_infos sp)) !! h = Some facts.
Proof.
  unfold get_storage_proofs. intros Hrun.
  apply prog_bind_Ok in Hrun as (p & w1 & Hp & [Hfin ->]%lift_Ok).
  unfold finish_storage_proofs in Hfin. destruct (negb _); [done|].
  cbn [include_state_changes] in Hfin.
  apply res_bind_Ok in Hfin as (infos & Hinfos & [= <-]).
  unfold create_commitment_infos_with_state_changes in Hinfos.
  apply res_bind_Ok in Hinfos as (facts_db & _ & Hinfos).
  apply res_bind_Ok in Hinfos as ([] & Hval & Hinfos).
  apply validate_Ok, allowed_state_maps in Hval as (Hst & Hch & Hcc).
  split; [done|]. split; [done|]. split; [done|]. exists p. split; [done|].
  apply res_bind_Ok in Hinfos as ([roots ms] & _ & Hinfos).
  apply res_bind_Ok in Hinfos as (infos0 & _ & [= <-]).
  intros h facts Hfacts. cbn [commitment_infos classes_trie_commitment_info commitment_facts].
  apply lookup_union_Some_raw. by left.
Qed.

(** With state changes, get_storage_proofs succeeds only for a state diff
    that deletes no storage, deploys and declares nothing, and the class
    trie's facts in the result contain all facts of the fetched class proof. *)
Theorem storage_proofs_committed `{!StorageDiffLaws} b d w sp w' :
  get_storage_proofs b d {| include_state_changes := true |} w = (Ok sp, w') →
  (∀ a k v, storage (state_diff d) !! (a, k) = Some v → v ≠ felt_of 0) ∧
  class_hashes (state_diff d) = ∅ ∧ compiled_class_hashes (state_diff d) = ∅ ∧
  ∃ p, fetch_proofs b (prepare_query d) w = (Ok p, w') ∧
    ∀ h facts, node_facts (classes_proof p) !! h = Some facts →
        commitment_facts (classes_trie_commitment_info (commitment_infos sp)) !! h = Some facts.
Proof. apply storage_proofs_committed_inv. Qed.
End infos_facts.


