(* ===== verification/Runner.v ===== *)
(** * Running the virtual OS
    ([crates/starknet-transaction-prover-wasm/src/running/classes_provider.rs], [runner.rs])

    The compiled classes handed to the OS, the hints assembled from an
    execution, and [run_virtual_os], written against the three interfaces the
    source has as traits: a classes provider, a storage-proof provider and a
    block executor. *)

From S2P Require Import Prelude RustNum Json Felt StarknetApi StateReader ProofQuery.
From S2P Require Import CommitterUtils Blockifier Executor StorageProofs.

(** ** Classes *)

Inductive ClassesProviderError `{FeltOps} :=
  | GetClassesError (msg : string)
  | DeprecatedContractError (class_hash : ClassHash)
  | InvalidBytecodeElement
  | ClassesStateError (msg : string)
  | HintsConversionError (msg : string).

Definition classes_provider_error_text `{HashFmt} (e : ClassesProviderError) : string :=
  match e with
  | GetClassesError m => "Failed to get classes: " +:+ m
  | DeprecatedContractError class_hash =>
      "Starknet os does not support deprecated contract classes, class hash: "
      +:+ display_class_hash class_hash +:+ " is deprecated"
  | InvalidBytecodeElement => "Unexpected error: bytecode of a class contained a non-integer value"
  | ClassesStateError m | HintsConversionError m => m
  end.

(** One cell of a compiled program: cairo-vm's [MaybeRelocatable]. *)
Inductive MaybeRelocatable `{FeltOps} := Int (f : Felt) | RelocatableValue (segment offset : Z).

(** cairo-lang's [CasmContractClass], with the parts the source copies. *)
Class Casm `{FeltOps} `{!Classes} := {
  program_data : CompiledClassV1 → list MaybeRelocatable;
  SegmentLengths : Type;
  bytecode_segment_felt_sizes : CompiledClassV1 → SegmentLengths;
  CasmHints : Type;
  casm_hints : CompiledClassV1 → res string CasmHints;
  CasmEntryPoints : Type;
  casm_entry_points : CompiledClassV1 → CasmEntryPoints;
}.

Record CasmContractClass `{Casm} := {
  casm_prime : Z;
  casm_compiler_version : string;
  casm_bytecode : list Z;
  casm_bytecode_segment_lengths : option SegmentLengths;
  casm_class_hints : CasmHints;
  casm_pythonic_hints : option unit;
  casm_entry_points_by_type : CasmEntryPoints;
}.

(** [BigUint::to_bytes_be]: minimal big-endian, one zero byte for zero. *)
Definition biguint_to_bytes_be (z : Z) : list Z := to_be_bytes (Z.to_nat (Z.log2 z / 8 + 1)) z.

Section classes.
Context {W : Type} `{HttpStatus W} `{ApiSerde} `{SerdeJson} `{BlockTypes} `{!Classes} `{!Casm}
  `{HashOrder}.

Definition bytecode_element (m : MaybeRelocatable) : res ClassesProviderError Z :=
  match m with
  | Int felt => Ok (felt_val felt)
  | RelocatableValue _ _ => Err InvalidBytecodeElement
  end.

Definition compiled_class_v1_to_casm (class : CompiledClassV1)
    : res ClassesProviderError CasmContractClass :=
  let prime := stark_prime in
  bytecode ← collect_res bytecode_element (program_data class);
  hints ← map_err HintsConversionError (casm_hints class);
  Ok {| casm_prime := prime;
        casm_compiler_version := "";
        casm_bytecode := bytecode;
        casm_bytecode_segment_lengths := Some (bytecode_segment_felt_sizes class);
        casm_class_hints := hints;
        casm_pythonic_hints := None;
        casm_entry_points_by_type := casm_entry_points class |}.

(** The low 32 bytes, left-padded. *)
Definition pad_hash (big : Z) : CompiledClassHash :=
  let bytes := biguint_to_bytes_be big in
  let offset := (32 - length bytes)%nat in
  let padded := (replicate offset 0 ++ drop (length bytes - 32) bytes)%list in
  felt_from_bytes_be padded.

(** cairo-lang's [CasmContractClass::compiled_class_hash], a big unsigned
    integer. *)
Context (compiled_class_hash : CasmContractClass → Z).

Definition casm_compiled_class_hash (casm : CasmContractClass) : CompiledClassHash :=
  pad_hash (compiled_class_hash casm).

Record ClassesInput := {
  ci_compiled_classes : gmap CompiledClassHash CasmContractClass;
  class_hash_to_compiled : gmap ClassHash CompiledClassHash;
}.

Context (self : RpcStateReader).

(** One iteration of the loop of [get_classes]. *)
Definition get_class_casm (class_hash : ClassHash) : prog W ClassesProviderError CasmContractClass :=
  runnable ← mapping_err (λ e, GetClassesError (reexecution_error_text e))
    (get_runnable_compiled_class_async self class_hash);
  match runnable with
  | RunnableV0 _ => throw (DeprecatedContractError class_hash)
  | RunnableV1 compiled_class_v1 => lift (compiled_class_v1_to_casm compiled_class_v1)
  end.

Fixpoint get_classes_loop (acc : ClassesInput) (hashes : list ClassHash)
    : prog W ClassesProviderError ClassesInput :=
  match hashes with
  | [] => mret acc
  | class_hash :: hashes =>
      casm ← get_class_casm class_hash;
      let compiled := casm_compiled_class_hash casm in
      get_classes_loop {|
        ci_compiled_classes := <[compiled := casm]> (ci_compiled_classes acc);
        class_hash_to_compiled := <[class_hash := compiled]> (class_hash_to_compiled acc) |} hashes
  end.

Definition get_classes (executed_class_hashes : gset ClassHash)
    : prog W ClassesProviderError ClassesInput :=
  get_classes_loop {| ci_compiled_classes := ∅; class_hash_to_compiled := ∅ |}
    (set_iter executed_class_hashes).
End classes.

(** ** The runner *)

Inductive RunnerError `{FeltOps} :=
  | RClassesProvider (e : ClassesProviderError)
  | RProofProvider (e : ProofProviderError)
  | RVirtualBlockExecutor (e : VirtualBlockExecutorError)
  | OsExecution (msg : string)
  | InputGenerationError (msg : string)
  | TransactionHashError (msg : string).

Definition runner_error_text `{HashFmt} (e : RunnerError) : string :=
  match e with
  | RClassesProvider e => classes_provider_error_text e
  | RProofProvider e => proof_provider_error_text e
  | RVirtualBlockExecutor e => virtual_block_executor_error_text e
  | OsExecution m => m
  | InputGenerationError m => "OS Input generation failed: " +:+ m
  | TransactionHashError m => "Failed to calculate transaction hash: " +:+ m
  end.

Section hints.
Context `{Blockifier} `{!Casm}.

Record OsChainInfo := {
  os_chain_id : ChainId;
  os_strk_fee_token_address : ContractAddress;
}.

(** The executable form of an invoke transaction. *)
Record ExecutableInvoke := { ex_tx : InvokeTransaction; ex_tx_hash : TransactionHash }.

Record VirtualOsBlockInput := {
  vi_contract_state_commitment_info : CommitmentInfo;
  vi_address_to_storage_commitment_info : gmap ContractAddress CommitmentInfo;
  vi_contract_class_commitment_info : CommitmentInfo;
  vi_chain_info : OsChainInfo;
  vi_transactions : list (InvokeTransaction * TransactionHash);
  vi_tx_execution_infos : list TransactionExecutionInfo;
  vi_block_info : BlockInfo;
  vi_initial_reads : StateMaps;
  vi_base_block_hash : BlockHash;
  vi_base_block_header_commitments : BlockHeaderCommitments;
  vi_prev_base_block_hash : BlockHash;
  vi_compiled_classes : gmap CompiledClassHash CasmContractClass;
}.

Record OsBlockInput := {
  ob_block_hash_commitments : BlockHeaderCommitments;
  ob_contract_state_commitment_info : CommitmentInfo;
  ob_address_to_storage_commitment_info : gmap ContractAddress CommitmentInfo;
  ob_contract_class_commitment_info : CommitmentInfo;
  ob_transactions : list ExecutableInvoke;
  ob_tx_execution_infos : list TransactionExecutionInfo;
  ob_prev_block_hash : BlockHash;
  ob_block_info : BlockInfo;
  ob_initial_reads : StateMaps;
  ob_declared_class_hash_to_component_hashes : gmap ClassHash unit;
  ob_new_block_hash : BlockHash;
  ob_old_block_number_and_hash : option (Z * BlockHash);
  ob_class_hashes_to_migrate : list ClassHash;
}.

Record OsHintsConfig := {
  oh_debug_mode : bool;
  oh_full_output : bool;
  oh_use_kzg_da : bool;
  oh_chain_info : OsChainInfo;
  oh_public_keys : option (list Felt);
  oh_rng_seed_salt : option Felt;
}.

Record OsHints := {
  os_block_inputs : list OsBlockInput;
  os_deprecated_compiled_classes : gmap CompiledClassHash unit;
  os_compiled_classes : gmap CompiledClassHash CasmContractClass;
  os_hints_config : OsHintsConfig;
}.

(** [impl From<VirtualOsBlockInput> for OsHints]. *)
Definition os_hints_of_input (v : VirtualOsBlockInput) : OsHints :=
  let os_block_input := {|
    ob_block_hash_commitments := vi_base_block_header_commitments v;
    ob_contract_state_commitment_info := vi_contract_state_commitment_info v;
    ob_address_to_storage_commitment_info := vi_address_to_storage_commitment_info v;
    ob_contract_class_commitment_info := vi_contract_class_commitment_info v;
    ob_transactions :=
      (λ '(invoke_tx, tx_hash), {| ex_tx := invoke_tx; ex_tx_hash := tx_hash |})
        <$> vi_transactions v;
    ob_tx_execution_infos := vi_tx_execution_infos v;
    ob_prev_block_hash := vi_prev_base_block_hash v;
    ob_block_info := vi_block_info v;
    ob_initial_reads := vi_initial_reads v;
    ob_declared_class_hash_to_component_hashes := ∅;
    ob_new_block_hash := vi_base_block_hash v;
    ob_old_block_number_and_hash := None;
    ob_class_hashes_to_migrate := [] |} in
  {| os_block_inputs := [os_block_input];
     os_deprecated_compiled_classes := ∅;
     os_compiled_classes := vi_compiled_classes v;
     os_hints_config := {|
       oh_debug_mode := false; oh_full_output := false; oh_use_kzg_da := false;
       oh_chain_info := vi_chain_info v; oh_public_keys := None; oh_rng_seed_salt := None |} |}.

(** The input built by [create_virtual_os_hints]: the executed state with the
    compiled class hashes added and the declarations cleared. *)
Definition virtual_os_block_input (execution_data : VirtualBlockExecutionData)
    (classes : ClassesInput) (storage_proofs : StorageProofs)
    (txs : list (InvokeTransaction * TransactionHash)) : VirtualOsBlockInput :=
  let ctx := block_context (base_block_info execution_data) in
  let chain_info := bc_chain_info ctx in
  let reads := extended_initial_reads storage_proofs in
  {| vi_contract_state_commitment_info :=
       contracts_trie_commitment_info (commitment_infos storage_proofs);
     vi_address_to_storage_commitment_info :=
       storage_tries_commitment_infos (commitment_infos storage_proofs);
     vi_contract_class_commitment_info :=
       classes_trie_commitment_info (commitment_infos storage_proofs);
     vi_chain_info := {|
       os_chain_id := ci_chain_id chain_info;
       os_strk_fee_token_address := strk_fee_token_address (fee_token_addresses chain_info) |};
     vi_transactions := txs;
     vi_tx_execution_infos := (execution_outputs execution_data).*1;
     vi_block_info := bc_block_info ctx;
     vi_initial_reads := {|
       nonces := nonces reads; class_hashes := class_hashes reads; storage := storage reads;
       compiled_class_hashes := class_hash_to_compiled classes ∪ compiled_class_hashes reads;
       declared_contracts := ∅ |};
     vi_base_block_hash := base_block_hash (base_block_info execution_data);
     vi_base_block_header_commitments :=
       base_block_header_commitments (base_block_info execution_data);
     vi_prev_base_block_hash := prev_base_block_hash (base_block_info execution_data);
     vi_compiled_classes := ci_compiled_classes classes |}.

(** [cairo_vm]'s run of the OS: a Cairo PIE, or an error. *)
Class VirtualOs := {
  CairoPie : Type;
  os_run : OsHints → res string CairoPie;
  (** [tx.calculate_transaction_hash(&chain_id, &tx.version())]. *)
  calculate_transaction_hash : InvokeTransaction → ChainId → res string TransactionHash;
}.

Record RunnerOutput `{VirtualOs} := {
  cairo_pie : CairoPie;
  ro_l2_to_l1_messages : list MessageToL1;
}.

Record RunnerConfig := {
  storage_proof_config : StorageProofConfig;
  virtual_block_executor_config : RpcVirtualBlockExecutorConfig;
}.

Definition default_runner_config : RunnerConfig := {|
  storage_proof_config := default_storage_proof_config;
  virtual_block_executor_config := default_executor_config |}.
End hints.

(** ** The interfaces of the runner

    The three traits. *)
Record Providers (W : Type) `{Blockifier} `{!Casm} := {
  p_get_classes : gset ClassHash → prog W ClassesProviderError ClassesInput;
  p_get_storage_proofs : Z → VirtualBlockExecutionData → StorageProofConfig →
    prog W ProofProviderError StorageProofs;
  p_execute : BlockId → list (InvokeTransaction * TransactionHash) →
    prog W VirtualBlockExecutorError VirtualBlockExecutionData;
}.
Arguments p_get_classes {_ _ _ _ _ _ _}.
Arguments p_get_storage_proofs {_ _ _ _ _ _ _}.
Arguments p_execute {_ _ _ _ _ _ _}.

Section runner.
Context {W : Type} `{Blockifier} `{!Casm} `{!VirtualOs}.

Record Runner := {
  r_providers : Providers W;
  r_config : RunnerConfig;
  r_block_id : BlockId;
  r_chain_id : ChainId;
}.

Definition create_virtual_os_hints (execution_data : VirtualBlockExecutionData)
    (ps : Providers W) (config : StorageProofConfig)
    (txs : list (InvokeTransaction * TransactionHash)) : prog W RunnerError OsHints :=
  let block_number :=
    bi_block_number (bc_block_info (block_context (base_block_info execution_data))) in
  classes ← mapping_err RClassesProvider (p_get_classes ps (executed_class_hashes execution_data));
  storage_proofs ← mapping_err RProofProvider
    (p_get_storage_proofs ps block_number execution_data config);
  mret (os_hints_of_input (virtual_os_block_input execution_data classes storage_proofs txs)).

Definition hash_tx (chain_id : ChainId) (tx : InvokeTransaction)
    : res RunnerError (InvokeTransaction * TransactionHash) :=
  tx_hash ← map_err TransactionHashError (calculate_transaction_hash tx chain_id);
  Ok (tx, tx_hash).

Definition run_virtual_os (self : Runner) (txs : list InvokeTransaction)
    : prog W RunnerError RunnerOutput :=
  txs_with_hashes ← lift (collect_res (hash_tx (r_chain_id self)) txs);
  execution_data ← mapping_err RVirtualBlockExecutor
    (p_execute (r_providers self) (r_block_id self) txs_with_hashes);
  os_hints ← create_virtual_os_hints execution_data (r_providers self)
    (storage_proof_config (r_config self)) txs_with_hashes;
  output ← lift (map_err OsExecution (os_run os_hints));
  mret {| cairo_pie := output; ro_l2_to_l1_messages := l2_to_l1_messages execution_data |}.
End runner.

(** ** The RPC runner

    [RpcRunnerFactory::create_runner]: the providers that ask one node about
    one block. *)
Section factory.
Context {W : Type} `{HttpStatus W} `{ApiSerde} `{SerdeJson} `{BlockTypes} `{!Classes}
  `{!Blockifier} `{!Executes W} `{!ProofRpc W} `{!ContractAddresses} `{!FactsDbOps}
  `{!Committer} `{!CommitmentInfos} `{!StorageDiffFrom} `{!Casm} `{!VirtualOs} `{HashOrder}.
Context `{!DebugFmt ContractAddress} `{!DebugFmt StorageKey}
  `{!DebugFmt (gmap ContractAddress ClassHash)} `{!DebugFmt (gmap ClassHash CompiledClassHash)}.
Context (de_block_header : Value → res string BlockHeader) (serde_message : Value → string)
  (compiled_class_hash : CasmContractClass → Z).

Record RpcRunnerFactory := {
  node_url : string;
  rf_chain_info : ChainInfo;
  runner_config : RunnerConfig;
}.

Definition create_runner (self : RpcRunnerFactory) (block_id : BlockId) : Runner (W:=W) :=
  let executor := executor_new (node_url self) (rf_chain_info self) block_id
    (virtual_block_executor_config (runner_config self)) in
  let reader := new_with_config_from_url (node_url self) (rf_chain_info self) block_id in
  {| r_providers := {|
       p_get_classes := get_classes compiled_class_hash reader;
       p_get_storage_proofs := get_storage_proofs;
       p_execute := execute de_block_header serde_message executor |};
     r_config := runner_config self;
     r_block_id := block_id;
     r_chain_id := ci_chain_id (rf_chain_info self) |}.

Definition factory_run_virtual_os (self : RpcRunnerFactory) (block_id : BlockId)
    (txs : list InvokeTransaction) : prog W RunnerError RunnerOutput :=
  run_virtual_os (create_runner self block_id) txs.
End factory.

(** ** Facts *)

Section pad_facts.
Context `{FeltLaws}.

Lemma biguint_bytes_val z : 0 ≤ z → from_be_bytes (biguint_to_bytes_be z) = z.
Proof.
  intros Hz. unfold biguint_to_bytes_be. rewrite from_to_be_bytes, Z.mod_small; [done|].
  split; [done|]. pose proof (Z.log2_nonneg z). pose proof (Z.div_pos (Z.log2 z) 8).
  rewrite Z2Nat.id by lia. destruct (decide (z = 0)) as [->|]; [done|].
  eapply Z.lt_le_trans; [apply Z.log2_spec; lia|].
  change 256 with (2 ^ 8). rewrite <-Z.pow_mul_r by lia.
  apply Z.pow_le_mono_r; [lia|]. pose proof (Z.mul_div_le (Z.log2 z) 8).
  pose proof (Z.mod_pos_bound (Z.log2 z) 8). pose proof (Z.div_mod (Z.log2 z) 8). lia.
Qed.

(** Copying a compiled class hash into 32 bytes keeps it modulo 2^256: the
    felt is that number modulo the field prime, and a hash below the prime
    is kept exactly. *)
Theorem pad_hash_spec big :
  0 ≤ big →
  felt_val (pad_hash big) = (big mod 2 ^ 256) mod stark_prime ∧
  (big < stark_prime → felt_val (pad_hash big) = big).
Proof.
  intros Hbig.
  assert (felt_val (pad_hash big) = (big mod 2 ^ 256) mod stark_prime) as Heq.
  { unfold pad_hash. set (bytes := biguint_to_bytes_be big).
    assert (Forall is_byte bytes) as Hb by apply to_be_bytes_range.
    rewrite felt_from_bytes_be_val.
    - rewrite from_be_bytes_zeros, from_be_bytes_drop by done.
      unfold bytes at 1. rewrite biguint_bytes_val by done. f_equal.
      destruct (decide (32 ≤ length bytes)%nat).
      + replace (length bytes - (length bytes - 32))%nat with 32%nat by lia.
        by change (256 ^ Z.of_nat 32) with (2 ^ 256).
      + replace (length bytes - (length bytes - 32))%nat with (length bytes) by lia.
        pose proof (from_be_bytes_range bytes Hb) as Hr.
        assert (from_be_bytes bytes = big) as Hv by (by apply biguint_bytes_val).
        rewrite Hv in Hr.
        rewrite (Z.mod_small big (256 ^ _)) by exact Hr.
        rewrite (Z.mod_small big (2 ^ 256)); [done|]. split; [done|].
        eapply Z.lt_le_trans; [apply Hr|]. change (2 ^ 256) with (256 ^ 32).
        apply Z.pow_le_mono_r; lia.
    - apply Forall_app. split; [by apply Forall_replicate|by apply Forall_drop].
    - rewrite length_app, length_replicate, length_drop. lia. }
  split; [done|]. intros Hlt. rewrite Heq. assert (stark_prime < 2 ^ 256) by done.
  rewrite !Z.mod_small by (rewrite ?Z.mod_small; lia). done.
Qed.
End pad_facts.

Section classes_facts.
Context {W : Type} `{HttpStatus W} `{ApiSerde} `{SerdeJson} `{BlockTypes} `{!Classes} `{!Casm}
  `{HashOrder}.
Context (compiled_class_hash : CasmContractClass → Z) (self : RpcStateReader).
Let hash_of := casm_compiled_class_hash compiled_class_hash.

(** What the loop keeps: the two maps agree. *)
Definition classes_ok (acc : ClassesInput) : Prop :=
  (∀ ch h, class_hash_to_compiled acc !! ch = Some h →
     ∃ casm, ci_compiled_classes acc !! h = Some casm) ∧
  (∀ h casm, ci_compiled_classes acc !! h = Some casm → h = hash_of casm).

Lemma get_classes_loop_Ok acc hashes w input w' :
  classes_ok acc →
  get_classes_loop compiled_class_hash self acc hashes w = (Ok input, w') →
  classes_ok input ∧
  dom (class_hash_to_compiled input) = dom (class_hash_to_compiled acc) ∪ list_to_set hashes.
Proof.
  revert acc w. induction hashes as [|ch hashes IH]; intros acc w Hacc; cbn [get_classes_loop].
  { intros [= <- _]. split; [done|]. set_solver. }
  intros Hrun. apply prog_bind_Ok in Hrun as (casm & w1 & _ & Hrun).
  apply IH in Hrun as [Hok Hdom].
  - split; [done|]. rewrite Hdom. cbn [class_hash_to_compiled]. rewrite dom_insert_L. set_solver.
  - destruct Hacc as [H1' H2']. split; cbn [class_hash_to_compiled ci_compiled_classes].
    + intros ch' h. rewrite lookup_insert_Some. intros [[_ <-]|[_ Hl]].
      * exists casm. by rewrite lookup_insert_eq.
      * apply H1' in Hl as [casm' Hl]. rewrite lookup_insert. case_decide; eauto.
    + intros h casm'. rewrite lookup_insert_Some. intros [[<- <-]|[_ Hl]]; [done|by apply H2'].
Qed.

(** The classes given to the OS are exactly the executed ones: the result
    maps every executed class hash, and no other, to the hash of a compiled
    class that is in the result under that hash. *)
Theorem get_classes_spec executed w input w' :
  get_classes compiled_class_hash self executed w = (Ok input, w') →
  dom (class_hash_to_compiled input) = executed ∧
  ∀ ch, ch ∈ executed → ∃ casm,
    class_hash_to_compiled input !! ch = Some (casm_compiled_class_hash compiled_class_hash casm) ∧
    ci_compiled_classes input !! casm_compiled_class_hash compiled_class_hash casm = Some casm.
Proof.
  intros Hrun. apply get_classes_loop_Ok in Hrun as [[H1' H2'] Hdom].
  - cbn [class_hash_to_compiled] in Hdom. rewrite dom_empty_L, union_empty_l_L in Hdom.
    assert (dom (class_hash_to_compiled input) = executed) as Hd.
    { rewrite Hdom. apply set_eq. intros x. by rewrite elem_of_list_to_set, elem_of_set_iter. }
    split; [done|]. intros ch Hch. rewrite <-Hd in Hch. apply elem_of_dom in Hch as [h Hh].
    destruct (H1' _ _ Hh) as [casm Hc]. exists casm.
    pose proof (H2' _ _ Hc) as ->. done.
  - split; cbn [class_hash_to_compiled ci_compiled_classes]; intros ? ?; by rewrite lookup_empty.
Qed.
End classes_facts.

Section runner_facts.
Context {W : Type} `{Blockifier} `{!Casm} `{!VirtualOs}.
Implicit Types self : Runner (W:=W).

(** The OS runs on the block that was executed: its transactions with their
    hashes, its execution infos, classes and commitment infos, in one block
    whose hashes are the base block's; the messages are those of the
    execution. *)
Lemma run_virtual_os_inv self txs w out w' :
  run_virtual_os self txs w = (Ok out, w') →
  ∃ txh data classes proofs w1 w2,
    Forall2 (λ tx p, p.1 = tx ∧
      calculate_transaction_hash tx (r_chain_id self) = Ok p.2) txs txh ∧
    p_execute (r_providers self) (r_block_id self) txh w = (Ok data, w1) ∧
    p_get_classes (r_providers self) (executed_class_hashes data) w1 = (Ok classes, w2) ∧
    p_get_storage_proofs (r_providers self)
      (bi_block_number (bc_block_info (block_context (base_block_info data)))) data
      (storage_proof_config (r_config self)) w2 = (Ok proofs, w') ∧
    os_run (os_hints_of_input (virtual_os_block_input data classes proofs txh))
      = Ok (cairo_pie out) ∧
    ro_l2_to_l1_messages out = l2_to_l1_messages data.
Proof.
  unfold run_virtual_os, create_virtual_os_hints. intros Hrun.
  apply prog_bind_Ok in Hrun as (txh & w0 & Htx & Hrun). apply lift_Ok in Htx as [Htx ->].
  apply prog_bind_Ok in Hrun as (data & w1 & Hex & Hrun). apply mapping_err_Ok in Hex.
  apply prog_bind_Ok in Hrun as (hints & w4 & Hh & Hrun).
  apply prog_bind_Ok in Hh as (classes & w2 & Hc & Hh). apply mapping_err_Ok in Hc.
  apply prog_bind_Ok in Hh as (proofs & w3 & Hp & [= <- ->]). apply mapping_err_Ok in Hp.
  apply prog_bind_Ok in Hrun as (pie & w5 & Ho & [= <- <-]). apply lift_Ok in Ho as [Ho ->].
  apply map_err_Ok in Ho.
  exists txh, data, classes, proofs, w1, w2. split; [|done].
  apply collect_res_Ok in Htx. eapply Forall2_impl; [exact Htx|]. intros tx [tx' h] Hok.
  unfold hash_tx in Hok. apply res_bind_Ok in Hok as (h' & Hh' & [= -> ->]).
  by apply map_err_Ok in Hh'.
Qed.
End runner_facts.
