(* ===== verification/SnosProver.v ===== *)
(** * Proving a transaction
    ([crates/starknet-transaction-prover-wasm/src/proving/], [config.rs],
    [crates/snip36-virtual-os/src/lib.rs])

    [VirtualSnosProver::prove_transaction]: input validation, the run of the
    virtual OS and the proof, which exists only with the cargo feature
    [stwo_proving]; and the entry point [run_virtual_os] of snip36-virtual-os. *)

From S2P Require Import Prelude RustNum RustStr Json Felt Types StarknetApi StateReader.
From S2P Require Import ProofQuery CommitterUtils Blockifier Executor StorageProofs.
From S2P Require Import Runner.

Inductive VirtualSnosProverError `{FeltOps} :=
  | InvalidTransactionType (msg : string)
  | InvalidTransactionInput (msg : string)
  | ValidationError (msg : string)
  | ProgramOutputError (msg : string)
  | PRunnerError (e : RunnerError)
  | ProverExecution (msg : string)
  | OutputParseError (msg : string).

(** [Display]; that of [ProvingError] is its prefix and the prover's text. *)
Definition prover_error_text `{HashFmt} (e : VirtualSnosProverError) : string :=
  match e with
  | InvalidTransactionType m => "Invalid transaction type: " +:+ m
  | InvalidTransactionInput m => "Invalid transaction input: " +:+ m
  | ValidationError m => "Validation error: " +:+ m
  | ProgramOutputError m | OutputParseError m => m
  | PRunnerError e => runner_error_text e
  | ProverExecution m => "Prover execution failed: " +:+ m
  end.

(** privacy-prove and starknet-proof-verifier. *)
Class Stwo `{VirtualOs} := {
  Precomputes : Type;
  ProofBytes : Type;
  OutputPreimage : Type;
  ProgramOutput : Type;
  privacy_recursive_prove : CairoPie → Precomputes → res string (ProofBytes * OutputPreimage);
  (** [Proof::from] and the bytes of a [Proof]. *)
  proof_from : ProofBytes → list Z;
  program_output_from : OutputPreimage → ProgramOutput;
  (** [try_into_proof_facts(VIRTUAL_SNOS)]. *)
  try_into_proof_facts : ProgramOutput → res string (list Felt);
}.

Section prover.
Context {W : Type} `{Blockifier} `{!Casm} `{!VirtualOs} `{!Stwo}.

Record ProverOutput := { prover_proof : list Z; program_output : ProgramOutput }.

(** [proving/prover.rs]. *)
Definition prove (pie : CairoPie) (precomputes : Precomputes)
    : res VirtualSnosProverError ProverOutput :=
  proof_output ← map_err ProverExecution (privacy_recursive_prove pie precomputes);
  let proof := proof_from proof_output.1 in
  let program_output := program_output_from proof_output.2 in
  Ok {| prover_proof := proof; program_output := program_output |}.

Record ProveTransactionResult := {
  pt_proof : list Z;
  pt_proof_facts : list Felt;
  pt_l2_to_l1_messages : list MessageToL1;
}.

(** The trait [VirtualSnosRunner]. *)
Definition VirtualSnosRunner : Type :=
  BlockId → list InvokeTransaction → prog W RunnerError RunnerOutput.

(** [precomputes] is a field only with the feature [stwo_proving]. *)
Record VirtualSnosProver := {
  vp_runner : VirtualSnosRunner;
  validate_zero_fee_fields : bool;
  vp_precomputes : option Precomputes;
}.

Definition disable_fee_validation (self : VirtualSnosProver) : VirtualSnosProver :=
  {| vp_runner := vp_runner self; validate_zero_fee_fields := false;
     vp_precomputes := vp_precomputes self |}.

Definition extract_rpc_invoke_tx (tx : RpcTransaction)
    : res VirtualSnosProverError RpcInvokeTransactionV3 :=
  match tx with
  | RpcInvoke invoke_v3 => Ok invoke_v3
  | RpcDeclare _ => Err (InvalidTransactionType
      "Declare transactions are not supported; only Invoke transactions are allowed")
  | RpcDeployAccount _ => Err (InvalidTransactionType
      "DeployAccount transactions are not supported; only Invoke transactions are allowed")
  end.

Definition validate_transaction_input (tx : RpcInvokeTransactionV3)
    (validate_zero_fee_fields : bool) : res VirtualSnosProverError unit :=
  if decide (rt_proof tx ≠ []) then
    Err (InvalidTransactionInput "The proof field must be empty on input.")
  else if decide (rt_proof_facts tx ≠ []) then
    Err (InvalidTransactionInput "The proof_facts field must be empty on input.")
  else if validate_zero_fee_fields then
    let max_fee := all_resources_max_fee (rt_resource_bounds tx) (rt_tip tx) in
    if decide (max_fee ≠ 0) then
      Err (InvalidTransactionInput
        ("Max possible fee must be zero, got: " +:+ pretty max_fee +:+ "."))
    else Ok tt
  else Ok tt.

(** [matches!(block_id, BlockId::Pending)]. *)
Definition check_block_id (block_id : BlockId) : res VirtualSnosProverError unit :=
  match block_id with
  | Pending => Err (ValidationError
      "Pending blocks are not supported; only finalized blocks can be proven.")
  | _ => Ok tt
  end.

(** Both versions of [prove_virtual_snos_run]. *)
Definition prove_virtual_snos_run (self : VirtualSnosProver) (runner_output : RunnerOutput)
    : res VirtualSnosProverError ProveTransactionResult :=
  match vp_precomputes self with
  | None => Panic "not implemented: In-memory proving requires the `stwo_proving` feature flag and a nightly Rust toolchain."
  | Some precomputes =>
      prover_output ← prove (cairo_pie runner_output) precomputes;
      proof_facts ← map_err ProgramOutputError
        (try_into_proof_facts (program_output prover_output));
      Ok {| pt_proof := prover_proof prover_output;
            pt_proof_facts := proof_facts;
            pt_l2_to_l1_messages := ro_l2_to_l1_messages runner_output |}
  end.

Definition prove_transaction (self : VirtualSnosProver) (block_id : BlockId)
    (transaction : RpcTransaction) : prog W VirtualSnosProverError ProveTransactionResult :=
  _ ← lift (check_block_id block_id);
  invoke_v3 ← lift (extract_rpc_invoke_tx transaction);
  _ ← lift (validate_transaction_input invoke_v3 (validate_zero_fee_fields self));
  let invoke_tx := InvokeV3 (v3_of_rpc invoke_v3) in
  let txs := [invoke_tx] in
  runner_output ← mapping_err PRunnerError (vp_runner self block_id txs);
  lift (prove_virtual_snos_run self runner_output).

(** ** Configuration ([config.rs]) *)

Record ProverConfig := {
  rpc_node_url : string;
  pc_chain_id : ChainId;
  pc_strk_fee_token_address : option ContractAddress;
  pc_validate_zero_fee_fields : bool;
  pc_runner_config : RunnerConfig;
}.

Definition default_prover_config : ProverConfig := {|
  rpc_node_url := "";
  pc_chain_id := Sepolia;
  pc_strk_fee_token_address := None;
  pc_validate_zero_fee_fields := true;
  pc_runner_config := default_runner_config |}.

(** serde's value of a missing [validate_zero_fee_fields]: the default of
    [bool]. *)
Definition serde_validate_zero_fee_fields (member : option bool) : bool := default false member.
End prover.

(** ** [snip36-virtual-os] *)

Section virtual_os.
Context {W : Type} `{Blockifier} `{!Casm} `{!VirtualOs} `{!Stwo} `{!HashFmt}.
(** [Url::parse(..).to_string()], the RPC runner for a node and a chain, the
    precomputes of the build's feature set, [str::parse::<ContractAddress>],
    serde's JSON of a message, and [parse_transaction_json]. *)
Context (url_parse : string → option string)
  (rpc_runner : string → ChainInfo → RunnerConfig → VirtualSnosRunner (W:=W))
  (precomputes : option Precomputes)
  (address_parse : string → res string ContractAddress)
  (ser_proof_facts : list Felt → Value) (ser_messages : list MessageToL1 → Value).

(** [VirtualSnosProver::new]. *)
Definition prover_new (prover_config : ProverConfig) : res string (VirtualSnosProver (W:=W)) :=
  node_url ← match url_parse (rpc_node_url prover_config) with
             | Some u => Ok u
             | None => Panic "Invalid RPC node URL in config"
             end;
  chain_info ← get_chain_info (pc_chain_id prover_config)
    (pc_strk_fee_token_address prover_config);
  Ok {| vp_runner := rpc_runner node_url chain_info (pc_runner_config prover_config);
        validate_zero_fee_fields := pc_validate_zero_fee_fields prover_config;
        vp_precomputes := precomputes |}.

Record VirtualOsConfig := {
  vc_rpc_url : string;
  vc_block_number : Z;
  vc_strk_fee_token : option string;
  vc_chain_id : ChainId;
  vc_transaction : RpcTransaction;
}.

Record VirtualOsArtifacts := {
  va_proof : string;
  va_proof_facts : Value;
  va_l2_to_l1_messages : Value;
}.

(** [snip36_virtual_os::prove_transaction]. *)
Definition os_prove_transaction (prover_config : ProverConfig) (block_number : Z)
    (transaction : RpcTransaction) : prog W string ProveTransactionResult :=
  prover ← lift (prover_new prover_config);
  mapping_err prover_error_text (prove_transaction prover (Number block_number) transaction).

(** The configuration that [run_virtual_os] builds: the defaults, so the
    zero-fee check is on. *)
Definition os_prover_config (config : VirtualOsConfig) : res string ProverConfig :=
  token ← match vc_strk_fee_token config with
          | Some address => a ← address_parse address; Ok (Some a)
          | None => Ok None
          end;
  Ok {| rpc_node_url := vc_rpc_url config;
        pc_chain_id := vc_chain_id config;
        pc_strk_fee_token_address := token;
        pc_validate_zero_fee_fields := pc_validate_zero_fee_fields default_prover_config;
        pc_runner_config := pc_runner_config default_prover_config |}.

Definition os_run_virtual_os (config : VirtualOsConfig) : prog W string VirtualOsArtifacts :=
  prover_config ← lift (os_prover_config config);
  result ← os_prove_transaction prover_config (vc_block_number config) (vc_transaction config);
  proof ← lift (from_utf8 (pt_proof result));
  mret {| va_proof := trim proof;
          va_proof_facts := ser_proof_facts (pt_proof_facts result);
          va_l2_to_l1_messages := ser_messages (pt_l2_to_l1_messages result) |}.
End virtual_os.

(** ** Facts *)

Section prover_facts.
Context {W : Type} `{Blockifier} `{!Casm} `{!VirtualOs} `{!Stwo}.
Implicit Types self : VirtualSnosProver (W:=W).

(** What [prove_transaction] accepts. *)
Definition provable self (block_id : BlockId) (tx : RpcTransaction)
    (t : RpcInvokeTransactionV3) : Prop :=
  block_id ≠ Pending ∧ tx = RpcInvoke t ∧ rt_proof t = [] ∧ rt_proof_facts t = [] ∧
  (validate_zero_fee_fields self = true →
   all_resources_max_fee (rt_resource_bounds t) (rt_tip t) = 0).

Definition input_error (e : VirtualSnosProverError) : Prop :=
  match e with
  | InvalidTransactionType _ | InvalidTransactionInput _ | ValidationError _ => True
  | _ => False
  end.

Lemma validate_input_spec t flag :
  (validate_transaction_input t flag = Ok tt ∧ rt_proof t = [] ∧ rt_proof_facts t = [] ∧
   (flag = true → all_resources_max_fee (rt_resource_bounds t) (rt_tip t) = 0)) ∨
  (∃ m, validate_transaction_input t flag = Err (InvalidTransactionInput m) ∧
   ¬ (rt_proof t = [] ∧ rt_proof_facts t = [] ∧
      (flag = true → all_resources_max_fee (rt_resource_bounds t) (rt_tip t) = 0))).
Proof.
  unfold validate_transaction_input.
  destruct (decide (rt_proof t ≠ [])); [right; naive_solver|].
  destruct (decide (rt_proof_facts t ≠ [])); [right; naive_solver|].
  assert (rt_proof t = []) by (by apply dec_stable).
  assert (rt_proof_facts t = []) by (by apply dec_stable).
  destruct flag; [|left; naive_solver].
  destruct (decide (all_resources_max_fee (rt_resource_bounds t) (rt_tip t) ≠ 0)).
  - right. eexists. split; [done|]. intros (_ & _ & ?). naive_solver.
  - left. repeat split; try done. intros _. by apply dec_stable.
Qed.

Lemma prove_transaction_cases self block_id tx w :
  (∃ t, provable self block_id tx t ∧
     prove_transaction self block_id tx w =
       (runner_output ← mapping_err PRunnerError (vp_runner self block_id [InvokeV3 (v3_of_rpc t)]);
        lift (prove_virtual_snos_run self runner_output)) w) ∨
  ((∀ t, ¬ provable self block_id tx t) ∧
   ∃ e, prove_transaction self block_id tx w = (Err e, w) ∧ input_error e).
Proof.
  unfold prove_transaction, provable.
  assert ((check_block_id block_id = Ok tt ∧ block_id ≠ Pending) ∨
    (∃ m, check_block_id block_id = Err (ValidationError m) ∧ block_id = Pending))
    as [[Hc Hb]|(m & Hc & Hb)] by (destruct block_id; simpl; eauto).
  2: { right. split; [naive_solver|]. exists (ValidationError m). split; [|done].
       unfold mbind, prog_bind, lift. by rewrite Hc. }
  erewrite prog_bind_eq by (unfold lift; by rewrite Hc).
  destruct tx as [d|d|t].
  1, 2: right; split; [naive_solver|]; eexists; done.
  erewrite prog_bind_eq by done.
  destruct (validate_input_spec t (validate_zero_fee_fields self)) as [[Hv ?]|(m & Hv & Hn)].
  - left. exists t. split; [done|]. erewrite prog_bind_eq by (unfold lift; by rewrite Hv). done.
  - right. split; [naive_solver|]. exists (InvalidTransactionInput m). split; [|done].
    unfold mbind, prog_bind, lift. by rewrite Hv.
Qed.

(** prove_transaction checks its input before it calls anything: a
    transaction that is provable goes to the runner, and for any other the
    outcome is an input error and the world is unchanged. *)
Theorem prove_transaction_validation self block_id tx w :
  (∃ t, provable self block_id tx t ∧
     prove_transaction self block_id tx w =
       (runner_output ← mapping_err PRunnerError (vp_runner self block_id [InvokeV3 (v3_of_rpc t)]);
        lift (prove_virtual_snos_run self runner_output)) w) ∨
  ((∀ t, ¬ provable self block_id tx t) ∧
   ∃ e, prove_transaction self block_id tx w = (Err e, w) ∧ input_error e).
Proof. apply prove_transaction_cases. Qed.

Lemma prove_virtual_snos_run_Ok self out r :
  prove_virtual_snos_run self out = Ok r →
  ∃ pre pf, vp_precomputes self = Some pre ∧
    privacy_recursive_prove (cairo_pie out) pre = Ok pf ∧
    pt_proof r = proof_from pf.1 ∧
    try_into_proof_facts (program_output_from pf.2) = Ok (pt_proof_facts r) ∧
    pt_l2_to_l1_messages r = ro_l2_to_l1_messages out.
Proof.
  unfold prove_virtual_snos_run, prove. destruct (vp_precomputes self) as [pre|]; [|done].
  intros Hr. prog_inv. simplify_eq/=. eauto 10.
Qed.

Lemma prove_transaction_Ok self block_id tx w r w' :
  prove_transaction self block_id tx w = (Ok r, w') →
  ∃ t out pre pf, provable self block_id tx t ∧
    vp_runner self block_id [InvokeV3 (v3_of_rpc t)] w = (Ok out, w') ∧
    vp_precomputes self = Some pre ∧
    privacy_recursive_prove (cairo_pie out) pre = Ok pf ∧
    pt_proof r = proof_from pf.1 ∧
    try_into_proof_facts (program_output_from pf.2) = Ok (pt_proof_facts r) ∧
    pt_l2_to_l1_messages r = ro_l2_to_l1_messages out.
Proof.
  intros Hr. destruct (prove_transaction_cases self block_id tx w) as [(t & Ht & Heq)|(_ & e & Heq & _)];
    [|congruence].
  rewrite Heq in Hr. apply prog_bind_Ok in Hr as (out & w1 & Hout & [Hp ->]%lift_Ok).
  apply mapping_err_Ok in Hout. apply prove_virtual_snos_run_Ok in Hp as (pre & pf & ?).
  exists t, out, pre, pf. naive_solver.
Qed.

(** C7: A successful prove_transaction came from an acceptable transaction on a
    finalised block, one run of the runner on exactly that transaction, and
    the STARK prover applied to the PIE of that run; the proof, the proof
    facts and the messages of the result are those of that proof and that
    run. *)
Theorem prove_transaction_sound self block_id tx w r w' :
  prove_transaction self block_id tx w = (Ok r, w') →
  ∃ t out pre pf, provable self block_id tx t ∧
    vp_runner self block_id [InvokeV3 (v3_of_rpc t)] w = (Ok out, w') ∧
    vp_precomputes self = Some pre ∧
    privacy_recursive_prove (cairo_pie out) pre = Ok pf ∧
    pt_proof r = proof_from pf.1 ∧
    try_into_proof_facts (program_output_from pf.2) = Ok (pt_proof_facts r) ∧
    pt_l2_to_l1_messages r = ro_l2_to_l1_messages out.
Proof. apply prove_transaction_Ok. Qed.

(** A build without [stwo_proving] proves nothing: a run of the OS that
    succeeds ends in [unimplemented!]. *)
Theorem prove_without_stwo self block_id tx w :
  vp_precomputes self = None →
  match prove_transaction self block_id tx w with
  | (Ok _, _) => False
  | (Panic _, _) | (OutOfFuel, _) => ∃ t, provable self block_id tx t
  | (Err _, _) => True
  end.
Proof.
  intros Hn. destruct (prove_transaction self block_id tx w) as [[r|e|m|] w'] eqn:Hp; [|done|..].
  - apply prove_transaction_Ok in Hp as (? & ? & ? & ? & ? & ? & ? & _). congruence.
  - destruct (prove_transaction_cases self block_id tx w) as [(t & Ht & _)|(_ & e & Heq & _)];
      [eauto|congruence].
  - destruct (prove_transaction_cases self block_id tx w) as [(t & Ht & _)|(_ & e & Heq & _)];
      [eauto|congruence].
Qed.

(** A transaction that passed the zero-fee check is executed without
    charging a fee. *)
Theorem zero_fee_not_charged `{HttpStatus W} `{!Executes W} `{!BlockifierLaws W} self block_id tx t
    (executor : RpcVirtualBlockExecutor) :
  provable self block_id tx t → validate_zero_fee_fields self = true →
  charge_fee (execution_flags executor (InvokeV3 (v3_of_rpc t))) = false.
Proof.
  intros (_ & _ & _ & _ & Hfee) Hv. simpl. rewrite v3_of_rpc_max_fee, Hfee by done. done.
Qed.
End prover_facts.

(** ** The whole pipeline *)

Section pipeline.
Context {W : Type} `{HttpStatus W} `{ApiSerde} `{SerdeJson} `{BlockTypes} `{!Classes}
  `{!Blockifier} `{!Executes W} `{!BlockifierLaws W} `{!ProofRpc W} `{!ContractAddresses}
  `{!FactsDbOps} `{!Committer} `{!CommitmentInfos} `{!StorageDiffFrom} `{!StorageDiffLaws}
  `{!Casm} `{!VirtualOs} `{!Stwo} `{!StarknetApiLaws} `{!ContractAddressesLaws} `{HashOrder}.
Context `{!DebugFmt ContractAddress} `{!DebugFmt StorageKey}
  `{!DebugFmt (gmap ContractAddress ClassHash)} `{!DebugFmt (gmap ClassHash CompiledClassHash)}.
Context (de_block_header : Value → res string BlockHeader) (serde_message : Value → string)
  (compiled_class_hash : CasmContractClass → Z).

(** [RpcVirtualSnosProver]: the prover over the RPC runner. *)
Definition rpc_prover (f : RpcRunnerFactory) (zero_fee : bool) (pre : option Precomputes)
    : VirtualSnosProver (W:=W) := {|
  vp_runner := factory_run_virtual_os de_block_header serde_message compiled_class_hash f;
  validate_zero_fee_fields := zero_fee;
  vp_precomputes := pre |}.

(** The providers of the runner that the factory creates. *)
Definition providers (f : RpcRunnerFactory) (block_id : BlockId) : Providers W :=
  r_providers (create_runner de_block_header serde_message compiled_class_hash f block_id).

(** End to end with the RPC runner, a returned proof is the STARK proof of
    an OS run on what three provider calls returned: the execution of the
    one transaction, hashed for the configured chain, on the requested
    block; the classes it executed; and the storage proofs at its base
    block. The execution did not revert, the messages are its own, and with
    state changes the proved diff deletes no storage, deploys nothing and
    declares nothing. *)
Theorem rpc_proof_sound f zero_fee pre block_id tx w r w' :
  prove_transaction (rpc_prover f zero_fee pre) block_id tx w = (Ok r, w') →
  ∃ t h data w1 classes w2 proofs pie pf p,
    provable (rpc_prover f zero_fee pre) block_id tx t ∧
    calculate_transaction_hash (InvokeV3 (v3_of_rpc t)) (ci_chain_id (rf_chain_info f)) = Ok h ∧
    p_execute (providers f block_id) block_id [(InvokeV3 (v3_of_rpc t), h)] w = (Ok data, w1) ∧
    p_get_classes (providers f block_id) (executed_class_hashes data) w1 = (Ok classes, w2) ∧
    p_get_storage_proofs (providers f block_id)
      (bi_block_number (bc_block_info (block_context (base_block_info data)))) data
      (storage_proof_config (runner_config f)) w2 = (Ok proofs, w') ∧
    Forall (λ o, revert_error o.1 = None) (execution_outputs data) ∧
    (length (execution_outputs data) ≤ 1)%nat ∧
    pt_l2_to_l1_messages r = mjoin (output_messages <$> execution_outputs data) ∧
    os_run (os_hints_of_input (virtual_os_block_input data classes proofs
      [(InvokeV3 (v3_of_rpc t), h)])) = Ok pie ∧
    pre = Some p ∧ privacy_recursive_prove pie p = Ok pf ∧ pt_proof r = proof_from pf.1 ∧
    (include_state_changes (storage_proof_config (runner_config f)) = true →
     (∀ a k v, storage (state_diff data) !! (a, k) = Some v → v ≠ felt_of 0) ∧
     class_hashes (state_diff data) = ∅ ∧ compiled_class_hashes (state_diff data) = ∅).
Proof.
  intros Hr. apply prove_transaction_Ok in Hr
    as (t & out & p & pf & Ht & Hrun & Hpre & Hpf & Hproof & _ & Hmsg).
  apply run_virtual_os_inv in Hrun
    as (txh & data & classes & proofs & w1 & w2 & Htxh & Hex & Hcl & Hsp & Hos & Hout).
  apply Forall2_cons_inv_l in Htxh as ([tx' h] & l' & [Htx' Hh] & Hnil & ->).
  apply Forall2_nil_inv_l in Hnil as ->.
  simpl in Htx', Hh. subst tx'.
  pose proof Hex as (Hrev & Hmsgs & Hlen & _)%execute_Ok.
  exists t, h, data, w1, classes, w2, proofs, (cairo_pie out), pf, p.
  split; [done|]. split; [done|]. split; [exact Hex|]. split; [exact Hcl|]. split; [exact Hsp|].
  split; [done|]. split; [exact Hlen|].
  split; [by rewrite Hmsg, Hout|]. split; [exact Hos|]. split; [exact Hpre|].
  split; [exact Hpf|]. split; [exact Hproof|].
  intros Hinc. cbn [create_runner r_config r_providers p_get_storage_proofs] in Hsp.
  destruct (storage_proof_config (runner_config f)) as [inc]. simpl in Hinc. subst inc.
  apply storage_proofs_committed_inv in Hsp as (? & ? & ? & _). done.
Qed.
End pipeline.
