(* ===== verification/WebProver.v ===== *)
(** * The web prover ([crates/snip36-web-prover/src/lib.rs])

    [prove_block]: from calldata and a reference block to a signed zero-fee
    transaction, its virtual-OS proof and its messages. *)

From S2P Require Import Prelude RustNum RustStr Json Felt Types Signing Rpc StarknetApi.
From S2P Require Import StateReader ProofQuery CommitterUtils Blockifier Executor.
From S2P Require Import StorageProofs Runner SnosProver.

Record ProveBlockArgs := {
  reference_block : Z;
  pb_account_address : string;
  pb_private_key : string;
  pb_chain_id : string;
  pb_rpc_url : string;
  calldata_strs : list string;
}.

Record ProveBlockResult := {
  tx_json : Value;
  pb_proof : string;
  pb_proof_facts : Value;
  pb_messages : Value;
  pb_tx_hash : string;
  pb_signature : string * string;
}.

Inductive WebProverError :=
  | ParseCalldata (msg : string)
  | InvalidAccountAddress (msg : string)
  | InvalidPrivateKey (msg : string)
  | NonceAtBlock (block : Z) (source : RpcError)
  | SigningFailed (msg : string)
  | RunVirtualOs (msg : string)
  | ReadProofFile (path source : string)
  | MissingProofFile (path : string)
  | RpcSubmission (source : RpcError).

Section web.
Context `{FeltOps} `{!Crypto}.

(** The JSON of the transaction: the account and the calldata as given. *)
Definition web_tx_json (args : ProveBlockArgs) (nonce : Z) (bounds : ResourceBounds)
    (sig : Signature) : Value := JObject [
  ("type", JString "INVOKE");
  ("version", JString "0x3");
  ("sender_address", JString (pb_account_address args));
  ("calldata", json_strings (calldata_strs args));
  ("nonce", JString (fmt_hex nonce));
  ("resource_bounds", to_rpc_json bounds);
  ("tip", JString "0x0");
  ("paymaster_data", JArray []);
  ("account_deployment_data", JArray []);
  ("nonce_data_availability_mode", JString "L1");
  ("fee_data_availability_mode", JString "L1");
  ("signature", json_strings [felt_hex (sig_r sig); felt_hex (sig_s sig)])].

(** The signed transaction, from the arguments and the nonce. *)
Definition web_sign (args : ProveBlockArgs) (calldata : list Felt) (sender key : Felt) (nonce : Z)
    : res WebProverError (Felt * Signature) :=
  let standard_tx_hash := compute_invoke_v3_tx_hash sender calldata
    (chain_id_felt (pb_chain_id args)) (felt_of nonce) (felt_of 0) zero_fee [] [] 0 0 [] in
  sig ← map_err (λ e, SigningFailed (sign_error_text e)) (sign key standard_tx_hash);
  Ok (standard_tx_hash, sig).
End web.

Section prove_block.
Context {W : Type} `{Http W} `{Blockifier} `{!Crypto} `{!Casm} `{!VirtualOs} `{!Stwo} `{!HashFmt} `{!SerdeJson}.
Context (url_parse : string → option string)
  (rpc_runner : string → ChainInfo → RunnerConfig → VirtualSnosRunner (W:=W))
  (precomputes : option Precomputes)
  (address_parse : string → res string ContractAddress)
  (ser_proof_facts : list Felt → Value) (ser_messages : list MessageToL1 → Value)
  (parse_transaction_json : Value → res string RpcTransaction)
  (chain_id_from : string → ChainId).

Definition prove_block (rpc : StarknetRpc) (args : ProveBlockArgs)
    : prog W WebProverError ProveBlockResult :=
  calldata_felts ← lift (collect_res (λ h, map_err ParseCalldata (felt_from_hex h))
    (calldata_strs args));
  sender_felt ← lift (map_err InvalidAccountAddress (felt_from_hex (pb_account_address args)));
  private_key_felt ← lift (map_err InvalidPrivateKey (felt_from_hex (pb_private_key args)));
  nonce ← mapping_err (NonceAtBlock (reference_block args))
    (get_nonce_at_block rpc (pb_account_address args)
      (JObject [("block_number", json_u64 (reference_block args))]));
  signed ← lift (web_sign args calldata_felts sender_felt private_key_felt nonce);
  let '(standard_tx_hash, sig) := (signed : Felt * Signature) in
  let tx_json := web_tx_json args nonce zero_fee sig in
  transaction ← lift (map_err RunVirtualOs (parse_transaction_json tx_json));
  artifacts ← mapping_err RunVirtualOs
    (os_run_virtual_os url_parse rpc_runner precomputes address_parse ser_proof_facts ser_messages {|
        vc_rpc_url := pb_rpc_url args;
        vc_block_number := reference_block args;
        vc_strk_fee_token := Some STRK_TOKEN;
        vc_chain_id := chain_id_from (pb_chain_id args);
        vc_transaction := transaction |});
  mret {|
    tx_json := tx_json;
    pb_proof := trim (va_proof artifacts);
    pb_proof_facts := va_proof_facts artifacts;
    pb_messages := va_l2_to_l1_messages artifacts;
    pb_tx_hash := felt_hex standard_tx_hash;
    pb_signature := (felt_hex (sig_r sig), felt_hex (sig_s sig)) |}.
End prove_block.

(** ** Facts *)

Section web_facts.
Context {W : Type} `{Http W} `{Blockifier} `{!Crypto} `{!Casm} `{!VirtualOs} `{!Stwo} `{!HashFmt} `{!SerdeJson}
  `{!FeltLaws}.
Context (url_parse : string → option string)
  (rpc_runner : string → ChainInfo → RunnerConfig → VirtualSnosRunner (W:=W))
  (precomputes : option Precomputes)
  (address_parse : string → res string ContractAddress)
  (ser_proof_facts : list Felt → Value) (ser_messages : list MessageToL1 → Value)
  (parse_transaction_json : Value → res string RpcTransaction)
  (chain_id_from : string → ChainId).

(** The hash a receiver of the RPC form recomputes: lower-case bounds, no
    proof facts. *)
Definition receiver_rpc_tx_hash (chain : Felt) (v : Value) : option Felt :=
  sender ← read_felt v "sender_address";
  cd ← read_felts v "calldata";
  n ← read_felt v "nonce";
  t ← read_felt v "tip";
  b ← get v "resource_bounds" ≫= read_bounds "l1_gas" "l2_gas" "l1_data_gas";
  pay ← read_felts v "paymaster_data";
  acc ← read_felts v "account_deployment_data";
  Some (compute_invoke_v3_tx_hash sender cd chain n t b pay acc 0 0 []).

Lemma felt_from_hex_Ok s f : felt_from_hex s = Ok f → felt_parse_hex s = Ok f.
Proof. apply map_err_Ok. Qed.

Lemma felt_parse_u64 n : in_u u64_max n → felt_parse_hex (fmt_hex n) = Ok (felt_of n).
Proof.
  unfold in_u, u64_max. intros Hn. apply felt_parse_small.
  assert (2 ^ 64 < stark_prime) by done. lia.
Qed.

Lemma web_tx_json_hash args calldata sender key nonce h sig :
  in_u u64_max nonce →
  collect_res (λ h, map_err ParseCalldata (felt_from_hex h)) (calldata_strs args) = Ok calldata →
  felt_from_hex (pb_account_address args) = Ok sender →
  web_sign args calldata sender key nonce = Ok (h, sig) →
  receiver_rpc_tx_hash (chain_id_felt (pb_chain_id args)) (web_tx_json args nonce zero_fee sig)
    = Some h ∧
  ∃ r s, ecdsa_sign key h (rfc6979_generate_k h key) = Ok (r, s) ∧ sig_r sig = r ∧ sig_s sig = s.
Proof.
  intros Hn Hcd Hs Hsign. apply felt_from_hex_Ok in Hs.
  unfold web_sign in Hsign. apply res_bind_Ok in Hsign as (sig' & Hsig & [= <- <-]).
  apply map_err_Ok in Hsig. unfold sign in Hsig.
  apply res_bind_Ok in Hsig as (rs & Hrs & [= <-]). apply map_err_Ok in Hrs.
  split; [|exists rs.1, rs.2; split; [by destruct rs|done]].
  assert (collect_res felt_parse_hex (calldata_strs args) = Ok calldata) as Hcd'.
  { apply collect_res_Ok. apply collect_res_Ok in Hcd. eapply Forall2_impl; [exact Hcd|].
    intros x y Hx. by apply map_err_Ok, felt_from_hex_Ok in Hx. }
  pose proof (felt_parse_u64 nonce Hn) as Hnonce.
  pose proof zero_fee_ok as Hz. revert Hz. generalize zero_fee as b. intros b Hz.
  unfold receiver_rpc_tx_hash, read_felt, read_felts, web_tx_json, get_str. simpl.
  rewrite Hs. simpl. rewrite array_strings_json, Hcd'. simpl. rewrite Hnonce. simpl.
  rewrite parse_hex_0x0. simpl. by rewrite read_rpc_json.
Qed.

(** When the web prover succeeds, the transaction it proved is the one it
    returns: the hash recomputed from the returned JSON is the returned
    hash, the nonce is the account's nonce at the reference block, the
    returned signature is the ECDSA signature of that hash under the
    configured key, and the JSON given to the prover parses. *)
Theorem prove_block_binds rpc args w r w' :
  prove_block url_parse rpc_runner precomputes address_parse ser_proof_facts ser_messages
    parse_transaction_json chain_id_from rpc args w = (Ok r, w') →
  ∃ h nonce w1 key rs tx,
    get_nonce_at_block rpc (pb_account_address args)
      (JObject [("block_number", json_u64 (reference_block args))]) w = (Ok nonce, w1) ∧
    receiver_rpc_tx_hash (chain_id_felt (pb_chain_id args)) (tx_json r) = Some h ∧
    read_felt (tx_json r) "nonce" = Some (felt_of nonce) ∧
    pb_tx_hash r = felt_hex h ∧
    felt_parse_hex (pb_private_key args) = Ok key ∧
    ecdsa_sign key h (rfc6979_generate_k h key) = Ok rs ∧
    pb_signature r = (felt_hex rs.1, felt_hex rs.2) ∧
    parse_transaction_json (tx_json r) = Ok tx.
Proof.
  unfold prove_block. intros Hr.
  apply prog_bind_Ok in Hr as (cd & w0 & Hcd & Hr). apply lift_Ok in Hcd as [Hcd ->].
  apply prog_bind_Ok in Hr as (sender & w0 & Hs & Hr). apply lift_Ok in Hs as [Hs ->].
  apply map_err_Ok in Hs.
  apply prog_bind_Ok in Hr as (key & w0 & Hk & Hr). apply lift_Ok in Hk as [Hk ->].
  apply map_err_Ok, felt_from_hex_Ok in Hk.
  apply prog_bind_Ok in Hr as (nonce & w1 & Hn & Hr). apply mapping_err_Ok in Hn.
  apply prog_bind_Ok in Hr as ([h sig] & w2 & Hsig & Hr). apply lift_Ok in Hsig as [Hsig ->].
  apply prog_bind_Ok in Hr as (tx & w2 & Htx & Hr). apply lift_Ok in Htx as [Htx ->].
  apply map_err_Ok in Htx.
  apply prog_bind_Ok in Hr as (art & w2 & _ & [= <- _]).
  assert (in_u u64_max nonce) as Hrange by (by eapply nonce_range).
  destruct (web_tx_json_hash args cd sender key nonce h sig Hrange Hcd Hs Hsig)
    as (Hh & r & s & Hrs & <- & <-).
  exists h, nonce, w1, key, (sig_r sig, sig_s sig), tx.
  split; [done|]. split; [done|]. split; [|done].
  unfold read_felt, get_str, web_tx_json. simpl.
  by rewrite felt_parse_u64.
Qed.

(** What serde's reading of an RPC transaction keeps of its JSON: an invoke
    with the bounds and the tip as written, and empty proof fields when the
    members are absent. *)
Definition reads_rpc_invoke : Prop :=
  ∀ v tx, parse_transaction_json v = Ok tx → get_str v "type" = Some "INVOKE" →
    ∃ t, tx = RpcInvoke t ∧
      get v "resource_bounds" ≫= read_bounds "l1_gas" "l2_gas" "l1_data_gas"
        = Some (rt_resource_bounds t) ∧
      (get_str v "tip" = Some "0x0" → rt_tip t = 0) ∧
      (get v "proof" = None → rt_proof t = []) ∧
      (get v "proof_facts" = None → rt_proof_facts t = []).

(** C33: The zero-fee transaction that the web prover builds is always
    acceptable input of the SNOS prover, with the zero-fee check on:
    whatever the account, the calldata and the nonce, an RPC parser that
    keeps the written bounds and tip and leaves absent proof members empty
    yields a provable transaction. *)
Theorem web_tx_provable `{HttpStatus W} `{!Executes W} `{!BlockifierLaws W}
    (self : VirtualSnosProver (W:=W)) args nonce sig tx :
  reads_rpc_invoke → parse_transaction_json (web_tx_json args nonce zero_fee sig) = Ok tx →
  ∃ t, provable self (Number (reference_block args)) tx t.
Proof.
  intros Hreads Htx. destruct (Hreads _ _ Htx eq_refl) as (t & -> & Hb & Htip & Hp & Hpf).
  exists t. split; [done|]. split; [done|]. split; [by apply Hp|]. split; [by apply Hpf|].
  intros _. specialize (Htip eq_refl).
  assert (rt_resource_bounds t = zero_fee) as ->.
  { pose proof (read_rpc_json zero_fee zero_fee_ok) as Hz.
    change (read_bounds "l1_gas" "l2_gas" "l1_data_gas" (to_rpc_json zero_fee)
      = Some (rt_resource_bounds t)) in Hb. congruence. }
  rewrite Htip. apply all_resources_max_fee_zero; by right.
Qed.

(** As built by its own manifest, without [stwo_proving], the web prover
    never returns a result. *)
Theorem prove_block_without_stwo rpc args w r w' :
  precomputes = None →
  prove_block url_parse rpc_runner precomputes address_parse ser_proof_facts ser_messages
    parse_transaction_json chain_id_from rpc args w ≠ (Ok r, w').
Proof.
  intros Hno Hr. unfold prove_block in Hr.
  apply prog_bind_Ok in Hr as (cd & w0 & _ & Hr). apply prog_bind_Ok in Hr as (sn & w1 & _ & Hr).
  apply prog_bind_Ok in Hr as (key & w2 & _ & Hr). apply prog_bind_Ok in Hr as (n & w3 & _ & Hr).
  apply prog_bind_Ok in Hr as ([h sig] & w4 & _ & Hr). apply prog_bind_Ok in Hr as (tx & w5 & _ & Hr).
  apply prog_bind_Ok in Hr as (art & w6 & Hart & _). apply mapping_err_Ok in Hart.
  unfold os_run_virtual_os, os_prove_transaction in Hart.
  apply prog_bind_Ok in Hart as (cfg & w7 & _ & Hart).
  apply prog_bind_Ok in Hart as (res & w8 & Hpt & _).
  apply prog_bind_Ok in Hpt as (prover & w9 & Hnew & Hpt). apply lift_Ok in Hnew as [Hnew ->].
  apply mapping_err_Ok in Hpt. apply prove_transaction_Ok in Hpt as (t & out & pre & pf & _ & _ & Hpre & _).
  unfold prover_new in Hnew. apply res_bind_Ok in Hnew as (u & _ & Hnew).
  apply res_bind_Ok in Hnew as (ci & _ & [= <-]). simpl in Hpre. congruence.
Qed.
End web_facts.
