(* ===== verification/WebPipeline.v ===== *)
(** * The web prover on the RPC runner, and its JavaScript binding

    [prove_block] of WebProver.v takes the prover's runner as a parameter; here
    it is the runner that snip36-virtual-os uses, [RpcRunnerFactory] of Runner.v,
    so the whole path from the arguments of JavaScript's [proveBlock] to the OS
    run is one program. *)

From S2P Require Import Prelude RustNum RustStr Json Felt Types Signing Rpc StarknetApi.
From S2P Require Import StateReader ProofQuery CommitterUtils Blockifier Executor.
From S2P Require Import StorageProofs Runner SnosProver WebProver.

(** [Display for WebProverError]. *)
Definition web_error_text (e : WebProverError) : string :=
  match e with
  | ParseCalldata m => "failed to parse calldata: " +:+ m
  | InvalidAccountAddress m => "invalid account address: " +:+ m
  | InvalidPrivateKey m => "invalid private key: " +:+ m
  | NonceAtBlock block source =>
      "failed to get nonce at block " +:+ pretty block +:+ ": " +:+ rpc_error_text source
  | SigningFailed m => "signing failed: " +:+ m
  | RunVirtualOs m => "failed to run virtual os prover: " +:+ m
  | ReadProofFile path source => "failed to read proof file path " +:+ path +:+ ": " +:+ source
  | MissingProofFile path => "proof file does not exist: " +:+ path
  | RpcSubmission source => "rpc submission failed: " +:+ rpc_error_text source
  end.

(** [serde_wasm_bindgen]: reading the arguments and writing the result, with
    the texts of its errors. *)
Class JsBinding (JsValue : Type) := {
  args_from_value : JsValue → res string ProveBlockArgs;
  result_to_value : ProveBlockResult → res string JsValue;
}.

Section binding.
Context {W JsValue : Type} `{!JsBinding JsValue}.
Context (prove_block : StarknetRpc → ProveBlockArgs → prog W WebProverError ProveBlockResult).

(** [proveBlock] of JavaScript; a [JsError] is its message. *)
Definition prove_block_wasm (value : JsValue) : prog W string JsValue :=
  args ← lift (map_err (λ e, "invalid args: " +:+ e) (args_from_value value));
  let rpc := {| url := pb_rpc_url args |} in
  result ← mapping_err web_error_text (prove_block rpc args);
  lift (result_to_value result).

Lemma prove_block_wasm_Ok value w v w' :
  prove_block_wasm value w = (Ok v, w') ↔
  ∃ args r, args_from_value value = Ok args ∧
    prove_block {| url := pb_rpc_url args |} args w = (Ok r, w') ∧ result_to_value r = Ok v.
Proof.
  unfold prove_block_wasm. rewrite prog_bind_Ok. split.
  - intros (args & w1 & [Ha%map_err_Ok ->]%lift_Ok & Hr).
    apply prog_bind_Ok in Hr as (r & w1 & Hr%mapping_err_Ok & [Hv ->]%lift_Ok). eauto.
  - intros (args & r & Ha & Hr & Hv). exists args, w. split; [by rewrite Ha|].
    apply prog_bind_Ok. exists r, w'. rewrite mapping_err_Ok, lift_Ok. done.
Qed.
End binding.

Section pipeline.
Context {W : Type} `{Http W} `{HttpStatus W} `{ApiSerde} `{SerdeJson} `{BlockTypes} `{!Classes}
  `{!Blockifier} `{!Executes W} `{!BlockifierLaws W} `{!ProofRpc W} `{!ContractAddresses}
  `{!FactsDbOps} `{!Committer} `{!CommitmentInfos} `{!StorageDiffFrom} `{!StorageDiffLaws}
  `{!Casm} `{!VirtualOs} `{!Stwo} `{!HashFmt} `{!StarknetApiLaws} `{!ContractAddressesLaws} `{HashOrder}.
Context `{!DebugFmt ContractAddress} `{!DebugFmt StorageKey}
  `{!DebugFmt (gmap ContractAddress ClassHash)} `{!DebugFmt (gmap ClassHash CompiledClassHash)}.
Context `{!Crypto} `{!FeltLaws} {JsValue : Type} `{!JsBinding JsValue}.
Context (de_block_header : Value → res string BlockHeader) (serde_message : Value → string)
  (compiled_class_hash : CasmContractClass → Z).
Context (url_parse : string → option string) (precomputes : option Precomputes)
  (address_parse : string → res string ContractAddress)
  (ser_proof_facts : list Felt → Value) (ser_messages : list MessageToL1 → Value)
  (parse_transaction_json : Value → res string RpcTransaction)
  (chain_id_from : string → ChainId).

(** [RpcRunnerFactory::new] and the runner it makes for a node. *)
Definition web_factory (node : string) (chain_info : ChainInfo) (cfg : RunnerConfig) : RpcRunnerFactory :=
  {| node_url := node; rf_chain_info := chain_info; runner_config := cfg |}.

Definition web_prove_block : StarknetRpc → ProveBlockArgs → prog W WebProverError ProveBlockResult :=
  prove_block url_parse
    (λ node chain_info cfg, factory_run_virtual_os de_block_header serde_message
       compiled_class_hash (web_factory node chain_info cfg))
    precomputes address_parse ser_proof_facts ser_messages
    parse_transaction_json chain_id_from.

(** The prover that [prove_block] builds for a node and a chain. *)
Definition web_prover_for (node : string) (chain_info : ChainInfo) : VirtualSnosProver (W:=W) :=
  rpc_prover de_block_header serde_message compiled_class_hash
    (web_factory node chain_info default_runner_config) true precomputes.

(** What the call of the virtual OS did. *)
Lemma os_run_Ok config w a w' :
  os_run_virtual_os url_parse
    (λ node chain_info cfg, factory_run_virtual_os de_block_header serde_message
       compiled_class_hash (web_factory node chain_info cfg))
    precomputes address_parse ser_proof_facts ser_messages config w = (Ok a, w') →
  ∃ token node chain_info r text,
    (vc_strk_fee_token config = None ∧ token = None ∨
     ∃ s t, vc_strk_fee_token config = Some s ∧ address_parse s = Ok t ∧ token = Some t) ∧
    url_parse (vc_rpc_url config) = Some node ∧
    get_chain_info (vc_chain_id config) token = Ok chain_info ∧
    prove_transaction (web_prover_for node chain_info) (Number (vc_block_number config))
      (vc_transaction config) w = (Ok r, w') ∧
    from_utf8 (pt_proof r) = Ok text ∧ va_proof a = trim text ∧
    va_proof_facts a = ser_proof_facts (pt_proof_facts r) ∧
    va_l2_to_l1_messages a = ser_messages (pt_l2_to_l1_messages r).
Proof.
  unfold os_run_virtual_os, os_prove_transaction. intros Hr.
  apply prog_bind_Ok in Hr as (cfg & ? & [Hcfg ->]%lift_Ok & Hr).
  apply prog_bind_Ok in Hr as (r & w1 & Hpt & Hr).
  apply prog_bind_Ok in Hr as (text & ? & [Htext ->]%lift_Ok & [= <- <-]).
  apply prog_bind_Ok in Hpt as (prover & ? & [Hnew ->]%lift_Ok & Hpt%mapping_err_Ok).
  unfold os_prover_config in Hcfg. apply res_bind_Ok in Hcfg as (token & Htok & [= <-]).
  unfold prover_new in Hnew. cbn in Hnew. apply res_bind_Ok in Hnew as (node & Hnode & Hnew).
  apply res_bind_Ok in Hnew as (ci & Hci & [= <-]).
  destruct (url_parse (vc_rpc_url config)) as [u|] eqn:Hu; [|done]. injection Hnode as ->.
  exists token, node, ci, r, text. split_and!; try done.
  destruct (vc_strk_fee_token config) as [s|]; [right|left; by injection Htok as <-].
  apply res_bind_Ok in Htok as (t & Ht & [= <-]). eauto.
Qed.

(** The proof [proof] and the messages of one OS run on [tx] at block [n]:
    the transaction is executed without being reverted, on the classes it
    executed and the storage proofs at its base block. *)
Definition proved_run (f : RpcRunnerFactory) (n : Z) (tx : RpcTransaction) (w w' : W)
    (proof : list Z) (messages : list MessageToL1) : Prop :=
  ∃ t txh data w1 classes w2 proofs pie pf p,
    provable (rpc_prover de_block_header serde_message compiled_class_hash f true precomputes)
      (Number n) tx t ∧
    calculate_transaction_hash (InvokeV3 (v3_of_rpc t)) (ci_chain_id (rf_chain_info f)) = Ok txh ∧
    let ps := providers de_block_header serde_message compiled_class_hash f (Number n) in
    p_execute ps (Number n) [(InvokeV3 (v3_of_rpc t), txh)] w = (Ok data, w1) ∧
    p_get_classes ps (executed_class_hashes data) w1 = (Ok classes, w2) ∧
    p_get_storage_proofs ps (bi_block_number (bc_block_info (block_context (base_block_info data)))) data
      (storage_proof_config (runner_config f)) w2 = (Ok proofs, w') ∧
    Forall (λ o, revert_error o.1 = None) (execution_outputs data) ∧
    messages = mjoin (output_messages <$> execution_outputs data) ∧
    os_run (os_hints_of_input (virtual_os_block_input data classes proofs
      [(InvokeV3 (v3_of_rpc t), txh)])) = Ok pie ∧
    precomputes = Some p ∧ privacy_recursive_prove pie p = Ok pf ∧ proof = proof_from pf.1.

Lemma proved_run_Ok f n tx w r w' :
  prove_transaction (rpc_prover de_block_header serde_message compiled_class_hash f true precomputes)
    (Number n) tx w = (Ok r, w') →
  proved_run f n tx w w' (pt_proof r) (pt_l2_to_l1_messages r).
Proof.
  intros (t & h & data & w1 & classes & w2 & proofs & pie & pf & p & Hp & Hh & He & Hc & Hs & Hrev & _ & Hm
    & Hos & Hpre & Hpf & Hproof & _)%rpc_proof_sound.
  exists t, h, data, w1, classes, w2, proofs, pie, pf, p. split_and!; done.
Qed.

(** C4: From JavaScript to the OS run. When proveBlock returns a value, it is
    the written result for one transaction: its hash, recomputed from the
    returned JSON, is the returned hash, its nonce is the account's at the
    reference block, the signature is the ECDSA signature of that hash under
    the given key; and that very JSON, parsed, was executed at the reference
    block of the given node without being reverted, the OS was run on that
    execution, on the classes it executed and on the storage proofs at its
    base block, the returned proof is the text of the STARK proof of that
    run, and the returned messages are the messages of that execution. *)
Theorem web_proof_sound value w v w' :
  prove_block_wasm web_prove_block value w = (Ok v, w') →
  ∃ args r h nonce w1 key rs tx node token chain_info proof messages text,
    args_from_value value = Ok args ∧ result_to_value r = Ok v ∧
    get_nonce_at_block {| url := pb_rpc_url args |} (pb_account_address args)
      (JObject [("block_number", json_u64 (reference_block args))]) w = (Ok nonce, w1) ∧
    receiver_rpc_tx_hash (chain_id_felt (pb_chain_id args)) (tx_json r) = Some h ∧
    read_felt (tx_json r) "nonce" = Some (felt_of nonce) ∧
    pb_tx_hash r = felt_hex h ∧ felt_parse_hex (pb_private_key args) = Ok key ∧
    ecdsa_sign key h (rfc6979_generate_k h key) = Ok rs ∧
    pb_signature r = (felt_hex rs.1, felt_hex rs.2) ∧
    parse_transaction_json (tx_json r) = Ok tx ∧
    url_parse (pb_rpc_url args) = Some node ∧ address_parse STRK_TOKEN = Ok token ∧
    get_chain_info (chain_id_from (pb_chain_id args)) (Some token) = Ok chain_info ∧
    proved_run (web_factory node chain_info default_runner_config) (reference_block args) tx w1 w'
      proof messages ∧
    from_utf8 proof = Ok text ∧ pb_proof r = trim (trim text) ∧ pb_messages r = ser_messages messages.
Proof.
  intros (args & r & Hargs & Hrun & Hv)%prove_block_wasm_Ok. unfold web_prove_block, prove_block in Hrun.
  apply prog_bind_Ok in Hrun as (cd & ? & [Hcd ->]%lift_Ok & Hrun).
  apply prog_bind_Ok in Hrun as (sender & ? & [Hs%map_err_Ok ->]%lift_Ok & Hrun).
  apply prog_bind_Ok in Hrun as (key & ? & [Hk%map_err_Ok ->]%lift_Ok & Hrun).
  apply prog_bind_Ok in Hrun as (nonce & w1 & Hn%mapping_err_Ok & Hrun).
  apply prog_bind_Ok in Hrun as ([h sig] & ? & [Hsig ->]%lift_Ok & Hrun).
  apply prog_bind_Ok in Hrun as (tx & ? & [Htx%map_err_Ok ->]%lift_Ok & Hrun).
  apply prog_bind_Ok in Hrun as (a & w2 & Ha%mapping_err_Ok & [= <- <-]).
  assert (in_u u64_max nonce) as Hrange by (by eapply nonce_range).
  destruct (web_tx_json_hash args cd sender key nonce h sig Hrange Hcd Hs Hsig)
    as (Hh & r1 & r2 & Hrs & <- & <-).
  apply os_run_Ok in Ha as (token & node & ci & res & text & Htok & Hnode & Hci & Hpt & Htext & Hproof & _ & Hm).
  cbn in Htok. destruct Htok as [[? _]|(? & token' & [= <-] & Htok & ->)]; [done|].
  apply proved_run_Ok in Hpt.
  exists args. eexists. exists h, nonce, w1, key, (sig_r sig, sig_s sig), tx, node, token', ci,
    (pt_proof res), (pt_l2_to_l1_messages res), text.
  split_and!; try done.
  - unfold read_felt, get_str, web_tx_json. simpl. by rewrite felt_parse_u64.
  - by apply felt_from_hex_Ok.
  - simpl. by rewrite Hproof.
Qed.
End pipeline.
