(* ===== verification/Host.v ===== *)
(** * The host of the route handlers

    What the handlers of [apps/coinflip/src/routes.rs] and
    [apps/counter/src/routes.rs] use of the process they run in: child
    processes, files, random bytes, the gateway's HTTP endpoint, the
    server-sent-event channel, and the crate snip36_server, whose source is not
    part of the repository.  Each is an interface over the world [W]; nothing
    is assumed of them here, so a call may change any part of the world,
    including what other handlers do while this one waits. *)

From S2P Require Import Prelude RustNum RustStr Json Config Rpc.

(** [tokio::process::Command]: [command_output] is [.output().await] with an
    optional [current_dir]; [command_stream] is [spawn] with both outputs piped
    followed by [wait]: the spawn error, or the lines in the order in which
    they were read and what [wait] returned. *)
Class Process (W : Type) := {
  command_output : string → list string → option string → W → (string + Output) * W;
  command_stream : string → list string → W → (string + (list string * (string + bool))) * W;
}.

(** [tokio::fs] and [std::fs]. *)
Class Files (W : Type) := {
  create_dir_all : string → W → (string + unit) * W;
  write_file : string → string → W → (string + unit) * W;
  read_to_string : string → W → (string + string) * W;
  (** [metadata(path).map(|m| m.len())]. *)
  file_len : string → W → (string + Z) * W;
}.

(** [rand::random::<[u8; n]>()] and [Uuid::new_v4().to_string()]. *)
Class Random (W : Type) := {
  random_bytes : nat → W → list Z * W;
  new_v4 : W → string * W;
}.

(** [client.post(url).header(..).json(&payload).timeout(..).send()], then
    [resp.json()]: the two errors are told apart. *)
Class Gateway (W : Type) := {
  post_gateway : string → Value → W → (string + (string + Value)) * W;
}.

(** [tx.send(Ok(Event::default().event(event).data(data)))]; its [Result] is
    dropped by every caller. *)
Class Events (W : Type) := { emit : string → string → W → W }.

(** The crate snip36_server: the shared [AppState], the mutex that serialises
    sncast, the error response and the path of the prover's binary. *)
Class Server (W : Type) := {
  config : Config;
  rpc : StarknetRpc;
  sncast_lock : W → W;
  sncast_unlock : W → W;
  Response : Type;
  error_response : Z → string → Response;
  find_snip36_bin : W → string;
}.

Definition BAD_REQUEST : Z := 400.
Definition INTERNAL_SERVER_ERROR : Z := 500.
Definition BAD_GATEWAY : Z := 502.
Definition GATEWAY_TIMEOUT : Z := 504.

(** [regex.captures(text).and_then(|c| c.get(1)).map(|m| m.as_str())]. *)
Class RegexCaptures `{RegexLite} := { capture_1 : Regex → string → option string }.

(** Pretty-printed JSON of a document and the streaming reader of
    [serde_json::from_str] for a derived type: members keep their order. *)
Class JsonText := {
  to_string_pretty : Value → string;
  json_document : string → res string Value;
}.

Fixpoint plain_document (v : Value) : bool :=
  match v with
  | JNull | JString _ => true
  | JNumber (PosInt n) => (0 <=? n) && (n <=? u64_max)
  | JObject m => forallb (λ kv, plain_document kv.2) m
  | _ => false
  end.

Class JsonTextLaws `{JsonText} := {
  (** Documents of strings, [null], unsigned 64-bit numbers and objects. *)
  json_document_pretty v : plain_document v = true → json_document (to_string_pretty v) = Ok v;
}.

Section host.
Context {W : Type} {E : Type}.

(** A host call that cannot fail, and one whose [Result] is propagated. *)
Definition call_host {A} (f : W → A * W) : prog W E A := λ w, let '(a, w1) := f w in (Ok a, w1).

Definition try_host {A} (f : W → (string + A) * W) (err : string → E) : prog W E A :=
  r ← call_host f;
  match r with inl e => throw (err e) | inr a => mret a end.

(** [tokio::spawn]: the task's result and its panics do not reach the caller.
    It runs here to its end, with whatever the world does meanwhile. *)
Definition spawn {E'} (m : prog W E' unit) : prog W E unit := λ w,
  let '(r, w1) := m w in (match r with OutOfFuel => OutOfFuel | _ => Ok tt end, w1).

(** [let _lock = sncast_lock.lock().await; ...]: the guard is dropped on
    every way out of the block. *)
Definition with_sncast_lock `{Server W} {A} (m : prog W E A) : prog W E A := λ w,
  let '(r, w1) := m (sncast_lock w) in (r, sncast_unlock w1).
End host.

(** ** Replies and tasks *)

Section server.
Context {W : Type} `{!Server W}.

Definition fail {A} (status : Z) (msg : string) : prog W Response A :=
  throw (error_response status msg).

End server.

(** The closures [send] and [send_json] of a spawned task, and its ways out. *)
Section task.
Context {W : Type} `{Events W}.

Definition send {E} (event data : string) : prog W E unit := modify (emit event data).
Definition log {E} (msg : string) : prog W E unit := send "log" msg.

(** [send("error", ..).await; return;]: the error of the model is the text. *)
Definition abort_task {A} (msg : string) : prog W string A := send "error" msg;; throw msg.

Definition or_abort {E A} (text : E → string) (m : prog W E A) : prog W string A :=
  r ← attempt m;
  match r with inr a => mret a | inl e => abort_task (text e) end.

Lemma abort_task_eq {A} msg (w : W) : abort_task (A:=A) msg w = (Err msg, emit "error" msg w).
Proof. reflexivity. Qed.

Lemma or_abort_Ok {E A} (text : E → string) (m : prog W E A) w a w1 :
  or_abort text m w = (Ok a, w1) ↔ m w = (Ok a, w1).
Proof.
  unfold or_abort. rewrite prog_bind_Ok. setoid_rewrite attempt_Ok. split.
  - by intros (x & w2 & [(? & -> & ->)|(? & -> & _)] & [= -> ->]).
  - intros Hm. exists (inr a), w1. split; [|done]. left. eauto.
Qed.

End task.

Definition first_18 (s : string) : string := default s (slice_to 18 s).

Section host_preserves.
Context {W E : Type} (P : W → Prop).

Lemma preserves_call_host {A} (f : W → A * W) :
  (∀ w, P w → P (f w).2) → preserves (E:=E) P (call_host f).
Proof. intros Hf w Hw. specialize (Hf w Hw). unfold call_host. by destruct (f w). Qed.

Lemma preserves_try_host {A} (f : W → (string + A) * W) (err : string → E) :
  (∀ w, P w → P (f w).2) → preserves P (try_host f err).
Proof.
  intros Hf. unfold try_host. apply preserves_bind; [by apply preserves_call_host|].
  intros [e|a]; auto with snip.
Qed.

Lemma preserves_spawn {E'} (m : prog W E' unit) : preserves P m → preserves (E:=E) P (spawn m).
Proof. intros Hm w Hw. specialize (Hm w Hw). unfold spawn. by destruct (m w). Qed.

Lemma preserves_with_sncast_lock `{Server W} {A} (m : prog W E A) :
  (∀ w, P w → P (sncast_lock w)) → (∀ w, P w → P (sncast_unlock w)) →
  preserves P m → preserves P (with_sncast_lock m).
Proof.
  intros Hl Hu Hm w Hw. specialize (Hm _ (Hl w Hw)). unfold with_sncast_lock.
  destruct (m (sncast_lock w)). by apply Hu.
Qed.
End host_preserves.

(** [format!("{}\n{}", from_utf8_lossy(stdout), from_utf8_lossy(stderr))]. *)
Definition combined_output (o : Output) : string :=
  from_utf8_lossy (out_stdout o) +:+ String "010" (from_utf8_lossy (out_stderr o)).

Section parsing.
Context `{RegexCaptures}.

(** The two private helpers at the end of coinflip's routes. *)
Definition extract_long_hex (text : string) : option string :=
  re ← regex_new "0x[0-9a-fA-F]{50,}"; find re text.

Definition parse_hex (key text : string) : option string :=
  re ← regex_new ("(?i)" +:+ underscore_pattern key +:+ "[:\s]+\s*(0x[0-9a-fA-F]+)");
  capture_1 re text.
End parsing.

(** ** What every host call keeps

    A property of worlds that all host calls keep is carried through a
    handler; [keeps_step] is one step of the proof that a program keeps it. *)
Section stable.
Context {W : Type} `{Http W} `{Clock W} `{Process W} `{Files W} `{Random W} `{Events W}
  `{!Server W}.

Record stable_host (P : W → Prop) : Prop := {
  stable_post u v w : P w → P (post_json u v w).2;
  stable_sleep d w : P w → P (sleep d w);
  stable_command p a d w : P w → P (command_output p a d w).2;
  stable_stream p a w : P w → P (command_stream p a w).2;
  stable_mkdir p w : P w → P (create_dir_all p w).2;
  stable_write p s w : P w → P (write_file p s w).2;
  stable_read p w : P w → P (read_to_string p w).2;
  stable_len p w : P w → P (file_len p w).2;
  stable_random n w : P w → P (random_bytes n w).2;
  stable_uuid w : P w → P (new_v4 w).2;
  stable_emit e d w : P w → P (emit e d w);
  stable_lock w : P w → P (sncast_lock w);
  stable_unlock w : P w → P (sncast_unlock w);
}.
End stable.

Ltac keeps_step HP := first
  [ match goal with |- preserves _ (_ ≫= _) => apply preserves_bind; [|intros] end
  | apply preserves_ret | apply preserves_lift | apply preserves_throw | apply preserves_reads
  | apply preserves_mapping_err | apply preserves_attempt
  | apply preserves_with_sncast_lock; [apply (stable_lock _ HP)|apply (stable_unlock _ HP)|]
  | apply preserves_try_host; intros | apply preserves_call_host; intros
  | apply preserves_wait_for_tx; [apply (stable_post _ HP)|apply (stable_sleep _ HP)]
  | apply preserves_starknet_call; apply (stable_post _ HP)
  | apply preserves_block_number; apply (stable_post _ HP)
  | apply preserves_get_nonce_at_block; apply (stable_post _ HP)
  | apply preserves_modify; intros
  | apply (stable_command _ HP); assumption | apply (stable_random _ HP); assumption
  | apply (stable_mkdir _ HP); assumption | apply (stable_write _ HP); assumption
  | apply (stable_read _ HP); assumption | apply (stable_len _ HP); assumption
  | apply (stable_stream _ HP); assumption | apply (stable_sleep _ HP); assumption
  | apply (stable_uuid _ HP); assumption | apply (stable_emit _ HP); assumption
  | progress cbv zeta | case_match ].

Section task_keeps.
Context {W : Type} `{Http W} `{Clock W} `{Process W} `{Files W} `{Random W} `{Events W}
  `{!Server W}.
Context (P : W → Prop) (HP : stable_host P).

Lemma send_keeps {E} e d : preserves (E:=E) P (send e d).
Proof. unfold send. repeat keeps_step HP. Qed.

Lemma abort_task_keeps {A} msg : preserves P (abort_task (A:=A) msg).
Proof. unfold abort_task, send. repeat keeps_step HP. Qed.

Lemma or_abort_keeps {E A} (text : E → string) (m : prog W E A) :
  preserves P m → preserves P (or_abort text m).
Proof.
  intros Hm. unfold or_abort, abort_task, send. repeat keeps_step HP. exact Hm.
Qed.
End task_keeps.

(** [w'] follows [w]: every property that the calls of [kept] keep and that
    holds at [w] holds at [w'].  It orders the worlds of one run: it is the
    reflexive and transitive closure of the calls. *)
Definition follows {W} (kept : (W → Prop) → Prop) (w w' : W) : Prop :=
  ∀ P, kept P → P w → P w'.

Section follows.
Context {W : Type} (kept : (W → Prop) → Prop).

#[export] Instance follows_preorder : PreOrder (follows kept).
Proof. split; [intros w P _; exact id|intros w1 w2 w3 H1 H2 P HP Hw; by apply H2, H1]. Qed.

Lemma follows_run {E A} (m : prog W E A) w r w' :
  (∀ P, kept P → preserves P m) → m w = (r, w') → follows kept w w'.
Proof. intros Hm Hr P HP Hw. specialize (Hm P HP w Hw). by rewrite Hr in Hm. Qed.
End follows.
