(* ===== verification/Submission.v ===== *)
(** * The proof-carrying submission of the two prove tasks

    [play_coinflip] of [apps/coinflip/src/routes.rs] and [prove_block] of
    [apps/counter/src/routes.rs] contain the same text between the end of the
    prover and the first attempt to submit: the proof and its facts are read
    back from their files, and the SNIP-36 transaction is signed. *)

From S2P Require Import Prelude RustNum RustStr Json Felt Types Signing ProofCodec.
From S2P Require Import Config Rpc Host.

Section submission.
Context {W : Type} `{SerdeJson} `{FeltOps} `{!Crypto} `{Files W} `{Events W}.

(** The account's felts: calldata, sender, key, chain id. *)
Record task_felts := {
  pf_calldata : list Felt; pf_sender : Felt; pf_key : Felt; pf_chain_id : Felt }.

(** The files of the proof, the signed SNIP-36 transaction. *)
Definition build_submission (felts : task_felts) (nonce : Z) (proof_path : string)
    : prog W string (Felt * Value) :=
  proof_text ← or_abort (λ e, "Failed to read proof: " +:+ e)
    (try_host (read_to_string proof_path) id);
  facts_text ← or_abort (λ e, "Failed to read proof_facts: " +:+ e)
    (try_host (read_to_string (with_extension proof_path "proof_facts")) id);
  proof_facts_hex ← or_abort (λ e, "Invalid proof_facts: " +:+ proof_error_text e)
    (lift (parse_proof_facts_json facts_text));
  proof_facts ← or_abort (λ e, "Failed to parse proof_facts: " +:+ e)
    (lift (collect_res felt_from_hex proof_facts_hex));
  or_abort (λ e, "SNIP-36 signing failed: " +:+ sign_error_text e)
    (lift (sign_and_build_payload {|
      sp_sender_address := pf_sender felts;
      sp_private_key := pf_key felts;
      sp_calldata := pf_calldata felts;
      sp_proof_base64 := trim proof_text;
      sp_proof_facts := proof_facts;
      sp_nonce := felt_of nonce;
      sp_chain_id := pf_chain_id felts;
      sp_resource_bounds := default_bounds |})).

Lemma build_submission_Ok felts nonce proof_path (w w' : W) hash payload :
  build_submission felts nonce proof_path w = (Ok (hash, payload), w') →
  ∃ params sig, hash = submit_tx_hash params ∧ payload = payload_json params sig ∧
    sign (pf_key felts) hash = Ok sig ∧
    sp_calldata params = pf_calldata felts ∧ sp_sender_address params = pf_sender felts ∧
    sp_private_key params = pf_key felts ∧ sp_chain_id params = pf_chain_id felts ∧
    sp_nonce params = felt_of nonce ∧ sp_resource_bounds params = default_bounds.
Proof.
  unfold build_submission. intros Hrun.
  apply prog_bind_Ok in Hrun as (proof_text & w1 & _ & Hrun).
  apply prog_bind_Ok in Hrun as (facts_text & w2 & _ & Hrun).
  apply prog_bind_Ok in Hrun as (facts_hex & w3 & _ & Hrun).
  apply prog_bind_Ok in Hrun as (facts & w4 & _ & Hrun).
  apply or_abort_Ok, lift_Ok in Hrun as [Hsign _].
  apply sign_and_build_payload_Ok in Hsign as (-> & sig & Hsig & ->).
  eexists _, sig. split_and!; try reflexivity. exact Hsig.
Qed.

End submission.
