(* ===== verification/CoinFlipState.v ===== *)
(** * The shared state of the coin flip ([apps/coinflip/src/state.rs])

    Deployments and their persistence, the map of bet commitments, and the
    atomic accesses that the handlers of [routes.rs] make to them.  The
    accesses are the steps of a transition system: the handlers run
    concurrently and interleave between any two of them. *)

From S2P Require Import Prelude RustNum RustStr Json Config Rpc StateReader Host.

Record CoinFlipDeployment := {
  cd_contract_address : string; cd_class_hash : string; cd_deploy_block : Z }.

Record BankDeployment := {
  bd_contract_address : string; bd_class_hash : string; bd_deploy_block : Z }.

Record PersistedDeployments := {
  pd_coinflip : option CoinFlipDeployment; pd_bank : option BankDeployment }.

Definition default_deployments : PersistedDeployments :=
  {| pd_coinflip := None; pd_bank := None |}.

Record BetCommitment := {
  commitment : string;
  seed_block : Z;
  player : string;
  bet_amount : option string;
  session_felt : string;
}.

(** [CoinFlipAppState] without the [AppState] that it wraps. *)
Record CoinFlipState := {
  coinflip : option CoinFlipDeployment;
  bank : option BankDeployment;
  commitments : gmap string BetCommitment;
}.

(** ** serde's derived instances *)

Definition deployment_json (contract_address class_hash : string) (deploy_block : Z) : Value :=
  JObject [("contract_address", JString contract_address); ("class_hash", JString class_hash);
    ("deploy_block", json_u64 deploy_block)].

Definition option_json {A} (f : A → Value) (o : option A) : Value :=
  match o with Some a => f a | None => JNull end.

Definition persisted_json (p : PersistedDeployments) : Value := JObject [
  ("coinflip", option_json (λ d,
    deployment_json (cd_contract_address d) (cd_class_hash d) (cd_deploy_block d)) (pd_coinflip p));
  ("bank", option_json (λ d,
    deployment_json (bd_contract_address d) (bd_class_hash d) (bd_deploy_block d)) (pd_bank p))].

Definition de_deployment {A} (build : string → string → Z → A) (v : Value) : option A :=
  match struct_fields ["contract_address"; "class_hash"; "deploy_block"] v with
  | Some [Some a; Some c; Some b] =>
      a ← as_str a; c ← as_str c; b ← as_u64 b; Some (build a c b)
  | _ => None
  end.

Definition de_persisted (v : Value) : option PersistedDeployments :=
  match struct_fields ["coinflip"; "bank"] v with
  | Some [c; b] =>
      c ← de_option (de_deployment Build_CoinFlipDeployment) c;
      b ← de_option (de_deployment Build_BankDeployment) b;
      Some {| pd_coinflip := c; pd_bank := b |}
  | _ => None
  end.

Section persistence.
Context {W : Type} `{Files W} `{JsonText}.

Definition deployments_path (c : Config) : string := path_join (output_dir c) "deployments.json".

(** [serde_json::from_str(&contents).unwrap_or_default()]. *)
Definition parse_deployments (contents : string) : PersistedDeployments :=
  match json_document contents with
  | Ok v => default default_deployments (de_persisted v)
  | _ => default_deployments
  end.

Definition load_deployments {E} (c : Config) : prog W E PersistedDeployments :=
  r ← call_host (read_to_string (deployments_path c));
  match r with
  | inr contents => mret (parse_deployments contents)
  | inl _ => mret default_deployments
  end.

Definition initial_state (persisted : PersistedDeployments) : CoinFlipState :=
  {| coinflip := pd_coinflip persisted; bank := pd_bank persisted; commitments := ∅ |}.

Definition persisted_of (s : CoinFlipState) : PersistedDeployments :=
  {| pd_coinflip := coinflip s; pd_bank := bank s |}.

Definition persisted_text (s : CoinFlipState) : string :=
  to_string_pretty (persisted_json (persisted_of s)).
End persistence.

(** ** Atomic accesses *)

Definition session_felt_of (session_id : string) : string := "0x" +:+ remove_dashes session_id.

Inductive access :=
  (** [commitments.insert], by [commit_bet] *)
  | Commit (id commitment player : string)
  (** [get_mut(id)] then [entry.bet_amount = Some(amount)], by [deposit_info] *)
  | SetAmount (id amount : string)
  (** [get_mut(id)] then [entry.seed_block = seed], by [confirm_deposit] *)
  | LockSeed (id : string) (seed : Z)
  (** [commitments.remove(id)], by [play_coinflip] *)
  | Take (id : string)
  (** the write locks of [deploy_coinflip] and [deploy_bank] *)
  | StoreCoinflip (d : CoinFlipDeployment)
  | StoreBank (d : BankDeployment).

Definition new_commitment (id com player : string) : BetCommitment :=
  {| commitment := com; seed_block := 0; player := player; bet_amount := None;
     session_felt := session_felt_of id |}.

Definition with_amount (amount : string) (c : BetCommitment) : BetCommitment :=
  {| commitment := commitment c; seed_block := seed_block c; player := player c;
     bet_amount := Some amount; session_felt := session_felt c |}.

Definition with_seed (seed : Z) (c : BetCommitment) : BetCommitment :=
  {| commitment := commitment c; seed_block := seed; player := player c;
     bet_amount := bet_amount c; session_felt := session_felt c |}.

Definition on_commitments (f : gmap string BetCommitment → gmap string BetCommitment)
    (s : CoinFlipState) : CoinFlipState :=
  {| coinflip := coinflip s; bank := bank s; commitments := f (commitments s) |}.

Definition apply_access (a : access) (s : CoinFlipState) : CoinFlipState :=
  match a with
  | Commit id com player => on_commitments (<[id := new_commitment id com player]>) s
  | SetAmount id amount => on_commitments (alter (with_amount amount) id) s
  | LockSeed id seed => on_commitments (alter (with_seed seed) id) s
  | Take id => on_commitments (delete id) s
  | StoreCoinflip d => {| coinflip := Some d; bank := bank s; commitments := commitments s |}
  | StoreBank d => {| coinflip := coinflip s; bank := Some d; commitments := commitments s |}
  end.

Inductive cf_step : CoinFlipState → access → CoinFlipState → Prop :=
  | CfStep s a : cf_step s a (apply_access a s).

(** Any interleaving of accesses by any number of requests. *)
Inductive cf_steps : CoinFlipState → list access → CoinFlipState → Prop :=
  | CfNil s : cf_steps s [] s
  | CfSnoc s l s1 a s2 : cf_steps s l s1 → cf_step s1 a s2 → cf_steps s (l ++ [a])%list s2.

(** What a list of accesses did to one commitment since it was made. *)
Fixpoint updates_of (id : string) (l : list access) (c : BetCommitment) : BetCommitment :=
  match l with
  | [] => c
  | SetAmount id' amount :: l =>
      updates_of id l (if decide (id = id') then with_amount amount c else c)
  | LockSeed id' seed :: l => updates_of id l (if decide (id = id') then with_seed seed c else c)
  | _ :: l => updates_of id l c
  end.

(** Neither made again nor taken. *)
Definition untouched (id : string) (a : access) : Prop :=
  match a with Commit id' _ _ | Take id' => id ≠ id' | _ => True end.

#[export] Instance untouched_dec id a : Decision (untouched id a).
Proof. destruct a; simpl; apply _. Defined.

(** The last seed locked for a session, and no seed at all. *)
Definition locks (id : string) (a : access) : Prop :=
  match a with LockSeed id' _ => id = id' | _ => False end.
#[export] Instance locks_dec id a : Decision (locks id a).
Proof. destruct a; simpl; apply _. Defined.

(** ** Facts *)

Section persistence_facts.
Context `{JsonTextLaws}.

Definition deployments_ok (p : PersistedDeployments) : Prop :=
  (∀ d, pd_coinflip p = Some d → in_u u64_max (cd_deploy_block d)) ∧
  (∀ d, pd_bank p = Some d → in_u u64_max (bd_deploy_block d)).

Lemma de_deployment_json {A} (build : string → string → Z → A) a c b :
  de_deployment build (deployment_json a c b) = Some (build a c b).
Proof. reflexivity. Qed.

Lemma plain_deployment a c b :
  in_u u64_max b → plain_document (deployment_json a c b) = true.
Proof.
  unfold in_u. intros ?. cbn.
  by rewrite (proj2 (Z.leb_le 0 b)), (proj2 (Z.leb_le b u64_max)) by lia.
Qed.

Lemma deployments_roundtrip_inv s :
  deployments_ok (persisted_of s) →
  parse_deployments (persisted_text s) = persisted_of s.
Proof.
  intros [Hc Hb]. unfold parse_deployments, persisted_text.
  rewrite json_document_pretty.
  - by destruct (persisted_of s) as [[[]|] [[]|]].
  - destruct (persisted_of s) as [[c|] [b|]]; cbn [persisted_json option_json plain_document
      forallb snd pd_coinflip pd_bank] in *; rewrite ?plain_deployment; try done; eauto.
Qed.
End persistence_facts.

Lemma updates_of_app id l l' c :
  updates_of id (l ++ l') c = updates_of id l' (updates_of id l c).
Proof. revert c. induction l as [|[] l IH]; intros c; simpl; rewrite ?IH; done. Qed.

(** What no update changes. *)
Lemma updates_of_fixed id l c :
  commitment (updates_of id l c) = commitment c ∧ player (updates_of id l c) = player c ∧
  session_felt (updates_of id l c) = session_felt c.
Proof.
  revert c. induction l as [|[] l IH]; intros c; simpl; try apply IH; try done.
  - destruct (IH (if decide (id = id0) then with_amount amount c else c)) as (-> & -> & ->).
    by destruct (decide _).
  - destruct (IH (if decide (id = id0) then with_seed seed c else c)) as (-> & -> & ->).
    by destruct (decide _).
Qed.

Lemma updates_of_unlocked id l c :
  Forall (λ a, ¬ locks id a) l → seed_block (updates_of id l c) = seed_block c.
Proof.
  intros Hl. revert c. induction Hl as [|[] l Ha _ IH]; intros c; simpl; try apply IH; [done|..].
  - rewrite IH. by destruct (decide _).
  - simpl in Ha. by rewrite decide_False, IH.
Qed.

(** How one access changes the entry of one session. *)
Lemma apply_access_lookup a s id :
  commitments (apply_access a s) !! id =
  match a with
  | Commit id' com pl =>
      if decide (id = id') then Some (new_commitment id com pl) else commitments s !! id
  | Take id' => if decide (id = id') then None else commitments s !! id
  | _ => updates_of id [a] <$> (commitments s !! id)
  end.
Proof.
  destruct a as [id' com pl|id' am|id' sd|id'|d|d]; simpl; try by destruct (commitments s !! id).
  - destruct (decide (id = id')) as [<-|]; [apply lookup_insert_eq|by apply lookup_insert_ne].
  - destruct (decide (id = id')) as [<-|Hne].
    + by rewrite lookup_alter_eq.
    + rewrite lookup_alter_ne by done. by destruct (commitments s !! id).
  - destruct (decide (id = id')) as [<-|Hne].
    + by rewrite lookup_alter_eq.
    + rewrite lookup_alter_ne by done. by destruct (commitments s !! id).
  - destruct (decide (id = id')) as [<-|]; [apply lookup_delete_eq|by apply lookup_delete_ne].
Qed.

(** The history behind an entry of the map. *)
Definition made_by (id : string) (l : list access) (c : BetCommitment) : Prop :=
  ∃ pre com pl post,
    l = (pre ++ Commit id com pl :: post)%list ∧ Forall (untouched id) post ∧
    c = updates_of id post (new_commitment id com pl).

Lemma made_by_snoc id l a c :
  made_by id (l ++ [a]) c ↔
  (∃ com pl, a = Commit id com pl ∧ c = new_commitment id com pl) ∨
  (untouched id a ∧ ∃ c0, made_by id l c0 ∧ c = updates_of id [a] c0).
Proof.
  split.
  - intros (pre & com & pl & post & Hl & Hpost & ->).
    destruct post as [|b post _] using rev_ind.
    + apply app_inj_tail in Hl as [-> ->]. left. by exists com, pl.
    + rewrite app_comm_cons, app_assoc in Hl. apply app_inj_tail in Hl as [-> ->].
      apply Forall_app in Hpost as [Hpost Ha]. rewrite Forall_singleton in Ha. right. split; [done|].
      exists (updates_of id post (new_commitment id com pl)). split.
      * by exists pre, com, pl, post.
      * apply updates_of_app.
  - intros [(com & pl & -> & ->)|(Ha & c0 & (pre & com & pl & post & -> & Hpost & ->) & ->)].
    + by exists l, com, pl, [].
    + exists pre, com, pl, (post ++ [a])%list. split_and!.
      * by rewrite <-app_assoc.
      * apply Forall_app. by rewrite Forall_singleton.
      * by rewrite updates_of_app.
Qed.

Lemma made_by_spec s0 l s id c :
  cf_steps s0 l s → commitments s0 = ∅ →
  commitments s !! id = Some c ↔ made_by id l c.
Proof.
  intros Hs H0. revert c. induction Hs as [s|s l s1 a s2 Hs IH Hstep]; intros c.
  { rewrite H0, lookup_empty. split; [done|].
    intros (pre & com & pl & post & Hl & _). by destruct pre. }
  inversion Hstep; subst. rewrite apply_access_lookup, made_by_snoc.
  specialize (IH H0).
  assert (Hupd : ∀ a, untouched id a → (∀ com pl, a ≠ Commit id com pl) →
    updates_of id [a] <$> (commitments s1 !! id) = Some c ↔
    (∃ com pl, a = Commit id com pl ∧ c = new_commitment id com pl) ∨
    (untouched id a ∧ ∃ c0, made_by id l c0 ∧ c = updates_of id [a] c0)).
  { intros b Ha Hnew. rewrite fmap_Some. setoid_rewrite IH. split.
    - intros (c0 & ? & ->). right. eauto.
    - intros [(com & pl & Hb & _)|(_ & c0 & ? & ->)]; [by apply Hnew in Hb|]. eauto. }
  destruct a as [id' com pl|id' am|id' sd|id'|d|d]; try by apply Hupd.
  - destruct (decide (id = id')) as [<-|Hne].
    + split; [intros [= <-]; left; eauto|].
      intros [(? & ? & [= <- <-] & ->)|[[] _]]; done.
    + rewrite <-(Hupd (Commit id' com pl) Hne) by congruence. by destruct (commitments s1 !! id).
  - destruct (decide (id = id')) as [<-|Hne].
    + split; [done|]. intros [(? & ? & ? & _)|[[] _]]; done.
    + rewrite <-(Hupd (Take id') Hne) by congruence. by destruct (commitments s1 !! id).
Qed.

(** C22: In every state reached by any interleaving of the handlers' accesses, a
    session has the commitment c exactly when some earlier commit of that
    session was neither repeated nor taken since and c is that commitment
    with the later updates applied; hash, player and session felt are those
    of the commit, and the seed is 0 until a seed is locked. *)
Theorem commitment_lifecycle persisted l s id c :
  cf_steps (initial_state persisted) l s →
  commitments s !! id = Some c ↔
  ∃ pre com pl post,
    l = (pre ++ Commit id com pl :: post)%list ∧ Forall (untouched id) post ∧
    c = updates_of id post (new_commitment id com pl) ∧
    commitment c = com ∧ player c = pl ∧ session_felt c = session_felt_of id ∧
    (Forall (λ a, ¬ locks id a) post → seed_block c = 0).
Proof.
  intros Hs. rewrite (made_by_spec _ _ _ _ _ Hs) by done. unfold made_by. split.
  - intros (pre & com & pl & post & Hl & Hpost & ->). exists pre, com, pl, post.
    pose proof (updates_of_fixed id post (new_commitment id com pl)) as (? & ? & ?).
    do 6 (split; [done|]). intros Hn. by rewrite updates_of_unlocked.
  - naive_solver.
Qed.

(** Restarting the server keeps the deployments: reading back the text that
    was saved for a state gives the state with the same two deployments and
    no commitments. *)
Theorem deployments_roundtrip `{JsonTextLaws} s :
  deployments_ok (persisted_of s) →
  initial_state (parse_deployments (persisted_text s)) =
    {| coinflip := coinflip s; bank := bank s; commitments := ∅ |}.
Proof. intros Hok. by rewrite deployments_roundtrip_inv. Qed.
