(* ===== verification/CoinFlip.v ===== *)
(** * The coin flip's route handlers ([apps/coinflip/src/routes.rs])

    Every handler as a program over the world: its guards in source order, its
    calls, its accesses to the shared state.  [play_coinflip] is in two parts,
    the request itself ([play_start]) and the spawned task ([play_task]).
    Nothing is assumed of a host call, so what other requests do during an
    [await] is part of what the call may do to the world. *)

From Stdlib Require Import SpecFloat.
From S2P Require Import Prelude RustNum RustStr RustFloat Json Felt Types Signing ProofCodec.
From S2P Require Import Config Rpc Host Submission CoinFlipState.

Definition PLAY_SELECTOR : string :=
  "0x21c4a0db2b08b026c4e31bf76d5dd9b92aa54c0978df57474355786073775e8".
Definition balance_of_selector : string :=
  "0x2e4263afad30923c891518314c3c95dbe830a16874e8abc5777a9a20b54c76e".
Definition get_balance_selector : string :=
  "0x39e11d48192e4333233c7eb19d10ad67c362bb28580c604d67884c85da39695".

(** ** Amounts *)

(** [(req.bet_amount * 1e18) as u128]. *)
Definition bet_to_wei (amount : spec_float) : Z := as_u128 (f64_mul amount f64_1e18).

(** [u128::from_str_radix(low.trim_start_matches("0x"), 16)], shown in STRK. *)
Definition strk_text (wei : Z) : string := fmt_fixed 4 (f64_div (f64_of_Z wei) f64_1e18).

(** ** Requests and replies *)

Record DeployReply := { dr_contract_address : string; dr_class_hash : string; dr_deploy_block : Z }.
Record CommitRequest := { cr_commitment : string; cr_player : string }.
Record CommitReply := { cp_session_id : string; cp_seed_block : Z }.
Record PlayQuery := { pq_player : string; pq_bet : Z; pq_nonce : string }.
Record DepositInfoRequest := { di_session_id : string; di_bet_amount : spec_float }.
Record DepositInfoReply := {
  dp_bank_address : string; dp_strk_address : string; dp_session_felt : string;
  dp_bet_amount_low : string; dp_bet_amount_high : string; dp_seed : string; dp_bet : string }.
Record ConfirmDepositRequest := { cq_session_id : string; cq_tx_hash : string }.
Record ConfirmDepositReply := { matched : bool; match_tx_hash : string }.
Record StatusReply := {
  st_deployed : bool; st_contract_address : option string; st_bank_balance : option string }.
Record BalanceReply := { br_balance : string; br_balance_wei : string; br_bank_address : option string }.
(** [InvokeResult]; its [output] is never read. *)
Record InvokeResult := { tx_hash : option string; block_number : option Z }.

(** What the spawned task of [play_coinflip] captures. *)
Record PlayJob := {
  job_session_id : string;
  job_contract_address : string;
  job_bet : Z;
  job_player : string;
  job_seed_block : Z;
}.

(** [CoinFlipAppState]'s own fields inside the world. *)
Class CoinFlipApp (W : Type) := {
  cf_state : W → CoinFlipState;
  set_cf_state : CoinFlipState → W → W;
}.

Class CoinFlipAppLaws (W : Type) `{CoinFlipApp W} := {
  cf_get_set s w : cf_state (set_cf_state s w) = s;
}.

Definition bet_label (bet : Z) : string := if bet =? 0 then "heads" else "tails".

(** ** Calling sncast *)

Section handlers.
Context {W : Type} `{Http W} `{Clock W} `{SerdeJson} `{FeltOps} `{!Crypto} `{Env W}.
Context `{Process W} `{Files W} `{Random W} `{Gateway W} `{Events W} `{!Server W}.
Context `{RegexCaptures} `{JsonText} `{CoinFlipApp W}.
(** The rounds that [wait_for_tx] may poll. *)
Context (fuel : nat).

Definition invoke_args (account_name contract_address function calldata : string) : list string :=
  ["--account"; account_name; "invoke"; "--url"; rpc_url config;
   "--contract-address"; contract_address; "--function"; function; "--calldata"; calldata].

(** [sncast_invoke]: an unconfirmed transaction is not an error. *)
Definition sncast_invoke (contract_address function calldata : string)
    : prog W string InvokeResult :=
  with_sncast_lock (
    account_name ← reads sncast_account;
    output ← try_host (command_output "sncast"
      (invoke_args account_name contract_address function calldata) None) id;
    let tx_hash := parse_hex "transaction_hash" (combined_output output) in
    match tx_hash with
    | None => mret {| tx_hash := None; block_number := None |}
    | Some tx =>
        r ← attempt (wait_for_tx rpc fuel tx 120 3);
        mret {| tx_hash := Some tx;
                block_number := match r with
                                | inr receipt => receipt_block_number receipt
                                | inl _ => None
                                end |}
    end).

(** ** Deployment *)

(** The block of [deploy_coinflip] and [deploy_bank] that runs under the
    sncast mutex.  [constructor] is the extra arguments of [sncast deploy];
    [check_status] is the test of [deploy_output.status], which only the
    first of the two makes; the two messages are those of the two sources. *)
Definition declare_and_deploy (name : string) (constructor : list string) (check_status : bool)
    (no_address no_tx : string) : prog W Response (string * string * Z) :=
  account_name ← reads sncast_account;
  with_sncast_lock (
    declare_output ← try_host (command_output "sncast"
      ["--account"; account_name; "declare"; "--contract-name"; name; "--url"; rpc_url config]
      (Some (contracts_dir config))) (error_response INTERNAL_SERVER_ERROR);
    let declare_combined := combined_output declare_output in
    class_hash ← lift (ok_or (extract_long_hex declare_combined)
      (error_response INTERNAL_SERVER_ERROR (name +:+ " declare failed: " +:+ declare_combined)));
    match parse_hex "transaction_hash" declare_combined with
    | Some tx => attempt (wait_for_tx rpc fuel tx 120 3);; mret tt
    | None => mret tt
    end;;
    salt_bytes ← call_host (random_bytes 16);
    let salt := "0x" +:+ hex_encode salt_bytes in
    deploy_output ← try_host (command_output "sncast"
      (["--account"; account_name; "deploy"; "--class-hash"; class_hash] ++ constructor
        ++ ["--salt"; salt; "--url"; rpc_url config])%list None)
      (error_response INTERNAL_SERVER_ERROR);
    let deploy_combined := combined_output deploy_output in
    (if check_status && negb (out_success deploy_output)
     then fail INTERNAL_SERVER_ERROR (name +:+ " deploy failed: " +:+ deploy_combined)
     else mret tt);;
    contract_address ← lift (ok_or (parse_hex "contract_address" deploy_combined)
      (error_response INTERNAL_SERVER_ERROR (no_address +:+ deploy_combined)));
    tx_hash ← lift (ok_or (parse_hex "transaction_hash" deploy_combined)
      (error_response INTERNAL_SERVER_ERROR (no_tx +:+ deploy_combined)));
    receipt ← mapping_err (λ e, error_response GATEWAY_TIMEOUT (rpc_error_text e))
      (wait_for_tx rpc fuel tx_hash 120 3);
    mret (contract_address, class_hash, default 0 (receipt_block_number receipt))).

Definition access_state {E} (a : access) : prog W E unit :=
  modify (λ w, set_cf_state (apply_access a (cf_state w)) w).

(** [save_deployments]: every error is dropped. *)
Definition save_deployments {E} : prog W E unit :=
  s ← reads cf_state;
  call_host (create_dir_all (output_dir config));;
  call_host (write_file (deployments_path config) (persisted_text s));;
  mret tt.

Definition coinflip_status {E} : prog W E StatusReply :=
  s ← reads cf_state;
  mret {| st_deployed := match coinflip s with Some _ => true | None => false end;
          st_contract_address := cd_contract_address <$> coinflip s; st_bank_balance := None |}.

Definition deploy_coinflip : prog W Response DeployReply :=
  s ← reads cf_state;
  match coinflip s with
  | Some d => mret {| dr_contract_address := cd_contract_address d;
                      dr_class_hash := cd_class_hash d; dr_deploy_block := cd_deploy_block d |}
  | None =>
      deployed ← declare_and_deploy "CoinFlip" [] true
        "No contract_address in deploy output: " "No transaction_hash in deploy output: ";
      let '(contract_address, class_hash, deploy_block) := (deployed : string * string * Z) in
      access_state (StoreCoinflip {| cd_contract_address := contract_address;
        cd_class_hash := class_hash; cd_deploy_block := deploy_block |});;
      save_deployments;;
      mret {| dr_contract_address := contract_address; dr_class_hash := class_hash;
              dr_deploy_block := deploy_block |}
  end.

Definition max_approval : string := "0xffffffffffffffffffffffffffffffff".
(** [10 * 10u128.pow(18)]. *)
Definition fund_amount : Z := 10 * 10 ^ 18.

Definition deploy_bank : prog W Response DeployReply :=
  s ← reads cf_state;
  match bank s with
  | Some d => mret {| dr_contract_address := bd_contract_address d;
                      dr_class_hash := bd_class_hash d; dr_deploy_block := bd_deploy_block d |}
  | None =>
      deployed ← declare_and_deploy "CoinFlipBank"
        ["--constructor-calldata"; account_address config] false
        "CoinFlipBank deploy failed: " "No tx_hash in deploy output: ";
      let '(contract_address, class_hash, deploy_block) := (deployed : string * string * Z) in
      mapping_err (error_response INTERNAL_SERVER_ERROR)
        (sncast_invoke STRK_TOKEN "approve"
          (contract_address +:+ " " +:+ max_approval +:+ " 0x0"));;
      mapping_err (error_response INTERNAL_SERVER_ERROR)
        (sncast_invoke STRK_TOKEN "transfer"
          (contract_address +:+ " " +:+ fmt_hex fund_amount +:+ " 0x0"));;
      access_state (StoreBank {| bd_contract_address := contract_address;
        bd_class_hash := class_hash; bd_deploy_block := deploy_block |});;
      save_deployments;;
      mret {| dr_contract_address := contract_address; dr_class_hash := class_hash;
              dr_deploy_block := deploy_block |}
  end.

(** ** Balances *)

Definition parse_wei (low : string) : res int_error Z := parse_hex_quantity u128_max low.

Definition bank_status {E} : prog W E StatusReply :=
  s ← reads cf_state;
  match bank s with
  | None => mret {| st_deployed := false; st_contract_address := None; st_bank_balance := None |}
  | Some d =>
      r ← attempt (starknet_call rpc STRK_TOKEN balance_of_selector [bd_contract_address d]);
      mret {| st_deployed := true; st_contract_address := Some (bd_contract_address d);
              st_bank_balance :=
                match r with
                | inr (low :: _) => wei ← ok (parse_wei low); Some (strk_text wei)
                | _ => None
                end |}
  end.

(** An unreadable balance is shown as zero. *)
Definition balance_reply (result : list string) (bank_address : option string) : BalanceReply :=
  let low := default "0x0" (head result) in
  let wei := default 0 (ok (parse_wei low)) in
  {| br_balance := strk_text wei; br_balance_wei := low; br_bank_address := bank_address |}.

Definition player_balance (address : string) : prog W Response BalanceReply :=
  result ← mapping_err (λ e, error_response INTERNAL_SERVER_ERROR
      ("balance_of failed: " +:+ rpc_error_text e))
    (starknet_call rpc STRK_TOKEN balance_of_selector [address]);
  mret (balance_reply result None).

Definition deployed_bank : prog W Response BankDeployment :=
  s ← reads cf_state; lift (ok_or (bank s) (error_response BAD_REQUEST "Bank not deployed")).

Definition player_winnings (address : string) : prog W Response BalanceReply :=
  b ← deployed_bank;
  result ← mapping_err (λ e, error_response INTERNAL_SERVER_ERROR
      ("get_balance failed: " +:+ rpc_error_text e))
    (starknet_call rpc (bd_contract_address b) get_balance_selector [address]);
  mret (balance_reply result (Some (bd_contract_address b))).

(** ** Commit, deposit, match *)

Definition commit_bet (req : CommitRequest) : prog W Response CommitReply :=
  session_id ← call_host new_v4;
  access_state (Commit session_id (cr_commitment req) (cr_player req));;
  mret {| cp_session_id := session_id; cp_seed_block := 0 |}.

Definition find_commitment (session_id err : string) : prog W Response BetCommitment :=
  s ← reads cf_state;
  lift (ok_or (commitments s !! session_id) (error_response BAD_REQUEST err)).

Definition deposit_info (req : DepositInfoRequest) : prog W Response DepositInfoReply :=
  b ← deployed_bank;
  c ← find_commitment (di_session_id req) "No commitment for this session";
  let amount_low := fmt_hex (bet_to_wei (di_bet_amount req)) in
  access_state (SetAmount (di_session_id req) amount_low);;
  mret {| dp_bank_address := bd_contract_address b; dp_strk_address := STRK_TOKEN;
          dp_session_felt := session_felt c; dp_bet_amount_low := amount_low;
          dp_bet_amount_high := "0x0"; dp_seed := fmt_hex (seed_block c); dp_bet := "0x0" |}.

(** [match_result.block_number], or the current block, or 0. *)
Definition confirmed_block (block : option Z) : prog W Response Z :=
  match block with
  | Some bn => mret bn
  | None => r ← attempt (Rpc.block_number rpc); mret (match r with inr n => n | inl _ => 0 end)
  end.

Definition confirm_deposit (req : ConfirmDepositRequest) : prog W Response ConfirmDepositReply :=
  mapping_err (λ e, error_response GATEWAY_TIMEOUT
      ("Deposit tx not confirmed: " +:+ rpc_error_text e))
    (wait_for_tx rpc fuel (cq_tx_hash req) 120 3);;
  b ← deployed_bank;
  c ← find_commitment (cq_session_id req) "No commitment for this session";
  match_result ← mapping_err (error_response INTERNAL_SERVER_ERROR)
    (sncast_invoke (bd_contract_address b) "match_deposit" (session_felt c));
  match_tx ← lift (ok_or (tx_hash match_result)
    (error_response INTERNAL_SERVER_ERROR "Bank match: no tx hash in output"));
  confirmed ← confirmed_block (block_number match_result);
  s ← reads cf_state;
  let deploy_block := default 0 (cd_deploy_block <$> coinflip s) in
  access_state (LockSeed (cq_session_id req) (Z.max confirmed deploy_block));;
  mret {| matched := true; match_tx_hash := match_tx |}.

(** ** Play: the request *)

(** [commitments.remove(&session_id)]. *)
Definition remove_commitment (session_id : string) : prog W Response BetCommitment :=
  c ← find_commitment session_id
    "No commitment found for this session. Call POST /api/coinflip/commit first.";
  access_state (Take session_id);;
  mret c.

(** The checks of the reveal, on the consumed commitment. *)
Definition verify_reveal (c : BetCommitment) (params : PlayQuery) : res Response Z :=
  let bet := Z.min (pq_bet params) 1 in
  if negb (String.eqb (pq_player params) (player c)) then
    Err (error_response BAD_REQUEST "Player address does not match commitment.")
  else
    nonce_felt ← map_err (λ e, error_response BAD_REQUEST ("Invalid nonce: " +:+ e))
      (felt_from_hex (pq_nonce params));
    let computed_hex := felt_hex (pedersen_hash (felt_of bet) nonce_felt) in
    if negb (String.eqb computed_hex (commitment c)) then
      Err (error_response BAD_REQUEST ("Commitment mismatch: pedersen(" +:+ pretty bet
        +:+ ", nonce) = " +:+ computed_hex +:+ ", expected " +:+ commitment c))
    else Ok bet.

Definition play_start (session_id : string) (params : PlayQuery) : prog W Response PlayJob :=
  s ← reads cf_state;
  deployment ← lift (ok_or (coinflip s) (error_response BAD_REQUEST
    "CoinFlip contract not deployed. Call POST /api/coinflip/deploy first."));
  c ← remove_commitment session_id;
  bet ← lift (verify_reveal c params);
  mret {| job_session_id := session_id; job_contract_address := cd_contract_address deployment;
          job_bet := bet; job_player := pq_player params; job_seed_block := seed_block c |}.

(** ** Play: the spawned task *)

Definition play_calldata (job : PlayJob) : list string :=
  ["0x1"; job_contract_address job; PLAY_SELECTOR; "0x3"; fmt_hex (job_seed_block job);
   job_player job; fmt_hex (job_bet job)].

Definition play_tx_json (calldata : list string) (nonce : Z) (sig : Signature) : Value := JObject [
  ("type", JString "INVOKE");
  ("version", JString "0x3");
  ("sender_address", JString (account_address config));
  ("calldata", json_strings calldata);
  ("nonce", JString (fmt_hex nonce));
  ("resource_bounds", to_rpc_json zero_fee);
  ("tip", JString "0x0");
  ("paymaster_data", JArray []);
  ("account_deployment_data", JArray []);
  ("nonce_data_availability_mode", JString "L1");
  ("fee_data_availability_mode", JString "L1");
  ("signature", json_strings [felt_hex (sig_r sig); felt_hex (sig_s sig)])].

Definition parse_felts (job : PlayJob) : prog W string task_felts :=
  calldata ← or_abort (λ e, "Failed to parse calldata: " +:+ e)
    (lift (collect_res felt_from_hex (play_calldata job)));
  sender ← or_abort (λ e, "Invalid sender address: " +:+ e)
    (lift (felt_from_hex (account_address config)));
  key ← or_abort (λ e, "Invalid private key: " +:+ e) (lift (felt_from_hex (private_key config)));
  chain_id ← or_abort (λ e, "Invalid chain_id: " +:+ config_error_text e)
    (lift (config_chain_id_felt config));
  mret {| pf_calldata := calldata; pf_sender := sender; pf_key := key; pf_chain_id := chain_id |}.

Definition play_dir : string := path_join (output_dir config) "coinflip".

(** Phase 1: the signed zero-fee transaction, written for the prover. *)
Definition construct_tx (job : PlayJob) (felts : task_felts) (tx_path : string)
    : prog W string Z :=
  nonce ← or_abort (λ e, "Failed to get nonce: " +:+ rpc_error_text e)
    (get_nonce_at_block rpc (account_address config)
      (JObject [("block_number", json_u64 (job_seed_block job))]));
  let standard_tx_hash := compute_invoke_v3_tx_hash (pf_sender felts) (pf_calldata felts)
    (pf_chain_id felts) (felt_of nonce) (felt_of 0) zero_fee [] [] 0 0 [] in
  sig ← or_abort (λ e, "Signing failed: " +:+ sign_error_text e)
    (lift (sign (pf_key felts) standard_tx_hash));
  call_host (create_dir_all play_dir);;
  or_abort (λ e, "Failed to write tx JSON: " +:+ e)
    (try_host (write_file tx_path (to_string_pretty
      (play_tx_json (play_calldata job) nonce sig))) id);;
  log ("Transaction constructed (nonce: " +:+ pretty nonce +:+ ", seed: "
    +:+ fmt_hex (job_seed_block job) +:+ ")");;
  mret nonce.

Definition prove_args (job : PlayJob) (tx_path proof_path : string) (prover_url : option string)
    : list string :=
  (["prove"; "virtual-os"; "--block-number"; pretty (job_seed_block job); "--tx-json"; tx_path;
   "--rpc-url"; rpc_url config; "--output"; proof_path; "--strk-fee-token"; STRK_TOKEN]
   ++ match prover_url with
      | Some url => if String.eqb url "" then [] else ["--prover-url"; url]
      | None => []
      end)%list.

(** Phase 2.  The lines of the child's two pipes are forwarded as they come;
    the model emits those that arrive before the child's end, in that order. *)
Definition run_prover (job : PlayJob) (tx_path proof_path : string) : prog W string Z :=
  send "phase" "proving";;
  log ("Proving against block " +:+ pretty (job_seed_block job) +:+ "...");;
  snip36_bin ← reads find_snip36_bin;
  prover_url ← reads (λ w, env_var w "PROVER_URL");
  child ← call_host (command_stream snip36_bin (prove_args job tx_path proof_path prover_url));
  match child with
  | inl e => abort_task ("Failed to spawn prover (" +:+ snip36_bin +:+ "): " +:+ e)
  | inr (lines, status) =>
      for_each log lines;;
      match status with
      | inr true =>
          r ← call_host (file_len proof_path);
          let proof_size := match r with inr n => n | inl _ => 0 end in
          log ("Proof generated (" +:+ pretty proof_size +:+ " bytes)");;
          mret proof_size
      | _ => abort_task "Proof generation failed"
      end
  end.

(** The settlement message [player, seed, bet, outcome, won]; entries that
    are not strings are skipped before the positions are counted. *)
Definition parse_settlement (msg_json : Value) : option (string * bool) :=
  msgs ← get msg_json "l2_to_l1_messages" ≫= as_array;
  first ← head msgs;
  payload ← get first "payload" ≫= as_array;
  match array_strings payload with
  | _ :: _ :: _ :: outcome :: won :: _ =>
      Some (if String.eqb outcome "0x0" then "heads" else "tails", String.eqb won "0x1")
  | _ => None
  end.

Definition bool_text (b : bool) : string := if b then "true" else "false".

(** No message, or one that cannot be read, leaves ("", false). *)
Definition read_settlement (proof_path : string) : prog W string (string * bool) :=
  let messages_file := with_extension proof_path "raw_messages.json" in
  there ← reads (λ w, path_exists w messages_file);
  if negb there then mret ("", false)
  else
    r ← call_host (read_to_string messages_file);
    match r with
    | inl _ => mret ("", false)
    | inr msg_str =>
        match ok (json_from_str msg_str) ≫= parse_settlement with
        | None => mret ("", false)
        | Some (outcome_label, won) =>
            log ("Settlement: outcome=" +:+ outcome_label +:+ " won=" +:+ bool_text won);;
            mret (outcome_label, won)
        end
    end.

Definition submit_url : string :=
  trim_end_slashes (default "" (gateway_url config)) +:+ "/gateway/add_transaction".

Definition max_attempts : nat := 20.

Definition not_ready (msg : string) : bool :=
  str_contains "too recent" msg || str_contains "stored block hash: 0" msg.

Definition attempt_text (attempt : nat) : string :=
  pretty attempt +:+ "/" +:+ pretty max_attempts.

(** [left] attempts remain; the loop's counter is [max_attempts + 1 - left]. *)
Fixpoint submit_loop (left : nat) (payload : Value) : prog W string bool :=
  match left with
  | O => mret false
  | S left' =>
      let attempt := (S max_attempts - left)%nat in
      response ← call_host (post_gateway submit_url payload);
      match response with
      | inl e => abort_task ("Request failed: " +:+ e)
      | inr (inl e) => abort_task ("Failed to read response: " +:+ e)
      | inr (inr body) =>
          let code := default "" (get_str body "code") in
          let msg := default "" (get_str body "message") in
          if String.eqb code "TRANSACTION_RECEIVED" then
            log ("Accepted (attempt " +:+ attempt_text attempt +:+ ")");; mret true
          else if not_ready msg && Nat.ltb attempt max_attempts then
            log ("Not ready (attempt " +:+ attempt_text attempt +:+ "), waiting 10s...");;
            modify (sleep (from_secs 10));;
            submit_loop left' payload
          else abort_task ("Rejected: " +:+ json_to_string body)
      end
  end.

(** Phase 4. *)
Definition await_inclusion (gw_tx_hash_hex : string) : prog W string unit :=
  send "phase" "verifying";;
  log "Waiting for tx inclusion...";;
  receipt ← or_abort (λ e, "Tx not confirmed: " +:+ rpc_error_text e)
    (wait_for_tx rpc fuel gw_tx_hash_hex 180 5);
  log ("Tx included in block " +:+ pretty (default 0 (receipt_block_number receipt))).

(** Phase 5: a failed settlement is only logged.  The result is
    [settle_tx_hash_hex]. *)
Definition settle (job : PlayJob) : prog W string string :=
  s ← reads cf_state;
  match bd_contract_address <$> bank s with
  | None => mret ""
  | Some bank_address =>
      send "phase" "settling";;
      log "Settling on-chain...";;
      r ← attempt (sncast_invoke bank_address "settle"
        (session_felt_of (job_session_id job) +:+ " " +:+ fmt_hex (job_seed_block job)));
      match r with
      | inl e => log ("Settlement failed (non-critical): " +:+ e);; mret ""
      | inr result =>
          match tx_hash result with
          | None => log "Settlement: no tx hash in output";; mret ""
          | Some tx =>
              log ("Settlement tx: " +:+ first_18 tx);; log "Settlement confirmed";; mret tx
          end
      end
  end.

Definition result_json (job : PlayJob) (outcome : string * bool) (gw_tx_hash_hex settle_tx : string)
    (proof_size : Z) : Value := JObject [
  ("outcome", JString outcome.1);
  ("bet", JString (bet_label (job_bet job)));
  ("won", JBool outcome.2);
  ("tx_hash", JString gw_tx_hash_hex);
  ("settle_tx_hash", JString settle_tx);
  ("proof_size", json_u64 proof_size);
  ("seed", JString (fmt_hex (job_seed_block job)));
  ("player", JString (job_player job))].

(** [&player[..player.len().min(18)]] panics inside a character. *)
Definition first_log (job : PlayJob) : prog W string unit :=
  match slice_to (Nat.min (String.length (job_player job)) 18) (job_player job) with
  | None => lift (Panic "byte index 18 is not a char boundary")
  | Some p => log ("CoinFlip: player=" +:+ p +:+ " bet=" +:+ pretty (job_bet job)
                +:+ " (" +:+ bet_label (job_bet job) +:+ ")")
  end.

Definition play_task (job : PlayJob) : prog W string unit :=
  first_log job;;
  send "phase" "constructing";;
  felts ← parse_felts job;
  let tx_path := path_join play_dir (job_session_id job +:+ "_tx.json") in
  let proof_path := path_join play_dir (job_session_id job +:+ ".proof") in
  nonce ← construct_tx job felts tx_path;
  proof_size ← run_prover job tx_path proof_path;
  outcome ← read_settlement proof_path;
  send "phase" "submitting";;
  submission ← build_submission felts nonce proof_path;
  let gw_tx_hash_hex := felt_hex (submission : Felt * Value).1 in
  log ("Submitting tx " +:+ first_18 gw_tx_hash_hex +:+ "...");;
  accepted ← submit_loop max_attempts submission.2;
  (if (accepted : bool) then mret tt else abort_task "Not accepted after all retries");;
  await_inclusion gw_tx_hash_hex;;
  settle_tx_hash_hex ← settle job;
  send "result" (json_to_string
    (result_json job outcome gw_tx_hash_hex settle_tx_hash_hex proof_size)).

(** [play_coinflip]: the reply to the request does not depend on the task. *)
Definition play_coinflip (session_id : string) (params : PlayQuery) : prog W Response unit :=
  job ← play_start session_id params;
  spawn (play_task job).
End handlers.

(** ** Facts *)

(** *** Doubles *)

(** A negative product, rounded, is negative. *)
Lemma as_u128_negative m e m' e' l : as_u128 (binary_round_aux 53 1024 true m' e' l) = 0
  ∧ bet_to_wei (S754_finite true m e) = 0.
Proof.
  assert (Hr : ∀ m e l, as_u128 (binary_round_aux 53 1024 true m e l) = 0).
  { clear. intros m e l. unfold binary_round_aux.
    destruct (shr_fexp _ _ m e l) as [mrs e1]. destruct (shr_fexp _ _ _ e1 _) as [mrs' e2].
    destruct (shr_m mrs'); try done. by destruct (_ <=? _). }
  split; [apply Hr|]. unfold bet_to_wei, f64_mul, SFmul, f64_1e18. apply Hr.
Qed.

(** Up to this whole number of STRK every product with 1e18 is exact, because
    [n * 5 ^ 18] fits the 53 bits of a double; above it only some are. *)
Definition exact_strk : Z := 2361.

Definition exact_at (n : nat) : bool := bet_to_wei (f64_of_Z (Z.of_nat n)) =? Z.of_nat n * 10 ^ 18.

Lemma exact_up_to : forallb exact_at (seq 0 2362) = true.
Proof. vm_compute. reflexivity. Qed.

(** C38: The conversion of a bet from STRK to wei through a double always fits
    u128, is exact for whole amounts up to 2361 STRK, and maps negative
    amounts and NaN to 0 and infinity to the largest u128. *)
Theorem bet_to_wei_spec amount :
  in_u u128_max (bet_to_wei amount) ∧
  (∀ n, 0 ≤ n ≤ exact_strk → bet_to_wei (f64_of_Z n) = n * 10 ^ 18) ∧
  (∀ m e, bet_to_wei (S754_finite true m e) = 0) ∧ bet_to_wei S754_nan = 0 ∧
  bet_to_wei (S754_infinity false) = u128_max.
Proof.
  split_and!; [apply as_u128_range| | |reflexivity..].
  - intros n Hn. pose proof exact_up_to as Hall. rewrite forallb_forall in Hall.
    specialize (Hall (Z.to_nat n)). unfold exact_at in Hall.
    rewrite Z2Nat.id, Z.eqb_eq in Hall by lia. apply Hall, in_seq. unfold exact_strk in Hn. lia.
  - intros m e. apply (as_u128_negative m e 0 0 loc_Exact).
Qed.

(** *** The reveal *)

Section reveal_facts.
Context {W : Type} `{FeltLaws} `{!Crypto} `{!Server W} `{CoinFlipApp W} `{!CoinFlipAppLaws W}.

Definition pedersen_collision (p p' : Felt * Felt) : Prop :=
  p ≠ p' ∧ pedersen_hash p.1 p.2 = pedersen_hash p'.1 p'.2.

(** What [verify_reveal] checks. *)
Definition opens (c : BetCommitment) (params : PlayQuery) (nonce : Felt) : Prop :=
  pq_player params = player c ∧ felt_from_hex (pq_nonce params) = Ok nonce ∧
  commitment c = felt_hex (pedersen_hash (felt_of (Z.min (pq_bet params) 1)) nonce).

Lemma verify_reveal_Ok (c : BetCommitment) params bet :
  verify_reveal c params = Ok bet ↔
  bet = Z.min (pq_bet params) 1 ∧ ∃ nonce, opens c params nonce.
Proof.
  unfold verify_reveal, opens. cbv zeta.
  destruct (String.eqb_spec (pq_player params) (player c)) as [Hp|Hp]; cbn [negb];
    [|split; [done|]; intros (_ & ? & ? & _); done].
  rewrite res_bind_Ok. split.
  - intros (nonce & Hn%map_err_Ok & Hok).
    destruct (String.eqb_spec (felt_hex (pedersen_hash (felt_of (Z.min (pq_bet params) 1)) nonce))
      (commitment c)) as [Hc|]; [|done]. injection Hok as <-.
    split; [done|]. exists nonce. rewrite Hc. split_and!; done.
  - intros (-> & nonce & _ & Hn & Hc). exists nonce. split; [by apply map_err_Ok|].
    by rewrite Hc, String.eqb_refl.
Qed.

Lemma find_commitment_eq session_id err (w : W) :
  find_commitment session_id err w =
  (ok_or (commitments (cf_state w) !! session_id) (error_response BAD_REQUEST err), w).
Proof. reflexivity. Qed.

(** The world after a reveal that found its commitment. *)
Definition taken (session_id : string) (w : W) : W :=
  set_cf_state (apply_access (Take session_id) (cf_state w)) w.

Lemma remove_commitment_eq session_id (w : W) :
  remove_commitment session_id w =
  match commitments (cf_state w) !! session_id with
  | Some c => (Ok c, taken session_id w)
  | None => (Err (error_response BAD_REQUEST
      "No commitment found for this session. Call POST /api/coinflip/commit first."), w)
  end.
Proof.
  unfold remove_commitment, mbind, prog_bind. rewrite find_commitment_eq.
  by destruct (commitments (cf_state w) !! session_id).
Qed.

Lemma taken_gone session_id (w : W) : commitments (cf_state (taken session_id w)) !! session_id = None.
Proof. unfold taken. rewrite cf_get_set. apply lookup_delete_eq. Qed.

(** The request, case by case. *)
Lemma play_start_eq session_id params (w : W) :
  play_start session_id params w =
  match coinflip (cf_state w) with
  | None => (Err (error_response BAD_REQUEST
      "CoinFlip contract not deployed. Call POST /api/coinflip/deploy first."), w)
  | Some d =>
      match commitments (cf_state w) !! session_id with
      | None => (Err (error_response BAD_REQUEST
          "No commitment found for this session. Call POST /api/coinflip/commit first."), w)
      | Some c =>
          (bet ← verify_reveal c params;
           Ok {| job_session_id := session_id; job_contract_address := cd_contract_address d;
                 job_bet := bet; job_player := pq_player params; job_seed_block := seed_block c |},
           taken session_id w)
      end
  end.
Proof.
  unfold play_start, mbind, prog_bind, reads, lift.
  destruct (coinflip (cf_state w)) as [d|]; [|done]. cbn [ok_or].
  rewrite remove_commitment_eq. destruct (commitments (cf_state w) !! session_id) as [c|]; [|done].
  by destruct (verify_reveal c params).
Qed.

Lemma play_start_Ok session_id params (w w' : W) job :
  play_start session_id params w = (Ok job, w') ↔
  ∃ d c bet, coinflip (cf_state w) = Some d ∧ commitments (cf_state w) !! session_id = Some c ∧
    verify_reveal c params = Ok bet ∧
    job = {| job_session_id := session_id; job_contract_address := cd_contract_address d;
             job_bet := bet; job_player := pq_player params;
             job_seed_block := seed_block c |} ∧
    w' = taken session_id w.
Proof.
  rewrite play_start_eq. split.
  - destruct (coinflip (cf_state w)) as [d|]; [|done].
    destruct (commitments (cf_state w) !! session_id) as [c|]; [|done].
    intros [= Hb <-]. apply res_bind_Ok in Hb as (bet & Hv & [= <-]).
    exists d, c, bet. split_and!; done.
  - intros (d & c & bet & -> & -> & -> & -> & ->). done.
Qed.

(** C23: A play request is accepted exactly when the contract is deployed, the
    session has a commitment and the parameters open it (same player, a
    nonce that parses, the Pedersen hash of the bet clamped to 1 and the
    nonce); the task then gets that bet and the commitment's player and
    seed, and the commitment is gone. *)
Theorem play_start_spec session_id params (w w' : W) job :
  play_start session_id params w = (Ok job, w') ↔
  ∃ d c nonce, coinflip (cf_state w) = Some d ∧
    commitments (cf_state w) !! session_id = Some c ∧ opens c params nonce ∧
    job = {| job_session_id := session_id; job_contract_address := cd_contract_address d;
             job_bet := Z.min (pq_bet params) 1; job_player := player c;
             job_seed_block := seed_block c |} ∧
    w' = taken session_id w.
Proof.
  rewrite play_start_Ok. setoid_rewrite verify_reveal_Ok. split.
  - intros (d & c & bet & ? & ? & (-> & nonce & Ho) & -> & ->). exists d, c, nonce.
    rewrite <-(proj1 Ho). split_and!; done.
  - intros (d & c & nonce & ? & ? & Ho & -> & ->). exists d, c, (Z.min (pq_bet params) 1).
    rewrite <-(proj1 Ho). split_and!; eauto.
Qed.

(** C40: A commitment can be tried once: after any play request for a session on
    a deployed game, accepted or refused, the session has no commitment and
    a further request is refused without changing anything. *)
Theorem play_start_once session_id params params' (w : W) :
  coinflip (cf_state w) ≠ None →
  let w1 := (play_start session_id params w).2 in
  commitments (cf_state w1) !! session_id = None ∧
  play_start session_id params' w1 = (Err (error_response BAD_REQUEST
    "No commitment found for this session. Call POST /api/coinflip/commit first."), w1).
Proof.
  intros Hd. cbv zeta. destruct (coinflip (cf_state w)) as [d|] eqn:Hcf; [|done].
  assert (commitments (cf_state (play_start session_id params w).2) !! session_id = None
    ∧ coinflip (cf_state (play_start session_id params w).2) = Some d) as [Hgone Hcf'].
  { rewrite play_start_eq, Hcf.
    destruct (commitments (cf_state w) !! session_id) eqn:Hc; cbn [snd]; [|done].
    split; [apply taken_gone|]. unfold taken. by rewrite cf_get_set. }
  split; [done|]. by rewrite play_start_eq, Hcf', Hgone.
Qed.

(** C21: The commit-reveal game is binding: two accepted reveals of commitments
    with the same hash reveal the same bet and the same nonce, each by the
    player who made the commitment, or two different inputs of the Pedersen
    hash collide. *)
Theorem play_start_binding id params (w1 w1' : W) id' params' (w2 w2' : W) job job' c c' :
  0 ≤ pq_bet params → 0 ≤ pq_bet params' →
  commitments (cf_state w1) !! id = Some c → commitments (cf_state w2) !! id' = Some c' →
  commitment c = commitment c' →
  play_start id params w1 = (Ok job, w1') → play_start id' params' w2 = (Ok job', w2') →
  job_player job = player c ∧ job_player job' = player c' ∧
  ((job_bet job = job_bet job' ∧ felt_from_hex (pq_nonce params) = felt_from_hex (pq_nonce params'))
   ∨ ∃ p p', pedersen_collision p p').
Proof.
  intros Hb Hb' Hc Hc' Heq (d & c1 & b & _ & Hc1 & Hv & Hj & _)%play_start_Ok
    (d' & c2 & b' & _ & Hc2 & Hv' & Hj' & _)%play_start_Ok.
  rewrite Hc in Hc1. rewrite Hc' in Hc2. injection Hc1 as <-. injection Hc2 as <-.
  apply verify_reveal_Ok in Hv as (Hbet & n & Hp & Hn & Hcm).
  apply verify_reveal_Ok in Hv' as (Hbet' & n' & Hp' & Hn' & Hcm').
  rewrite Hj, Hj', Hn, Hn'. cbn [job_player job_bet]. split; [done|]. split; [done|].
  rewrite <-Hbet in Hcm. rewrite <-Hbet' in Hcm'.
  destruct (decide ((felt_of b, n) = (felt_of b', n'))) as [Hbn|Hbn].
  - left. injection Hbn as Hf ->. split; [|done].
    apply felt_of_inj in Hf; unfold stark_prime; lia.
  - right. exists (felt_of b, n), (felt_of b', n'). split; [done|].
    apply felt_hex_inj. cbn [fst snd]. by rewrite <-Hcm, <-Hcm'.
Qed.
End reveal_facts.

(** *** What the handlers keep

    A property of worlds that every host call keeps is kept by the parts of
    the handlers; by a handler that accesses the shared state it is kept when
    it is kept by the accesses which that handler makes. *)

Section keeps.
Context {W : Type} `{Http W} `{Clock W} `{SerdeJson} `{FeltOps} `{!Crypto} `{Env W}.
Context `{Process W} `{Files W} `{Random W} `{Gateway W} `{Events W} `{!Server W}.
Context `{RegexCaptures} `{JsonText} `{CoinFlipApp W}.
Context (fuel : nat).

Record stable_world (P : W → Prop) : Prop := {
  stable_host_calls : stable_host P;
  stable_gateway u v w : P w → P (post_gateway u v w).2;
}.

Definition stable_access (P : W → Prop) (a : access) : Prop :=
  ∀ w, P w → P (set_cf_state (apply_access a (cf_state w)) w).

Context (P : W → Prop) (HP : stable_world P).
Let HH : stable_host P := stable_host_calls P HP.

Lemma access_state_keeps {E} a : stable_access P a → preserves (E:=E) P (access_state a).
Proof. intros Ha w Hw. apply Ha, Hw. Qed.

Ltac keeps := repeat first
  [ match goal with |- preserves _ (access_state _) => apply access_state_keeps; eauto end
  | keeps_step HH | apply (stable_gateway P HP); assumption | assumption
  | apply or_abort_keeps; [exact HH|] | apply send_keeps, HH | apply abort_task_keeps, HH ].

Lemma sncast_invoke_keeps a f c : preserves P (sncast_invoke fuel a f c).
Proof. unfold sncast_invoke. keeps. Qed.

Lemma declare_and_deploy_keeps n c b m1 m2 : preserves P (declare_and_deploy fuel n c b m1 m2).
Proof. unfold declare_and_deploy, fail. keeps. Qed.

Lemma save_deployments_keeps {E} : preserves (E:=E) P save_deployments.
Proof. unfold save_deployments. keeps. Qed.

Lemma deploy_coinflip_keeps :
  (∀ d, stable_access P (StoreCoinflip d)) → preserves P (deploy_coinflip fuel).
Proof.
  intros Ha. unfold deploy_coinflip.
  keeps; eauto using declare_and_deploy_keeps, save_deployments_keeps.
Qed.

Lemma deploy_bank_keeps :
  (∀ d, stable_access P (StoreBank d)) → preserves P (deploy_bank fuel).
Proof.
  intros Ha. unfold deploy_bank. keeps; eauto using declare_and_deploy_keeps,
    save_deployments_keeps, sncast_invoke_keeps.
Qed.

Lemma commit_bet_keeps req :
  (∀ id, stable_access P (Commit id (cr_commitment req) (cr_player req))) →
  preserves P (commit_bet req).
Proof. intros Ha. unfold commit_bet. keeps. Qed.

Lemma deposit_info_keeps req :
  stable_access P (SetAmount (di_session_id req) (fmt_hex (bet_to_wei (di_bet_amount req)))) →
  preserves P (deposit_info req).
Proof.
  intros Ha. unfold deposit_info, deployed_bank, find_commitment.
  keeps.
Qed.

Lemma confirm_deposit_keeps req :
  (∀ seed, stable_access P (LockSeed (cq_session_id req) seed)) →
  preserves P (confirm_deposit fuel req).
Proof.
  intros Ha. unfold confirm_deposit, deployed_bank, find_commitment, confirmed_block.
  keeps; eauto using sncast_invoke_keeps.
Qed.

Lemma submit_loop_keeps left payload : preserves P (submit_loop left payload).
Proof. induction left; cbn [submit_loop]; unfold log; keeps. Qed.

Lemma settle_keeps job : preserves P (settle fuel job).
Proof. unfold settle, log. keeps; eauto using sncast_invoke_keeps. Qed.

Lemma parse_felts_keeps job : preserves P (parse_felts job).
Proof. unfold parse_felts. keeps. Qed.

Lemma construct_tx_keeps job felts path : preserves P (construct_tx job felts path).
Proof. unfold construct_tx, log. keeps. Qed.

Lemma run_prover_keeps job tx_path proof_path : preserves P (run_prover job tx_path proof_path).
Proof.
  unfold run_prover, log. keeps. apply preserves_for_each. intros. keeps.
Qed.

Lemma read_settlement_keeps proof_path : preserves P (read_settlement proof_path).
Proof. unfold read_settlement, log. keeps. Qed.

Lemma first_log_keeps job : preserves P (first_log job).
Proof. unfold first_log, log. keeps. Qed.

Lemma await_inclusion_keeps hash : preserves P (await_inclusion fuel hash).
Proof. unfold await_inclusion, log. keeps. Qed.

Lemma build_submission_stable felts nonce path : preserves P (build_submission felts nonce path).
Proof. unfold build_submission. keeps. Qed.

Lemma play_task_keeps job : preserves P (play_task fuel job).
Proof.
  unfold play_task, log. keeps; eauto using submit_loop_keeps, settle_keeps, parse_felts_keeps,
    construct_tx_keeps, run_prover_keeps, read_settlement_keeps, build_submission_stable,
    first_log_keeps, await_inclusion_keeps.
Qed.

Lemma play_coinflip_keeps session_id params :
  stable_access P (Take session_id) → preserves P (play_coinflip fuel session_id params).
Proof.
  intros Ha. unfold play_coinflip, play_start, remove_commitment, find_commitment. keeps.
  apply preserves_spawn, play_task_keeps.
Qed.

Lemma queries_keep {E} address :
  preserves (E:=E) P coinflip_status ∧ preserves (E:=E) P bank_status ∧
  preserves P (player_balance address) ∧ preserves P (player_winnings address).
Proof.
  unfold coinflip_status, bank_status, player_balance, player_winnings, deployed_bank.
  split_and!; keeps.
Qed.
End keeps.

(** *** Submission *)

Section submit_facts.
Context {W : Type} `{Http W} `{Clock W} `{SerdeJson} `{Gateway W} `{Events W} `{!Server W}.

Definition body_code (body : Value) : string := default "" (get_str body "code").
Definition body_message (body : Value) : string := default "" (get_str body "message").

(** [n] rounds of the loop that were answered "not ready". *)
Inductive not_ready_rounds (payload : Value) : nat → W → W → Prop :=
  | NoRound w : not_ready_rounds payload 0 w w
  | OneRound n w w1 body w2 :
      not_ready_rounds payload n w w1 →
      post_gateway submit_url payload w1 = (inr (inr body), w2) →
      body_code body ≠ "TRANSACTION_RECEIVED" → not_ready (body_message body) = true →
      not_ready_rounds payload (S n) w (sleep (from_secs 10) (emit "log"
        ("Not ready (attempt " +:+ attempt_text (S n) +:+ "), waiting 10s...") w2)).

(** An accepted submission: at most 19 rounds before it. *)
Definition accepted_after (payload : Value) (w w' : W) : Prop :=
  ∃ n w1 body w2, (n < max_attempts)%nat ∧ not_ready_rounds payload n w w1 ∧
    post_gateway submit_url payload w1 = (inr (inr body), w2) ∧
    body_code body = "TRANSACTION_RECEIVED" ∧
    w' = emit "log" ("Accepted (attempt " +:+ attempt_text (S n) +:+ ")") w2.

Lemma submit_loop_cases left payload w0 (w w' : W) r :
  (1 ≤ left ≤ max_attempts)%nat →
  not_ready_rounds payload (max_attempts - left) w0 w →
  submit_loop left payload w = (r, w') →
  (r = Ok true ∧ accepted_after payload w0 w') ∨
  (∃ msg w1, r = Err msg ∧ w' = emit "error" msg w1).
Proof.
  revert w. induction left as [|left IH]; intros w Hleft Hrounds; [lia|].
  cbn [submit_loop]. unfold call_host at 1. unfold mbind at 1, prog_bind at 1.
  destruct (post_gateway submit_url payload w) as [[e|[e|body]] w1] eqn:Hpost;
    rewrite ?abort_task_eq; [by intros [= <- <-]; right; eauto..|].
  cbv zeta. replace (S max_attempts - S left)%nat with (S (max_attempts - S left)) by lia.
  fold (body_code body) (body_message body).
  destruct (String.eqb_spec (body_code body) "TRANSACTION_RECEIVED") as [Hc|Hc].
  { intros [= <- <-]. left. split; [done|].
    exists (max_attempts - S left)%nat, w, body, w1. split_and!; try done. lia. }
  destruct (not_ready (body_message body)) eqn:Hm; cbn [andb];
    [|intros [= <- <-]; right; eauto].
  destruct (Nat.ltb_spec (S (max_attempts - S left)) max_attempts);
    [|intros [= <- <-]; right; eauto].
  intros Hrun. eapply IH; [lia| |exact Hrun].
  replace (max_attempts - left)%nat with (S (max_attempts - S left)) by lia.
  by eapply OneRound.
Qed.

(** The gateway loop ends with acceptance after at most 19 not-ready
    answers, each followed by a wait of ten seconds, or with an error that
    was reported to the client; running out of attempts without either is
    impossible. *)
Theorem submit_loop_spec payload (w w' : W) r :
  submit_loop max_attempts payload w = (r, w') →
  (r = Ok true ∧ accepted_after payload w w') ∨
  (∃ msg w1, r = Err msg ∧ w' = emit "error" msg w1).
Proof.
  intros Hrun. eapply submit_loop_cases; [| |exact Hrun]; [unfold max_attempts; lia|constructor].
Qed.
End submit_facts.

(** *** The task *)

Section task_facts.
Context {W : Type} `{Http W} `{Clock W} `{SerdeJson} `{FeltOps} `{!Crypto} `{Env W}.
Context `{Process W} `{Files W} `{Random W} `{Gateway W} `{Events W} `{!Server W}.
Context `{RegexCaptures} `{JsonText} `{CoinFlipApp W}.
Context (fuel : nat).

(** The worlds of one run, in their order. *)
Abbreviation then_follows := (follows stable_world).

(** What a task that went from [w] to [w'] has established. *)
Record settled (job : PlayJob) (params : SubmitParams) (nonce : Z) (w w' : W) : Prop := {
  settled_calldata : collect_res felt_from_hex (play_calldata job) = Ok (sp_calldata params);
  settled_sender : felt_from_hex (account_address config) = Ok (sp_sender_address params);
  settled_chain : config_chain_id_felt config = Ok (sp_chain_id params);
  settled_bounds : sp_resource_bounds params = default_bounds;
  settled_nonce : sp_nonce params = felt_of nonce;
  (** in this order: the nonce is the account's at the seed block; the gateway
      accepted the payload that is signed for the hash; the transaction was seen
      in a block; the result was sent *)
  settled_run : ∃ w1 w2 w3 w4 w5 w6 w7 sig receipt outcome settle_tx proof_size,
    then_follows w w1 ∧
    get_nonce_at_block rpc (account_address config)
      (JObject [("block_number", json_u64 (job_seed_block job))]) w1 = (Ok nonce, w2) ∧
    then_follows w2 w3 ∧
    sign (sp_private_key params) (submit_tx_hash params) = Ok sig ∧
    accepted_after (payload_json params sig) w3 w4 ∧
    then_follows w4 w5 ∧
    wait_for_tx rpc fuel (felt_hex (submit_tx_hash params)) 180 5 w5 = (Ok receipt, w6) ∧
    then_follows w6 w7 ∧
    w' = emit "result" (json_to_string (result_json job outcome
      (felt_hex (submit_tx_hash params)) settle_tx proof_size)) w7;
}.

Lemma parse_felts_Ok job felts (w w' : W) :
  parse_felts job w = (Ok felts, w') →
  collect_res felt_from_hex (play_calldata job) = Ok (pf_calldata felts) ∧
  felt_from_hex (account_address config) = Ok (pf_sender felts) ∧
  felt_from_hex (private_key config) = Ok (pf_key felts) ∧
  config_chain_id_felt config = Ok (pf_chain_id felts).
Proof.
  unfold parse_felts. intros Hrun. prog_inv.
  repeat match goal with H : or_abort _ _ _ = _ |- _ => apply or_abort_Ok, lift_Ok in H as [? ->] end.
  by split_and!.
Qed.

(** The query of the nonce is the first thing [construct_tx] does. *)
Lemma construct_tx_Ok job felts tx_path nonce (w w' : W) :
  construct_tx job felts tx_path w = (Ok nonce, w') →
  ∃ w1, get_nonce_at_block rpc (account_address config)
    (JObject [("block_number", json_u64 (job_seed_block job))]) w = (Ok nonce, w1) ∧
    then_follows w1 w'.
Proof.
  unfold construct_tx. intros Hrun.
  apply prog_bind_Ok in Hrun as (n & w1 & Hn & Hrun). apply or_abort_Ok in Hn.
  cbv zeta in Hrun. exists w1.
  assert (Hfollow : then_follows w1 w').
  { eapply follows_run; [|exact Hrun]. intros P HP. pose proof (stable_host_calls P HP) as HH.
    unfold log. repeat first [keeps_step HH | apply or_abort_keeps; [exact HH|] | apply send_keeps, HH]. }
  split; [|exact Hfollow]. prog_inv. exact Hn.
Qed.

Lemma await_inclusion_Ok hash (w w' : W) :
  await_inclusion fuel hash w = (Ok tt, w') →
  ∃ w1 w2 receipt, then_follows w w1 ∧ wait_for_tx rpc fuel hash 180 5 w1 = (Ok receipt, w2) ∧
    then_follows w2 w'.
Proof.
  unfold await_inclusion. intros Hrun.
  apply prog_bind_Ok in Hrun as (? & w1 & [= _ <-] & Hrun).
  apply prog_bind_Ok in Hrun as (? & w2 & [= _ <-] & Hrun).
  apply prog_bind_Ok in Hrun as (receipt & w3 & Hw & [= <-]).
  apply or_abort_Ok in Hw. do 3 eexists. split; [|split; [exact Hw|]].
  - intros P HP Hp. by do 2 apply (stable_emit P (stable_host_calls P HP)).
  - intros P HP Hp. by apply (stable_emit P (stable_host_calls P HP)).
Qed.

(** The part of the task that follows the submission. *)
Lemma accepted_Ok payload (w w' : W) accepted :
  submit_loop max_attempts payload w = (Ok accepted, w') → accepted_after payload w w'.
Proof.
  intros Hrun. eapply submit_loop_cases in Hrun as [[_ Hacc]|(? & ? & ? & _)];
    [exact Hacc|done|unfold max_attempts; lia|constructor].
Qed.

(** C24: A play task that ends without an error did, in this order: read the
    account's nonce at the seed block; get the gateway to accept, after at
    most 20 attempts, the payload signed for the transaction's hash; see
    that transaction in a block; and send the result. The calldata is the
    game's call with the committed seed, player and bet. *)
Theorem play_task_settles job (w w' : W) :
  play_task fuel job w = (Ok tt, w') → ∃ params nonce, settled job params nonce w w'.
Proof.
  unfold play_task. intros Hrun. cbv zeta in Hrun.
  apply prog_bind_Ok in Hrun as (? & w1 & F1%(follows_run stable_world) & Hrun);
    [|intros; by apply first_log_keeps].
  apply prog_bind_Ok in Hrun as (? & w2 & F2%(follows_run stable_world) & Hrun);
    [|intros P HP; apply send_keeps, HP].
  apply prog_bind_Ok in Hrun as (felts & w3 & Hf & Hrun).
  pose proof (follows_run stable_world _ _ _ _ (λ P HP, parse_felts_keeps P HP job) Hf) as F3.
  apply parse_felts_Ok in Hf as (Hcd & Hsender & _ & Hchain).
  apply prog_bind_Ok in Hrun as (nonce & w4 & (wn & Hnonce & F4)%construct_tx_Ok & Hrun).
  apply prog_bind_Ok in Hrun as (size & w5 & F5%(follows_run stable_world) & Hrun);
    [|intros; by apply run_prover_keeps].
  apply prog_bind_Ok in Hrun as (outcome & w6 & F6%(follows_run stable_world) & Hrun);
    [|intros; by apply read_settlement_keeps].
  apply prog_bind_Ok in Hrun as (? & w7 & F7%(follows_run stable_world) & Hrun);
    [|intros P HP; apply send_keeps, HP].
  apply prog_bind_Ok in Hrun as ([hash payload] & w8 & Hsub & Hrun). cbn [fst snd] in Hrun.
  pose proof (follows_run stable_world _ _ _ _
    (λ P HP, build_submission_stable P HP _ _ _) Hsub) as F8.
  apply build_submission_Ok in Hsub as
    (params & sig & -> & -> & Hsig & Ecd & Esender & Ekey & Echain & Enonce & Ebounds).
  apply prog_bind_Ok in Hrun as (? & w9 & F9%(follows_run stable_world) & Hrun);
    [|intros P HP; apply send_keeps, HP].
  apply prog_bind_Ok in Hrun as (accepted & w10 & Hacc%accepted_Ok & Hrun).
  apply prog_bind_Ok in Hrun as (? & w11 & F11%(follows_run stable_world) & Hrun);
    [|intros P HP; destruct accepted; [apply preserves_ret|apply abort_task_keeps, HP]].
  apply prog_bind_Ok in Hrun as ([] & w12 & (wa & wb & receipt & Fa & Hwait & Fb)%await_inclusion_Ok & Hrun).
  apply prog_bind_Ok in Hrun as (settle_tx & w13 & F13%(follows_run stable_world) & Hrun);
    [|intros; by apply settle_keeps].
  injection Hrun as <-. exists params, nonce. rewrite <-Ekey in Hsig.
  split; rewrite ?Ecd, ?Esender, ?Echain; try done.
  exists w3, wn, w9, w10, wa, wb, w13, sig, receipt, outcome, settle_tx, size.
  split; [by rewrite F1, F2|]. split; [exact Hnonce|]. split; [by rewrite F4, F5, F6, F7, F8|].
  split; [exact Hsig|]. split; [exact Hacc|]. split; [by rewrite F11|].
  split; [exact Hwait|]. split; [by rewrite Fb|done].
Qed.

(** *** Deposits *)

(** One run of sncast under its mutex: what it printed decides the hash, and
    the block is that of the hash's receipt when the wait for it succeeds. *)
Lemma sncast_invoke_Ok contract function calldata (w w' : W) r :
  sncast_invoke fuel contract function calldata w = (Ok r, w') →
  ∃ output w1 w2, command_output "sncast"
      (invoke_args (sncast_account (sncast_lock w)) contract function calldata) None (sncast_lock w)
      = (inr output, w1) ∧ w' = sncast_unlock w2 ∧
    tx_hash r = parse_hex "transaction_hash" (combined_output output) ∧
    match tx_hash r with
    | None => block_number r = None ∧ w2 = w1
    | Some tx => ∃ outcome, wait_for_tx rpc fuel tx 120 3 w1 = (outcome, w2) ∧
        block_number r = match outcome with
                         | Ok receipt => receipt_block_number receipt
                         | _ => None
                         end
    end.
Proof.
  unfold sncast_invoke, with_sncast_lock. intros Hrun.
  match type of Hrun with (let '(_, _) := ?m in _) = _ => destruct m as [r1 w2] eqn:Hm end.
  injection Hrun as -> <-.
  apply prog_bind_Ok in Hm as (account & w0 & [= <- <-] & Hm).
  apply prog_bind_Ok in Hm as (output & w1 & Hout & Hm).
  apply prog_bind_Ok in Hout as (o & w1' & [= Ho] & Hout).
  unfold call_host in Ho. destruct (command_output _ _ _ _) as [o' w1''] eqn:Hcmd.
  injection Ho as <- <-.
  destruct o' as [e|o']; [done|]. injection Hout as <- <-.
  exists o', w1'', w2. split; [reflexivity|]. split; [done|]. cbv zeta in Hm.
  destruct (parse_hex "transaction_hash" (combined_output o')) as [tx|]; [|by injection Hm as <- <-].
  apply prog_bind_Ok in Hm as (x & w3 & Hx & [= <- <-]). split; [done|].
  cbn [tx_hash block_number].
  apply attempt_Ok in Hx as [(receipt & -> & Hw)|(e & -> & Hw)]; eauto.
Qed.

(** C25: When confirm_deposit replies, the deposit was seen accepted, the bank
    and the session's commitment were there, sncast was run under its lock
    to match that session's deposit, the returned hash is the one it
    printed, and the only change to the state is that the session's seed is
    locked to the larger of the deployment block and the confirmed block;
    whatever the wait for the match transaction gave, the reply says
    matched, and without a receipt the confirmed block is just the current
    one. *)
Theorem confirm_deposit_locks req reply (w w' : W) :
  confirm_deposit fuel req w = (Ok reply, w') →
  matched reply = true ∧
  ∃ receipt w1 b c output w2 outcome w3 confirmed w4,
    wait_for_tx rpc fuel (cq_tx_hash req) 120 3 w = (Ok receipt, w1) ∧
    bank (cf_state w1) = Some b ∧ commitments (cf_state w1) !! cq_session_id req = Some c ∧
    command_output "sncast" (invoke_args (sncast_account (sncast_lock w1)) (bd_contract_address b)
      "match_deposit" (session_felt c)) None (sncast_lock w1) = (inr output, w2) ∧
    parse_hex "transaction_hash" (combined_output output) = Some (match_tx_hash reply) ∧
    wait_for_tx rpc fuel (match_tx_hash reply) 120 3 w2 = (outcome, w3) ∧
    confirmed_block match outcome with
                    | Ok receipt => receipt_block_number receipt
                    | _ => None
                    end (sncast_unlock w3) = (Ok confirmed, w4) ∧
    w' = set_cf_state (apply_access (LockSeed (cq_session_id req)
      (Z.max confirmed (default 0 (cd_deploy_block <$> coinflip (cf_state w4))))) (cf_state w4)) w4.
Proof.
  unfold confirm_deposit. intros Hrun.
  apply prog_bind_Ok in Hrun as (receipt & w1 & Hdeposit%mapping_err_Ok & Hrun).
  apply prog_bind_Ok in Hrun as (b & ? & Hb & Hrun).
  apply prog_bind_Ok in Hb as (? & ? & [= <- <-] & [Hb%ok_or_Ok ->]%lift_Ok).
  apply prog_bind_Ok in Hrun as (c & ? & Hc & Hrun).
  rewrite find_commitment_eq in Hc. injection Hc as Hc%ok_or_Ok <-.
  apply prog_bind_Ok in Hrun as (r & ? & Hinvoke%mapping_err_Ok & Hrun).
  apply prog_bind_Ok in Hrun as (tx & ? & [Htx%ok_or_Ok ->]%lift_Ok & Hrun).
  apply prog_bind_Ok in Hrun as (confirmed & w4 & Hblock & Hrun).
  apply prog_bind_Ok in Hrun as (s & ? & [= <- <-] & Hrun). cbv zeta in Hrun.
  apply prog_bind_Ok in Hrun as ([] & ? & [= <-] & [= <- <-]).
  cbn [matched match_tx_hash]. split; [done|].
  apply sncast_invoke_Ok in Hinvoke as (output & w2 & w3 & Hcmd & -> & Hhash & Hmatch).
  rewrite Htx in Hmatch, Hhash. destruct Hmatch as (outcome & Hwait & Hbn). rewrite Hbn in Hblock.
  exists receipt, w1, b, c, output, w2, outcome, w3, confirmed, w4. split_and!; done.
Qed.

Lemma save_deployments_eq {E} (w : W) :
  save_deployments (E:=E) w = (Ok tt, (write_file (deployments_path config)
    (persisted_text (cf_state w)) (create_dir_all (output_dir config) w).2).2).
Proof.
  unfold save_deployments, call_host, mbind, prog_bind, reads.
  destruct (create_dir_all _ w) as [made w1]. cbn [snd].
  by destruct (write_file _ _ w1).
Qed.

(** Deploying the game is idempotent: with a stored deployment the handler
    returns it and does nothing; otherwise a successful reply is what sncast
    deployed, it is stored in the shared state right after the deployment,
    and the state with it is written to the deployments file. *)
Theorem deploy_coinflip_spec (w : W) :
  (∀ d, coinflip (cf_state w) = Some d →
     deploy_coinflip fuel w = (Ok {| dr_contract_address := cd_contract_address d;
       dr_class_hash := cd_class_hash d; dr_deploy_block := cd_deploy_block d |}, w)) ∧
  (coinflip (cf_state w) = None → ∀ reply w', deploy_coinflip fuel w = (Ok reply, w') →
     ∃ d w1 w2, declare_and_deploy fuel "CoinFlip" [] true
         "No contract_address in deploy output: " "No transaction_hash in deploy output: " w
         = (Ok (cd_contract_address d, cd_class_hash d, cd_deploy_block d), w1) ∧
       reply = {| dr_contract_address := cd_contract_address d; dr_class_hash := cd_class_hash d;
                  dr_deploy_block := cd_deploy_block d |} ∧
       w2 = set_cf_state (apply_access (StoreCoinflip d) (cf_state w1)) w1 ∧
       w' = (write_file (deployments_path config) (persisted_text (cf_state w2))
         (create_dir_all (output_dir config) w2).2).2).
Proof.
  unfold deploy_coinflip. split.
  - intros d Hd. unfold mbind, prog_bind, reads. by rewrite Hd.
  - intros Hnone reply w' Hrun.
    apply prog_bind_Ok in Hrun as (s & ? & [= <- <-] & Hrun). rewrite Hnone in Hrun.
    apply prog_bind_Ok in Hrun as ([[address class_hash] block] & w1 & Hdeploy & Hrun).
    apply prog_bind_Ok in Hrun as ([] & w2 & [= <-] & Hrun).
    apply prog_bind_Ok in Hrun as ([] & w3 & Hsave & [= <- <-]).
    exists {| cd_contract_address := address; cd_class_hash := class_hash;
              cd_deploy_block := block |}, w1. eexists.
    split; [exact Hdeploy|]. split; [done|]. split; [reflexivity|].
    rewrite save_deployments_eq in Hsave. by injection Hsave.
Qed.
End task_facts.

(** ** Requests

    The router of [coinflip_routes], and what a request may do to the shared
    state: the accesses that the request itself makes, and, between them,
    whatever accesses the environment makes while the handler waits. *)

Section requests.
Context {W : Type} `{Http W} `{Clock W} `{SerdeJson} `{FeltOps} `{!Crypto} `{Env W}.
Context `{Process W} `{Files W} `{Random W} `{Gateway W} `{Events W} `{!Server W}.
Context `{RegexCaptures} `{JsonText} `{CoinFlipApp W}.
Context (fuel : nat).

Inductive request :=
  | GetStatus
  | PostDeploy
  | PostCommit (req : CommitRequest)
  | GetPlay (session_id : string) (params : PlayQuery)
  | GetBankStatus
  | PostBankDeploy
  | PostDepositInfo (req : DepositInfoRequest)
  | PostConfirmDeposit (req : ConfirmDepositRequest)
  | GetBalance (address : string)
  | GetWinnings (address : string).

(** [coinflip_routes]: the world after the request. *)
Definition serve (r : request) (w : W) : W :=
  match r with
  | GetStatus => (coinflip_status (E:=Response) w).2
  | PostDeploy => (deploy_coinflip fuel w).2
  | PostCommit req => (commit_bet req w).2
  | GetPlay session_id params => (play_coinflip fuel session_id params w).2
  | GetBankStatus => (bank_status (E:=Response) w).2
  | PostBankDeploy => (deploy_bank fuel w).2
  | PostDepositInfo req => (deposit_info req w).2
  | PostConfirmDeposit req => (confirm_deposit fuel req w).2
  | GetBalance address => (player_balance address w).2
  | GetWinnings address => (player_winnings address w).2
  end.

(** The accesses of a request. *)
Definition issued (r : request) (a : access) : Prop :=
  match r, a with
  | PostDeploy, StoreCoinflip _ | PostBankDeploy, StoreBank _ => True
  | PostCommit req, Commit _ com pl => com = cr_commitment req ∧ pl = cr_player req
  | GetPlay session_id _, Take id => id = session_id
  | PostDepositInfo req, SetAmount id amount =>
      id = di_session_id req ∧ amount = fmt_hex (bet_to_wei (di_bet_amount req))
  | PostConfirmDeposit req, LockSeed id _ => id = cq_session_id req
  | _, _ => False
  end.

(** The state of the application comes from [s] by accesses of [allowed]. *)
Definition reached_by (allowed : access → Prop) (s : CoinFlipState) (w : W) : Prop :=
  ∃ l, Forall allowed l ∧ cf_steps s l (cf_state w).

Lemma serve_keeps (P : W → Prop) (HP : stable_world P) r :
  (∀ a, issued r a → stable_access P a) → ∀ w, P w → P (serve r w).
Proof.
  intros Ha w. destruct r as [| |req|id params| | |req|req|address|address]; cbn [serve]; revert w.
  - intros w Hw. exact Hw.
  - apply deploy_coinflip_keeps; [exact HP|]. intros d. apply Ha. done.
  - apply commit_bet_keeps; [exact HP|]. intros id. apply Ha. done.
  - apply play_coinflip_keeps; [exact HP|]. apply Ha. done.
  - exact (proj1 (proj2 (queries_keep P HP ""))).
  - apply deploy_bank_keeps; [exact HP|]. intros d. apply Ha. done.
  - apply deposit_info_keeps. apply Ha. done.
  - apply confirm_deposit_keeps; [exact HP|]. intros seed. apply Ha. done.
  - exact (proj1 (proj2 (proj2 (queries_keep (E:=Response) P HP address)))).
  - exact (proj2 (proj2 (proj2 (queries_keep (E:=Response) P HP address)))).
Qed.

Lemma cf_steps_app s l s1 l' s2 : cf_steps s l s1 → cf_steps s1 l' s2 → cf_steps s (l ++ l')%list s2.
Proof.
  intros Hs1 Hs2. induction Hs2 as [s1|s1 l2 s2 a s3 Hs2 IH Hstep]; [by rewrite app_nil_r|].
  rewrite app_assoc. eapply CfSnoc; [by apply IH|exact Hstep].
Qed.

Lemma reached_by_refl allowed (w : W) : reached_by allowed (cf_state w) w.
Proof. exists []. split; constructor. Qed.

Lemma reached_by_extend (env allowed : access → Prop) s (w w' : W) :
  (∀ a, env a → allowed a) → reached_by env (cf_state w) w' →
  reached_by allowed s w → reached_by allowed s w'.
Proof.
  intros Hsub (l' & Hl' & Hs') (l & Hl & Hs). exists (l ++ l')%list. split.
  - apply Forall_app. split; [exact Hl|]. eapply Forall_impl; [exact Hl'|exact Hsub].
  - by eapply cf_steps_app.
Qed.

(** Host calls that make accesses of the environment only keep what is
    reached by more accesses. *)
Lemma stable_world_extend (env allowed : access → Prop) s :
  (∀ s, stable_world (reached_by env s)) → (∀ a, env a → allowed a) →
  stable_world (reached_by allowed s).
Proof.
  intros Hh Hsub. split; [split|]; intros;
    (eapply reached_by_extend; [exact Hsub| |eassumption]);
    (destruct (Hh (cf_state w)) as [[] ?]; eauto using reached_by_refl).
Qed.

Lemma issued_stable `{!CoinFlipAppLaws W} (env : access → Prop) r s a :
  issued r a → stable_access (reached_by (λ a, env a ∨ issued r a) s) a.
Proof.
  intros Ha w (l & Hl & Hs). exists (l ++ [a])%list. split.
  - apply Forall_app. rewrite Forall_singleton. auto.
  - rewrite cf_get_set. eapply CfSnoc; [exact Hs|constructor].
Qed.

(** One request from one state. *)
Lemma serve_refines `{!CoinFlipAppLaws W} (env : access → Prop) r (w : W) :
  (∀ s, stable_world (reached_by env s)) →
  reached_by (λ a, env a ∨ issued r a) (cf_state w) (serve r w).
Proof.
  intros Hh. apply serve_keeps.
  - apply (stable_world_extend env); [exact Hh|auto].
  - apply issued_stable.
  - apply reached_by_refl.
Qed.

(** The handlers refine the transition system of the shared state: if the
    calls of the host change the application's state only by accesses that
    the environment (the other requests) makes, then any sequence of
    requests of the router takes the state along one list of accesses per
    request, each of them either the environment's or one that this request
    issues (a commit stores its own hash and player, a deposit its own
    amount, a confirmation locks its own session, a play takes its own
    session, a deployment stores a deployment, a query issues none). *)
Theorem requests_refine `{!CoinFlipAppLaws W} (env : access → Prop) persisted (w : W) rs :
  (∀ s, stable_world (reached_by env s)) →
  cf_state w = initial_state persisted →
  ∃ ls, Forall2 (λ r l, Forall (λ a, env a ∨ issued r a) l) rs ls ∧
    cf_steps (initial_state persisted) (mjoin ls)
      (cf_state (fold_left (λ w r, serve r w) rs w)).
Proof.
  intros Hhost <-. revert w. induction rs as [|r rs IH]; intros w.
  - exists []. split; constructor.
  - destruct (serve_refines env r w Hhost) as (l & Hl & Hs).
    destruct (IH (serve r w)) as (ls & Hls & Hss).
    exists (l :: ls). split; [by constructor|]. rewrite mjoin_cons. by eapply cf_steps_app.
Qed.
End requests.
