(* ===== verification/Counter.v ===== *)
(** * The counter's route handlers ([apps/counter/src/routes.rs])

    Invoking, deploying and reading the bundled counter, submitting a stored
    proof, and [prove_block], the full cycle from an off-chain multicall to an
    included proof-carrying transaction.  The sessions live in snip36_server's
    [AppState] and are reached through an interface. *)

From S2P Require Import Prelude RustNum RustStr Json Felt Types Signing ProofCodec.
From S2P Require Import Config Rpc Host Submission.

Definition INCREMENT_SELECTOR : string :=
  "0x7a44dde9fea32737a5cf3f9683b3235138654aa2d189f6fe44af37a61dc60d".
Definition GET_COUNTER_SELECTOR : string :=
  "0x3370263ab53343580e77063a719a5865004caff7f367ec136a6cdd34b6786ca".

Definition playground_bounds : ResourceBounds := {|
  l1_gas := {| max_amount := 0x0; max_price_per_unit := SEPOLIA_GAS_PRICE_CEIL |};
  l2_gas := {| max_amount := 0x2000000; max_price_per_unit := 0x2cb417800 |};
  l1_data_gas := {| max_amount := 0x1b0; max_price_per_unit := SEPOLIA_GAS_PRICE_CEIL |} |}.

(** snip36_server's [AppState::get_session] and [update_session_with], and its
    [parse_hex], whose pattern is not part of the repository. *)
Class Sessions (W : Type) := {
  get_session : string → W → Session;
  update_session_with : string → (Session → Session) → W → W;
  server_parse_hex : string → string → option string;
}.

(** The update runs on the session of that id alone. *)
Class SessionsLaws (W : Type) `{Sessions W} := {
  get_update_session id f w : get_session id (update_session_with id f w) = f (get_session id w);
  get_update_session_ne id id' f w :
    id ≠ id' → get_session id' (update_session_with id f w) = get_session id' w;
}.

Record InvokeRequest := {
  iq_session_id : string; iq_amount : Z; iq_signature_r : string; iq_signature_s : string;
  iq_nonce : Z }.
Record InvokeReply := { ir_tx_hash : string; ir_block_number : option Z; ir_warning : option string }.
Record DeployCounterReply := {
  dc_class_hash : string; dc_contract_address : string; dc_tx_hash : string;
  dc_block_number : option Z }.
Record SubmitProofReply := {
  sr_tx_hash : option string; sr_local_tx_hash : option string; sr_output : string }.

(** [default_amount], [default_one_u64], [default_one_u32]. *)
Definition default_amount : Z := 1.

(** The closures given to [update_session_with]. *)
Definition set_last_invoke (tx : string) (s : Session) : Session := {|
  ses_account_address := ses_account_address s; ses_account_deployed := ses_account_deployed s;
  ses_contract_address := ses_contract_address s; ses_class_hash := ses_class_hash s;
  ses_last_invoke_tx := Some tx; ses_invoke_block := ses_invoke_block s;
  ses_prove_block := ses_prove_block s; ses_proof_file := ses_proof_file s;
  ses_deploy_block := ses_deploy_block s; ses_last_reference_block := ses_last_reference_block s |}.

Definition set_invoke_block (block : Z) (s : Session) : Session := {|
  ses_account_address := ses_account_address s; ses_account_deployed := ses_account_deployed s;
  ses_contract_address := ses_contract_address s; ses_class_hash := ses_class_hash s;
  ses_last_invoke_tx := ses_last_invoke_tx s; ses_invoke_block := Some block;
  ses_prove_block := ses_prove_block s; ses_proof_file := ses_proof_file s;
  ses_deploy_block := ses_deploy_block s; ses_last_reference_block := ses_last_reference_block s |}.

Definition set_deployment (address class_hash : string) (block : option Z) (s : Session) : Session := {|
  ses_account_address := ses_account_address s; ses_account_deployed := ses_account_deployed s;
  ses_contract_address := Some address; ses_class_hash := Some class_hash;
  ses_last_invoke_tx := ses_last_invoke_tx s; ses_invoke_block := ses_invoke_block s;
  ses_prove_block := ses_prove_block s; ses_proof_file := ses_proof_file s;
  ses_deploy_block := block; ses_last_reference_block := block |}.

Definition set_reference_block (block : Z) (s : Session) : Session := {|
  ses_account_address := ses_account_address s; ses_account_deployed := ses_account_deployed s;
  ses_contract_address := ses_contract_address s; ses_class_hash := ses_class_hash s;
  ses_last_invoke_tx := ses_last_invoke_tx s; ses_invoke_block := ses_invoke_block s;
  ses_prove_block := ses_prove_block s; ses_proof_file := ses_proof_file s;
  ses_deploy_block := ses_deploy_block s; ses_last_reference_block := Some block |}.

(** [a * b] on [u64]: a panic with overflow checks, the low bits without. *)
Definition mul_u64 (overflow_checks : bool) (a b : Z) : res string Z :=
  if in_u_dec u64_max (a * b) then Ok (a * b)
  else if overflow_checks then Panic "attempt to multiply with overflow"
  else Ok ((a * b) mod 2 ^ 64).

(** One call of a multicall, and the calldata of [n] of them. *)
Definition call_strs (contract_address : string) (amount : Z) : list string :=
  [contract_address; INCREMENT_SELECTOR; "0x1"; fmt_hex amount].

Fixpoint push_calls (n : nat) (contract_address : string) (amount : Z) (calldata : list string)
    : list string :=
  match n with
  | O => calldata
  | S n => push_calls n contract_address amount (calldata ++ call_strs contract_address amount)%list
  end.

Definition multicall_strs (contract_address : string) (increment_amount increments_per_block : Z)
    : list string :=
  push_calls (Z.to_nat increments_per_block) contract_address increment_amount
    [fmt_hex increments_per_block].

(** The first felt of a view call as a [u64]; anything else is 0. *)
Definition counter_of (result : list string) : Z :=
  match result with
  | s :: _ => default 0 (ok (parse_hex_quantity u64_max s))
  | [] => 0
  end.

(** What the spawned task of [prove_block] captures. *)
Record ProveJob := {
  pj_session_id : string;
  pj_contract_address : string;
  pj_reference_block : Z;
  pj_increment_amount : Z;
  pj_increments_per_block : Z;
}.

Section handlers.
Context {W : Type} `{Http W} `{Clock W} `{SerdeJson} `{FeltOps} `{!Crypto} `{Env W}.
Context `{Process W} `{Files W} `{Random W} `{Events W} `{!Server W}.
Context `{RegexCaptures} `{JsonText} `{Sessions W}.
Context (fuel : nat).

Definition session_field {A} (o : option A) (msg : string) : prog W Response A :=
  lift (ok_or o (error_response BAD_REQUEST msg)).

(** ** Invoke, read, deploy *)

Definition invoke_tx_json (req : InvokeRequest) (contract_address account_address : string) : Value :=
  JObject [
    ("type", JString "INVOKE");
    ("version", JString "0x3");
    ("sender_address", JString account_address);
    ("calldata", json_strings ["0x1"; contract_address; INCREMENT_SELECTOR; "0x1";
                               fmt_hex (iq_amount req)]);
    ("nonce", JString (fmt_hex (iq_nonce req)));
    ("resource_bounds", to_rpc_json playground_bounds);
    ("tip", JString "0x0");
    ("paymaster_data", JArray []);
    ("account_deployment_data", JArray []);
    ("nonce_data_availability_mode", JString "L1");
    ("fee_data_availability_mode", JString "L1");
    ("signature", json_strings [iq_signature_r req; iq_signature_s req])].

(** The two checks on the reply of [call_raw]. *)
Definition invoke_result (result : Value) : res Response string :=
  match get result "error" with
  | Some error => Err (error_response BAD_REQUEST (json_to_string error))
  | None => ok_or (get result "result" ≫= λ r, get_str r "transaction_hash")
      (error_response INTERNAL_SERVER_ERROR ("Unexpected RPC response: " +:+ json_to_string result))
  end.

Definition invoke_increment (req : InvokeRequest) : prog W Response InvokeReply :=
  session ← reads (get_session (iq_session_id req));
  contract_address ← session_field (ses_contract_address session) "No counter contract deployed";
  account_address ← session_field (ses_account_address session) "No account deployed";
  result ← mapping_err (λ e, error_response INTERNAL_SERVER_ERROR (rpc_error_text e))
    (call_raw rpc (request_json "starknet_addInvokeTransaction"
      (JObject [("invoke_transaction", invoke_tx_json req contract_address account_address)])));
  tx_hash ← lift (invoke_result result);
  modify (update_session_with (iq_session_id req) (set_last_invoke tx_hash));;
  r ← attempt (wait_for_tx rpc fuel tx_hash 120 2);
  match r with
  | inr receipt =>
      match receipt_block_number receipt with
      | Some block => modify (update_session_with (iq_session_id req) (set_invoke_block block))
      | None => mret tt
      end;;
      mret {| ir_tx_hash := tx_hash; ir_block_number := receipt_block_number receipt;
              ir_warning := None |}
  | inl _ => mret {| ir_tx_hash := tx_hash; ir_block_number := None;
                     ir_warning := Some "Tx submitted but not yet confirmed" |}
  end.

Definition read_counter (contract_address : string) : prog W Response Z :=
  result ← mapping_err (λ e, error_response INTERNAL_SERVER_ERROR (rpc_error_text e))
    (starknet_call rpc contract_address GET_COUNTER_SELECTOR []);
  mret (counter_of result).

(** The mutex is held to the end of the handler. [exit] is the text of the
    child's [ExitStatus]. *)
Definition deploy_counter (exit_text : Output → string) (session_id : string)
    : prog W Response DeployCounterReply :=
  with_sncast_lock (
    account ← reads sncast_account;
    declare_output ← try_host (command_output "sncast"
      ["--account"; account; "declare"; "--contract-name"; "Counter"; "--url"; rpc_url config]
      (Some (contracts_dir config))) (error_response INTERNAL_SERVER_ERROR);
    let declare_combined := combined_output declare_output in
    class_hash ← lift (ok_or (extract_long_hex declare_combined)
      (error_response INTERNAL_SERVER_ERROR ("Declare failed: " +:+ declare_combined)));
    salt_bytes ← call_host (random_bytes 16);
    account ← reads sncast_account;
    deploy_output ← try_host (command_output "sncast"
      ["--account"; account; "deploy"; "--class-hash"; class_hash;
       "--salt"; "0x" +:+ hex_encode salt_bytes; "--url"; rpc_url config] None)
      (error_response INTERNAL_SERVER_ERROR);
    let deploy_combined := combined_output deploy_output in
    (if negb (out_success deploy_output)
     then fail INTERNAL_SERVER_ERROR ("Counter deploy failed (exit " +:+ exit_text deploy_output
            +:+ "): " +:+ deploy_combined)
     else mret tt);;
    contract_address ← lift (ok_or (server_parse_hex "contract_address" deploy_combined)
      (error_response INTERNAL_SERVER_ERROR ("Deploy failed: " +:+ deploy_combined)));
    tx_hash ← lift (ok_or (server_parse_hex "transaction_hash" deploy_combined)
      (error_response INTERNAL_SERVER_ERROR
        ("Deploy succeeded but no transaction_hash in output: " +:+ deploy_combined)));
    receipt ← mapping_err (λ e, error_response GATEWAY_TIMEOUT (rpc_error_text e))
      (wait_for_tx rpc fuel tx_hash 120 2);
    let block_number := receipt_block_number receipt in
    match block_number with
    | Some block => attempt (wait_for_block_after rpc fuel block 120 2);; mret tt
    | None => mret tt
    end;;
    modify (update_session_with session_id (set_deployment contract_address class_hash block_number));;
    mret {| dc_class_hash := class_hash; dc_contract_address := contract_address;
            dc_tx_hash := tx_hash; dc_block_number := block_number |}).

(** ** Submitting a stored proof *)

Definition internal {A} (m : res string A) : prog W Response A :=
  lift (map_err (error_response INTERNAL_SERVER_ERROR) m).

(** The message of serde_json alone. *)
Definition json_error_text (e : ProofError) : string :=
  match e with InvalidJson m => m | _ => proof_error_text e end.

Definition submit_proof (session_id : string) : prog W Response SubmitProofReply :=
  session ← reads (get_session session_id);
  proof_file ← session_field (ses_proof_file session) "No proof file available";
  there ← reads (λ w, path_exists w proof_file);
  (if (there : bool) then mret tt else fail BAD_REQUEST "No proof file available");;
  contract_address ← session_field (ses_contract_address session) "No counter contract in session";
  proof_text ← try_host (read_to_string proof_file)
    (λ e, error_response INTERNAL_SERVER_ERROR ("Failed to read proof file: " +:+ e));
  facts_text ← try_host (read_to_string (with_extension proof_file "proof_facts"))
    (λ e, error_response INTERNAL_SERVER_ERROR ("Failed to read proof_facts file: " +:+ e));
  proof_facts_hex ← internal (map_err (λ e, "Invalid proof_facts JSON: " +:+ json_error_text e)
    (parse_proof_facts_json facts_text));
  proof_facts ← internal (collect_res felt_from_hex proof_facts_hex);
  contract_felt ← internal (felt_from_hex contract_address);
  selector_felt ← internal (felt_from_hex INCREMENT_SELECTOR);
  sender_address ← internal (felt_from_hex (account_address config));
  private_key ← internal (felt_from_hex (private_key config));
  chain_id ← internal (map_err config_error_text (config_chain_id_felt config));
  nonce ← mapping_err (λ e, error_response INTERNAL_SERVER_ERROR (rpc_error_text e))
    (get_nonce rpc (account_address config));
  signed ← internal (map_err sign_error_text (sign_and_build_payload {|
    sp_sender_address := sender_address;
    sp_private_key := private_key;
    sp_calldata := [felt_of 1; contract_felt; selector_felt; felt_of 1; felt_of 1];
    sp_proof_base64 := trim proof_text;
    sp_proof_facts := proof_facts;
    sp_nonce := felt_of nonce;
    sp_chain_id := chain_id;
    sp_resource_bounds := playground_bounds |}));
  let '(local_tx_hash, invoke_tx) := (signed : Felt * Value) in
  rpc_tx_hash ← mapping_err (λ e, error_response BAD_GATEWAY
      ("RPC submission failed: " +:+ rpc_error_text e))
    (add_invoke_transaction rpc invoke_tx);
  mret {| sr_tx_hash := Some rpc_tx_hash; sr_local_tx_hash := Some (felt_hex local_tx_hash);
          sr_output := "{" +:+ String "034" ("transaction_hash" +:+ String "034" (":" +:+ String "034"
            (rpc_tx_hash +:+ String "034" "}"))) |}.

(** ** The prove cycle *)

Definition prove_request (session_id : string) (increment_amount increments_per_block : Z)
    : prog W Response ProveJob :=
  session ← reads (get_session session_id);
  contract_address ← session_field (ses_contract_address session) "No counter contract deployed";
  reference_block ← session_field
    (match ses_last_reference_block session with
     | Some b => Some b
     | None => ses_deploy_block session
     end) "Deploy block not tracked";
  mret {| pj_session_id := session_id; pj_contract_address := contract_address;
          pj_reference_block := reference_block; pj_increment_amount := increment_amount;
          pj_increments_per_block := increments_per_block |}.

Definition job_calldata (job : ProveJob) : list string :=
  multicall_strs (pj_contract_address job) (pj_increment_amount job) (pj_increments_per_block job).

Definition prove_felts (job : ProveJob) : prog W string task_felts :=
  calldata ← or_abort (λ e, "Failed to parse calldata: " +:+ e)
    (lift (collect_res felt_from_hex (job_calldata job)));
  sender ← or_abort (λ e, "Invalid account address: " +:+ e)
    (lift (felt_from_hex (account_address config)));
  key ← or_abort (λ e, "Invalid private key: " +:+ e) (lift (felt_from_hex (private_key config)));
  chain_id ← or_abort (λ e, "Invalid chain_id: " +:+ config_error_text e)
    (lift (config_chain_id_felt config));
  mret {| pf_calldata := calldata; pf_sender := sender; pf_key := key; pf_chain_id := chain_id |}.

(** Unlike the coin flip's, this transaction carries the default bounds. *)
Definition prove_tx_json (calldata : list string) (nonce : Z) (sig : Signature) : Value := JObject [
  ("type", JString "INVOKE");
  ("version", JString "0x3");
  ("sender_address", JString (account_address config));
  ("calldata", json_strings calldata);
  ("nonce", JString (fmt_hex nonce));
  ("resource_bounds", to_rpc_json default_bounds);
  ("tip", JString "0x0");
  ("paymaster_data", JArray []);
  ("account_deployment_data", JArray []);
  ("nonce_data_availability_mode", JString "L1");
  ("fee_data_availability_mode", JString "L1");
  ("signature", json_strings [felt_hex (sig_r sig); felt_hex (sig_s sig)])].

Definition playground_dir : string := path_join (output_dir config) "playground".

Definition prove_construct (job : ProveJob) (felts : task_felts) (tx_path : string)
    : prog W string Z :=
  nonce ← or_abort (λ e, "Failed to get nonce at block " +:+ pretty (pj_reference_block job)
      +:+ ": " +:+ rpc_error_text e)
    (get_nonce_at_block rpc (account_address config)
      (JObject [("block_number", json_u64 (pj_reference_block job))]));
  let standard_tx_hash := compute_invoke_v3_tx_hash (pf_sender felts) (pf_calldata felts)
    (pf_chain_id felts) (felt_of nonce) (felt_of 0) default_bounds [] [] 0 0 [] in
  sig ← or_abort (λ e, "Signing failed: " +:+ sign_error_text e)
    (lift (sign (pf_key felts) standard_tx_hash));
  or_abort (λ e, "Failed to create output dir: " +:+ e)
    (try_host (create_dir_all playground_dir) id);;
  or_abort (λ e, "Failed to write tx JSON: " +:+ e)
    (try_host (write_file tx_path (to_string_pretty
      (prove_tx_json (job_calldata job) nonce sig))) id);;
  log ("Transaction constructed (nonce: " +:+ pretty nonce +:+ ", ref block: "
    +:+ pretty (pj_reference_block job) +:+ ")");;
  mret nonce.

Definition prover_args (job : ProveJob) (tx_path proof_path : string) : list string :=
  ["prove"; "virtual-os"; "--block-number"; pretty (pj_reference_block job); "--tx-json"; tx_path;
   "--rpc-url"; rpc_url config; "--output"; proof_path; "--strk-fee-token"; STRK_TOKEN].

(** Both readers are joined before [wait]; empty lines are not forwarded. *)
Definition prove_run (job : ProveJob) (tx_path proof_path : string) : prog W string Z :=
  send "phase" "proving";;
  log ("Proving against block " +:+ pretty (pj_reference_block job) +:+ "...");;
  snip36_bin ← reads find_snip36_bin;
  child ← call_host (command_stream snip36_bin (prover_args job tx_path proof_path));
  match child with
  | inl e => abort_task ("Failed to spawn prover (" +:+ snip36_bin +:+ "): " +:+ e)
  | inr (lines, status) =>
      for_each log (filter (λ line, line ≠ "") lines);;
      there ← reads (λ w, path_exists w proof_path);
      if (match status with inr ok => ok | inl _ => false end) && there then
        r ← call_host (file_len proof_path);
        let proof_size := match r with inr n => n | inl _ => 0 end in
        log ("Proof generated (" +:+ pretty proof_size +:+ " bytes)");;
        mret proof_size
      else abort_task "Proof generation failed"
  end.

Definition note_messages (proof_path : string) : prog W string unit :=
  let messages_file := with_extension proof_path "raw_messages.json" in
  there ← reads (λ w, path_exists w messages_file);
  if (there : bool) then log ("L2->L1 messages saved: " +:+ messages_file) else mret tt.

Definition rpc_attempts : nat := 20.

Definition round_text (n : nat) : string := pretty n +:+ "/" +:+ pretty rpc_attempts.

(** Only a JSON-RPC error is retried; [left] attempts remain. *)
Fixpoint rpc_submit_loop (left : nat) (invoke_tx : Value) : prog W string (option string) :=
  match left with
  | O => mret None
  | S left' =>
      let attempt_number := (S rpc_attempts - left)%nat in
      r ← attempt (add_invoke_transaction rpc invoke_tx);
      match r with
      | inr accepted_tx_hash =>
          log ("RPC accepted (attempt " +:+ round_text attempt_number +:+ "): " +:+ accepted_tx_hash);;
          mret (Some accepted_tx_hash)
      | inl e =>
          match e, Nat.ltb attempt_number rpc_attempts with
          | JsonRpc msg, true =>
              log ("RPC error (attempt " +:+ round_text attempt_number +:+ "), waiting 10s... (" +:+ msg
                +:+ ")");;
              modify (sleep (from_secs 10));;
              rpc_submit_loop left' invoke_tx
          | _, _ => abort_task ("RPC submission failed: " +:+ rpc_error_text e)
          end
      end
  end.

(** The reference block of the next proof is the block of this one, or 0 when
    the receipt's block number cannot be read. *)
Definition prove_inclusion (job : ProveJob) (rpc_tx_hash : string) : prog W string unit :=
  send "phase" "verifying";;
  log "Waiting for tx inclusion...";;
  receipt ← or_abort (λ e, "Tx not confirmed: " +:+ rpc_error_text e)
    (wait_for_tx rpc fuel rpc_tx_hash 180 5);
  let bn := default 0 (receipt_block_number receipt) in
  log ("Tx included in block " +:+ pretty bn);;
  modify (update_session_with (pj_session_id job) (set_reference_block bn)).

Definition complete_json (rpc_tx_hash : string) (counter_value proof_size expected : Z) : Value :=
  JObject [("tx_hash", JString rpc_tx_hash); ("counter_value", json_u64 counter_value);
    ("proof_size", json_u64 proof_size); ("increment", json_u64 expected)].

Definition prove_task (overflow_checks : bool) (job : ProveJob) : prog W string unit :=
  expected ← lift (mul_u64 overflow_checks (pj_increment_amount job) (pj_increments_per_block job));
  log ("Starting SNIP-36 cycle: " +:+ pretty (pj_increments_per_block job) +:+ " calls x increment("
    +:+ pretty (pj_increment_amount job) +:+ ") = +" +:+ pretty (expected : Z) +:+ " per block");;
  send "phase" "constructing";;
  felts ← prove_felts job;
  let tx_path := path_join playground_dir (pj_session_id job +:+ "_tx.json") in
  let proof_path := path_join playground_dir (pj_session_id job +:+ ".proof") in
  nonce ← prove_construct job felts tx_path;
  proof_size ← prove_run job tx_path proof_path;
  note_messages proof_path;;
  send "phase" "submitting";;
  submission ← build_submission felts nonce proof_path;
  log ("Submitting tx " +:+ first_18 (felt_hex (submission : Felt * Value).1) +:+ " via RPC...");;
  accepted ← rpc_submit_loop rpc_attempts submission.2;
  rpc_tx_hash ← match accepted with
                | Some h => mret h
                | None => abort_task "RPC did not accept after all retries"
                end;
  prove_inclusion job rpc_tx_hash;;
  r ← attempt (starknet_call rpc (pj_contract_address job) GET_COUNTER_SELECTOR []);
  let counter_value := match r with inr result => counter_of result | inl _ => 0 end in
  log ("Counter value: " +:+ pretty counter_value);;
  send "complete" (json_to_string (complete_json rpc_tx_hash counter_value proof_size expected)).

Definition prove_block (overflow_checks : bool) (session_id : string)
    (increment_amount increments_per_block : Z) : prog W Response unit :=
  job ← prove_request session_id increment_amount increments_per_block;
  spawn (prove_task overflow_checks job).
End handlers.

(** ** Facts *)

(** *** The multicall *)

(** How an account contract reads the calldata of [__execute__]: the number
    of calls, then for each its target, its selector, and the length of its
    own calldata followed by that many felts. *)
Section multicall.
Context `{FeltOps}.

Fixpoint decode_calls (n : nat) (l : list Felt) : option (list (Felt * Felt * list Felt)) :=
  match n with
  | O => match l with [] => Some [] | _ => None end
  | S n =>
      match l with
      | to :: selector :: len :: rest =>
          let k := Z.to_nat (felt_val len) in
          if Nat.ltb (length rest) k then None
          else calls ← decode_calls n (drop k rest); Some ((to, selector, take k rest) :: calls)
      | _ => None
      end
  end.

Definition decode_execute (l : list Felt) : option (list (Felt * Felt * list Felt)) :=
  match l with n :: l => decode_calls (Z.to_nat (felt_val n)) l | [] => None end.

(** The sum of the arguments of the calls. *)
Definition total_increment (calls : list (Felt * Felt * list Felt)) : Z :=
  foldr (λ c acc, foldr (λ x s, felt_val x + s) 0 c.2 + acc) 0 calls.
End multicall.

Section multicall_facts.
Context `{FeltLaws}.

Definition increment_selector : Felt :=
  felt_of 0x7a44dde9fea32737a5cf3f9683b3235138654aa2d189f6fe44af37a61dc60d.

Lemma felt_from_hex_fmt n : 0 ≤ n < stark_prime → felt_from_hex (fmt_hex n) = Ok (felt_of n).
Proof. intros Hn. unfold felt_from_hex. by rewrite felt_parse_small. Qed.

Lemma felt_from_hex_selector : felt_from_hex INCREMENT_SELECTOR = Ok increment_selector.
Proof.
  assert (INCREMENT_SELECTOR =
    fmt_hex 0x7a44dde9fea32737a5cf3f9683b3235138654aa2d189f6fe44af37a61dc60d) as ->
    by (vm_compute; reflexivity).
  by apply felt_from_hex_fmt.
Qed.

Lemma push_calls_eq n address amount calldata :
  push_calls n address amount calldata =
  (calldata ++ mjoin (replicate n (call_strs address amount)))%list.
Proof.
  revert calldata. induction n as [|n IH]; intros calldata; [by rewrite app_nil_r|].
  cbn [push_calls replicate]. by rewrite IH, mjoin_cons, app_assoc.
Qed.

Definition call_felts (a : Felt) (amount : Z) : list Felt :=
  [a; increment_selector; felt_of 1; felt_of amount].

Lemma parse_call address a amount :
  felt_from_hex address = Ok a → in_u u64_max amount →
  Forall2 (λ x y, felt_from_hex x = Ok y) (call_strs address amount) (call_felts a amount).
Proof.
  intros Ha [? ?]. assert (u64_max < stark_prime) by done.
  repeat constructor; [done|apply felt_from_hex_selector|by apply (felt_from_hex_fmt 1)|].
  apply felt_from_hex_fmt. lia.
Qed.

Lemma parse_calls n address a amount :
  felt_from_hex address = Ok a → in_u u64_max amount →
  Forall2 (λ x y, felt_from_hex x = Ok y) (mjoin (replicate n (call_strs address amount)))
    (mjoin (replicate n (call_felts a amount))).
Proof.
  intros Ha Hamount. induction n as [|n IH]; [constructor|].
  cbn [replicate]. rewrite !mjoin_cons. apply Forall2_app; [by apply parse_call|exact IH].
Qed.

Lemma decode_calls_replicate n a amount :
  decode_calls n (mjoin (replicate n (call_felts a amount))) =
  Some (replicate n (a, increment_selector, [felt_of amount])).
Proof.
  induction n as [|n IH]; [done|]. cbn [replicate]. rewrite mjoin_cons.
  unfold call_felts at 1. cbn [app decode_calls]. rewrite (felt_of_small 1) by done.
  change (Z.to_nat 1) with 1%nat. cbv zeta. cbn [length drop take Nat.ltb Nat.leb].
  unfold mbind, option_bind. rewrite drop_0, take_0. by rewrite IH.
Qed.

Lemma total_increment_replicate n a s amount :
  in_u u64_max amount →
  total_increment (replicate n (a, s, [felt_of amount])) = Z.of_nat n * amount.
Proof.
  intros [? ?]. assert (u64_max < stark_prime) by done.
  induction n as [|n IH]; [done|]. cbn [replicate total_increment foldr snd] in *.
  unfold total_increment in IH. rewrite IH, felt_of_small by lia. lia.
Qed.

Lemma multicall_read address a amount n :
  felt_from_hex address = Ok a → in_u u64_max amount → in_u u32_max n →
  ∃ calldata, collect_res felt_from_hex (multicall_strs address amount n) = Ok calldata ∧
    decode_execute calldata = Some (replicate (Z.to_nat n) (a, increment_selector, [felt_of amount])).
Proof.
  intros Ha Hamount [Hn0 Hn]. assert (u32_max < stark_prime) by done.
  exists (felt_of n :: mjoin (replicate (Z.to_nat n) (call_felts a amount))). split.
  - apply collect_res_Ok. unfold multicall_strs. rewrite push_calls_eq. cbn [app].
    constructor; [apply felt_from_hex_fmt; lia|].
    by apply parse_calls.
  - cbn [decode_execute]. rewrite felt_of_small by lia. apply decode_calls_replicate.
Qed.

(** C27: The multicall calldata is what an account contract reads back: the
    felts parse, and decode to exactly increments_per_block calls of
    increment with the amount on the counter; the announced total is their
    sum when it fits u64, and beyond it the source's multiplication panics
    with overflow checks and wraps without. *)
Theorem multicall_decodes address a amount n checks :
  felt_from_hex address = Ok a → in_u u64_max amount → in_u u32_max n →
  ∃ calldata calls,
    collect_res felt_from_hex (multicall_strs address amount n) = Ok calldata ∧
    decode_execute calldata = Some calls ∧
    calls = replicate (Z.to_nat n) (a, increment_selector, [felt_of amount]) ∧
    (total_increment calls ≤ u64_max → mul_u64 checks amount n = Ok (total_increment calls)) ∧
    (u64_max < total_increment calls →
       mul_u64 true amount n = Panic "attempt to multiply with overflow" ∧
       mul_u64 false amount n = Ok (total_increment calls mod 2 ^ 64)).
Proof.
  intros Ha Hamount Hn.
  pose proof (total_increment_replicate (Z.to_nat n) a increment_selector amount Hamount) as Ht.
  destruct (multicall_read address a amount n Ha Hamount Hn) as (calldata & Hcd & Hdec).
  destruct Hn as [Hn0 Hn].
  exists calldata, (replicate (Z.to_nat n) (a, increment_selector, [felt_of amount])).
  rewrite Ht, Z2Nat.id, Z.mul_comm by done. split_and!; [done|done| | |].
  - done.
  - intros Hle. unfold mul_u64. destruct (in_u_dec _ _) as [|Hout]; [done|].
    destruct Hout. unfold in_u in *. nia.
  - intros Hlt. unfold mul_u64. destruct (in_u_dec _ _) as [[_ ?]|]; [lia|done].
Qed.
End multicall_facts.

(** *** Submission *)

Section submit_facts.
Context {W : Type} `{Http W} `{Clock W} `{SerdeJson} `{Events W} `{!Server W}.

(** [n] rounds answered by a JSON-RPC error, each followed by ten seconds. *)
Inductive rpc_retries (tx : Value) : nat → W → W → Prop :=
  | NoRetry w : rpc_retries tx 0 w w
  | OneRetry n w w1 msg w2 :
      rpc_retries tx n w w1 →
      add_invoke_transaction rpc tx w1 = (Err (JsonRpc msg), w2) →
      rpc_retries tx (S n) w (sleep (from_secs 10) (emit "log"
        ("RPC error (attempt " +:+ round_text (S n) +:+ "), waiting 10s... (" +:+ msg +:+ ")") w2)).

Definition rpc_accepted (tx : Value) (h : string) (w w' : W) : Prop :=
  ∃ n w1 w2, (n < rpc_attempts)%nat ∧ rpc_retries tx n w w1 ∧
    add_invoke_transaction rpc tx w1 = (Ok h, w2) ∧
    w' = emit "log" ("RPC accepted (attempt " +:+ round_text (S n) +:+ "): " +:+ h) w2.

(** Why a submission ends without a hash: the last error was not a JSON-RPC
    error, or all twenty attempts were used. *)
Definition rpc_refused (tx : Value) (msg : string) (w w' : W) : Prop :=
  ∃ n w1 e w2, (n < rpc_attempts)%nat ∧ rpc_retries tx n w w1 ∧
    add_invoke_transaction rpc tx w1 = (Err e, w2) ∧
    ((∃ m, e = JsonRpc m) → n = 19%nat) ∧
    msg = "RPC submission failed: " +:+ rpc_error_text e ∧ w' = emit "error" msg w2.

Lemma rpc_submit_loop_cases left tx w0 (w w' : W) r :
  (1 ≤ left ≤ rpc_attempts)%nat → rpc_retries tx (rpc_attempts - left) w0 w →
  rpc_submit_loop left tx w = (r, w') →
  (∃ h, r = Ok (Some h) ∧ rpc_accepted tx h w0 w') ∨
  (∃ msg, r = Err msg ∧ rpc_refused tx msg w0 w').
Proof.
  revert w. induction left as [|left IH]; intros w Hleft Hret; [lia|].
  cbn [rpc_submit_loop]. cbv zeta.
  replace (S rpc_attempts - S left)%nat with (S (rpc_attempts - S left)) by lia.
  unfold mbind at 1, prog_bind at 1, attempt.
  destruct (add_invoke_outcome rpc tx w) as (o & w1 & Hadd & [[h ->]|[e ->]]); rewrite Hadd.
  - intros [= <- <-]. left. exists h. split; [done|].
    exists (rpc_attempts - S left)%nat, w, w1. split_and!; [lia|done..].
  - assert (Hfail : ((∃ m, e = JsonRpc m) → (rpc_attempts - S left = 19)%nat) →
      rpc_refused tx ("RPC submission failed: " +:+ rpc_error_text e) w0
        (emit "error" ("RPC submission failed: " +:+ rpc_error_text e) w1)).
    { intros Hn. exists (rpc_attempts - S left)%nat, w, e, w1. split_and!; eauto. lia. }
    destruct (Nat.ltb_spec (S (rpc_attempts - S left)) rpc_attempts).
    + destruct e as [m|m|m|h t|m|n t];
        [|intros Hrun|..]; try (rewrite abort_task_eq; intros [= <- <-]; right;
          eexists; split; [done|]; apply Hfail; intros [? [=]]).
      eapply IH; [lia| |exact Hrun].
      replace (rpc_attempts - left)%nat with (S (rpc_attempts - S left)) by lia.
      by eapply OneRetry.
    + assert (rpc_attempts = 20)%nat by done.
      destruct e; rewrite abort_task_eq; intros [= <- <-]; right;
        (eexists; split; [done|]; apply Hfail; lia).
Qed.

(** The RPC submission loop ends with a hash that the node returned after
    at most 19 JSON-RPC errors, each followed by ten seconds, or with the
    error of the last attempt, which is any other error or the twentieth
    JSON-RPC error; it never ends without one of them. *)
Theorem rpc_submit_loop_spec tx (w w' : W) r :
  rpc_submit_loop rpc_attempts tx w = (r, w') →
  (∃ h, r = Ok (Some h) ∧ rpc_accepted tx h w w') ∨
  (∃ msg, r = Err msg ∧ rpc_refused tx msg w w').
Proof.
  intros Hrun. eapply rpc_submit_loop_cases; [| |exact Hrun]; [unfold rpc_attempts; lia|constructor].
Qed.
End submit_facts.

(** *** The cycle *)

Section cycle_facts.
Context {W : Type} `{Http W} `{Clock W} `{SerdeJson} `{FeltOps} `{!Crypto} `{Env W}.
Context `{Process W} `{Files W} `{Random W} `{Events W} `{!Server W}.
Context `{RegexCaptures} `{JsonText} `{Sessions W}.
Context (fuel : nat).

(** The worlds of one cycle, in their order: host calls and updates of the
    sessions. *)
Record stable_cycle (P : W → Prop) : Prop := {
  stable_cycle_host : stable_host P;
  stable_update id f w : P w → P (update_session_with id f w);
}.

Abbreviation then_follows := (follows stable_cycle).

(** What a cycle that went from [w] to [w'] has established. *)
Record proved (job : ProveJob) (params : SubmitParams) (nonce expected : Z) (w w' : W) : Prop := {
  proved_calldata : collect_res felt_from_hex (job_calldata job) = Ok (sp_calldata params);
  proved_sender : felt_from_hex (account_address config) = Ok (sp_sender_address params);
  proved_chain : config_chain_id_felt config = Ok (sp_chain_id params);
  proved_nonce : sp_nonce params = felt_of nonce;
  (** in this order: the nonce is the account's at the reference block; the
      node accepted the payload that is signed for the hash; the transaction
      was seen in a block; the completion was sent *)
  proved_run : ∃ w1 w2 w3 w4 w5 w6 w7 sig h receipt counter size,
    then_follows w w1 ∧
    get_nonce_at_block rpc (account_address config)
      (JObject [("block_number", json_u64 (pj_reference_block job))]) w1 = (Ok nonce, w2) ∧
    then_follows w2 w3 ∧
    sign (sp_private_key params) (submit_tx_hash params) = Ok sig ∧
    rpc_accepted (payload_json params sig) h w3 w4 ∧
    then_follows w4 w5 ∧
    wait_for_tx rpc fuel h 180 5 w5 = (Ok receipt, w6) ∧
    then_follows w6 w7 ∧
    w' = emit "complete" (json_to_string (complete_json h counter size expected)) w7;
}.

(** *** What the parts keep *)

Section keeps.
Context (P : W → Prop) (HH : stable_host P).

Ltac keeps := repeat first
  [ keeps_step HH | assumption
  | apply or_abort_keeps; [exact HH|] | apply send_keeps, HH | apply abort_task_keeps, HH ].

Lemma prove_felts_keeps job : preserves P (prove_felts job).
Proof. unfold prove_felts. keeps. Qed.

Lemma prove_run_keeps job tx_path proof_path : preserves P (prove_run job tx_path proof_path).
Proof. unfold prove_run, log. keeps. apply preserves_for_each. intros. keeps. Qed.

Lemma note_messages_keeps proof_path : preserves P (note_messages proof_path).
Proof. unfold note_messages, log. keeps. Qed.

Lemma cycle_submission_keeps felts nonce path : preserves P (build_submission felts nonce path).
Proof. unfold build_submission. keeps. Qed.
End keeps.

Lemma prove_felts_Ok job felts (w w' : W) :
  prove_felts job w = (Ok felts, w') →
  collect_res felt_from_hex (job_calldata job) = Ok (pf_calldata felts) ∧
  felt_from_hex (account_address config) = Ok (pf_sender felts) ∧
  config_chain_id_felt config = Ok (pf_chain_id felts).
Proof.
  unfold prove_felts. intros Hrun. prog_inv.
  repeat match goal with H : or_abort _ _ _ = _ |- _ => apply or_abort_Ok, lift_Ok in H as [? ->] end.
  by split_and!.
Qed.

(** The query of the nonce is the first thing [prove_construct] does. *)
Lemma prove_construct_Ok job felts tx_path nonce (w w' : W) :
  prove_construct job felts tx_path w = (Ok nonce, w') →
  ∃ w1, get_nonce_at_block rpc (account_address config)
    (JObject [("block_number", json_u64 (pj_reference_block job))]) w = (Ok nonce, w1) ∧
    then_follows w1 w'.
Proof.
  unfold prove_construct. intros Hrun.
  apply prog_bind_Ok in Hrun as (n & w1 & Hn & Hrun). apply or_abort_Ok in Hn.
  cbv zeta in Hrun. exists w1.
  assert (Hfollow : then_follows w1 w').
  { eapply follows_run; [|exact Hrun]. intros P HP. pose proof (stable_cycle_host P HP) as HH.
    unfold log. repeat first [keeps_step HH | apply or_abort_keeps; [exact HH|] | apply send_keeps, HH]. }
  split; [|exact Hfollow]. prog_inv. exact Hn.
Qed.

(** Two events, the wait, one event and the update of the session. *)
Lemma prove_inclusion_Ok job h (w w' : W) :
  prove_inclusion fuel job h w = (Ok tt, w') →
  ∃ receipt w1, wait_for_tx rpc fuel h 180 5
      (emit "log" "Waiting for tx inclusion..." (emit "phase" "verifying" w)) = (Ok receipt, w1) ∧
    let block := default 0 (receipt_block_number receipt) in
    w' = update_session_with (pj_session_id job) (set_reference_block block)
      (emit "log" ("Tx included in block " +:+ pretty block) w1).
Proof.
  unfold prove_inclusion. intros Hrun.
  apply prog_bind_Ok in Hrun as (? & ? & [= _ <-] & Hrun).
  apply prog_bind_Ok in Hrun as (? & ? & [= _ <-] & Hrun).
  apply prog_bind_Ok in Hrun as (receipt & w1 & Hw%or_abort_Ok & Hrun). cbv zeta in Hrun.
  apply prog_bind_Ok in Hrun as (? & w2 & [= _ <-] & Hrun). injection Hrun as <-.
  exists receipt, w1. split; [exact Hw|done].
Qed.

Lemma rpc_accepted_Ok tx (w w' : W) accepted :
  rpc_submit_loop rpc_attempts tx w = (Ok accepted, w') →
  ∃ h, accepted = Some h ∧ rpc_accepted tx h w w'.
Proof.
  intros Hrun. eapply rpc_submit_loop_cases in Hrun as [(h & [= ->] & Hacc)|(? & ? & _)];
    [eauto|done|unfold rpc_attempts; lia|constructor].
Qed.

(** C26: A prove cycle that ends without an error did, in this order: read the
    account's nonce at the reference block; get the node to accept the
    payload signed for the computed hash; see the accepted transaction in a
    block; and report completion with the increment that the overflow check
    computed. The submitted calldata is the multicall of the job. *)
Theorem prove_task_settles checks job (w w' : W) :
  prove_task fuel checks job w = (Ok tt, w') →
  ∃ params nonce expected, proved job params nonce expected w w' ∧
    mul_u64 checks (pj_increment_amount job) (pj_increments_per_block job) = Ok expected.
Proof.
  unfold prove_task. intros Hrun. cbv zeta in Hrun.
  apply prog_bind_Ok in Hrun as (expected & ? & [Hmul ->]%lift_Ok & Hrun).
  apply prog_bind_Ok in Hrun as (? & w1 & F1%(follows_run stable_cycle) & Hrun);
    [|intros P HP; apply send_keeps, HP].
  apply prog_bind_Ok in Hrun as (? & w2 & F2%(follows_run stable_cycle) & Hrun);
    [|intros P HP; apply send_keeps, HP].
  apply prog_bind_Ok in Hrun as (felts & w3 & Hf & Hrun).
  pose proof (follows_run stable_cycle _ _ _ _ (λ P HP, prove_felts_keeps P (stable_cycle_host P HP) job) Hf) as F3.
  apply prove_felts_Ok in Hf as (Hcd & Hsender & Hchain).
  apply prog_bind_Ok in Hrun as (nonce & w4 & (wn & Hnonce & F4)%prove_construct_Ok & Hrun).
  apply prog_bind_Ok in Hrun as (size & w5 & F5%(follows_run stable_cycle) & Hrun);
    [|intros P HP; apply prove_run_keeps, HP].
  apply prog_bind_Ok in Hrun as (? & w6 & F6%(follows_run stable_cycle) & Hrun);
    [|intros P HP; apply note_messages_keeps, HP].
  apply prog_bind_Ok in Hrun as (? & w7 & F7%(follows_run stable_cycle) & Hrun);
    [|intros P HP; apply send_keeps, HP].
  apply prog_bind_Ok in Hrun as ([hash payload] & w8 & Hsub & Hrun). cbn [fst snd] in Hrun.
  pose proof (follows_run stable_cycle _ _ _ _
    (λ P HP, cycle_submission_keeps P (stable_cycle_host P HP) _ _ _) Hsub) as F8.
  apply build_submission_Ok in Hsub as
    (params & sig & -> & -> & Hsig & Ecd & Esender & Ekey & Echain & Enonce & Ebounds).
  apply prog_bind_Ok in Hrun as (? & w9 & F9%(follows_run stable_cycle) & Hrun);
    [|intros P HP; apply send_keeps, HP].
  apply prog_bind_Ok in Hrun as (? & w10 & (h & -> & Hacc)%rpc_accepted_Ok & Hrun).
  apply prog_bind_Ok in Hrun as (? & ? & [= <- <-] & Hrun).
  apply prog_bind_Ok in Hrun as ([] & w11 & (receipt & wb & Hwait & Hend)%prove_inclusion_Ok & Hrun).
  apply prog_bind_Ok in Hrun as (r & w12 & F12%(follows_run stable_cycle) & Hrun);
    [|intros P HP; repeat keeps_step (stable_cycle_host P HP)].
  apply prog_bind_Ok in Hrun as (? & w13 & F13%(follows_run stable_cycle) & Hrun);
    [|intros P HP; apply send_keeps, HP].
  injection Hrun as <-. exists params, nonce, expected. split; [|done]. rewrite <-Ekey in Hsig.
  split; rewrite ?Ecd, ?Esender, ?Echain; try done.
  exists w3, wn, w9, w10. do 2 eexists. exists w13, sig, h, receipt. do 2 eexists.
  split; [by rewrite F1, F2|]. split; [exact Hnonce|]. split; [by rewrite F4, F5, F6, F7, F8|].
  split; [exact Hsig|]. split; [exact Hacc|].
  split; [|split; [exact Hwait|split; [|reflexivity]]].
  - intros P HP Hp. by do 2 apply (stable_emit P (stable_cycle_host P HP)).
  - rewrite <-F13, <-F12. intros P HP Hp. rewrite Hend. apply (stable_update P HP).
    by apply (stable_emit P (stable_cycle_host P HP)).
Qed.

(** Proof cycles chain: after a cycle's inclusion, the next prove request
    of the same session proves against the block in which that transaction
    was included, or against block 0 when the receipt has no readable block
    number. *)
Theorem next_reference_block `{!SessionsLaws W} job h amount n (w w' : W) address :
  prove_inclusion fuel job h w = (Ok tt, w') →
  ses_contract_address (get_session (pj_session_id job) w') = Some address →
  ∃ receipt w1, wait_for_tx rpc fuel h 180 5
      (emit "log" "Waiting for tx inclusion..." (emit "phase" "verifying" w)) = (Ok receipt, w1) ∧
    prove_request (pj_session_id job) amount n w' = (Ok {|
      pj_session_id := pj_session_id job; pj_contract_address := address;
      pj_reference_block := default 0 (receipt_block_number receipt);
      pj_increment_amount := amount; pj_increments_per_block := n |}, w').
Proof.
  intros (receipt & w1 & Hwait & Hend)%prove_inclusion_Ok Haddr.
  exists receipt, w1. split; [done|].
  unfold prove_request, session_field, reads, lift, mbind, prog_bind. rewrite Haddr. cbn [ok_or].
  by rewrite Hend, get_update_session.
Qed.
End cycle_facts.
