(* ===== verification/Driver.v ===== *)
(** * What the command-line drivers share

    The end-to-end drivers ([apps/*/src/e2e*.rs]) repeat the same text around
    different contracts: counters of passed and failed checks, timed steps,
    sncast commands, the transaction that is proved, the prover run, and the
    submission of the proof.  It is modelled once here, against the copy of
    [apps/counter/src/e2e.rs]; what differs between the copies is a
    parameter. *)

From S2P Require Import Prelude RustNum RustStr Json Felt Types Signing ProofCodec.
From S2P Require Import Config Rpc Host Submission.

(** ** The module's statics *)

(** [PASS_COUNT], [FAIL_COUNT], [STEP_TIMINGS] and [STEP_START]. *)
Record Tally := {
  pass_count : Z;
  fail_count : Z;
  step_timings : list (string * Z);
  step_start : option (string * Z);
}.

Class Statics (W : Type) := {
  tally : W → Tally;
  set_tally : Tally → W → W;
}.

(** [tracing::info!], [tracing::warn!] and [tracing::error!]. *)
Class Console (W : Type) := {
  trace_info : string → W → W;
  trace_warn : string → W → W;
  trace_error : string → W → W;
}.

(** [Command::status] with inherited output, [std::env::current_exe], and
    [Display] of an [f64]. *)
Class DriverHost (W : Type) := {
  command_status : string → list string → W → (string + bool) * W;
  current_exe : W → option string;
  f64_display : SpecFloat.spec_float → string;
}.

Definition cleared : Tally :=
  {| pass_count := 0; fail_count := 0; step_timings := []; step_start := None |}.

(** [fetch_add(1)] on an [AtomicU32] wraps. *)
Definition fetch_inc (n : Z) : Z := (n + 1) mod 2 ^ 32.

Definition count_pass (t : Tally) : Tally := {|
  pass_count := fetch_inc (pass_count t); fail_count := fail_count t;
  step_timings := step_timings t; step_start := step_start t |}.
Definition count_fail (t : Tally) : Tally := {|
  pass_count := pass_count t; fail_count := fetch_inc (fail_count t);
  step_timings := step_timings t; step_start := step_start t |}.

(** [prev.take()], with the elapsed time pushed; [Instant::elapsed] is zero
    when the clock went back. *)
Definition close_step (time : Z) (t : Tally) : Tally :=
  match step_start t with
  | Some (name, start) => {|
      pass_count := pass_count t; fail_count := fail_count t;
      step_timings := step_timings t ++ [(name, Z.max 0 (time - start))]; step_start := None |}
  | None => t
  end.
Definition open_step (name : string) (time : Z) (t : Tally) : Tally := {|
  pass_count := pass_count t; fail_count := fail_count t;
  step_timings := step_timings t; step_start := Some (name, time) |}.

(** ** Text *)

(** [{:02}] of a number. *)
Definition pad2 (n : Z) : string := if n <? 10 then "0" +:+ pretty n else pretty n.

Definition format_duration (d : Z) : string :=
  let secs := d / 1000000000 in
  if 60 <=? secs then pretty (secs / 60) +:+ "m " +:+ pad2 (secs mod 60) +:+ "s"
  else pretty secs +:+ "." +:+ pretty (d mod 1000000000 / 1000000 / 100) +:+ "s".

Fixpoint repeat_str (n : nat) (s : string) : string :=
  match n with O => EmptyString | S n => s +:+ repeat_str n s end.

(** The number of characters of a string. *)
Definition char_count (s : string) : nat := length (filter (λ b, is_cont b = false) (as_bytes s)).

(** [{:<45} {:>10}]. *)
Definition timing_line (name duration : string) : string :=
  "  " +:+ name +:+ repeat_str (45 - char_count name) " " +:+ " "
    +:+ repeat_str (10 - char_count duration) " " +:+ duration.

(** [&s[..n.min(s.len())]] and [&s[n..]]: a panic inside a character. *)
Definition boundary_panic : string := "byte index is not a char boundary".
Definition first_bytes (n : nat) (s : string) : res string string :=
  match slice_to (Nat.min n (String.length s)) s with
  | Some t => Ok t
  | None => Panic boundary_panic
  end.
Definition bytes_from (n : nat) (s : string) : res string string :=
  match slice_from n s with Some t => Ok t | None => Panic boundary_panic end.

Definition e2e_account_name (account_address : string) : res string string :=
  let hex := trim_start_0x account_address in
  tail ← bytes_from (String.length hex - 8) hex; Ok ("snip36-e2e-" +:+ tail).

(** [#x] of a length. *)
Definition fmt_len {A} (l : list A) : string := fmt_hex (Z.of_nat (length l)).

Definition push_call (calldata : list string) (c : string * string * list string) : list string :=
  let '(to, selector, call_calldata) := c in
  (calldata ++ [to; selector; fmt_len call_calldata] ++ call_calldata)%list.

Definition encode_account_calls (calls : list (string * string * list string)) : list string :=
  fold_left push_call calls [fmt_len calls].

(** [k.to_uppercase()] on ASCII; the keys it is applied to have no other
    characters. *)
Definition upper_char (c : ascii) : ascii :=
  let z := byte_Z c in if (97 <=? z) && (z <=? 122) then Z_byte (z - 32) else c.
Fixpoint to_uppercase (s : string) : string :=
  match s with
  | EmptyString => EmptyString
  | String c s => String (upper_char c) (to_uppercase s)
  end.

(** [gw_tx["type"] = ..] on an object; the payload always is one. *)
Definition json_set (v : Value) (k : string) (x : Value) : Value :=
  match v with JObject m => JObject (assoc_set k x m) | _ => v end.

Definition upper_keys (rb : Value) : list (string * Value) :=
  fold_left (λ upper kv, assoc_set (to_uppercase kv.1) kv.2 upper) (default [] (as_object rb)) [].

(** The gateway's form of a transaction. *)
Definition gateway_form (invoke_tx : Value) : Value :=
  let gw_tx := json_set invoke_tx "type" (JString "INVOKE_FUNCTION") in
  match get gw_tx "resource_bounds" with
  | Some rb => json_set gw_tx "resource_bounds" (JObject (upper_keys rb))
  | None => gw_tx
  end.

Definition gateway_not_ready (msg : string) : bool :=
  str_contains "too recent" msg || str_contains "stored block hash: 0" msg.

(** [a + b] at the width of the type: a panic with overflow checks, the low
    bits without. *)
Definition add_u (overflow_checks : bool) (max a b : Z) : res string Z :=
  if in_u_dec max (a + b) then Ok (a + b)
  else if overflow_checks then Panic "attempt to add with overflow"
  else Ok ((a + b) mod (max + 1)).

(** How a driver ends when it does not fail: [Ok(())] or [exit(1)]. *)
Inductive verdict := AllPassed | ExitFailure.
#[export] Instance verdict_eq_dec : EqDecision verdict.
Proof. solve_decision. Defined.

(** ** Passing, failing, steps *)

Section console.
Context {W : Type} `{Statics W} `{Console W} `{Clock W}.
Context {E : Type}.

Definition info (line : string) : prog W E unit := modify (trace_info line).
Definition warn (line : string) : prog W E unit := modify (trace_warn line).
Definition error (line : string) : prog W E unit := modify (trace_error line).

Definition on_tally (f : Tally → Tally) : prog W E unit := modify (λ w, set_tally (f (tally w)) w).

Definition pass (msg : string) : prog W E unit :=
  on_tally count_pass;; info "";; info ("  PASS: " +:+ msg);; info "".

Definition fail (msg : string) : prog W E unit :=
  on_tally count_fail;; error "";; error ("  FAIL: " +:+ msg);; error "".

Definition rule : string := "==========================================".

(** The clock is read twice, and nothing happens in between. *)
Definition step (n : Z) (title : string) : prog W E unit :=
  let name := "Step " +:+ pretty n +:+ ": " +:+ title in
  modify (λ w, set_tally (open_step name (now w) (close_step (now w) (tally w))) w);;
  info "";; info rule;; info ("  STEP " +:+ pretty n +:+ ": " +:+ title);; info rule;; info "".

Definition finish_last_step : prog W E unit := modify (λ w, set_tally (close_step (now w) (tally w)) w).

(** At the start of every run. *)
Definition reset_statics : prog W E unit := on_tally (λ _, cleared).
End console.

(** [fail(msg); bail!(reason)]. *)
Definition fail_with {W} `{Statics W} `{Console W} {A} (msg reason : string) : prog W string A :=
  fail msg;; throw reason.

(** ** The phases *)

Section phases.
Context {W : Type} `{Http W} `{Clock W} `{SerdeJson} `{FeltOps} `{!Crypto} `{Env W}.
Context `{Process W} `{Files W} `{Random W} `{Gateway W} `{RegexLite} `{JsonText}.
Context `{Statics W} `{Console W} `{DriverHost W}.
Context (fuel : nat) (checks : bool) (c : Config).

(** [StarknetRpc::new(&config.rpc_url)]. *)
Definition client : StarknetRpc := {| url := rpc_url c |}.

(** [x.await?] on a client call. *)
Definition rpc_ {A} (m : prog W RpcError A) : prog W string A := mapping_err rpc_error_text m.

(** [.wrap_err(msg)?]: what is shown of the error is the outer message. *)
Definition wrapped {E A} (msg : string) (m : prog W E A) : prog W string A := mapping_err (λ _, msg) m.

(** *** Prerequisites *)

Definition require_command (cmd : string) : prog W string unit :=
  r ← call_host (command_output "which" [cmd] None);
  match r with
  | inr o => if out_success o then mret tt else throw (cmd +:+ " not found in PATH")
  | inl _ => throw (cmd +:+ " not found in PATH")
  end.

Definition require_file (path msg : string) : prog W string unit :=
  there ← reads (λ w, path_exists w path); if (there : bool) then mret tt else throw msg.

Definition check_prereqs (require_local_prover : bool) : prog W string unit :=
  for_each require_command ["scarb"; "sncast"];;
  if require_local_prover then
    require_file (runner_bin c) ("starknet_transaction_prover not found at " +:+ runner_bin c
      +:+ ". Run `snip36 setup` first or provide --prover-url.");;
    require_file (prover_bin c) ("stwo-run-and-prove not found at " +:+ prover_bin c
      +:+ ". Run `snip36 setup` first or provide --prover-url.")
  else mret tt.

(** *** The account, the class and the contract *)

Definition import_args (account_name : string) : list string :=
  ["account"; "import"; "--name"; account_name; "--address"; account_address c;
   "--private-key"; private_key c; "--type"; "oz"; "--url"; rpc_url c].

(** The result of the command is dropped ([let _ =]); the account is checked
    by its nonce. *)
Definition import_silently (account_name : string) : prog W string unit :=
  call_host (command_output "sncast" (import_args account_name ++ ["--silent"])%list None);; mret tt.

Definition verify_account (pass_text fail_text reason : string) : prog W string unit :=
  r ← attempt (get_nonce client (account_address c));
  match r with
  | inr nonce => pass (pass_text +:+ " (nonce: " +:+ fmt_hex nonce +:+ ")")
  | inl e => fail_with (fail_text +:+ ": " +:+ rpc_error_text e) reason
  end.

Definition compile (pass_text fail_text : string) : prog W string unit :=
  build ← wrapped "failed to run scarb build"
    (try_host (command_output "scarb" ["build"] (Some (contracts_dir c))) id);
  if out_success build then pass pass_text
  else
    out ← lift (first_bytes 500 (format_cmd_output build));
    fail_with (fail_text +:+ ": " +:+ out) "compilation failed".

Definition declare_args (account_name contract_name : string) : list string :=
  ["--account"; account_name; "declare"; "--url"; rpc_url c; "--contract-name"; contract_name].

Definition class_hash_of (text : string) : option string :=
  match parse_hex_from_output "class_hash" text with
  | Some h => Some h
  | None => parse_long_hex text
  end.

(** [sncast declare], its output on the console. *)
Definition run_declare (account_name contract_name : string) : prog W string string :=
  declare_output ← wrapped "failed to run sncast declare"
    (try_host (command_output "sncast" (declare_args account_name contract_name)
      (Some (contracts_dir c))) id);
  let declare_combined := format_cmd_output declare_output in
  info "  sncast declare output:";; info ("  " +:+ declare_combined);;
  mret declare_combined.

(** Wait for a declare transaction to land before deploying. *)
Definition await_declare (tx : option string) : prog W string unit :=
  match tx with
  | Some tx =>
      info "  Waiting for declare tx inclusion...";;
      wrapped "declare tx not confirmed" (wait_for_tx client fuel tx 120 3);; mret tt
  | None => mret tt
  end.

Definition declare_ (account_name contract_name pass_text : string) : prog W string string :=
  declare_combined ← run_declare account_name contract_name;
  match class_hash_of declare_combined with
  | Some h =>
      pass pass_text;; info ("  Class hash: " +:+ h);;
      await_declare (parse_hex_from_output "transaction_hash" declare_combined);;
      mret h
  | None => fail_with "Could not determine class hash" "declare failed"
  end.

(** *** A class that may already be declared *)

(** [sncast utils class-hash] on the compiled artifacts. *)
Definition computed_class_hash (contract_name : string) : prog W string (option string) :=
  class_hash_output ← wrapped "failed to compute class hash"
    (try_host (command_output "sncast" ["utils"; "class-hash"; "--contract-name"; contract_name]
      (Some (contracts_dir c))) id);
  mret (class_hash_of (format_cmd_output class_hash_output)).

(** The hash, when the node has the class. *)
Definition already_declared (computed_hash : option string) : prog W string (option string) :=
  match computed_hash with
  | Some ch =>
      r ← attempt (get_class client ch);
      mret (match r with inr _ => Some ch | inl _ => None end)
  | None => mret None
  end.

Definition fresh_salt : prog W string string :=
  salt ← call_host (random_bytes 16); mret ("0x" +:+ hex_encode salt).

Definition deploy_args (account_name class_hash salt : string) : list string :=
  ["--account"; account_name; "deploy"; "--url"; rpc_url c; "--class-hash"; class_hash;
   "--salt"; salt].

Definition deploy (account_name class_hash pass_text : string)
    : prog W string (string * option string) :=
  salt ← fresh_salt;
  deploy_output ← wrapped "failed to run sncast deploy"
    (try_host (command_output "sncast" (deploy_args account_name class_hash salt) None) id);
  let deploy_combined := format_cmd_output deploy_output in
  info "  sncast deploy output:";; info ("  " +:+ deploy_combined);;
  let deploy_tx_hash := parse_hex_from_output "transaction_hash" deploy_combined in
  match parse_hex_from_output "contract_address" deploy_combined with
  | Some addr =>
      pass pass_text;; info ("  Address: " +:+ addr);;
      match deploy_tx_hash with Some tx => info ("  tx_hash: " +:+ tx) | None => mret tt end;;
      mret (addr, deploy_tx_hash)
  | None => fail_with "Could not determine contract address" "deploy failed"
  end.

(** The block of the receipt, or 0 when it has none that can be read. *)
Definition await_deploy (deploy_tx_hash : option string) : prog W string Z :=
  match deploy_tx_hash with
  | Some tx =>
      r ← attempt (wait_for_tx client fuel tx 120 3);
      match r with
      | inr receipt =>
          let bn := default 0 (receipt_block_number receipt) in
          pass ("Deploy confirmed in block " +:+ pretty bn);; mret bn
      | inl e => fail_with ("Could not confirm deploy tx: " +:+ rpc_error_text e)
                   "deploy confirmation failed"
      end
  | None => fail_with "No deploy tx hash to wait for" "missing deploy tx hash"
  end.

(** *** The transaction that is proved *)

Definition parse_felts (calldata : list string) : prog W string task_felts :=
  calldata_felts ← lift (collect_res felt_from_hex calldata);
  sender_felt ← lift (felt_from_hex (account_address c));
  private_key_felt ← lift (felt_from_hex (private_key c));
  chain ← lift (map_err config_error_text (config_chain_id_felt c));
  mret {| pf_calldata := calldata_felts; pf_sender := sender_felt; pf_key := private_key_felt;
          pf_chain_id := chain |}.

(** Zero resource bounds and no proof facts: what the virtual OS validates. *)
Definition standard_tx_hash (felts : task_felts) (nonce : Z) : Felt :=
  compute_invoke_v3_tx_hash (pf_sender felts) (pf_calldata felts) (pf_chain_id felts)
    (felt_of nonce) (felt_of 0) zero_fee [] [] 0 0 [].

Definition tx_json (calldata : list string) (nonce : Z) (sig : Signature) : Value := JObject [
  ("type", JString "INVOKE");
  ("version", JString "0x3");
  ("sender_address", JString (account_address c));
  ("calldata", json_strings calldata);
  ("nonce", JString (fmt_hex nonce));
  ("resource_bounds", to_rpc_json zero_fee);
  ("tip", JString "0x0");
  ("paymaster_data", JArray []);
  ("account_deployment_data", JArray []);
  ("nonce_data_availability_mode", JString "L1");
  ("fee_data_availability_mode", JString "L1");
  ("signature", json_strings [felt_hex (sig_r sig); felt_hex (sig_s sig)])].

(** [signing] is the text before the signer's error, which one copy has
    differently. *)
Definition construct_tx (signing : string) (felts : task_felts) (calldata : list string)
    (nonce : Z) (tx_path : string) : prog W string unit :=
  sig ← lift (map_err (λ e, signing +:+ sign_error_text e)
    (sign (pf_key felts) (standard_tx_hash felts nonce)));
  try_host (write_file tx_path (to_string_pretty (tx_json calldata nonce sig))) id.

(** *** The prover *)

(** [std::env::var("PROVER_URL").ok().filter(|s| !s.is_empty())], after the
    command line's. *)
Definition prover_url_of (arg : option string) (w : W) : option string :=
  match arg with
  | Some url => Some url
  | None => match env_var w "PROVER_URL" with
            | Some s => if decide (s = "") then None else Some s
            | None => None
            end
  end.

Definition prove_args (prover_url : option string) (reference_block : Z) (tx_path proof_path : string)
    : list string :=
  (["prove"; "virtual-os"; "--block-number"; pretty reference_block; "--tx-json"; tx_path;
    "--rpc-url"; rpc_url c; "--output"; proof_path]
   ++ match prover_url with
      | Some url => ["--prover-url"; url]
      | None => ["--strk-fee-token"; STRK_TOKEN]
      end)%list.

Definition run_prover (exe command_error reason : string) (prover_url : option string)
    (reference_block : Z) (tx_path proof_path : string) : prog W string unit :=
  success ← wrapped command_error
    (try_host (command_status exe (prove_args prover_url reference_block tx_path proof_path)) id);
  there ← reads (λ w, path_exists w proof_path);
  if success && there then
    size ← try_host (file_len proof_path) id;
    pass ("Proof generated (" +:+ pretty (size : Z) +:+ " bytes)")
  else fail_with "Proof generation failed" reason.

Definition exe_name (w : W) : string := default "snip36" (current_exe w).

(** *** Submission *)

Definition read_proof_facts (parse_prefix : string) (facts_text : string) : prog W string (list Felt) :=
  proof_facts_hex ← lift (map_err (λ e, parse_prefix +:+ proof_error_text e)
    (parse_proof_facts_json facts_text));
  lift (collect_res felt_from_hex proof_facts_hex).

Definition sign_submission (signing : string) (felts : task_felts) (nonce : Z)
    (proof_base64 : string) (proof_facts : list Felt) : prog W string (Felt * Value) :=
  lift (map_err (λ e, signing +:+ sign_error_text e) (sign_and_build_payload {|
    sp_sender_address := pf_sender felts;
    sp_private_key := pf_key felts;
    sp_calldata := pf_calldata felts;
    sp_proof_base64 := proof_base64;
    sp_proof_facts := proof_facts;
    sp_nonce := felt_of nonce;
    sp_chain_id := pf_chain_id felts;
    sp_resource_bounds := default_bounds |})).

Definition read_submission (felts : task_felts) (nonce : Z) (proof_path empty_reason : string)
    : prog W string (Felt * Value) :=
  proof_b64 ← try_host (read_to_string proof_path) id;
  (if decide (trim proof_b64 = "") then fail_with "Proof file is empty" empty_reason else mret tt);;
  facts_text ← wrapped "failed to read proof_facts"
    (try_host (read_to_string (with_extension proof_path "proof_facts")) id);
  proof_facts ← read_proof_facts "failed to parse proof_facts: " facts_text;
  sign_submission "signing failed: " felts nonce (trim proof_b64) proof_facts.

Definition max_attempts : nat := 20.

Definition attempt_text (n : nat) : string := pretty n +:+ "/" +:+ pretty max_attempts.

Definition submit_url (gw_url : string) : string := trim_end_slashes gw_url +:+ "/gateway/add_transaction".

(** [left] attempts remain.  A body that is not JSON reads as [null]. *)
Fixpoint gateway_loop (left : nat) (url : string) (gw_tx : Value) (tx_hash : string)
    : prog W string (option string) :=
  match left with
  | O => mret None
  | S left' =>
      let attempt := (S max_attempts - left)%nat in
      response ← call_host (post_gateway url gw_tx);
      match response with
      | inr resp =>
          let body := match resp with inr v => v | inl _ => JNull end in
          let code := default "" (get_str body "code") in
          let msg := default "" (get_str body "message") in
          if decide (code = "TRANSACTION_RECEIVED") then
            pass ("Gateway accepted (attempt " +:+ attempt_text attempt +:+ ")");;
            mret (Some tx_hash)
          else if gateway_not_ready msg && Nat.ltb attempt max_attempts then
            info ("  Attempt " +:+ attempt_text attempt +:+ ": gateway not ready, waiting 10s...");;
            modify (sleep (from_secs 10));;
            gateway_loop left' url gw_tx tx_hash
          else fail ("Gateway rejected: " +:+ json_to_string body);; mret None
      | inl e =>
          if Nat.ltb attempt max_attempts then
            info ("  Attempt " +:+ attempt_text attempt +:+ ": request failed (" +:+ e
              +:+ "), retrying...");;
            modify (sleep (from_secs 10));;
            gateway_loop left' url gw_tx tx_hash
          else fail ("Gateway request failed: " +:+ e);; gateway_loop left' url gw_tx tx_hash
      end
  end.

(** Only a JSON-RPC error is retried, and not after the last attempt. *)
Fixpoint rpc_loop (left : nat) (invoke_tx : Value) : prog W string (option string) :=
  match left with
  | O => mret None
  | S left' =>
      let attempt_number := (S max_attempts - left)%nat in
      r ← attempt (add_invoke_transaction client invoke_tx);
      match r with
      | inr hash =>
          pass ("RPC accepted (attempt " +:+ attempt_text attempt_number +:+ "): " +:+ hash);;
          mret (Some hash)
      | inl e =>
          match e, Nat.ltb attempt_number max_attempts with
          | JsonRpc msg, true =>
              info ("  Attempt " +:+ attempt_text attempt_number +:+ ": RPC error, waiting 10s... ("
                +:+ msg +:+ ")");;
              modify (sleep (from_secs 10));;
              rpc_loop left' invoke_tx
          | _, _ => fail ("RPC submission failed: " +:+ rpc_error_text e);; mret None
          end
      end
  end.

(** Through the gateway when one is configured, through the node otherwise;
    [more] is what a copy prints besides. *)
Definition submit (more : list string) (submission : Felt * Value) : prog W string (option string) :=
  let '(local_tx_hash, invoke_tx) := submission in
  match gateway_url c with
  | Some gw_url =>
      info ("  Submitting tx " +:+ felt_hex local_tx_hash +:+ " via gateway...");;
      for_each info more;;
      gateway_loop max_attempts (submit_url gw_url) (gateway_form invoke_tx) (felt_hex local_tx_hash)
  | None =>
      info ("  Submitting tx " +:+ felt_hex local_tx_hash +:+ " via RPC...");;
      for_each info more;;
      rpc_loop max_attempts invoke_tx
  end.

(** The transaction of a single submission. *)
Definition await_included (rpc_tx_hash : string) : prog W string unit :=
  info ("  Waiting for tx " +:+ rpc_tx_hash +:+ " to be included...");;
  r ← attempt (wait_for_tx client fuel rpc_tx_hash 180 5);
  match r with
  | inr receipt => pass ("Tx included in block " +:+ pretty (default 0 (receipt_block_number receipt)))
  | inl e => fail_with ("Tx not confirmed: " +:+ rpc_error_text e) "tx confirmation failed"
  end.

(** *** Summary *)

Definition timings_table (t : Tally) (total_elapsed : Z) : list string :=
  ((λ nd, timing_line nd.1 (format_duration nd.2)) <$> step_timings t)
    ++ ["  " +:+ repeat_str 57 "-"; timing_line "Total" (format_duration total_elapsed); ""].

Definition summary (title : string) (e2e_start : Z) : prog W string verdict :=
  finish_last_step;;
  total_elapsed ← reads (λ w, Z.max 0 (now w - e2e_start));
  t ← reads tally;
  total ← lift (add_u checks u32_max (pass_count t) (fail_count t));
  for_each info (["";  rule; "  " +:+ title; rule; "";
    "  Passed: " +:+ pretty (pass_count t); "  Failed: " +:+ pretty (fail_count t);
    "  Total:  " +:+ pretty (total : Z); "";
    "  Step Timings:"; timing_line "Step" "Duration"; "  " +:+ repeat_str 57 "-"]
    ++ timings_table t total_elapsed)%list;;
  if fail_count t =? 0 then info "  RESULT: ALL TESTS PASSED";; mret AllPassed
  else info ("  RESULT: " +:+ pretty (fail_count t) +:+ " TEST(S) FAILED");; mret ExitFailure.

End phases.

(** ** What the calls keep *)

Section stable.
Context {W : Type} `{Http W} `{Clock W} `{Env W} `{Process W} `{Files W} `{Random W} `{Gateway W}.
Context `{Statics W} `{Console W} `{DriverHost W}.

Record stable_calls (P : W → Prop) : Prop := {
  calls_post u v w : P w → P (post_json u v w).2;
  calls_sleep d w : P w → P (sleep d w);
  calls_dotenv_path p w : P w → P (dotenv_from_path p w);
  calls_dotenv w : P w → P (dotenv w);
  calls_command p a d w : P w → P (command_output p a d w).2;
  calls_status p a w : P w → P (command_status p a w).2;
  calls_mkdir p w : P w → P (create_dir_all p w).2;
  calls_write p s w : P w → P (write_file p s w).2;
  calls_read p w : P w → P (read_to_string p w).2;
  calls_len p w : P w → P (file_len p w).2;
  calls_random n w : P w → P (random_bytes n w).2;
  calls_gateway u v w : P w → P (post_gateway u v w).2;
  calls_info s w : P w → P (trace_info s w);
  calls_warn s w : P w → P (trace_warn s w);
  calls_error s w : P w → P (trace_error s w);
}.

Record stable_driver (P : W → Prop) : Prop := {
  driver_calls : stable_calls P;
  driver_tally t w : P w → P (set_tally t w);
}.

(** The statics belong to the module, and printing takes no time. *)
Class DriverLaws : Prop := {
  tally_set t w : tally (set_tally t w) = t;
  tally_kept t : stable_calls (λ w, tally w = t);
  now_set t w : now (set_tally t w) = now w;
  now_info s w : now (trace_info s w) = now w;
  now_warn s w : now (trace_warn s w) = now w;
  now_error s w : now (trace_error s w) = now w;
  now_gateway u v w : now w ≤ now (post_gateway u v w).2;
}.
End stable.

Ltac driver_step HP := first
  [ match goal with |- preserves _ (_ ≫= _) => apply preserves_bind; [|intros] end
  | apply preserves_ret | apply preserves_lift | apply preserves_throw | apply preserves_reads
  | apply preserves_mapping_err | apply preserves_attempt
  | apply preserves_for_each; intros
  | apply preserves_try_host; intros | apply preserves_call_host; intros
  | apply preserves_wait_for_tx; [apply (calls_post _ HP)|apply (calls_sleep _ HP)]
  | apply preserves_wait_for_block_after; [apply (calls_post _ HP)|apply (calls_sleep _ HP)]
  | apply preserves_get_nonce; apply (calls_post _ HP)
  | apply preserves_get_chain_id; apply (calls_post _ HP)
  | apply preserves_get_class; apply (calls_post _ HP)
  | apply preserves_add_invoke; apply (calls_post _ HP)
  | apply preserves_starknet_call; apply (calls_post _ HP)
  | apply preserves_call; apply (calls_post _ HP)
  | apply preserves_block_number; apply (calls_post _ HP)
  | apply preserves_get_nonce_at_block; apply (calls_post _ HP)
  | apply preserves_modify; intros
  | apply (calls_command _ HP); assumption | apply (calls_status _ HP); assumption
  | apply (calls_random _ HP); assumption | apply (calls_mkdir _ HP); assumption
  | apply (calls_write _ HP); assumption | apply (calls_read _ HP); assumption
  | apply (calls_len _ HP); assumption | apply (calls_gateway _ HP); assumption
  | apply (calls_sleep _ HP); assumption | apply (calls_info _ HP); assumption
  | apply (calls_warn _ HP); assumption | apply (calls_error _ HP); assumption
  | progress cbv zeta | case_match ].
