(* ===== verification/DriverFacts.v ===== *)
(** * What the drivers' shared parts guarantee

    The calldata of an account's [__execute__] and its reading back, the
    gateway's form of a transaction, the transaction that is proved, the
    submission loops against one abstract retry loop, and the timed steps. *)

From S2P Require Import Prelude RustNum RustStr Json Felt Types Signing ProofCodec.
From S2P Require Import Config Rpc Host Submission Counter Driver.

(** ** Calldata *)

Section calldata.
Context `{FeltLaws}.

Definition call_words (c : string * string * list string) : list string :=
  let '(to, selector, args) := c in ([to; selector; fmt_len args] ++ args)%list.

Definition call_word_felts (c : Felt * Felt * list Felt) : list Felt :=
  let '(to, selector, args) := c in
  ([to; selector; felt_of (Z.of_nat (length args))] ++ args)%list.

Definition execute_felts (calls : list (Felt * Felt * list Felt)) : list Felt :=
  felt_of (Z.of_nat (length calls)) :: mjoin (call_word_felts <$> calls).

(** The felts of a call that is written with strings. *)
Definition parsed_call (c : string * string * list string) (f : Felt * Felt * list Felt) : Prop :=
  felt_from_hex c.1.1 = Ok f.1.1 ∧ felt_from_hex c.1.2 = Ok f.1.2 ∧
  collect_res felt_from_hex c.2 = Ok f.2.

(** Lengths are [usize]. *)
Definition call_fits (c : string * string * list string) : Prop := Z.of_nat (length c.2) ≤ u64_max.

Abbreviation parses := (λ x y, felt_from_hex x = Ok y) (only parsing).

Lemma encode_account_calls_eq calls :
  encode_account_calls calls = fmt_len calls :: mjoin (call_words <$> calls).
Proof.
  unfold encode_account_calls. set (n := fmt_len calls). clearbody n.
  change (n :: mjoin (call_words <$> calls)) with ([n] ++ mjoin (call_words <$> calls))%list.
  generalize [n]. induction calls as [|[[to sel] args] calls IH]; intros l; [by rewrite app_nil_r|].
  cbn [fold_left fmap list_fmap]. by rewrite IH, mjoin_cons, app_assoc.
Qed.

Lemma parse_length n f : Z.of_nat n ≤ u64_max →
  felt_from_hex (fmt_hex (Z.of_nat n)) = Ok f ↔ f = felt_of (Z.of_nat n).
Proof.
  intros Hn. assert (u64_max < stark_prime) by done. rewrite felt_from_hex_fmt by lia. naive_solver.
Qed.

Lemma parse_call_words c l : call_fits c →
  Forall2 parses (call_words c) l ↔ ∃ f, parsed_call c f ∧ l = call_word_felts f.
Proof.
  destruct c as [[to sel] args]. unfold call_fits, parsed_call, call_words. cbn [fst snd app]. intros Hfit.
  split.
  - intros Hp.
    apply Forall2_cons_inv_l in Hp as (t & l1 & Ht & Hp & ->).
    apply Forall2_cons_inv_l in Hp as (s & l2 & Hs & Hp & ->).
    apply Forall2_cons_inv_l in Hp as (n & a & Hl & Ha & ->).
    apply parse_length in Hl as ->; [|done]. pose proof (Forall2_length _ _ _ Ha) as Hlen.
    exists (t, s, a). rewrite collect_res_Ok. split; [done|]. cbn. by rewrite Hlen.
  - intros ([[t s] a] & (Ht & Hs & Ha) & ->). cbn [fst snd] in *. apply collect_res_Ok in Ha.
    repeat constructor; try done. apply parse_length; [done|]. by rewrite (Forall2_length _ _ _ Ha).
Qed.

Lemma parse_calls_words calls l : Forall call_fits calls →
  Forall2 parses (mjoin (call_words <$> calls)) l ↔
  ∃ fs, Forall2 parsed_call calls fs ∧ l = mjoin (call_word_felts <$> fs).
Proof.
  intros Hfit. revert l. induction Hfit as [|c calls Hc _ IH]; intros l; cbn [fmap list_fmap].
  - split.
    + intros ->%Forall2_nil_inv_l. by exists [].
    + intros (fs & ->%Forall2_nil_inv_l & ->). constructor.
  - rewrite mjoin_cons. split.
    + intros (l1 & l2 & Hp%parse_call_words & Hps%IH & ->)%Forall2_app_inv_l; [|done].
      destruct Hp as (f & Hf & ->), Hps as (fs & Hfs & ->).
      exists (f :: fs). split; [by constructor|]. cbn [fmap list_fmap]. by rewrite mjoin_cons.
    + intros (fs' & (f & fs & Hf & Hfs & ->)%Forall2_cons_inv_l & ->).
      cbn [fmap list_fmap]. rewrite mjoin_cons. apply Forall2_app.
      * apply parse_call_words; eauto.
      * apply IH. eauto.
Qed.

Lemma decode_calls_words fs : Forall (λ f : Felt * Felt * list Felt, Z.of_nat (length f.2) ≤ u64_max) fs →
  decode_calls (length fs) (mjoin (call_word_felts <$> fs)) = Some fs.
Proof.
  assert (u64_max < stark_prime) by done.
  induction 1 as [|[[t s] a] fs Ha _ IH]; [done|]. cbn [fmap list_fmap snd] in *.
  rewrite mjoin_cons. cbn [call_word_felts app length decode_calls].
  rewrite felt_of_small, Nat2Z.id by lia. cbv zeta.
  rewrite (proj2 (Nat.ltb_ge _ _)) by (rewrite length_app; lia).
  unfold mbind, option_bind. rewrite drop_app_length, IH, take_app_length. done.
Qed.

Lemma execute_calls calls calldata :
  Z.of_nat (length calls) ≤ u64_max → Forall call_fits calls →
  collect_res felt_from_hex (encode_account_calls calls) = Ok calldata ↔
  ∃ fs, Forall2 parsed_call calls fs ∧ calldata = execute_felts fs.
Proof.
  intros Hlen Hfit. rewrite collect_res_Ok, encode_account_calls_eq. split.
  - intros (n & l & Hn%parse_length & (fs & Hfs & ->)%parse_calls_words & ->)%Forall2_cons_inv_l; [|done..].
    exists fs. split; [done|]. unfold execute_felts. by rewrite Hn, (Forall2_length _ _ _ Hfs).
  - intros (fs & Hfs & ->). unfold execute_felts. constructor; [|apply parse_calls_words; eauto].
    apply parse_length; [done|]. by rewrite (Forall2_length _ _ _ Hfs).
Qed.

Lemma decode_execute_felts calls fs :
  Z.of_nat (length calls) ≤ u64_max → Forall call_fits calls → Forall2 parsed_call calls fs →
  decode_execute (execute_felts fs) = Some fs.
Proof.
  intros Hlen Hfit Hfs. assert (u64_max < stark_prime) by done.
  cbn [decode_execute execute_felts].
  rewrite felt_of_small, Nat2Z.id by (rewrite <-(Forall2_length _ _ _ Hfs); lia).
  apply decode_calls_words. clear Hlen. induction Hfs as [|c f calls fs (_ & _ & Ha) _ IH]; [constructor|].
  apply Forall_cons in Hfit as [Hc Hfit]. constructor; [|by apply IH].
  apply collect_res_length in Ha. unfold call_fits in Hc. by rewrite Ha.
Qed.
End calldata.

Section calldata_claims.
Context `{FeltLaws}.

(** The calldata that encode_account_calls writes is what an account
    contract reads back: it parses exactly when every felt of every call
    does, and then decodes to exactly these calls in their order. *)
Theorem account_calls_roundtrip calls calldata :
  Z.of_nat (length calls) ≤ u64_max → Forall call_fits calls →
  collect_res felt_from_hex (encode_account_calls calls) = Ok calldata ↔
  ∃ fs, Forall2 parsed_call calls fs ∧ decode_execute calldata = Some fs ∧
    calldata = execute_felts fs.
Proof.
  intros Hlen Hfit. rewrite execute_calls by done. split.
  - intros (fs & Hfs & ->). exists fs. split_and!; [done| |done]. by eapply decode_execute_felts.
  - intros (fs & Hfs & _ & ->). eauto.
Qed.

(** The drivers and the counter's handler write the same multicall. *)
Lemma increments_agree address amount n :
  encode_account_calls (replicate n (address, INCREMENT_SELECTOR, [fmt_hex amount])) =
  multicall_strs address amount (Z.of_nat n).
Proof.
  unfold multicall_strs. rewrite push_calls_eq, Nat2Z.id, encode_account_calls_eq.
  unfold fmt_len. rewrite length_replicate. cbn [app]. do 2 f_equal.
  induction n as [|n IH]; [done|]. cbn [replicate fmap list_fmap]. by rewrite IH.
Qed.
End calldata_claims.

(** ** The gateway's form *)

(** One of the two forms in which bounds are written. *)
Definition writes_bounds (rb : Value) (b : ResourceBounds) : Prop :=
  rb ∈ [to_rpc_json b; to_gateway_json b].

Section gateway_json.
Context `{FeltOps} `{!Crypto}.

Lemma get_json_set m k x k' :
  get (json_set (JObject m) k x) k' = if decide (k' = k) then Some x else get (JObject m) k'.
Proof.
  cbn. destruct (decide (k' = k)) as [->|]; [apply assoc_set_eq|by apply assoc_set_ne].
Qed.

Lemma json_set_object m k x : json_set (JObject m) k x = JObject (assoc_set k x m).
Proof. done. Qed.

Lemma upper_keys_rpc b : JObject (upper_keys (to_rpc_json b)) = to_gateway_json b.
Proof. done. Qed.

Lemma upper_keys_gateway b : JObject (upper_keys (to_gateway_json b)) = to_gateway_json b.
Proof. done. Qed.

Lemma get_gateway_form m k :
  get (gateway_form (JObject m)) k =
  if decide (k = "resource_bounds")
  then (JObject ∘ upper_keys) <$> get (JObject m) "resource_bounds"
  else if decide (k = "type") then Some (JString "INVOKE_FUNCTION") else get (JObject m) k.
Proof.
  unfold gateway_form. cbv zeta. rewrite get_json_set, decide_False by done.
  destruct (get (JObject m) "resource_bounds") as [rb|] eqn:Hrb.
  - rewrite json_set_object, get_json_set. destruct (decide (k = "resource_bounds")); [done|].
    rewrite <-json_set_object, get_json_set. done.
  - rewrite get_json_set. destruct (decide (k = "resource_bounds")) as [->|]; [|done].
    rewrite decide_False by done. by rewrite Hrb.
Qed.

Lemma gateway_form_payload params sig : gateway_form (payload_json params sig) = payload_json params sig.
Proof. done. Qed.

(** The gateway form of a transaction has the type INVOKE_FUNCTION and
    upper-case resource names, whichever of the two forms its bounds had,
    and all its other members unchanged; on a payload of
    sign_and_build_payload the conversion is the identity. *)
Theorem gateway_form_spec m :
  get (gateway_form (JObject m)) "type" = Some (JString "INVOKE_FUNCTION") ∧
  (∀ k, k ≠ "type" → k ≠ "resource_bounds" → get (gateway_form (JObject m)) k = get (JObject m) k) ∧
  (∀ rb b, get (JObject m) "resource_bounds" = Some rb → writes_bounds rb b →
     get (gateway_form (JObject m)) "resource_bounds" = Some (to_gateway_json b)) ∧
  (∀ params h v, sign_and_build_payload params = Ok (h, v) → gateway_form v = v).
Proof.
  split_and!.
  - by rewrite get_gateway_form, decide_False, decide_True.
  - intros k ? ?. by rewrite get_gateway_form, !decide_False.
  - intros rb b Hrb Hb. rewrite get_gateway_form, decide_True, Hrb by done.
    unfold writes_bounds in Hb. rewrite !elem_of_cons, elem_of_nil in Hb.
    by destruct Hb as [->|[->|[]]].
  - intros params h v (_ & sig & _ & ->)%sign_and_build_payload_Ok. apply gateway_form_payload.
Qed.
End gateway_json.

(** ** The transaction that is proved *)

Section proving_tx.
Context `{FeltLaws} `{!Crypto}.

(** The standard hash that a reader of the transaction recomputes from its
    fields: no proof facts, the RPC's names of the bounds. *)
Definition standard_receiver_hash (chain : Felt) (v : Value) : option Felt :=
  sender ← read_felt v "sender_address";
  cd ← read_felts v "calldata";
  n ← read_felt v "nonce";
  t ← read_felt v "tip";
  b ← get v "resource_bounds" ≫= read_bounds "l1_gas" "l2_gas" "l1_data_gas";
  pay ← read_felts v "paymaster_data";
  acc ← read_felts v "account_deployment_data";
  Some (compute_invoke_v3_tx_hash sender cd chain n t b pay acc 0 0 []).

Lemma felt_from_hex_parse s f : felt_from_hex s = Ok f → felt_parse_hex s = Ok f.
Proof. apply map_err_Ok. Qed.

Lemma collect_from_hex_parse l fs : collect_res felt_from_hex l = Ok fs → collect_res felt_parse_hex l = Ok fs.
Proof.
  rewrite !collect_res_Ok. intros Hl. eapply Forall2_impl; [exact Hl|]. intros s f. apply felt_from_hex_parse.
Qed.

Lemma read_felt_nonce v k n : get_str v k = Some (fmt_hex n) → in_u u64_max n →
  read_felt v k = Some (felt_of n).
Proof.
  intros Hg [? ?]. assert (u64_max < stark_prime) by done. unfold read_felt. rewrite Hg. simpl.
  by rewrite (felt_from_hex_parse _ _ (felt_from_hex_fmt n ltac:(lia))).
Qed.

Lemma read_felts_words v k words fs : get v k = Some (json_strings words) →
  collect_res felt_from_hex words = Ok fs → read_felts v k = Some fs.
Proof.
  intros Hg Hw%collect_from_hex_parse. unfold read_felts. rewrite Hg. simpl.
  by rewrite array_strings_json, Hw.
Qed.

Lemma tx_json_hash c felts calldata nonce sig :
  collect_res felt_from_hex calldata = Ok (pf_calldata felts) →
  felt_from_hex (account_address c) = Ok (pf_sender felts) → in_u u64_max nonce →
  standard_receiver_hash (pf_chain_id felts) (tx_json c calldata nonce sig) =
    Some (standard_tx_hash felts nonce) ∧
  read_felts (tx_json c calldata nonce sig) "signature" = Some [sig_r sig; sig_s sig].
Proof.
  intros Hcd Hsender%felt_from_hex_parse Hnonce. split.
  - unfold standard_receiver_hash. set (v := tx_json c calldata nonce sig).
    assert (read_felt v "sender_address" = Some (pf_sender felts)) as ->.
    { unfold read_felt. change (get_str v "sender_address") with (Some (account_address c)).
      simpl. by rewrite Hsender. }
    assert (read_felt v "tip" = Some (felt_of 0)) as ->.
    { unfold read_felt. change (get_str v "tip") with (Some "0x0"). simpl. by rewrite parse_hex_0x0. }
    rewrite (read_felts_words v "calldata" _ _ eq_refl Hcd).
    rewrite (read_felt_nonce v "nonce" _ eq_refl Hnonce).
    change (get v "resource_bounds") with (Some (to_rpc_json zero_fee)).
    unfold mbind, option_bind. rewrite read_rpc_json by apply zero_fee_ok. done.
  - by apply (read_felts_json _ "signature" [sig_r sig; sig_s sig]).
Qed.
End proving_tx.

(** ** Submission *)

Section retry.
Context {W : Type} `{Http W} `{Clock W} `{SerdeJson} `{FeltOps} `{!Crypto} `{Env W}.
Context `{Process W} `{Files W} `{Random W} `{Gateway W}.
Context `{Statics W} `{Console W} `{DriverHost W}.

(** One attempt: accepted, to be repeated, or refused for good. *)
Inductive reply :=
  | Accepted (text tx_hash : string)
  | NotYet (line : string)
  | Refused (msg : string).

(** The abstract loop: attempts until one is not [NotYet], ten seconds
    between them. *)
Fixpoint retry_loop (left : nat) (round : nat → W → reply * W) : prog W string (option string) :=
  match left with
  | O => mret None
  | S left' => λ w,
      let '(r, w1) := round (S max_attempts - left)%nat w in
      (match r with
       | Accepted text tx_hash => pass text;; mret (Some tx_hash)
       | NotYet line => info line;; modify (sleep (from_secs 10));; retry_loop left' round
       | Refused msg => fail msg;; mret None
       end) w1
  end.

Definition gateway_reply (n : nat) (tx_hash : string) (response : string + (string + Value)) : reply :=
  match response with
  | inr resp =>
      let body := match resp with inr v => v | inl _ => JNull end in
      if decide (default "" (get_str body "code") = "TRANSACTION_RECEIVED")
      then Accepted ("Gateway accepted (attempt " +:+ attempt_text n +:+ ")") tx_hash
      else if gateway_not_ready (default "" (get_str body "message")) && Nat.ltb n max_attempts
      then NotYet ("  Attempt " +:+ attempt_text n +:+ ": gateway not ready, waiting 10s...")
      else Refused ("Gateway rejected: " +:+ json_to_string body)
  | inl e =>
      if Nat.ltb n max_attempts
      then NotYet ("  Attempt " +:+ attempt_text n +:+ ": request failed (" +:+ e +:+ "), retrying...")
      else Refused ("Gateway request failed: " +:+ e)
  end.

Definition gateway_round (url : string) (gw_tx : Value) (tx_hash : string) (n : nat) (w : W)
    : reply * W :=
  let '(response, w1) := post_gateway url gw_tx w in (gateway_reply n tx_hash response, w1).

Definition rpc_reply (n : nat) (r : res RpcError string) : reply :=
  match r with
  | Ok hash => Accepted ("RPC accepted (attempt " +:+ attempt_text n +:+ "): " +:+ hash) hash
  | Err e =>
      match e, Nat.ltb n max_attempts with
      | JsonRpc msg, true =>
          NotYet ("  Attempt " +:+ attempt_text n +:+ ": RPC error, waiting 10s... (" +:+ msg +:+ ")")
      | _, _ => Refused ("RPC submission failed: " +:+ rpc_error_text e)
      end
  | _ => Refused ""
  end.

Definition rpc_round (rpc : StarknetRpc) (tx : Value) (n : nat) (w : W) : reply * W :=
  let '(r, w1) := add_invoke_transaction rpc tx w in (rpc_reply n r, w1).

(** The round of a submission, through the gateway or the node. *)
Definition submit_round (c : Config) (submission : Felt * Value) : nat → W → reply * W :=
  match gateway_url c with
  | Some gw_url => gateway_round (submit_url gw_url) (gateway_form submission.2) (felt_hex submission.1)
  | None => rpc_round (client c) submission.2
  end.

Lemma gateway_loop_retry left url tx h w : (left ≤ max_attempts)%nat →
  gateway_loop left url tx h w = retry_loop left (gateway_round url tx h) w.
Proof.
  revert w. induction left as [|left IH]; intros w Hleft; [done|].
  cbn [gateway_loop retry_loop]. cbv zeta. unfold gateway_round at 1.
  unfold mbind at 1, prog_bind at 1, call_host. destruct (post_gateway url tx w) as [[e|resp] w1].
  - unfold gateway_reply. destruct (Nat.ltb_spec (S max_attempts - S left) max_attempts) as [|Hl].
    + unfold mbind, prog_bind, info, modify. apply IH. lia.
    + assert (left = 0%nat) as -> by lia. done.
  - unfold gateway_reply. cbv zeta. destruct (decide _); [done|].
    destruct (_ && _); [|done]. unfold mbind, prog_bind, info, modify. apply IH. lia.
Qed.

Lemma rpc_loop_retry c left tx w : (left ≤ max_attempts)%nat →
  rpc_loop c left tx w = retry_loop left (rpc_round (client c) tx) w.
Proof.
  revert w. induction left as [|left IH]; intros w Hleft; [done|].
  cbn [rpc_loop retry_loop]. cbv zeta. unfold rpc_round at 1.
  unfold mbind at 1, prog_bind at 1, attempt.
  destruct (add_invoke_outcome (client c) tx w) as (o & w1 & -> & [[h ->]|[e ->]]); cbn [rpc_reply]; [done|].
  destruct e; try done. destruct (_ <? _)%nat; [|done].
  unfold mbind, prog_bind, info, modify. apply IH. lia.
Qed.

(** [n] rounds that were answered [NotYet], each followed by ten seconds. *)
Inductive retried (round : nat → W → reply * W) : nat → W → W → Prop :=
  | Retried0 w : retried round 0 w w
  | RetriedS n w w1 line w2 :
      retried round n w w1 → round (S n) w1 = (NotYet line, w2) →
      retried round (S n) w (sleep (from_secs 10) (trace_info line w2)).

(** The last attempt is never repeated. *)
Definition settles (round : nat → W → reply * W) : Prop :=
  ∀ w line w1, round max_attempts w ≠ (NotYet line, w1).

(** How a submission ended, and what it recorded. *)
Definition submission_end (round : nat → W → reply * W) (w : W) (r : res string (option string)) (w' : W)
    : Prop :=
  ∃ n w1 w2, (n < max_attempts)%nat ∧ retried round n w w1 ∧
    ((∃ text h, round (S n) w1 = (Accepted text h, w2) ∧ (pass text;; mret (Some h)) w2 = (r, w')) ∨
     (∃ msg, round (S n) w1 = (Refused msg, w2) ∧ (fail msg;; mret None) w2 = (r, w'))).

Lemma retry_loop_end round left w0 w r w' :
  settles round → (1 ≤ left ≤ max_attempts)%nat → retried round (max_attempts - left) w0 w →
  retry_loop left round w = (r, w') → submission_end round w0 r w'.
Proof.
  intros Hset. revert w. induction left as [|left IH]; intros w Hleft Hret; [lia|].
  cbn [retry_loop]. replace (S max_attempts - S left)%nat with (S (max_attempts - S left)) by lia.
  destruct (round (S (max_attempts - S left)) w) as [[text h|line|msg] w1] eqn:Hround; intros Hrun.
  - exists (max_attempts - S left)%nat, w, w1. split_and!; [lia|done|]. left. eauto.
  - destruct left as [|left'].
    { exfalso. apply (Hset w line w1). by rewrite <-Hround. }
    eapply (IH (sleep (from_secs 10) (trace_info line w1))); [lia| |exact Hrun].
    replace (max_attempts - S left')%nat with (S (max_attempts - S (S left'))) by lia.
    by eapply RetriedS.
  - exists (max_attempts - S left)%nat, w, w1. split_and!; [lia|done|]. right. eauto.
Qed.

Lemma submit_round_settles c submission : settles (submit_round c submission).
Proof.
  unfold settles, submit_round. intros w line w1. destruct (gateway_url c) as [gw|].
  - unfold gateway_round. destruct (post_gateway _ _ w) as [[e|resp] w2]; unfold gateway_reply.
    + by rewrite Nat.ltb_irrefl.
    + cbv zeta. destruct (decide _); [done|]. by rewrite Nat.ltb_irrefl, andb_false_r.
  - unfold rpc_round.
    destruct (add_invoke_outcome (client c) submission.2 w) as (o & w2 & -> & [[h ->]|[e ->]]);
      unfold rpc_reply; [done|]. rewrite Nat.ltb_irrefl. by destruct e.
Qed.

Lemma submit_retry c more submission w :
  submit c more submission w =
  (info ("  Submitting tx " +:+ felt_hex submission.1
     +:+ match gateway_url c with Some _ => " via gateway..." | None => " via RPC..." end);;
   for_each info more;; retry_loop max_attempts (submit_round c submission)) w.
Proof.
  destruct submission as [hash tx]. unfold submit, submit_round. cbn [fst snd].
  destruct (gateway_url c); unfold mbind, prog_bind; destruct (info _ w) as [[] w1]; try done;
    destruct (for_each info more w1) as [[] w2]; try done;
    [apply gateway_loop_retry|apply rpc_loop_retry]; lia.
Qed.

Lemma for_each_info {E} lines (w : W) : ∃ l w', for_each (E:=E) info lines w = (Ok l, w').
Proof.
  revert w. induction lines as [|x lines IH]; intros w; [by exists [], w|]. cbn [for_each].
  destruct (IH (trace_info x w)) as (l & w' & Hl). exists (tt :: l), w'.
  unfold mbind, prog_bind, info, modify. unfold info, modify in Hl. by rewrite Hl.
Qed.

(** What the acceptance of one attempt means. *)
Definition submit_accepts (c : Config) (submission : Felt * Value) (h : string) (w w' : W) : Prop :=
  match gateway_url c with
  | Some gw_url =>
      h = felt_hex submission.1 ∧
      ∃ body, post_gateway (submit_url gw_url) (gateway_form submission.2) w = (inr (inr body), w') ∧
        get_str body "code" = Some "TRANSACTION_RECEIVED"
  | None => add_invoke_transaction (client c) submission.2 w = (Ok h, w')
  end.

Lemma submit_round_accepts c submission n text h w w' :
  submit_round c submission n w = (Accepted text h, w') → submit_accepts c submission h w w'.
Proof.
  unfold submit_round, submit_accepts. destruct (gateway_url c) as [gw|].
  - unfold gateway_round. destruct (post_gateway _ _ w) as [[e|resp] w2]; unfold gateway_reply.
    + by destruct (_ <? _)%nat.
    + cbv zeta. destruct (decide _) as [Hc|]; [|by destruct (_ && _)]. intros [= _ <- <-]. split; [done|].
      destruct resp as [e|body]; [done|]. exists body. split; [done|].
      by destruct (get_str body "code") as [code|]; simpl in Hc; [subst code|].
  - unfold rpc_round.
    destruct (add_invoke_outcome (client c) submission.2 w) as (o & w2 & Ho & [[x ->]|[e ->]]);
      rewrite Ho; unfold rpc_reply; [by intros [= _ -> ->]|].
    destruct e; try done. by destruct (_ <? _)%nat.
Qed.
End retry.

#[export] Hint Resolve submit_round_settles : snip.

(** ** Counting *)

Section counting.
Context {W : Type} `{Http W} `{Clock W} `{SerdeJson} `{FeltOps} `{!Crypto} `{Env W}.
Context `{Process W} `{Files W} `{Random W} `{Gateway W}.
Context `{Statics W} `{Console W} `{DriverHost W} `{!DriverLaws}.

Definition printed_pass (text : string) (w : W) : W :=
  trace_info "" (trace_info ("  PASS: " +:+ text) (trace_info "" (set_tally (count_pass (tally w)) w))).
Definition printed_fail (msg : string) (w : W) : W :=
  trace_error "" (trace_error ("  FAIL: " +:+ msg) (trace_error "" (set_tally (count_fail (tally w)) w))).

Lemma pass_eq {E} text (w : W) : pass (E:=E) text w = (Ok tt, printed_pass text w).
Proof. done. Qed.
Lemma fail_eq {E} msg (w : W) : fail (E:=E) msg w = (Ok tt, printed_fail msg w).
Proof. done. Qed.

Lemma kept_tally (w w' : W) : (∀ P, stable_calls P → P w → P w') → tally w' = tally w.
Proof. intros Hk. exact (Hk _ (tally_kept (tally w)) eq_refl). Qed.

Lemma printed_pass_tally text (w : W) : tally (printed_pass text w) = count_pass (tally w).
Proof.
  rewrite <-(tally_set (count_pass (tally w)) w). apply kept_tally.
  intros P HP Hw. unfold printed_pass. by repeat apply (calls_info P HP).
Qed.
Lemma printed_fail_tally msg (w : W) : tally (printed_fail msg w) = count_fail (tally w).
Proof.
  rewrite <-(tally_set (count_fail (tally w)) w). apply kept_tally.
  intros P HP Hw. unfold printed_fail. by repeat apply (calls_error P HP).
Qed.

(** *** Programs that record no failure *)

(** When [m] returns a value, no check failed in it. *)
Definition quiet {A} (m : prog W string A) : Prop :=
  ∀ w a w', m w = (Ok a, w') → fail_count (tally w') = fail_count (tally w).

(** No call of [m] touches the statics. *)
Definition silent {E A} (m : prog W E A) : Prop := ∀ P, stable_calls P → preserves P m.

Lemma silent_quiet {A} (m : prog W string A) : silent m → quiet m.
Proof.
  intros Hm w a w' Hrun. f_equal. apply kept_tally. intros P HP Hw.
  specialize (Hm P HP w Hw). by rewrite Hrun in Hm.
Qed.

Lemma silent_tally {E A} (m : prog W E A) w r w' : silent m → m w = (r, w') → tally w' = tally w.
Proof.
  intros Hm Hrun. apply kept_tally. intros P HP Hw. specialize (Hm P HP w Hw). by rewrite Hrun in Hm.
Qed.

Lemma quiet_bind {A B} (m : prog W string A) (k : A → prog W string B) :
  quiet m → (∀ a, quiet (k a)) → quiet (m ≫= k).
Proof.
  intros Hm Hk w b w' (a & w1 & Ha & Hb)%prog_bind_Ok.
  by rewrite (Hk a w1 b w' Hb), (Hm w a w1 Ha).
Qed.

Lemma quiet_throw {A} e : quiet (throw (A:=A) e).
Proof. by intros w a w' [=]. Qed.

Lemma quiet_pass text : quiet (pass text).
Proof. intros w a w'. rewrite pass_eq. intros [= _ <-]. by rewrite printed_pass_tally. Qed.

Lemma quiet_fail_with {A} msg reason : quiet (fail_with (A:=A) msg reason).
Proof. by intros w a w' (? & ? & _ & [=])%prog_bind_Ok. Qed.

Lemma quiet_for_each {A B} (f : A → prog W string B) l : (∀ x, quiet (f x)) → quiet (for_each f l).
Proof.
  intros Hf. induction l as [|x l IH]; cbn [for_each]; [by intros w a w' [= _ <-]|].
  apply quiet_bind; [done|]. intros y. apply quiet_bind; [done|]. by intros ys w a w' [= _ <-].
Qed.

Lemma open_step_tally name time t : fail_count (open_step name time (close_step time t)) = fail_count t.
Proof. unfold close_step. by destruct (step_start t) as [[]|]. Qed.

Lemma quiet_step n title : quiet (step n title).
Proof.
  unfold step. cbv zeta. apply quiet_bind.
  - intros w a w' [= _ <-]. by rewrite tally_set, open_step_tally.
  - intros _. apply silent_quiet. intros P HP. unfold info. repeat driver_step HP.
Qed.

(** *** The submission *)

Lemma retried_keeps round n (w w1 : W) (P : W → Prop) :
  (∀ n w1 P, stable_calls P → P w1 → P (round n w1).2) → stable_calls P →
  retried round n w w1 → P w → P w1.
Proof.
  intros Hround HP Hret Hw. induction Hret as [|n w0 w1 line w3 _ IH Hr]; [done|].
  apply (calls_sleep P HP), (calls_info P HP).
  pose proof (Hround (S n) w1 P HP (IH Hw)) as Hp. by rewrite Hr in Hp.
Qed.

Lemma submission_end_cases round (w : W) r w' :
  (∀ n w1 P, stable_calls P → P w1 → P (round n w1).2) → submission_end round w r w' →
  ∃ n w1 w2, (n < max_attempts)%nat ∧ retried round n w w1 ∧
    ((∃ text h, round (S n) w1 = (Accepted text h, w2) ∧ r = Ok (Some h) ∧
        tally w' = count_pass (tally w)) ∨
     (∃ msg, round (S n) w1 = (Refused msg, w2) ∧ r = Ok None ∧ tally w' = count_fail (tally w))).
Proof.
  intros Hround (n & w1 & w2 & Hn & Hret & Hend).
  assert (tally w2 = tally w) as Ht.
  { apply kept_tally. intros P HP Hw.
    pose proof (Hround (S n) w1 P HP (retried_keeps round n w w1 P Hround HP Hret Hw)) as Hp.
    by destruct Hend as [(? & ? & Hr & _)|(? & Hr & _)]; rewrite Hr in Hp. }
  exists n, w1, w2. split; [done|]. split; [done|]. destruct Hend as [(text & h & Hr & Hp)|(msg & Hr & Hf)].
  - left. exists text, h. split; [done|]. unfold mbind, prog_bind in Hp. rewrite pass_eq in Hp.
    injection Hp as <- <-. by rewrite printed_pass_tally, Ht.
  - right. exists msg. split; [done|]. unfold mbind, prog_bind in Hf. rewrite fail_eq in Hf.
    injection Hf as <- <-. by rewrite printed_fail_tally, Ht.
Qed.

Lemma submit_round_keeps c submission n w (P : W → Prop) :
  stable_calls P → P w → P (submit_round c submission n w).2.
Proof.
  intros HP Hw. unfold submit_round. destruct (gateway_url c) as [gw|].
  - unfold gateway_round. pose proof (calls_gateway P HP (submit_url gw) (gateway_form submission.2) w Hw) as Hg.
    by destruct (post_gateway _ _ w).
  - unfold rpc_round.
    assert (preserves P (add_invoke_transaction (client c) submission.2)) as Hk
      by (unfold add_invoke_transaction; repeat driver_step HP).
    specialize (Hk w Hw). by destruct (add_invoke_transaction _ _ w).
Qed.
End counting.

(** ** The claims on submission *)

Section submission.
Context {W : Type} `{Http W} `{Clock W} `{SerdeJson} `{FeltOps} `{!Crypto} `{Env W}.
Context `{Process W} `{Files W} `{Random W} `{Gateway W}.
Context `{Statics W} `{Console W} `{DriverHost W} `{!DriverLaws}.

Lemma silent_info {E} line : silent (info (E:=E) line).
Proof. intros P HP. unfold info. repeat driver_step HP. Qed.

Lemma silent_lines {E} lines : silent (for_each (info (E:=E)) lines).
Proof. intros P HP. apply preserves_for_each. intros. by apply silent_info. Qed.

(** The printing before the first attempt. *)
Lemma submit_start c more submission (w : W) :
  ∃ w0, (∀ P, stable_calls P → P w → P w0) ∧ now w0 = now w ∧
    submit c more submission w = retry_loop max_attempts (submit_round c submission) w0.
Proof.
  rewrite submit_retry. unfold mbind, prog_bind.
  set (line := ("  Submitting tx " +:+ _)%string).
  destruct (for_each_info (E:=string) more (trace_info line w)) as (l & w0 & Hl).
  exists w0. split_and!; [| |unfold info at 1, modify; by rewrite Hl].
  - intros P HP Hw.
    pose proof (silent_lines (E:=string) more P HP (trace_info line w) (calls_info P HP _ _ Hw)) as Hk.
    by rewrite Hl in Hk.
  - assert (preserves (λ v, now v = now (trace_info line w)) (for_each (info (E:=string)) more)) as Hk.
    { apply preserves_for_each. intros x w1 Hw1. 
      change (now (trace_info x w1) = now (trace_info line w)). by rewrite (now_info x w1). }
    specialize (Hk (trace_info line w) eq_refl). rewrite Hl in Hk. simpl in Hk. by rewrite Hk, now_info.
Qed.

Lemma submit_cases c more submission (w : W) r w' :
  submit c more submission w = (r, w') →
  ∃ w0 n w1 w2, (∀ P, stable_calls P → P w → P w0) ∧ (n < max_attempts)%nat ∧
    retried (submit_round c submission) n w0 w1 ∧
    ((∃ text h, submit_round c submission (S n) w1 = (Accepted text h, w2) ∧ r = Ok (Some h) ∧
        tally w' = count_pass (tally w)) ∨
     (∃ msg, submit_round c submission (S n) w1 = (Refused msg, w2) ∧ r = Ok None ∧
        tally w' = count_fail (tally w))).
Proof.
  destruct (submit_start c more submission w) as (w0 & Hw0 & _ & ->). intros Hrun.
  eapply retry_loop_end in Hrun; [|apply submit_round_settles|unfold max_attempts; lia|constructor].
  apply submission_end_cases in Hrun as (n & w1 & w2 & Hn & Hret & Hend).
  - exists w0, n, w1, w2. by rewrite <-(kept_tally w w0 Hw0).
  - intros. by apply submit_round_keeps.
Qed.

(** C30: A submission always ends, after at most nineteen repeated attempts with
    ten seconds between them, in one of two ways: some attempt was accepted,
    its hash is the result and one passed check is recorded; or an attempt
    was refused for good, there is no hash and exactly one failed check is
    recorded. Neither an error nor an unrecorded exhaustion is possible. *)
Theorem submit_spec c more submission (w : W) r w' :
  submit c more submission w = (r, w') →
  ∃ w0 n w1 w2, follows stable_calls w w0 ∧ (n < max_attempts)%nat ∧
    retried (submit_round c submission) n w0 w1 ∧
    ((∃ h, r = Ok (Some h) ∧ submit_accepts c submission h w1 w2 ∧ tally w' = count_pass (tally w)) ∨
     (r = Ok None ∧ tally w' = count_fail (tally w) ∧
        ∃ msg, submit_round c submission (S n) w1 = (Refused msg, w2))).
Proof.
  intros (w0 & n & w1 & w2 & Hw0 & Hn & Hret & Hend)%submit_cases.
  exists w0, n, w1, w2. split_and!; [exact Hw0|done|done|].
  destruct Hend as [(text & h & Hr & -> & Ht)|(msg & Hr & -> & Ht)].
  - left. exists h. split_and!; [done|by eapply submit_round_accepts|done].
  - right. eauto.
Qed.

(** *** Liveness *)

Context `{!ClockLaws W}.

(** A gateway that is not ready before time [T] and accepts from then on. *)
Definition ready_from (T : Z) (url : string) (tx : Value) : Prop :=
  ∀ w, ∃ r w1, post_gateway url tx w = (r, w1) ∧
    if now w <? T
    then match r with
         | inl _ => True
         | inr (inl _) => False
         | inr (inr body) => default "" (get_str body "code") ≠ "TRANSACTION_RECEIVED" ∧
             gateway_not_ready (default "" (get_str body "message")) = true
         end
    else ∃ body, r = inr (inr body) ∧ get_str body "code" = Some "TRANSACTION_RECEIVED".

Lemma retry_loop_live T url tx h left (w : W) :
  ready_from T url tx → (1 ≤ left ≤ max_attempts)%nat →
  T ≤ now w + Z.of_nat (left - 1) * from_secs 10 →
  ∃ w', retry_loop left (gateway_round url tx h) w = (Ok (Some h), w').
Proof.
  intros Hready. revert w. induction left as [|left IH]; intros w Hleft Hnow; [lia|].
  cbn [retry_loop]. unfold gateway_round at 1. pose proof (now_gateway url tx w) as Hg.
  destruct (Hready w) as (r & w1 & Hp & Hr). rewrite Hp in *. cbn [snd] in Hg. unfold gateway_reply.
  destruct (Z.ltb_spec (now w) T) as [Hlt|Hge].
  - destruct left as [|left]; [simpl in Hnow; lia|].
    replace (S max_attempts - S (S left))%nat with (max_attempts - S left)%nat by lia.
    rewrite (proj2 (Nat.ltb_lt (max_attempts - S left) max_attempts)) by lia.
    assert (∀ line, ∃ w', (info line;; modify (sleep (from_secs 10));;
      retry_loop (S left) (gateway_round url tx h)) w1 = (Ok (Some h), w')) as Hnext.
    { intros line. unfold info, modify, mbind, prog_bind. apply IH; [lia|].
      pose proof (sleep_now (from_secs 10) (trace_info line w1)) as Hs.
      rewrite now_info in Hs. unfold from_secs in *. lia. }
    destruct r as [e|[e|body]]; [apply Hnext|done|]. destruct Hr as [Hc Hm].
    rewrite decide_False, Hm by done. apply Hnext.
  - destruct Hr as (body & -> & Hc). rewrite Hc, decide_True by done. eauto.
Qed.

(** A gateway that becomes ready at most 190 seconds after a submission
    starts does accept it: whatever it answered or failed to answer while it
    was not ready, the submission ends with the hash of the signed
    transaction and records one passed check. *)
Theorem submit_live c more submission gw_url T (w : W) :
  gateway_url c = Some gw_url →
  ready_from T (submit_url gw_url) (gateway_form submission.2) → T ≤ now w + from_secs 190 →
  ∃ w', submit c more submission w = (Ok (Some (felt_hex submission.1)), w') ∧
    tally w' = count_pass (tally w).
Proof.
  intros Hgw Hready Hnow. destruct (submit_start c more submission w) as (w0 & Hw0 & Hn0 & Heq).
  destruct (retry_loop_live T (submit_url gw_url) (gateway_form submission.2) (felt_hex submission.1)
    max_attempts w0) as (w' & Hrun); [done|unfold max_attempts; lia|unfold max_attempts, from_secs in *; lia|].
  exists w'. assert (Hr : submit c more submission w = (Ok (Some (felt_hex submission.1)), w')).
  { rewrite Heq. unfold submit_round. by rewrite Hgw. }
  split; [done|].
  apply submit_cases in Hr as (? & n & w1 & w2 & _ & _ & _ & [(? & ? & _ & _ & Ht)|(? & _ & [=] & _)]).
  exact Ht.
Qed.
End submission.

(** ** Timed steps *)

Section steps.
Context {W : Type} `{Http W} `{Clock W} `{Env W} `{Process W} `{Files W} `{Random W} `{Gateway W}.
Context `{Statics W} `{Console W} `{DriverHost W} `{!DriverLaws}.

(** The worlds of a run, with the steps that were started and when: between
    two steps only checks are counted, and time does not run backwards. *)
Inductive driven : list (string * Z) → W → Prop :=
  | DrivenReset w : driven [] (set_tally cleared w)
  | DrivenStep marks w n title :
      driven marks w →
      driven (marks ++ [("Step " +:+ pretty n +:+ ": " +:+ title, now w)])%list
        (step (E:=string) n title w).2
  | DrivenOther marks w w' :
      driven marks w → now w ≤ now w' →
      step_timings (tally w') = step_timings (tally w) → step_start (tally w') = step_start (tally w) →
      driven marks w'.

(** Each step lasts until the next one starts, the last until [stop]. *)
Fixpoint spans (marks : list (string * Z)) (stop : Z) : list (string * Z) :=
  match marks with
  | [] => []
  | (name, t) :: rest => (name, match rest with (_, t') :: _ => t' | [] => stop end - t) :: spans rest stop
  end.

Definition total_span (l : list (string * Z)) : Z := foldr (λ x acc, x.2 + acc) 0 l.

Lemma spans_snoc marks name t stop :
  spans (marks ++ [(name, t)])%list stop = (spans marks t ++ [(name, stop - t)])%list.
Proof.
  induction marks as [|[n u] marks IH]; [done|]. cbn [app spans]. rewrite IH.
  destruct marks as [|[n' u'] marks]; done.
Qed.

Lemma total_span_app l l' : total_span (l ++ l')%list = total_span l + total_span l'.
Proof. induction l as [|x l IH]; [done|]. cbn [app total_span foldr] in *. unfold total_span in *. lia. Qed.

Lemma total_spans marks name t stop : total_span (spans ((name, t) :: marks) stop) = stop - t.
Proof.
  revert name t. induction marks as [|[n u] marks IH]; intros name t; cbn; [lia|].
  specialize (IH n u). unfold total_span in IH. cbn in IH. lia.
Qed.

Definition on_record (marks : list (string * Z)) (w : W) : Prop :=
  match last marks with
  | None => step_timings (tally w) = [] ∧ step_start (tally w) = None
  | Some (name, t) =>
      ∃ done_, marks = (done_ ++ [(name, t)])%list ∧ step_timings (tally w) = spans done_ t ∧
        Forall (λ x, 0 ≤ x.2) (spans done_ t) ∧ step_start (tally w) = Some (name, t) ∧ t ≤ now w
  end.

Lemma step_world n title (w : W) : let w' := (step (E:=string) n title w).2 in
  now w' = now w ∧
  tally w' = open_step ("Step " +:+ pretty n +:+ ": " +:+ title) (now w) (close_step (now w) (tally w)).
Proof.
  unfold step, info, modify, mbind, prog_bind. cbn -[String.append]. split.
  - by rewrite !now_info, now_set.
  - match goal with |- tally (trace_info _ ?w') = _ => idtac end.
    etransitivity; [|apply (tally_set _ w)]. apply kept_tally.
    intros P HP Hw. by repeat apply (calls_info P HP).
Qed.

(** The steps of [marks] when the clock shows [time]. *)
Lemma on_record_close marks (w : W) time :
  on_record marks w → now w ≤ time →
  step_timings (close_step time (tally w)) = spans marks time ∧
  Forall (λ x, 0 ≤ x.2) (spans marks time) ∧ step_start (close_step time (tally w)) = None.
Proof.
  unfold on_record, close_step. destruct (last marks) as [[name t]|] eqn:Hlast.
  - intros (done_ & -> & Ht & Hpos & -> & Hle) Htime. cbn [step_timings step_start].
    rewrite spans_snoc, Ht, Z.max_r by lia. split_and!; [done| |done].
    apply Forall_app. split; [done|]. repeat constructor. cbn. lia.
  - apply last_None in Hlast as ->. intros [Ht Hs] _. rewrite Hs, Ht. by split_and!.
Qed.

Lemma driven_on_record marks (w : W) : driven marks w → on_record marks w.
Proof.
  induction 1 as [w|marks w n title _ IH|marks w w' _ IH Hnow Ht Hs]; unfold on_record.
  - cbn. by rewrite tally_set.
  - rewrite last_snoc. destruct (step_world n title w) as [Hn Htally]. rewrite Htally, Hn.
    destruct (on_record_close marks w (now w) IH (Z.le_refl _)) as (Hc & Hpos & _).
    exists marks. cbn [open_step step_timings step_start]. split_and!; try done.
  - unfold on_record in IH. rewrite Ht, Hs. destruct (last marks) as [[name t]|]; [|done].
    destruct IH as (done_ & ? & ? & ? & ? & ?). exists done_. split_and!; try done. lia.
Qed.

(** However the checks and the steps of a run interleave, finishing records
    every step that was started exactly once, in order, each with the time
    until the next one started; the times are not negative and add up to the
    time since the first step, and no step stays open. *)
Theorem steps_recorded marks (w : W) :
  driven marks w →
  ∃ w', finish_last_step (E:=string) w = (Ok tt, w') ∧
    step_timings (tally w') = spans marks (now w) ∧
    (step_timings (tally w')).*1 = marks.*1 ∧
    Forall (λ x, 0 ≤ x.2) (step_timings (tally w')) ∧
    (∀ name t rest, marks = (name, t) :: rest → total_span (step_timings (tally w')) = now w - t) ∧
    step_start (tally w') = None.
Proof.
  intros Hd%driven_on_record. destruct (on_record_close marks w (now w) Hd (Z.le_refl _)) as (Ht & Hpos & Hs).
  unfold finish_last_step, modify. eexists. split; [reflexivity|].
  rewrite tally_set, Ht, Hs. split_and!; try done.
  - generalize (now w). clear. intros stop. induction marks as [|[n t] marks IH]; [done|].
    cbn [spans fmap list_fmap]. by rewrite IH.
  - intros name t rest ->. apply total_spans.
Qed.
End steps.

(** ** What the phases keep, and which of them record no failure *)

Ltac keeps_driver HP := repeat first
  [ progress unfold pass, fail, info, warn, error, on_tally, fail_with, step, finish_last_step,
      reset_statics, wrapped, rpc_, require_command, require_file
  | driver_step (driver_calls _ HP) | apply (driver_tally _ HP); assumption ].

(** A program that makes no use of the statics. *)
Ltac silences := intros ? ?; repeat first
  [ progress unfold info, warn, error, wrapped, rpc_, require_command, require_file
  | match goal with HP : stable_calls _ |- _ => driver_step HP end ].

Create HintDb quiet discriminated.
#[export] Hint Constants Opaque : quiet.

Ltac quiets := repeat first
  [ match goal with
    | |- quiet (_ ≫= _) => apply quiet_bind; [|intros]
    | |- quiet (throw _) => apply quiet_throw
    | |- quiet (pass _) => apply quiet_pass
    | |- quiet (fail_with _ _) => apply quiet_fail_with
    | |- quiet (step _ _) => apply quiet_step
    | |- quiet (for_each _ _) => apply quiet_for_each; intros
    end
  | solve [eauto 2 with quiet nocore]
  | progress cbv zeta | case_match
  | apply silent_quiet; solve [silences] ].

Section phases.
Context {W : Type} `{Http W} `{Clock W} `{SerdeJson} `{FeltOps} `{!Crypto} `{Env W}.
Context `{Process W} `{Files W} `{Random W} `{Gateway W} `{RegexLite} `{JsonText}.
Context `{Statics W} `{Console W} `{DriverHost W} `{!DriverLaws}.

Abbreviation then_follows := (follows stable_driver).

Section keeps.
Context (P : W → Prop) (HP : stable_driver P).

Lemma pass_keeps {E} text : preserves (E:=E) P (pass text).
Proof. keeps_driver HP. Qed.
Lemma fail_keeps {E} text : preserves (E:=E) P (fail text).
Proof. keeps_driver HP. Qed.
Lemma step_keeps {E} n title : preserves (E:=E) P (step n title).
Proof. keeps_driver HP. Qed.

Lemma retry_loop_keeps left round :
  (∀ n w, P w → P (round n w).2) → preserves P (retry_loop left round).
Proof.
  intros Hround. induction left as [|left IH]; [apply preserves_ret|]. cbn [retry_loop]. intros w Hw.
  specialize (Hround (S max_attempts - S left)%nat w Hw).
  destruct (round (S max_attempts - S left)%nat w) as [[text h|line|msg] w1]; cbn [snd] in Hround.
  - revert w1 Hround. change (preserves P (pass text;; mret (Some h) : prog W string (option string))).
    keeps_driver HP.
  - revert w1 Hround.
    change (preserves P (info line;; modify (sleep (from_secs 10));; retry_loop left round)).
    keeps_driver HP. exact IH.
  - revert w1 Hround. change (preserves P (fail msg;; mret None : prog W string (option string))).
    keeps_driver HP.
Qed.

Lemma submit_keeps c more submission : preserves P (submit c more submission).
Proof.
  intros w Hw. destruct (submit_start c more submission w) as (w0 & Hw0 & _ & ->).
  apply retry_loop_keeps; [|by apply Hw0, Hw; apply driver_calls].
  intros n w1 Hw1. by apply submit_round_keeps; [apply driver_calls|].
Qed.

End keeps.

(** *** Phases without failures *)

Lemma quiet_prereqs c b : quiet (check_prereqs c b).
Proof. unfold check_prereqs. quiets. Qed.

Lemma quiet_verify_account c pass_text fail_text reason :
  quiet (verify_account c pass_text fail_text reason).
Proof. unfold verify_account. quiets. Qed.

Lemma quiet_compile c pass_text fail_text : quiet (compile c pass_text fail_text).
Proof. unfold compile. quiets. Qed.

Lemma quiet_run_declare c account contract : quiet (run_declare c account contract).
Proof. unfold run_declare. quiets. Qed.

Lemma quiet_await_declare fuel c tx : quiet (await_declare fuel c tx).
Proof. unfold await_declare. quiets. Qed.

Lemma quiet_declare fuel c account contract text : quiet (declare_ fuel c account contract text).
Proof.
  unfold declare_. apply quiet_bind; [apply quiet_run_declare|intros out]. cbv zeta. case_match; quiets.
  apply quiet_await_declare.
Qed.

Lemma quiet_deploy c account hash text : quiet (deploy c account hash text).
Proof. unfold deploy, fresh_salt. quiets. Qed.

Lemma quiet_await_deploy fuel c tx : quiet (await_deploy fuel c tx).
Proof. unfold await_deploy. quiets. Qed.

Lemma quiet_construct c signing felts calldata nonce path :
  quiet (construct_tx c signing felts calldata nonce path).
Proof. unfold construct_tx. quiets. Qed.

Lemma quiet_run_prover c exe e1 e2 url block tx proof : quiet (run_prover c exe e1 e2 url block tx proof).
Proof. unfold run_prover. quiets. Qed.

Lemma quiet_read_submission felts nonce path reason : quiet (read_submission felts nonce path reason).
Proof. unfold read_submission, read_proof_facts, sign_submission. quiets. Qed.

(** *** What a phase that ends without an error has done *)

Lemma wrapped_Ok {E A} msg (m : prog W E A) w a w1 : wrapped msg m w = (Ok a, w1) ↔ m w = (Ok a, w1).
Proof. apply mapping_err_Ok. Qed.

Lemma try_host_Ok {E A} (f : W → (string + A) * W) (err : string → E) w a w1 :
  try_host f err w = (Ok a, w1) ↔ f w = (inr a, w1).
Proof.
  unfold try_host, call_host, mbind, prog_bind. destruct (f w) as [[e|b] w2]; cbn; [done|].
  unfold mret, prog_ret. naive_solver.
Qed.

Lemma fail_with_Ok {A} msg reason (w : W) a w1 : fail_with (A:=A) msg reason w ≠ (Ok a, w1).
Proof. by intros (? & ? & _ & [=])%prog_bind_Ok. Qed.

Lemma parsed_felts_Ok c calldata (w w1 : W) felts :
  parse_felts c calldata w = (Ok felts, w1) →
  w1 = w ∧ collect_res felt_from_hex calldata = Ok (pf_calldata felts) ∧
  felt_from_hex (account_address c) = Ok (pf_sender felts) ∧
  felt_from_hex (private_key c) = Ok (pf_key felts) ∧
  config_chain_id_felt c = Ok (pf_chain_id felts).
Proof. unfold parse_felts. intros Hrun. prog_inv. by split_and!. Qed.

Lemma construct_tx_written c signing felts calldata nonce path (w w1 : W) u :
  construct_tx c signing felts calldata nonce path w = (Ok u, w1) →
  ∃ sig, sign (pf_key felts) (standard_tx_hash felts nonce) = Ok sig ∧
    write_file path (to_string_pretty (tx_json c calldata nonce sig)) w = (inr u, w1).
Proof.
  unfold construct_tx. intros (sig & ? & [Hs%map_err_Ok ->]%lift_Ok & Hrun)%prog_bind_Ok.
  exists sig. split; [done|]. by apply try_host_Ok in Hrun.
Qed.

(** The prover was started on the block and on the file, it said that it
    succeeded, and the proof's file is there. *)
Definition prover_succeeded (c : Config) (exe : string) (url : option string) (block : Z)
    (tx_path proof_path : string) (w w1 : W) : Prop :=
  command_status exe (prove_args c url block tx_path proof_path) w = (inr true, w1) ∧
  path_exists w1 proof_path = true.

Lemma run_prover_Ok c exe e1 e2 url block tx_path proof_path (w w' : W) u :
  run_prover c exe e1 e2 url block tx_path proof_path w = (Ok u, w') →
  ∃ w1, prover_succeeded c exe url block tx_path proof_path w w1 ∧ then_follows w1 w'.
Proof.
  unfold run_prover.
  intros (success & w1 & Hrun%wrapped_Ok%try_host_Ok & Hend)%prog_bind_Ok.
  apply prog_bind_Ok in Hend as (there & ? & [= <- <-] & Hend).
  destruct success; cbn [andb] in Hend; [|by apply fail_with_Ok in Hend].
  destruct (path_exists w1 proof_path) eqn:Hp; [|by apply fail_with_Ok in Hend].
  exists w1. split; [done|]. eapply follows_run; [|exact Hend]. intros P HP. keeps_driver HP.
Qed.

(** The account's transaction with the proof in the given file, signed for its
    SNIP-36 hash. *)
Definition signed_submission (felts : task_felts) (nonce : Z) (submission : Felt * Value) : Prop :=
  ∃ params sig,
    submission = (submit_tx_hash params, payload_json params sig) ∧
    sign (pf_key felts) (submit_tx_hash params) = Ok sig ∧
    sp_calldata params = pf_calldata felts ∧ sp_sender_address params = pf_sender felts ∧
    sp_private_key params = pf_key felts ∧ sp_chain_id params = pf_chain_id felts ∧
    sp_nonce params = felt_of nonce ∧ sp_resource_bounds params = default_bounds.

Lemma sign_submission_Ok signing felts nonce b64 facts (w w1 : W) submission :
  sign_submission signing felts nonce b64 facts w = (Ok submission, w1) →
  signed_submission felts nonce submission.
Proof.
  unfold sign_submission. intros [Hs%map_err_Ok _]%lift_Ok. destruct submission as [hash v].
  apply sign_and_build_payload_Ok in Hs as (-> & sig & Hsig & ->). eexists _, sig.
  split_and!; try reflexivity. exact Hsig.
Qed.

Lemma read_submission_Ok felts nonce path reason (w w1 : W) submission :
  read_submission felts nonce path reason w = (Ok submission, w1) →
  signed_submission felts nonce submission.
Proof.
  unfold read_submission. intros Hrun.
  do 4 (apply prog_bind_Ok in Hrun as (? & ? & _ & Hrun)). by apply sign_submission_Ok in Hrun.
Qed.

Lemma retry_Ok c submission (w w' : W) r :
  retry_loop max_attempts (submit_round c submission) w = (Ok r, w') →
  ∃ wa wb, then_follows w wa ∧ then_follows wb w' ∧
    match r with
    | Some h => submit_accepts c submission h wa wb ∧ fail_count (tally w') = fail_count (tally w)
    | None => tally w' = count_fail (tally w)
    end.
Proof.
  intros Hrun.
  eapply retry_loop_end in Hrun; [|apply submit_round_settles|unfold max_attempts; lia|constructor].
  destruct Hrun as (n & w1 & w2 & Hn & Hret & Hend).
  assert (Hround : ∀ n w1 P, stable_calls P → P w1 → P (submit_round c submission n w1).2)
    by (intros; by apply submit_round_keeps).
  assert (∀ P, stable_calls P → P w → P w1) as F1.
  { intros P HP Hp. eapply (retried_keeps _ n w w1 P Hround HP Hret), Hp. }
  assert (tally w2 = tally w) as Ht.
  { apply kept_tally. intros P HP Hp. pose proof (Hround (S n) w1 P HP (F1 P HP Hp)) as Hk.
    by destruct Hend as [(? & ? & Hr & _)|(? & Hr & _)]; rewrite Hr in Hk. }
  exists w1, w2. split; [by intros P HP; apply F1, driver_calls|].
  destruct Hend as [(text & h & Hr & Hp)|(msg & Hr & Hp)]; unfold mbind, prog_bind in Hp.
  - rewrite pass_eq in Hp. injection Hp as <- <-. split_and!.
    + eapply follows_run; [|apply (pass_eq (E:=string))]. intros P HP. by apply pass_keeps.
    + by eapply submit_round_accepts.
    + by rewrite printed_pass_tally, Ht.
  - rewrite fail_eq in Hp. injection Hp as <- <-. split.
    + eapply follows_run; [|apply (fail_eq (E:=string))]. intros P HP. by apply fail_keeps.
    + by rewrite printed_fail_tally, Ht.
Qed.

Lemma submit_Ok c more submission (w w' : W) r :
  submit c more submission w = (Ok r, w') →
  ∃ wa wb, then_follows w wa ∧ then_follows wb w' ∧
    match r with
    | Some h => submit_accepts c submission h wa wb ∧ fail_count (tally w') = fail_count (tally w)
    | None => tally w' = count_fail (tally w)
    end.
Proof.
  destruct (submit_start c more submission w) as (w0 & Hw0 & _ & ->).
  intros (wa & wb & Fa & Fb & Hr)%retry_Ok. exists wa, wb.
  rewrite <-(kept_tally w w0 Hw0). split_and!; [|done|done].
  intros P HP Hp. by apply (Fa P HP), (Hw0 P (driver_calls P HP)).
Qed.

(** A driver that does not look for a gateway. *)
Definition no_gateway (c : Config) : Config := {|
  rpc_url := rpc_url c; account_address := account_address c; private_key := private_key c;
  chain_id := chain_id c; gateway_url := None; project_dir := project_dir c;
  output_dir := output_dir c; deps_dir := deps_dir c |}.

Lemma rpc_loop_Ok c submission (w w' : W) r :
  rpc_loop c max_attempts submission.2 w = (Ok r, w') →
  ∃ wa wb, then_follows w wa ∧ then_follows wb w' ∧
    match r with
    | Some h => submit_accepts (no_gateway c) submission h wa wb ∧
                fail_count (tally w') = fail_count (tally w)
    | None => tally w' = count_fail (tally w)
    end.
Proof. rewrite rpc_loop_retry by lia. apply (retry_Ok (no_gateway c) submission). Qed.

(** The block of the deployment, in which a driver's first proof is made. *)
Definition deployed_in (fuel : nat) (c : Config) (block : Z) (w w' : W) : Prop :=
  ∃ tx receipt, wait_for_tx (client c) fuel tx 120 3 w = (Ok receipt, w') ∧
    block = default 0 (receipt_block_number receipt).

Lemma await_deploy_Ok fuel c tx block (w w' : W) :
  await_deploy fuel c tx w = (Ok block, w') → ∃ w1, deployed_in fuel c block w w1 ∧ then_follows w1 w'.
Proof.
  unfold await_deploy. destruct tx as [tx|]; [|by intros ?%fail_with_Ok].
  intros (r & w1 & Hw%attempt_Ok & Hrun)%prog_bind_Ok.
  destruct Hw as [(receipt & -> & Hw)|(e & -> & _)]; [|by apply fail_with_Ok in Hrun].
  exists w1. split.
  - exists tx, receipt. split; [done|]. by apply prog_bind_Ok in Hrun as (? & ? & _ & [= <- _]).
  - eapply follows_run; [|exact Hrun]. intros P HP. keeps_driver HP.
Qed.

(** *** Single transactions *)

(** The transaction was signed for its standard hash and written, and the
    prover succeeded on it at the block. *)
Definition written_and_proved (c : Config) (felts : task_felts) (calldata : list string) (nonce : Z)
    (tx_path proof_path : string) (block : Z) (w w' : W) : Prop :=
  ∃ sig exe url wa wb wc wd,
    then_follows w wa ∧ sign (pf_key felts) (standard_tx_hash felts nonce) = Ok sig ∧
    write_file tx_path (to_string_pretty (tx_json c calldata nonce sig)) wa = (inr tt, wb) ∧
    then_follows wb wc ∧ prover_succeeded c exe url block tx_path proof_path wc wd ∧
    then_follows wd w'.

(** A proof-carrying transaction with that nonce was signed, accepted, and
    seen in a block. *)
Definition submitted_once (fuel : nat) (c : Config) (felts : task_felts) (nonce : Z) (w w' : W) : Prop :=
  ∃ submission h receipt wa wb wc wd,
    signed_submission felts nonce submission ∧
    then_follows w wa ∧ submit_accepts c submission h wa wb ∧ then_follows wb wc ∧
    wait_for_tx (client c) fuel h 180 5 wc = (Ok receipt, wd) ∧ then_follows wd w'.

Lemma await_included_Ok fuel c h (w w' : W) u :
  await_included fuel c h w = (Ok u, w') →
  ∃ receipt w1 w2, then_follows w w1 ∧ wait_for_tx (client c) fuel h 180 5 w1 = (Ok receipt, w2) ∧
    then_follows w2 w'.
Proof.
  unfold await_included. intros (? & w1 & Hi & Hrun)%prog_bind_Ok.
  apply prog_bind_Ok in Hrun as (r & w2 & Hw%attempt_Ok & Hrun).
  destruct Hw as [(receipt & -> & Hw)|(e & -> & _)]; [|by apply fail_with_Ok in Hrun].
  exists receipt, w1, w2. split_and!; [|done|].
  - eapply follows_run; [|exact Hi]. intros P HP. keeps_driver HP.
  - eapply follows_run; [|exact Hrun]. intros P HP. keeps_driver HP.
Qed.

End phases.

#[export] Hint Resolve quiet_prereqs quiet_verify_account quiet_compile quiet_run_declare
  quiet_await_declare quiet_declare quiet_deploy quiet_await_deploy quiet_construct
  quiet_run_prover quiet_read_submission : quiet.

(** ** The end of a run *)

Section ends.
Context {W : Type} `{Http W} `{Clock W} `{SerdeJson} `{FeltOps} `{!Crypto} `{Env W}.
Context `{Process W} `{Files W} `{Random W} `{Gateway W} `{RegexLite} `{JsonText}.
Context `{Statics W} `{Console W} `{DriverHost W} `{!DriverLaws}.

(** The summary ends with success exactly when no failed check is recorded. *)
Lemma summary_Ok checks title start (w w' : W) v :
  summary checks title start w = (Ok v, w') →
  (v = AllPassed ↔ fail_count (tally w) = 0) ∧ follows stable_driver w w'.
Proof.
  intros Hrun. split.
  - unfold summary in Hrun. apply prog_bind_Ok in Hrun as (? & w1 & Hfin & Hrun).
    assert (fail_count (tally w1) = fail_count (tally w)) as Hf.
    { injection Hfin as _ <-. rewrite tally_set. unfold close_step.
      by destruct (step_start (tally w)) as [[]|]. }
    do 2 (apply prog_bind_Ok in Hrun as (? & ? & [= <- <-] & Hrun)).
    apply prog_bind_Ok in Hrun as (total & ? & [_ ->]%lift_Ok & Hrun).
    apply prog_bind_Ok in Hrun as (? & w2 & _ & Hrun). rewrite <-Hf.
    destruct (Z.eqb_spec (fail_count (tally w1)) 0); apply prog_bind_Ok in Hrun as (? & ? & _ & [= <- _]);
      naive_solver.
  - eapply follows_run; [|exact Hrun]. intros P HP. unfold summary. keeps_driver HP.
Qed.

Lemma add_u_Ok max a b n : add_u true max a b = Ok n → n = a + b.
Proof. unfold add_u. destruct (in_u_dec _ _); [by intros [= <-]|done]. Qed.

Lemma from_env_follows env (w w' : W) r : from_env env w = (r, w') → follows stable_driver w w'.
Proof.
  intros Hrun. eapply follows_run; [|exact Hrun]. intros P HP. unfold from_env.
  apply preserves_bind.
  - apply preserves_modify. intros w0 Hw0. unfold load_dotenv. destruct env as [path|].
    + destruct (path_exists w0 path); [by apply (calls_dotenv_path P (driver_calls P HP))|done].
    + by apply (calls_dotenv P (driver_calls P HP)).
  - intros _. apply preserves_bind; [apply preserves_reads|intros; apply preserves_lift].
Qed.
End ends.

Lemma mul_u64_Ok a b n : mul_u64 true a b = Ok n → n = a * b.
Proof. unfold mul_u64. destruct (in_u_dec _ _); [by intros [= <-]|done]. Qed.

(** The transaction that a driver writes for the prover is the one it signed:
    whoever reads its fields from the written document and hashes them gets
    the hash under the signature that the document carries. *)
Theorem construct_tx_signed {W} `{FeltLaws} `{!Crypto} `{Files W} `{JsonText}
    c signing calldata felts nonce path (w w' : W) u :
  parse_felts c calldata w = (Ok felts, w) → in_u u64_max nonce →
  construct_tx c signing felts calldata nonce path w = (Ok u, w') →
  ∃ v h sig, write_file path (to_string_pretty v) w = (inr u, w') ∧
    standard_receiver_hash (pf_chain_id felts) v = Some h ∧ sign (pf_key felts) h = Ok sig ∧
    read_felts v "signature" = Some [sig_r sig; sig_s sig].
Proof.
  intros (_ & Hcd & Hsender & _)%parsed_felts_Ok Hnonce (sig & Hs & Hw)%construct_tx_written.
  destruct (tx_json_hash c felts calldata nonce sig Hcd Hsender Hnonce) as [Hh Hsig].
  eexists _, _, sig. by split_and!.
Qed.
