(* ===== verification/TxSchema.v ===== *)
(** * The shape of the transactions

    Types for JSON documents, in the manner of the node's specification of an
    INVOKE transaction of version 3: which members a transaction has, in
    whatever order, and that a number is written in hexadecimal, with the
    prefix, in small letters, without leading zeros and within its range.  The payload of a submission
    ([snip36-core/src/signing.rs]) always has its type; the transaction that a
    driver writes for the prover has it exactly when the strings that it copies
    from its configuration do. *)

From S2P Require Import Prelude RustNum RustStr Json Felt Types Signing Config Host Submission Driver.

Inductive ty :=
  | TText
  | TIs (text : string)
  | THex (max : Z)
  | TList (t : ty)
  | TRecord (fields : list (string * ty)).

(** The text that [format!("{:#x}", n)] has for an [n] of the range. *)
Definition hex_typed (max : Z) (s : string) : bool :=
  match parse_hex_quantity max s with Ok n => bool_decide (fmt_hex n = s) | _ => false end.

(** A record is an object with as many members as the type, of distinct keys,
    and with a member of its type for every field, in any order. *)
Fixpoint has_type (t : ty) (v : Value) {struct t} : bool :=
  match t, v with
  | TText, JString _ => true
  | TIs text, JString s => bool_decide (s = text)
  | THex max, JString s => hex_typed max s
  | TList t, JArray l => forallb (has_type t) l
  | TRecord fields, JObject m =>
      bool_decide (NoDup m.*1) && Nat.eqb (length m) (length fields) &&
      (fix go fields :=
         match fields with
         | [] => true
         | (k, t) :: fields =>
             match assoc k m with Some v => has_type t v | None => false end && go fields
         end) fields
  | _, _ => false
  end.

Definition felt_ty : ty := THex (stark_prime - 1).
Definition bound_ty : ty := TRecord [("max_amount", THex u64_max); ("max_price_per_unit", THex u128_max)].
Definition bounds_ty (k1 k2 k3 : string) : ty := TRecord [(k1, bound_ty); (k2, bound_ty); (k3, bound_ty)].

(** The members that both forms have. *)
Definition invoke_fields (name : string) (nonce bounds : ty) : list (string * ty) := [
  ("type", TIs name); ("version", TIs "0x3"); ("sender_address", felt_ty); ("calldata", TList felt_ty);
  ("nonce", nonce); ("resource_bounds", bounds); ("tip", THex u64_max); ("paymaster_data", TList felt_ty);
  ("account_deployment_data", TList felt_ty); ("nonce_data_availability_mode", TIs "L1");
  ("fee_data_availability_mode", TIs "L1"); ("signature", TList felt_ty)].

(** The proof-carrying transaction of a gateway, and the one for the prover,
    whose nonce is a [u64]. *)
Definition submission_ty : ty := TRecord (invoke_fields "INVOKE_FUNCTION" felt_ty
  (bounds_ty "L1_GAS" "L2_GAS" "L1_DATA_GAS") ++ [("proof", TText); ("proof_facts", TList felt_ty)])%list.
Definition proved_ty : ty := TRecord (invoke_fields "INVOKE" (THex u64_max)
  (bounds_ty "l1_gas" "l2_gas" "l1_data_gas")).

Lemma hex_typed_spec max s : 0 ≤ max → hex_typed max s = true ↔ ∃ n, in_u max n ∧ s = fmt_hex n.
Proof.
  intros Hmax. unfold hex_typed. split.
  - destruct (parse_hex_quantity max s) as [n| | |] eqn:Hp; try done. intros Heq%bool_decide_eq_true.
    exists n. split; [by eapply parse_hex_quantity_range|done].
  - intros (n & Hn & ->). rewrite parse_fmt_hex by done. by apply bool_decide_eq_true.
Qed.

Lemma hex_typed_fmt max n : in_u max n → hex_typed max (fmt_hex n) = true.
Proof. intros [? ?]. apply hex_typed_spec; [lia|]. by exists n. Qed.

(** ** Types of records *)

Section ty_ind.
Context (P : ty → Prop) (Htext : P TText) (His : ∀ s, P (TIs s)) (Hhex : ∀ max, P (THex max))
  (Hlist : ∀ t, P t → P (TList t))
  (Hrecord : ∀ fields, Forall (λ f, P f.2) fields → P (TRecord fields)).

Fixpoint ty_nested_ind (t : ty) : P t :=
  match t with
  | TText => Htext
  | TIs s => His s
  | THex max => Hhex max
  | TList t => Hlist t (ty_nested_ind t)
  | TRecord fields => Hrecord fields
      ((fix go fields : Forall (λ f, P f.2) fields :=
          match fields with
          | [] => Forall_nil_2 _
          | f :: fields => Forall_cons_2 _ _ _ (ty_nested_ind f.2) (go fields)
          end) fields)
  end.
End ty_ind.

Definition member_typed (m : list (string * Value)) (f : string * ty) : bool :=
  match assoc f.1 m with Some v => has_type f.2 v | None => false end.

Lemma has_type_record fields m :
  has_type (TRecord fields) (JObject m) =
  bool_decide (NoDup m.*1) && Nat.eqb (length m) (length fields) && forallb (member_typed m) fields.
Proof.
  cbn [has_type]. f_equal. induction fields as [|[k t] fields IH]; [done|]. cbn [forallb].
  by rewrite IH.
Qed.

(** An object has the type of a record exactly when its keys are the fields and
    the member of each has the field's type. *)
Lemma record_spec fields m : NoDup fields.*1 →
  has_type (TRecord fields) (JObject m) = true ↔
  m.*1 ≡ₚ fields.*1 ∧
  ∀ k t, (k, t) ∈ fields → ∃ v, assoc k m = Some v ∧ has_type t v = true.
Proof.
  intros Hf. rewrite has_type_record, !andb_true_iff, bool_decide_eq_true, Nat.eqb_eq, forallb_forall.
  assert (∀ f, member_typed m f = true ↔ ∃ v, assoc f.1 m = Some v ∧ has_type f.2 v = true) as Hm.
  { intros f. unfold member_typed. destruct (assoc f.1 m); naive_solver. }
  split.
  - intros [[Hnd Hlen] Hall]. assert (∀ k t, (k, t) ∈ fields → ∃ v, assoc k m = Some v ∧ has_type t v = true) as Hk.
    { intros k t Hin%list_elem_of_In. by apply (Hm (k, t)), Hall. }
    split; [|done]. symmetry. apply submseteq_length_Permutation.
    + apply NoDup_submseteq; [done|]. intros k ([k' t] & -> & Hin)%list_elem_of_fmap.
      destruct (Hk _ _ Hin) as (v & Hv & _). apply list_elem_of_fmap. exists (k', v).
      split; [done|]. by apply assoc_Some_In.
    + rewrite !length_fmap. lia.
  - intros [Hp Hk]. assert (length m.*1 = length fields.*1) as Hlen by by rewrite Hp.
    rewrite !length_fmap in Hlen. split; [split; [by rewrite Hp|done]|].
    intros [k t] Hin%list_elem_of_In. apply Hm. by apply Hk.
Qed.

(** Members in the order of the fields are checked one by one. *)
Definition aligned_typed (fields : list (string * ty)) (m : list (string * Value)) : bool :=
  forallb (λ p, has_type p.1.2 p.2.2) (zip fields m).

Lemma record_aligned fields m : NoDup fields.*1 → m.*1 = fields.*1 →
  has_type (TRecord fields) (JObject m) = aligned_typed fields m.
Proof.
  intros Hf Hkeys. apply eq_true_iff_eq. rewrite record_spec by done.
  assert (NoDup m.*1) as Hnd by by rewrite Hkeys.
  assert (∀ i k t k' v, fields !! i = Some (k, t) → m !! i = Some (k', v) → k' = k) as Hsame.
  { intros i k t k' v Hi Hi'. apply (f_equal (.!! i)) in Hkeys. cbn beta in Hkeys.
    rewrite !list_lookup_fmap, Hi, Hi' in Hkeys. by injection Hkeys. }
  assert (length m = length fields) as Hlen.
  { apply (f_equal length) in Hkeys. by rewrite !length_fmap in Hkeys. }
  unfold aligned_typed. rewrite forallb_forall. split.
  - intros [_ Hall] [[k t] [k' v]] (i & Hi)%list_elem_of_In%list_elem_of_lookup.
    apply lookup_zip_Some in Hi as [Hi Hi']. pose proof (Hsame _ _ _ _ _ Hi Hi') as ->.
    destruct (Hall k t) as (v' & Hv' & Ht); [by eapply list_elem_of_lookup_2|].
    rewrite (proj2 (assoc_elem k v m Hnd)) in Hv' by by eapply list_elem_of_lookup_2. by injection Hv' as ->.
  - intros Hall. split; [by rewrite Hkeys|]. intros k t (i & Hi)%list_elem_of_lookup.
    destruct (lookup_lt_is_Some_2 m i) as [[k' v] Hi']; [apply lookup_lt_Some in Hi; lia|].
    pose proof (Hsame _ _ _ _ _ Hi Hi') as ->. exists v. split.
    + apply assoc_elem; [done|]. by eapply list_elem_of_lookup_2.
    + apply (Hall ((k, t), (k, v))), list_elem_of_In, list_elem_of_lookup. exists i.
      by apply lookup_zip_Some.
Qed.

(** The document that serde_json keeps of a typed value is typed. *)
Lemma document_typed t v : has_type t v = true → has_type t (document v) = true.
Proof.
  revert v. induction t as [| | |t IH|fields IH] using ty_nested_ind; intros v Ht;
    destruct v as [| | | |l|m]; try done.
  - cbn [has_type document] in *. rewrite forallb_forall in *. intros x Hx.
    apply in_map_iff in Hx as (y & <- & Hy). by apply IH, Ht.
  - rewrite has_type_record in Ht. apply andb_true_iff in Ht as [[Hnd Hlen]%andb_true_iff Hall].
    apply bool_decide_eq_true in Hnd. change (document (JObject m)) with
      (JObject (sorted_members (map (λ p, (p.1, document p.2)) m))).
    set (m' := map (λ p, (p.1, document p.2)) m).
    assert (m'.*1 = m.*1) as Hkeys.
    { unfold m'. rewrite <- list_fmap_compose. by apply list_fmap_ext. }
    assert (sorted_members m' ≡ₚ m') as Hp by (apply sorted_members_perm; by rewrite Hkeys).
    rewrite has_type_record, !andb_true_iff. split; [split|].
    + apply bool_decide_eq_true. rewrite Hp, Hkeys. done.
    + rewrite Hp. unfold m'. by rewrite length_map.
    + rewrite forallb_forall in *. intros [k t] Hin. specialize (Hall _ Hin).
      unfold member_typed in *. cbn [fst snd] in *.
      rewrite (assoc_perm k _ m'); [|by rewrite Hp, Hkeys|done]. unfold m'. rewrite assoc_fmap.
      destruct (assoc k m) as [v|]; [|done]. cbn.
      rewrite Forall_forall in IH. apply (IH (k, t)); [by apply list_elem_of_In|done].
Qed.

(** Concrete keys are distinct. *)
Ltac keys := apply (bool_decide_unpack _); vm_compute; exact I.

Lemma bound_typed a p : in_u u64_max a → in_u u128_max p →
  has_type bound_ty (bound_json {| max_amount := a; max_price_per_unit := p |}) = true.
Proof.
  intros Ha Hp. unfold bound_ty, bound_json. rewrite record_aligned; [|keys|done].
  unfold aligned_typed.
  cbn -[hex_typed u64_max u128_max]. by rewrite !hex_typed_fmt.
Qed.

Lemma bounds_typed k1 k2 k3 b : NoDup [k1; k2; k3] → bounds_ok b →
  has_type (bounds_ty k1 k2 k3) (JObject [(k1, bound_json (l1_gas b)); (k2, bound_json (l2_gas b));
    (k3, bound_json (l1_data_gas b))]) = true.
Proof.
  destruct b as [[a1 p1] [a2 p2] [a3 p3]]. intros Hk ([??] & [??] & [??]). cbn [l1_gas l2_gas l1_data_gas] in *.
  unfold bounds_ty. rewrite record_aligned by done.
  unfold aligned_typed. cbn [zip zip_with forallb fst snd]. by rewrite !bound_typed.
Qed.

Section felts.
Context `{FeltLaws}.

Lemma felt_typed f : hex_typed (stark_prime - 1) (felt_hex f) = true.
Proof.
  rewrite felt_hex_val. apply hex_typed_fmt. pose proof (felt_val_range f). split; lia.
Qed.

Lemma strings_typed l : has_type (TList felt_ty) (json_strings l) = forallb (hex_typed (stark_prime - 1)) l.
Proof. cbn -[hex_typed stark_prime]. induction l as [|s l IH]; [done|]. cbn -[hex_typed stark_prime]. by rewrite IH. Qed.

Lemma felts_typed l : has_type (TList felt_ty) (json_strings (felt_hex <$> l)) = true.
Proof. rewrite strings_typed. apply forallb_forall. intros s (f & -> & _)%list_elem_of_In%list_elem_of_fmap. apply felt_typed. Qed.
End felts.

Section typed.
Context `{FeltLaws} `{!Crypto}.

(** C32: Every signed submission is a well-typed proof-carrying INVOKE
    transaction of version 3, as it is built and as the document that
    serde_json makes of it, whose members are sorted by name: it has exactly
    the members of the type, each once, and every felt, amount and price is
    a canonical hexadecimal text within its range, whatever the calldata,
    the facts and the nonce are. *)
Theorem payload_typed params hash payload :
  bounds_ok (sp_resource_bounds params) →
  sign_and_build_payload params = Ok (hash, payload) →
  has_type submission_ty payload = true ∧ has_type submission_ty (document payload) = true ∧
  ∃ members, document payload = JObject members ∧ members.*1 = [
    "account_deployment_data"; "calldata"; "fee_data_availability_mode"; "nonce";
    "nonce_data_availability_mode"; "paymaster_data"; "proof"; "proof_facts"; "resource_bounds";
    "sender_address"; "signature"; "tip"; "type"; "version"].
Proof.
  intros Hbounds (_ & sig & _ & ->)%sign_and_build_payload_Ok.
  match goal with |- has_type _ ?v = true ∧ _ => assert (has_type submission_ty v = true) as Ht end.
  { unfold payload_json, submission_ty. cbv zeta.
    change [felt_hex (sig_r sig); felt_hex (sig_s sig)] with (felt_hex <$> [sig_r sig; sig_s sig]).
    rewrite record_aligned; [|keys|reflexivity].
    unfold aligned_typed. cbn [invoke_fields app zip zip_with forallb fst snd]. rewrite !felts_typed.
    unfold to_gateway_json. rewrite bounds_typed by (done || keys).
    unfold felt_ty. cbn [has_type]. by rewrite !felt_typed. }
  split; [done|]. split; [by apply document_typed|]. eexists. split; [reflexivity|reflexivity].
Qed.

(** The transaction that a driver writes for the prover is well typed
    exactly when the account's address and the words of the calldata are
    written canonically: the configuration's text is copied, so a leading
    zero or a capital letter, which felt_from_hex accepts, stays in the
    document. *)
Theorem tx_json_typed c calldata nonce sig :
  in_u u64_max nonce →
  has_type proved_ty (tx_json c calldata nonce sig) =
    hex_typed (stark_prime - 1) (account_address c) && forallb (hex_typed (stark_prime - 1)) calldata.
Proof.
  intros Hnonce. unfold tx_json, proved_ty.
  change [felt_hex (sig_r sig); felt_hex (sig_s sig)] with (felt_hex <$> [sig_r sig; sig_s sig]).
  rewrite record_aligned; [|keys|reflexivity].
  unfold aligned_typed, invoke_fields. cbn [zip zip_with forallb fst snd]. rewrite felts_typed, strings_typed.
  unfold to_rpc_json. rewrite bounds_typed by (apply zero_fee_ok || keys).
  unfold felt_ty. cbn [has_type]. rewrite hex_typed_fmt by done.
  change (hex_typed u64_max "0x0") with true. cbn [andb forallb].
  rewrite !bool_decide_eq_true_2 by done. by rewrite !andb_true_r.
Qed.
End typed.
