(* ===== verification/CounterSessions.v ===== *)
(** * The counter's sessions as a transition system

    The handlers of [apps/counter/src/routes.rs] share the sessions of the
    server: a deployment, an invocation and a proof cycle leave notes in them,
    each after a wait of minutes in which other requests run.  Here the
    handlers refine one machine: a session is what the list of its notes makes
    it, and the contract and the block that the next proof is made for are read
    off that list. *)

From S2P Require Import Prelude RustNum RustStr Json Felt Types Signing Config Rpc Host Submission.
From S2P Require Import Counter.

(** ** Notes *)

(** What is written to a session: by an invocation its hash and then its block,
    by a deployment the contract with its class and block, by a proof cycle the
    block of its transaction, and by the other routes of the server anything. *)
Inductive note :=
  | Invoked (tx_hash : string)
  | InvokeIncluded (block : Z)
  | CounterDeployed (contract_address class_hash : string) (block : option Z)
  | CycleIncluded (block : Z)
  | Foreign (f : Session → Session).

Definition apply_note (n : note) : Session → Session :=
  match n with
  | Invoked tx_hash => set_last_invoke tx_hash
  | InvokeIncluded block => set_invoke_block block
  | CounterDeployed address class_hash block => set_deployment address class_hash block
  | CycleIncluded block => set_reference_block block
  | Foreign f => f
  end.

(** The notes with the session that each was written to. *)
Definition replay (id : string) (l : list (string * note)) (s : Session) : Session :=
  fold_left (λ s n, if decide (n.1 = id) then apply_note n.2 s else s) l s.

Lemma replay_app id l l' s : replay id (l ++ l')%list s = replay id l' (replay id l s).
Proof. apply fold_left_app. Qed.

(** ** Requests *)

Inductive counter_request :=
  | PostDeployCounter (session_id : string)
  | PostInvoke (req : InvokeRequest)
  | PostReadCounter (contract_address : string)
  | PostSubmitProof (session_id : string)
  | GetProveBlock (session_id : string) (increment_amount increments_per_block : Z).

(** The notes of a request. *)
Definition writes (r : counter_request) (n : string * note) : Prop :=
  match r, n.2 with
  | PostDeployCounter id, CounterDeployed _ _ _ => n.1 = id
  | PostInvoke req, (Invoked _ | InvokeIncluded _) => n.1 = iq_session_id req
  | GetProveBlock id _ _, CycleIncluded _ => n.1 = id
  | _, _ => False
  end.

Section requests.
Context {W : Type} `{Http W} `{Clock W} `{SerdeJson} `{FeltOps} `{!Crypto} `{Env W}.
Context `{Process W} `{Files W} `{Random W} `{Events W} `{!Server W}.
Context `{RegexCaptures} `{JsonText} `{Sessions W}.
Context (fuel : nat) (overflow_checks : bool) (exit_text : Output → string).

(** [counter_routes]: the world after the request. *)
Definition serve_counter (r : counter_request) (w : W) : W :=
  match r with
  | PostDeployCounter id => (deploy_counter fuel exit_text id w).2
  | PostInvoke req => (invoke_increment fuel req w).2
  | PostReadCounter address => (read_counter address w).2
  | PostSubmitProof id => (submit_proof id w).2
  | GetProveBlock id amount n => (prove_block fuel overflow_checks id amount n w).2
  end.

(** *** What a request keeps *)

Section keeps.
Context (P : W → Prop) (HH : stable_host P).

Definition keeps_note (n : string * note) : Prop :=
  ∀ w, P w → P (update_session_with n.1 (apply_note n.2) w).

Ltac keeps := repeat first
  [ keeps_step HH | assumption
  | apply or_abort_keeps; [exact HH|] | apply send_keeps, HH | apply abort_task_keeps, HH
  | apply preserves_call_raw; apply (stable_post _ HH)
  | apply preserves_get_nonce; apply (stable_post _ HH)
  | apply preserves_add_invoke; apply (stable_post _ HH)
  | apply preserves_wait_for_block_after; [apply (stable_post _ HH)|apply (stable_sleep _ HH)] ].

Lemma deploy_counter_keeps id : (∀ a c b, keeps_note (id, CounterDeployed a c b)) →
  preserves P (deploy_counter fuel exit_text id).
Proof. intros Hn. unfold deploy_counter, fail. keeps. by apply (Hn _ _ _). Qed.

Lemma invoke_increment_keeps req :
  (∀ h, keeps_note (iq_session_id req, Invoked h)) → (∀ b, keeps_note (iq_session_id req, InvokeIncluded b)) →
  preserves P (invoke_increment fuel req).
Proof.
  intros Hh Hb. unfold invoke_increment, session_field. keeps; [by apply (Hh _)|by apply (Hb _)].
Qed.

Lemma submit_proof_keeps id : preserves P (submit_proof id).
Proof. unfold submit_proof, session_field, internal, fail. keeps. Qed.

Lemma rpc_submit_loop_keeps left tx : preserves P (rpc_submit_loop left tx).
Proof. induction left; cbn [rpc_submit_loop]; unfold log; keeps. Qed.

Lemma prove_construct_keeps job felts path : preserves P (prove_construct job felts path).
Proof. unfold prove_construct, log. keeps. Qed.

Lemma prove_inclusion_keeps job h : (∀ b, keeps_note (pj_session_id job, CycleIncluded b)) →
  preserves P (prove_inclusion fuel job h).
Proof. intros Hn. unfold prove_inclusion, log. keeps. by apply (Hn _). Qed.

Lemma prove_task_keeps job : (∀ b, keeps_note (pj_session_id job, CycleIncluded b)) →
  preserves P (prove_task fuel overflow_checks job).
Proof.
  intros Hn. unfold prove_task, log. keeps;
    eauto using rpc_submit_loop_keeps, prove_construct_keeps, prove_inclusion_keeps,
      prove_felts_keeps, prove_run_keeps, note_messages_keeps, cycle_submission_keeps.
Qed.

Lemma prove_request_job id amount n w job w' :
  prove_request id amount n w = (Ok job, w') → id = pj_session_id job.
Proof.
  unfold prove_request, session_field. intros Hr. prog_inv. done.
Qed.

Lemma serve_counter_keeps r : (∀ n, writes r n → keeps_note n) → ∀ w, P w → P (serve_counter r w).
Proof.
  intros Hn w. destruct r as [id|req|address|id|id amount n]; cbn [serve_counter]; revert w.
  - apply deploy_counter_keeps. intros a c b. by apply Hn.
  - apply invoke_increment_keeps; intros x; by apply Hn.
  - fold (preserves P (read_counter address)). unfold read_counter. keeps.
  - apply submit_proof_keeps.
  - fold (preserves P (prove_block fuel overflow_checks id amount n)).
    apply preserves_bind_Ok; [unfold prove_request, session_field; keeps|].
    intros w1 job w2 ->%prove_request_job. apply preserves_spawn, prove_task_keeps. intros b. by apply Hn.
Qed.
End keeps.

(** *** Refinement *)

(** The sessions come from [s] by notes of [allowed]. *)
Definition noted_by (allowed : string * note → Prop) (s : string → Session) (w : W) : Prop :=
  ∃ l, Forall allowed l ∧ ∀ id, get_session id w = replay id l (s id).

Lemma noted_by_refl allowed w : noted_by allowed (λ id, get_session id w) w.
Proof. by exists []. Qed.

Lemma noted_by_extend (env allowed : string * note → Prop) s w w' : (∀ n, env n → allowed n) →
  noted_by env (λ id, get_session id w) w' → noted_by allowed s w → noted_by allowed s w'.
Proof.
  intros Hsub (l' & Hl' & Hs') (l & Hl & Hs). exists (l ++ l')%list. split.
  - apply Forall_app. split; [exact Hl|]. by eapply Forall_impl.
  - intros id. by rewrite Hs', Hs, replay_app.
Qed.

Lemma noted_by_host (env allowed : string * note → Prop) s :
  (∀ s, stable_host (noted_by env s)) → (∀ n, env n → allowed n) → stable_host (noted_by allowed s).
Proof.
  intros Hh Hsub. split; intros;
    (eapply noted_by_extend; [exact Hsub| |eassumption]);
    (match goal with |- noted_by _ (λ id, get_session id ?w) _ => destruct (Hh (λ id, get_session id w)) end);
    eauto using noted_by_refl.
Qed.

Lemma noted_by_note `{!SessionsLaws W} (allowed : string * note → Prop) s n :
  allowed n → keeps_note (noted_by allowed s) n.
Proof.
  intros Hn w (l & Hl & Hs). exists (l ++ [n])%list. split.
  - apply Forall_app. by rewrite Forall_singleton.
  - intros id. rewrite replay_app. cbn. case_decide as Hid.
    + by rewrite <-Hid, get_update_session, Hs.
    + by rewrite get_update_session_ne by done.
Qed.

Lemma serve_counter_refines `{!SessionsLaws W} (env : string * note → Prop) r w :
  (∀ s, stable_host (noted_by env s)) →
  noted_by (λ n, env n ∨ writes r n) (λ id, get_session id w) (serve_counter r w).
Proof.
  intros Hh. apply serve_counter_keeps.
  - apply (noted_by_host env); [exact Hh|auto].
  - intros n Hn. apply noted_by_note. by right.
  - apply noted_by_refl.
Qed.

(** *** The next proof *)

(** The contract and the block that the notes leave for the next proof. *)
Definition note_target (t : option string * option Z) (n : note) : option string * option Z :=
  match n with
  | CounterDeployed address _ block => (Some address, block)
  | CycleIncluded block => (t.1, Some block)
  | _ => t
  end.

Definition target (id : string) (l : list (string * note)) : option string * option Z :=
  fold_left (λ t n, if decide (n.1 = id) then note_target t n.2 else t) l (None, None).

(** What [prove_request] makes of it. *)
Definition next_job (id : string) (amount n : Z) (t : option string * option Z) : res Response ProveJob :=
  match t with
  | (None, _) => Err (error_response BAD_REQUEST "No counter contract deployed")
  | (Some _, None) => Err (error_response BAD_REQUEST "Deploy block not tracked")
  | (Some address, Some block) => Ok {| pj_session_id := id; pj_contract_address := address;
      pj_reference_block := block; pj_increment_amount := amount; pj_increments_per_block := n |}
  end.

(** The session agrees with [t]; where it has no reference block it has no
    block of a deployment either, so that the code's second choice is never
    taken. *)
Record aims_at (t : option string * option Z) (s : Session) : Prop := {
  aims_contract : ses_contract_address s = t.1;
  aims_reference : ses_last_reference_block s = t.2;
  aims_deploy : ses_last_reference_block s = None → ses_deploy_block s = None;
}.

Definition keeps_target (n : note) : Prop :=
  match n with Foreign f => ∀ t s, aims_at t s → aims_at t (f s) | _ => True end.

Lemma apply_note_aims n t s : keeps_target n → aims_at t s → aims_at (note_target t n) (apply_note n s).
Proof. intros Hn Hs. destruct n; [..|by apply Hn]; destruct Hs; by split. Qed.

Lemma replay_aims id l s : Forall (λ n, keeps_target n.2) l → aims_at (None, None) s →
  aims_at (target id l) (replay id l s).
Proof.
  unfold target, replay. generalize (None : option string, None : option Z). revert s.
  induction l as [|n l IH]; intros s t Hl Hs; [done|]. inversion Hl as [|? ? Hn Hl']; subst.
  cbn [fold_left]. apply IH; [done|]. case_decide; [by apply apply_note_aims|done].
Qed.

Lemma prove_request_aims id amount n t w : aims_at t (get_session id w) →
  prove_request id amount n w = (next_job id amount n t, w).
Proof.
  intros [Hc Hr Hd]. unfold prove_request, session_field, reads, lift, mbind, prog_bind. rewrite Hc.
  destruct t as [[a|] b]; cbn in *; [|done]. rewrite Hr in *. destruct b as [b|]; [done|].
  by rewrite Hd.
Qed.

(** C20: The counter's handlers refine the machine of notes: if the calls of the
    host change the sessions only by notes of the environment, then any
    sequence of requests makes one list of notes per request, each of them
    the environment's or one that this request writes to its own session;
    every session is what its notes make of it, and the next proof is made
    for the contract of the last deployment and for the block of the last
    deployment or included cycle, whichever was noted later and whatever
    contract the cycle was for; without them the request is refused. *)
Theorem sessions_refine `{!SessionsLaws W} (env : string * note → Prop) w rs :
  (∀ s, stable_host (noted_by env s)) → (∀ n, env n → keeps_target n.2) →
  (∀ id, aims_at (None, None) (get_session id w)) →
  ∃ ls, Forall2 (λ r l, Forall (λ n, env n ∨ writes r n) l) rs ls ∧
    let w' := fold_left (λ w r, serve_counter r w) rs w in
    ∀ id, get_session id w' = replay id (mjoin ls) (get_session id w) ∧
      ∀ amount n, prove_request id amount n w' = (next_job id amount n (target id (mjoin ls)), w').
Proof.
  intros Hh Henv Hfresh.
  assert (∃ ls, Forall2 (λ r l, Forall (λ n, env n ∨ writes r n) l) rs ls ∧
    ∀ id, get_session id (fold_left (λ w r, serve_counter r w) rs w)
          = replay id (mjoin ls) (get_session id w)) as (ls & Hls & Hs).
  { clear Hfresh. revert w. induction rs as [|r rs IH]; intros w; [by exists []|].
    destruct (serve_counter_refines env r w Hh) as (l & Hl & Hs).
    destruct (IH (serve_counter r w)) as (ls & Hls & Hss).
    exists (l :: ls). split; [by constructor|]. intros id. cbn [fold_left].
    by rewrite Hss, Hs, mjoin_cons, replay_app. }
  exists ls. split; [exact Hls|]. intros w' id. split; [apply Hs|]. intros amount n.
  apply prove_request_aims. unfold w'. rewrite Hs. apply replay_aims; [|apply Hfresh].
  clear Hs Hfresh w'. induction Hls as [|r l rs ls Hl Hls IH]; [done|]. rewrite mjoin_cons. apply Forall_app.
  split; [|exact IH]. eapply Forall_impl; [exact Hl|]. intros [i x] [Hx|Hx]; [by apply Henv in Hx|].
  by destruct r, x.
Qed.
End requests.
