(* ===== verification/CounterE2e.v ===== *)
(** * The counter's end-to-end driver ([apps/counter/src/e2e.rs])

    Deploys the bundled counter, then for each block: reads the nonce at the
    reference block, signs and writes the transaction, runs the prover,
    submits the proof-carrying transaction, waits for its inclusion, which
    gives the next reference block, and compares the counter. *)

From S2P Require Import Prelude RustNum RustStr Json Felt Types Signing ProofCodec.
From S2P Require Import Config Rpc Host Submission Counter Driver DriverFacts.

Record E2eArgs := {
  ea_prover_url : option string;
  ea_output_dir : string;
  ea_snos_blocks : Z;
  ea_counter_increments : Z;
  ea_increments_per_snos : Z;
  ea_prove_only : bool;
}.

(** What the proving loop does not change. *)
Record cycle `{FeltOps} := {
  cy_contract_address : string;
  cy_calldata : list string;
  cy_felts : task_felts;
  cy_prover_url : option string;
  cy_exe : string;
  cy_initial_counter : Z;
  cy_increment_per_block : Z;
}.

(** [format!] of a file name with the number of its block. *)
Definition file_name (prefix : string) (block_idx : Z) (suffix : string) : string :=
  prefix +:+ pretty block_idx +:+ suffix.

Section e2e.
Context {W : Type} `{Http W} `{Clock W} `{SerdeJson} `{FeltOps} `{!Crypto} `{Env W}.
Context `{Process W} `{Files W} `{Random W} `{Gateway W} `{RegexLite} `{JsonText}.
Context `{Statics W} `{Console W} `{DriverHost W}.
Context (fuel : nat) (checks : bool) (args : E2eArgs) (c : Config).

Definition read_counter (contract_address : string) : prog W string (option Z) :=
  r ← attempt (starknet_call (client c) contract_address GET_COUNTER_SELECTOR []);
  mret (match r with
        | inr (hex :: _) => ok (parse_hex_quantity u64_max hex)
        | _ => None
        end).

(** ** Setting up *)

(** Unlike the other drivers, this one looks at the outcome of the import. *)
Definition import_account (account_name : string) : prog W string unit :=
  import_output ← wrapped "failed to run sncast account import"
    (try_host (command_output "sncast" (import_args c account_name) None) id);
  let import_combined := format_cmd_output import_output in
  if out_success import_output then pass ("sncast account ready: " +:+ account_name)
  else if str_contains "already exists" import_combined then
    pass ("sncast account already exists: " +:+ account_name)
  else fail_with ("Could not import account into sncast: "
      +:+ default import_combined (slice_to 500 import_combined))
    "cannot proceed without sncast account".

Definition increment_calldata (contract_address : string) : list string :=
  encode_account_calls (replicate (Z.to_nat (ea_increments_per_snos args))
    (contract_address, INCREMENT_SELECTOR, [fmt_hex (ea_counter_increments args)])).

(** Steps 0 to 3: the account and the contract. *)
Definition deploy_contract (account_name : string) : prog W string (string * option string) :=
  step 0 "Import account into sncast";;
  import_account account_name;;
  verify_account c "Account verified on-chain" "Could not verify account on-chain"
    "cannot proceed without account";;
  step 1 "Compile counter contract";;
  compile c "Contract compiled" "Contract compilation failed";;
  step 2 "Declare contract class";;
  class_hash ← declare_ fuel c account_name "Counter" "Contract declared";
  step 3 "Deploy counter contract";;
  deploy c account_name class_hash "Contract deployed".

(** Step 4: the contract and the block of its deployment. *)
Definition deploy_phase (account_name : string) : prog W string (string * Z) :=
  deployed ← deploy_contract account_name;
  step 4 "Wait for deploy tx inclusion";;
  deploy_block ← await_deploy fuel c (deployed : string * option string).2;
  mret (deployed.1, deploy_block).

(** The felts, the executable and the counter before the first block. *)
Definition start_cycle (prover_url : option string) (increment_per_block : Z)
    (contract_address : string) (deploy_block : Z) : prog W string cycle :=
  let calldata := increment_calldata contract_address in
  felts ← parse_felts c calldata;
  current_exe ← reads exe_name;
  r ← attempt (wait_for_block_after (client c) fuel deploy_block 120 3);
  match r with
  | inl e => warn ("Could not confirm block after deploy (continuing): " +:+ rpc_error_text e)
  | inr _ => mret tt
  end;;
  counter ← read_counter contract_address;
  let initial_counter := default 0 counter in
  info ("  Initial counter: " +:+ pretty initial_counter);;
  mret {| cy_contract_address := contract_address; cy_calldata := calldata; cy_felts := felts;
          cy_prover_url := prover_url; cy_exe := current_exe;
          cy_initial_counter := initial_counter; cy_increment_per_block := increment_per_block |}.

(** ** One block *)

Context (cy : cycle).

Definition construct (block_idx reference_block : Z) (tx_path : string) : prog W string Z :=
  nonce ← rpc_ (get_nonce_at_block (client c) (account_address c)
    (JObject [("block_number", json_u64 reference_block)]));
  construct_tx c "signing failed: " (cy_felts cy) (cy_calldata cy) nonce tx_path;;
  info ("  Nonce: " +:+ pretty nonce +:+ ", ref block: " +:+ pretty reference_block +:+ ", tx: "
    +:+ felt_hex (standard_tx_hash (cy_felts cy) nonce));;
  pass "Transaction constructed and signed";;
  mret nonce.

Definition saved_locally (proof_path : string) : prog W string unit :=
  let messages_file := with_extension proof_path "raw_messages.json" in
  info "  --prove-only: skipping RPC submission";;
  info ("  Proof:       " +:+ proof_path);;
  info ("  Proof facts: " +:+ with_extension proof_path "proof_facts");;
  there ← reads (λ w, path_exists w messages_file);
  (if (there : bool) then info ("  Messages:    " +:+ messages_file) else mret tt);;
  pass "Proof and proof_facts saved locally".

(** [let .. else] after the two loops. *)
Definition accepted_or_fail (fails_before block_idx : Z) (accepted_tx_hash : option string)
    : prog W string string :=
  match accepted_tx_hash with
  | Some h => mret h
  | None =>
      fails ← reads (λ w, fail_count (tally w));
      (if fails =? fails_before then fail "Submission not accepted after all retries" else mret tt);;
      throw ("RPC submission failed for block " +:+ pretty block_idx)
  end.

(** The block of the receipt is the next reference block. *)
Definition await_inclusion (block_idx : Z) (rpc_tx_hash : string) : prog W string Z :=
  info ("  Waiting for tx " +:+ rpc_tx_hash +:+ " to be included...");;
  r ← attempt (wait_for_tx (client c) fuel rpc_tx_hash 180 5);
  match r with
  | inr receipt =>
      let bn := default 0 (receipt_block_number receipt) in
      info ("  Tx included in block " +:+ pretty bn);;
      r ← attempt (wait_for_block_after (client c) fuel bn 120 3);
      match r with
      | inl e => warn ("Could not confirm block after tx inclusion (continuing): " +:+ rpc_error_text e)
      | inr _ => mret tt
      end;;
      mret bn
  | inl e => fail_with ("Tx not confirmed: " +:+ rpc_error_text e)
               ("tx confirmation failed for block " +:+ pretty block_idx)
  end.

(** [initial_counter + increment_per_block * block_idx as u64]. *)
Definition expected_counter (block_idx : Z) : res string Z :=
  added ← mul_u64 checks (cy_increment_per_block cy) block_idx;
  add_u checks u64_max (cy_initial_counter cy) added.

Definition verify_counter (block_idx : Z) : prog W string unit :=
  counter_after ← read_counter (cy_contract_address cy);
  expected ← lift (expected_counter block_idx);
  match counter_after with
  | Some actual =>
      if actual =? expected then
        pass ("Counter verified: " +:+ pretty actual +:+ " (expected " +:+ pretty (expected : Z) +:+ ")")
      else fail_with ("Counter mismatch: got " +:+ pretty actual +:+ ", expected " +:+ pretty expected)
             ("counter verification failed for block " +:+ pretty block_idx)
  | None => fail_with "Could not read counter value"
              ("counter read failed for block " +:+ pretty block_idx)
  end.

Definition step_label (block_idx : Z) : string :=
  if ea_snos_blocks args =? 1 then "Prove and submit"
  else "Block " +:+ pretty block_idx +:+ "/" +:+ pretty (ea_snos_blocks args).

Definition submit_block (block_idx reference_block nonce : Z) (proof_path : string) : prog W string Z :=
  submission ← read_submission (cy_felts cy) nonce proof_path
    ("empty proof for block " +:+ pretty block_idx);
  fails_before ← reads (λ w, fail_count (tally w));
  accepted ← submit c ["  Proof block: " +:+ pretty reference_block] submission;
  rpc_tx_hash ← accepted_or_fail fails_before block_idx accepted;
  bn ← await_inclusion block_idx rpc_tx_hash;
  verify_counter block_idx;;
  mret bn.

(** The reference block of the next iteration; [continue] keeps it. *)
Definition prove_one (block_idx reference_block : Z) : prog W string Z :=
  n ← lift (add_u checks u32_max 4 block_idx);
  step n (step_label block_idx);;
  let tx_path := path_join (ea_output_dir args) (file_name "e2e_tx_" block_idx ".json") in
  let proof_path := path_join (ea_output_dir args) (file_name "e2e_" block_idx ".proof") in
  nonce ← construct block_idx reference_block tx_path;
  run_prover c (cy_exe cy) "failed to run prove command"
    ("proving failed for block " +:+ pretty block_idx) (cy_prover_url cy) reference_block
    tx_path proof_path;;
  if ea_prove_only args then saved_locally proof_path;; mret reference_block
  else submit_block block_idx reference_block nonce proof_path.

(** [for block_idx in 1..=args.snos_blocks]. *)
Fixpoint prove_blocks (blocks : nat) (block_idx reference_block : Z) : prog W string Z :=
  match blocks with
  | O => mret reference_block
  | S blocks => next ← prove_one block_idx reference_block; prove_blocks blocks (block_idx + 1) next
  end.

Definition final_verification (total_expected : Z) : prog W string unit :=
  n ← lift (add_u checks u32_max 5 (ea_snos_blocks args));
  if ea_prove_only args then
    step n "Prove-only complete";;
    pass ("All " +:+ pretty (ea_snos_blocks args) +:+ " block(s) proved -- artifacts saved to "
      +:+ ea_output_dir args)
  else
    step n "Final verification";;
    final_counter ← read_counter (cy_contract_address cy);
    expected_final ← lift (add_u checks u64_max (cy_initial_counter cy) total_expected);
    match final_counter with
    | Some actual =>
        if actual =? expected_final then
          pass ("All " +:+ pretty (ea_snos_blocks args) +:+ " blocks verified: counter "
            +:+ pretty (cy_initial_counter cy) +:+ " -> " +:+ pretty actual
            +:+ " (+" +:+ pretty total_expected +:+ ")")
        else
          fail ("Final counter mismatch: got " +:+ pretty actual +:+ ", expected "
            +:+ pretty expected_final +:+ " (initial " +:+ pretty (cy_initial_counter cy)
            +:+ " + " +:+ pretty total_expected +:+ ")")
    | None => fail "Could not read final counter"
    end.
End e2e.

(** ** The run *)

Section run.
Context {W : Type} `{Http W} `{Clock W} `{SerdeJson} `{FeltOps} `{!Crypto} `{Env W}.
Context `{Process W} `{Files W} `{Random W} `{Gateway W} `{RegexLite} `{JsonText}.
Context `{Statics W} `{Console W} `{DriverHost W}.
Context (fuel : nat) (checks : bool) (args : E2eArgs).

(** From the first step on. *)
Definition run_steps (c : Config) (prover_url : option string) (account_name : string)
    (increment_per_block total_expected e2e_start : Z) : prog W string verdict :=
  deployed ← deploy_phase fuel c account_name;
  cy ← start_cycle fuel args c prover_url increment_per_block
    (deployed : string * Z).1 deployed.2;
  prove_blocks fuel checks args c cy (Z.to_nat (ea_snos_blocks args)) 1 deployed.2;;
  final_verification checks args c cy total_expected;;
  summary checks "E2E TEST SUMMARY" e2e_start.

Definition run (env_file : option string) : prog W string verdict :=
  c ← mapping_err config_error_text (from_env env_file);
  prover_url ← reads (prover_url_of (ea_prover_url args));
  reset_statics;;
  e2e_start ← reads now;
  account_name ← lift (e2e_account_name (account_address c));
  increment_per_block ← lift
    (mul_u64 checks (ea_counter_increments args) (ea_increments_per_snos args));
  total_expected ← lift (mul_u64 checks increment_per_block (ea_snos_blocks args));
  for_each info ["=== SNIP-36 End-to-End Test ==="; ""; "  RPC:     " +:+ rpc_url c;
    "  Account: " +:+ account_address c;
    "  Blocks:  " +:+ pretty (ea_snos_blocks args) +:+ " x " +:+ pretty (ea_increments_per_snos args)
      +:+ " calls x increment(" +:+ pretty (ea_counter_increments args) +:+ ") = +"
      +:+ pretty (total_expected : Z) +:+ " total"; ""];;
  check_prereqs c (bool_decide (prover_url = None));;
  try_host (create_dir_all (ea_output_dir args)) id;;
  run_steps c prover_url account_name increment_per_block total_expected e2e_start.
End run.

(** ** Facts *)

Section facts.
Context {W : Type} `{Http W} `{Clock W} `{SerdeJson} `{FeltOps} `{!Crypto} `{Env W}.
Context `{Process W} `{Files W} `{Random W} `{Gateway W} `{RegexLite} `{JsonText}.
Context `{Statics W} `{Console W} `{DriverHost W} `{!DriverLaws}.
Context (fuel : nat) (checks : bool) (args : E2eArgs) (c : Config).

Abbreviation then_follows := (follows stable_driver).

(** The counter's view call returned [n]. *)
Definition counter_read (contract_address : string) (n : Z) (w w' : W) : Prop :=
  ∃ hex rest, starknet_call (client c) contract_address GET_COUNTER_SELECTOR [] w = (Ok (hex :: rest), w') ∧
    parse_hex_quantity u64_max hex = Ok n.

Lemma read_counter_Some address n (w w' : W) :
  read_counter c address w = (Ok (Some n), w') → counter_read address n w w'.
Proof.
  unfold read_counter. intros (r & w1 & Hr%attempt_Ok & [= Hn <-])%prog_bind_Ok.
  destruct Hr as [(l & -> & Hcall)|(e & -> & _)]; [|done]. destruct l as [|hex l]; [done|].
  exists hex, l. split; [done|]. by destruct (parse_hex_quantity u64_max hex); simplify_eq/=.
Qed.

Section cycle.
Context (cy : cycle).

Definition tx_path (k : Z) : string := path_join (ea_output_dir args) (file_name "e2e_tx_" k ".json").
Definition proof_path (k : Z) : string := path_join (ea_output_dir args) (file_name "e2e_" k ".proof").

(** The transaction of block [k] was written, signed for its standard hash
    with the nonce of the reference block, and the prover run on it there. *)
Definition block_proved (k reference_block nonce : Z) (w w' : W) : Prop :=
  ∃ wa wb wc wd we sig,
    then_follows w wa ∧
    get_nonce_at_block (client c) (account_address c)
      (JObject [("block_number", json_u64 reference_block)]) wa = (Ok nonce, wb) ∧
    sign (pf_key (cy_felts cy)) (standard_tx_hash (cy_felts cy) nonce) = Ok sig ∧
    write_file (tx_path k) (to_string_pretty (tx_json c (cy_calldata cy) nonce sig)) wb = (inr tt, wc) ∧
    then_follows wc wd ∧
    prover_succeeded c (cy_exe cy) (cy_prover_url cy) reference_block (tx_path k) (proof_path k) wd we ∧
    then_follows we w'.

(** The proof of block [k] was submitted, the transaction was seen in block
    [next], and then the counter had its expected value. *)
Definition block_settled (k nonce next : Z) (w w' : W) : Prop :=
  ∃ submission h receipt expected wa wb wc wd we wf,
    signed_submission (cy_felts cy) nonce submission ∧
    then_follows w wa ∧ submit_accepts c submission h wa wb ∧ then_follows wb wc ∧
    wait_for_tx (client c) fuel h 180 5 wc = (Ok receipt, wd) ∧
    next = default 0 (receipt_block_number receipt) ∧ then_follows wd we ∧
    expected_counter checks cy k = Ok expected ∧
    counter_read (cy_contract_address cy) expected we wf ∧ then_follows wf w'.

Definition block_verified (k reference_block next : Z) (w w' : W) : Prop :=
  ∃ nonce w1, block_proved k reference_block nonce w w1 ∧
    if ea_prove_only args then next = reference_block ∧ then_follows w1 w'
    else block_settled k nonce next w1 w'.

(** The blocks from [k] on: each is proved against the block in which the
    transaction of the one before it was included. *)
Inductive blocks_verified : nat → Z → Z → W → W → Prop :=
  | NoBlock k reference_block w : blocks_verified 0 k reference_block w w
  | OneBlock n k reference_block next w w1 w' :
      block_verified k reference_block next w w1 →
      blocks_verified n (k + 1) next w1 w' →
      blocks_verified (S n) k reference_block w w'.

Lemma construct_Ok k block path nonce (w w' : W) :
  construct c cy k block path w = (Ok nonce, w') →
  ∃ w1 w2 sig, get_nonce_at_block (client c) (account_address c)
      (JObject [("block_number", json_u64 block)]) w = (Ok nonce, w1) ∧
    sign (pf_key (cy_felts cy)) (standard_tx_hash (cy_felts cy) nonce) = Ok sig ∧
    write_file path (to_string_pretty (tx_json c (cy_calldata cy) nonce sig)) w1 = (inr tt, w2) ∧
    then_follows w2 w'.
Proof.
  unfold construct. intros (n & w1 & Hn%mapping_err_Ok & Hrun)%prog_bind_Ok.
  apply prog_bind_Ok in Hrun as ([] & w2 & (sig & Hsig & Hw)%construct_tx_written & Hrun).
  assert (then_follows w2 w') as F.
  { eapply follows_run; [|exact Hrun]. intros P HP. keeps_driver HP. }
  do 2 (apply prog_bind_Ok in Hrun as (? & ? & _ & Hrun)). injection Hrun as <- _.
  exists w1, w2, sig. by split_and!.
Qed.

Lemma accepted_or_fail_Ok before k accepted h (w w' : W) :
  accepted_or_fail before k accepted w = (Ok h, w') → accepted = Some h ∧ w' = w.
Proof.
  unfold accepted_or_fail. destruct accepted as [x|]; [by intros [= -> ->]|].
  intros (? & ? & _ & (? & ? & _ & [=])%prog_bind_Ok)%prog_bind_Ok.
Qed.

Lemma await_inclusion_block_Ok k h next (w w' : W) :
  await_inclusion fuel c k h w = (Ok next, w') →
  ∃ receipt w1 w2, then_follows w w1 ∧ wait_for_tx (client c) fuel h 180 5 w1 = (Ok receipt, w2) ∧
    next = default 0 (receipt_block_number receipt) ∧ then_follows w2 w'.
Proof.
  unfold await_inclusion. intros (? & w1 & Hi & Hrun)%prog_bind_Ok.
  apply prog_bind_Ok in Hrun as (r & w2 & Hw%attempt_Ok & Hrun).
  destruct Hw as [(receipt & -> & Hw)|(e & -> & _)]; [|by apply fail_with_Ok in Hrun].
  exists receipt, w1, w2. split_and!; [|done| |].
  - eapply follows_run; [|exact Hi]. intros P HP. keeps_driver HP.
  - cbv zeta in Hrun. do 3 (apply prog_bind_Ok in Hrun as (? & ? & _ & Hrun)). by injection Hrun as <- _.
  - eapply follows_run; [|exact Hrun]. intros P HP. keeps_driver HP.
Qed.

Lemma verify_counter_Ok k (w w' : W) u :
  verify_counter checks c cy k w = (Ok u, w') →
  ∃ expected w1, expected_counter checks cy k = Ok expected ∧
    counter_read (cy_contract_address cy) expected w w1 ∧ then_follows w1 w'.
Proof.
  unfold verify_counter. intros (r & w1 & Hr & Hrun)%prog_bind_Ok.
  apply prog_bind_Ok in Hrun as (expected & ? & [He ->]%lift_Ok & Hrun).
  destruct r as [actual|]; [|by apply fail_with_Ok in Hrun].
  destruct (Z.eqb_spec actual expected) as [->|]; [|by apply fail_with_Ok in Hrun].
  exists expected, w1. split_and!; [done|by apply read_counter_Some|].
  eapply follows_run; [|exact Hrun]. intros P HP. keeps_driver HP.
Qed.

Lemma submit_block_Ok k block nonce next (w w' : W) :
  submit_block fuel checks c cy k block nonce (proof_path k) w = (Ok next, w') →
  block_settled k nonce next w w'.
Proof.
  unfold submit_block. intros (submission & w1 & Hs & Hrun)%prog_bind_Ok.
  assert (then_follows w w1) as F1.
  { eapply follows_run; [|exact Hs]. intros P HP.
    unfold read_submission, read_proof_facts, sign_submission. keeps_driver HP. }
  apply read_submission_Ok in Hs.
  apply prog_bind_Ok in Hrun as (before & ? & [= _ <-] & Hrun).
  apply prog_bind_Ok in Hrun as (accepted & w2 & (wa & wb & Fa & Fb & Hacc)%submit_Ok & Hrun).
  apply prog_bind_Ok in Hrun as (h & ? & [-> ->]%accepted_or_fail_Ok & Hrun). destruct Hacc as [Hacc _].
  apply prog_bind_Ok in Hrun as (bn & w3 & (receipt & wc & wd & Fc & Hw & Hbn & Fd)%await_inclusion_block_Ok & Hrun).
  apply prog_bind_Ok in Hrun as (? & w4 & (expected & we & He & Hr & Fe)%verify_counter_Ok & [= <- <-]).
  exists submission, h, receipt, expected, wa, wb, wc, wd, w3, we.
  split_and!; try done; [by rewrite F1|by rewrite Fb].
Qed.

Lemma prove_one_Ok k block next (w w' : W) :
  prove_one fuel checks args c cy k block w = (Ok next, w') → block_verified k block next w w'.
Proof.
  unfold prove_one. intros (n & ? & [_ ->]%lift_Ok & Hrun)%prog_bind_Ok. cbv zeta in Hrun.
  apply prog_bind_Ok in Hrun as (? & w1 & Hstep & Hrun).
  apply prog_bind_Ok in Hrun as (nonce & w2 & (wb & wc & sig & Hn & Hsig & Hw & Fc)%construct_Ok & Hrun).
  apply prog_bind_Ok in Hrun as (? & w3 & (we & Hp & Fe)%run_prover_Ok & Hrun).
  exists nonce, w3. split.
  - exists w1, wb, wc, w2, we, sig. split_and!; try done.
    eapply follows_run; [|exact Hstep]. intros P HP. by apply step_keeps.
  - destruct (ea_prove_only args); [|by apply submit_block_Ok in Hrun].
    apply prog_bind_Ok in Hrun as (? & w4 & Hs & [= <- <-]). split; [done|].
    eapply follows_run; [|exact Hs]. intros P HP. unfold saved_locally. keeps_driver HP.
Qed.

Lemma prove_blocks_Ok n k block last (w w' : W) :
  prove_blocks fuel checks args c cy n k block w = (Ok last, w') → blocks_verified n k block w w'.
Proof.
  revert k block w. induction n as [|n IH]; intros k block w; cbn [prove_blocks].
  { intros [= _ <-]. constructor. }
  intros (next & w1 & Hone%prove_one_Ok & Hrun%IH)%prog_bind_Ok. by econstructor.
Qed.

(** *** Failures *)

Lemma quiet_read_counter address : quiet (read_counter c address).
Proof. unfold read_counter. quiets. Qed.

Lemma quiet_submit_block k block nonce path : quiet (submit_block fuel checks c cy k block nonce path).
Proof.
  unfold submit_block. apply quiet_bind; [apply quiet_read_submission|intros submission].
  apply quiet_bind; [quiets|intros before]. intros w next w' Hrun.
  apply prog_bind_Ok in Hrun as (accepted & w1 & (wa & wb & _ & _ & Hacc)%submit_Ok & Hrun).
  apply prog_bind_Ok in Hrun as (h & ? & [-> ->]%accepted_or_fail_Ok & Hrun). destruct Hacc as [_ <-].
  revert w1 next w' Hrun.
  change (quiet (bn ← await_inclusion fuel c k h; verify_counter checks c cy k;; mret bn)).
  apply quiet_bind; [unfold await_inclusion; quiets|intros bn].
  apply quiet_bind; [|intros; quiets]. unfold verify_counter.
  apply quiet_bind; [apply quiet_read_counter|intros]. quiets.
Qed.

Lemma quiet_construct_block k block path : quiet (construct c cy k block path).
Proof. unfold construct. quiets. Qed.

Lemma quiet_saved_locally path : quiet (saved_locally path).
Proof. unfold saved_locally. quiets. Qed.

Lemma quiet_prove_one k block : quiet (prove_one fuel checks args c cy k block).
Proof.
  unfold prove_one. apply quiet_bind; [quiets|intros n]. cbv zeta. apply quiet_bind; [quiets|intros _].
  apply quiet_bind; [apply quiet_construct_block|intros nonce].
  apply quiet_bind; [apply quiet_run_prover|intros _].
  destruct (ea_prove_only args); [|apply quiet_submit_block].
  apply quiet_bind; [apply quiet_saved_locally|intros; quiets].
Qed.

Lemma quiet_prove_blocks n k block : quiet (prove_blocks fuel checks args c cy n k block).
Proof.
  revert k block. induction n as [|n IH]; intros k block; cbn [prove_blocks]; [quiets|].
  apply quiet_bind; [apply quiet_prove_one|intros; apply IH].
Qed.

(** The final check: the counter is read, and it is [passed] exactly when its
    value is the initial one plus the total, in the u64 of the sum. *)
Definition final_check (total : Z) (passed : bool) (w w' : W) : Prop :=
  ∃ found expected wa wb,
    then_follows w wa ∧ read_counter c (cy_contract_address cy) wa = (Ok found, wb) ∧
    then_follows wb w' ∧
    add_u checks u64_max (cy_initial_counter cy) total = Ok expected ∧
    passed = bool_decide (found = Some expected) ∧
    ∀ n, found = Some n → counter_read (cy_contract_address cy) n wa wb.

(** The last check is the only one that can fail without ending the run, and
    with --prove-only there is none. *)
Lemma final_verification_Ok total (w w' : W) u :
  final_verification checks args c cy total w = (Ok u, w') →
  then_follows w w' ∧
  if ea_prove_only args then fail_count (tally w') = fail_count (tally w)
  else ∃ passed, final_check total passed w w' ∧
    fail_count (tally w') = if passed : bool then fail_count (tally w)
                            else fetch_inc (fail_count (tally w)).
Proof.
  intros Hrun. split.
  { eapply follows_run; [|exact Hrun]. intros P HP. unfold final_verification, read_counter. keeps_driver HP. }
  unfold final_verification in Hrun. apply prog_bind_Ok in Hrun as (n & ? & [_ ->]%lift_Ok & Hrun).
  destruct (ea_prove_only args).
  { revert w u w' Hrun. change (quiet (step n "Prove-only complete";;
      pass ("All " +:+ pretty (ea_snos_blocks args) +:+ " block(s) proved -- artifacts saved to "
        +:+ ea_output_dir args))). quiets. }
  apply prog_bind_Ok in Hrun as (? & w1 & Hstep & Hrun).
  pose proof (quiet_step _ _ _ _ _ Hstep) as <-.
  apply prog_bind_Ok in Hrun as (r & w2 & Hr & Hrun). pose proof (quiet_read_counter _ _ _ _ Hr) as <-.
  apply prog_bind_Ok in Hrun as (final & ? & [Hfinal ->]%lift_Ok & Hrun).
  assert (then_follows w w1) as F1.
  { eapply follows_run; [|exact Hstep]. intros P HP. by apply step_keeps. }
  assert (∀ msg, fail (E:=string) msg w2 = (Ok u, w') →
    then_follows w2 w' ∧ fail_count (tally w') = fetch_inc (fail_count (tally w2))) as Hfail.
  { intros msg Hf. split; [eapply follows_run; [|exact Hf]; intros P HP; by apply fail_keeps|].
    revert Hf. rewrite fail_eq. intros [= _ <-]. by rewrite printed_fail_tally. }
  assert (∀ passed, then_follows w2 w' → passed = bool_decide (r = Some final) →
    final_check total passed w w') as Hcheck.
  { intros passed F2 ->. exists r, final, w1, w2. split_and!; try done.
    intros m ->. by apply read_counter_Some. }
  destruct r as [actual|]; [|exists false; apply Hfail in Hrun as [F2 ?]; split; [by apply Hcheck|done]].
  destruct (Z.eqb_spec actual final) as [->|Hne].
  - exists true. split; [apply Hcheck; [|by rewrite bool_decide_eq_true_2]|by eapply quiet_pass].
    eapply follows_run; [|exact Hrun]. intros P HP. by apply pass_keeps.
  - exists false. apply Hfail in Hrun as [F2 ?]. split; [|done]. apply Hcheck; [done|].
    rewrite bool_decide_eq_false_2; [done|congruence].
Qed.
End cycle.

(** *** The run *)

Lemma quiet_deploy_phase account : quiet (deploy_phase fuel c account).
Proof. unfold deploy_phase, deploy_contract, import_account. quiets. Qed.

Lemma quiet_start_cycle url inc address block : quiet (start_cycle fuel args c url inc address block).
Proof. unfold start_cycle, parse_felts. quiets. apply quiet_read_counter. Qed.

Lemma deploy_phase_Ok account deployed (w w' : W) :
  deploy_phase fuel c account w = (Ok deployed, w') →
  ∃ w1 w2, then_follows w w1 ∧ deployed_in fuel c deployed.2 w1 w2 ∧ then_follows w2 w'.
Proof.
  unfold deploy_phase. intros (d & w1 & Hd & Hrun)%prog_bind_Ok.
  apply prog_bind_Ok in Hrun as (? & w2 & Hstep & Hrun).
  apply prog_bind_Ok in Hrun as (block & w3 & (w4 & Hb & F4)%await_deploy_Ok & [= <- <-]).
  exists w2, w4. split_and!; [|done..]. transitivity w1.
  - eapply follows_run; [|exact Hd]. intros P HP.
    unfold deploy_contract, import_account, verify_account, compile, declare_, run_declare, await_declare,
      deploy, fresh_salt. keeps_driver HP.
  - eapply follows_run; [|exact Hstep]. intros P HP. by apply step_keeps.
Qed.

(** What the loop is given. *)
Record cycle_ok (increment_per_block : Z) (cy : cycle) : Prop := {
  ok_calldata : cy_calldata cy = multicall_strs (cy_contract_address cy) (ea_counter_increments args)
    (Z.of_nat (Z.to_nat (ea_increments_per_snos args)));
  ok_felts : collect_res felt_from_hex (cy_calldata cy) = Ok (pf_calldata (cy_felts cy));
  ok_sender : felt_from_hex (account_address c) = Ok (pf_sender (cy_felts cy));
  ok_key : felt_from_hex (private_key c) = Ok (pf_key (cy_felts cy));
  ok_chain : config_chain_id_felt c = Ok (pf_chain_id (cy_felts cy));
  ok_increment : cy_increment_per_block cy = increment_per_block;
}.

Lemma start_cycle_Ok `{!FeltLaws} url inc address block cy (w w' : W) :
  start_cycle fuel args c url inc address block w = (Ok cy, w') →
  cycle_ok inc cy ∧ cy_contract_address cy = address ∧ then_follows w w'.
Proof.
  intros Hrun.
  assert (then_follows w w') as F.
  { eapply follows_run; [|exact Hrun]. intros P HP. unfold start_cycle, parse_felts, read_counter. keeps_driver HP. }
  unfold start_cycle in Hrun. cbv zeta in Hrun.
  apply prog_bind_Ok in Hrun as (felts & ? & (-> & Hcd & Hs & Hk & Hch)%parsed_felts_Ok & Hrun).
  do 5 (apply prog_bind_Ok in Hrun as (? & ? & _ & Hrun)). injection Hrun as <- <-.
  split_and!; [|done|done]. split; cbn; try done. apply increments_agree.
Qed.

(** The whole run, in order: the deployment, the blocks, and the verdict. *)
Definition run_outcome (v : verdict) (increment_per_block total : Z) (w w' : W) : Prop :=
  ∃ cy block wa wb wc wd we,
    then_follows w wa ∧ deployed_in fuel c block wa wb ∧ then_follows wb wc ∧
    cycle_ok increment_per_block cy ∧
    blocks_verified cy (Z.to_nat (ea_snos_blocks args)) 1 block wc wd ∧
    then_follows wd we ∧ then_follows we w' ∧
    if ea_prove_only args then v = AllPassed
    else final_check cy total (bool_decide (v = AllPassed)) wd we.

Lemma counter_run_steps_Ok `{!FeltLaws} url account inc total start v (w w' : W) :
  fail_count (tally w) = 0 →
  run_steps fuel checks args c url account inc total start w = (Ok v, w') →
  run_outcome v inc total w w'.
Proof.
  intros Hzero. unfold run_steps. intros (deployed & w1 & Hd & Hrun)%prog_bind_Ok.
  pose proof (quiet_deploy_phase _ _ _ _ Hd) as Q1. apply deploy_phase_Ok in Hd as (wa & wb & Fa & Hb & Fb).
  apply prog_bind_Ok in Hrun as (cy & w2 & Hs & Hrun).
  pose proof (quiet_start_cycle _ _ _ _ _ _ _ Hs) as Q2. apply start_cycle_Ok in Hs as (Hcy & _ & F2).
  apply prog_bind_Ok in Hrun as (last & w3 & Hblocks & Hrun).
  pose proof (quiet_prove_blocks _ _ _ _ _ _ _ Hblocks) as Q3. apply prove_blocks_Ok in Hblocks.
  apply prog_bind_Ok in Hrun as (? & w4 & (F4 & Hfinal)%final_verification_Ok & (Hv & F5)%summary_Ok).
  exists cy, deployed.2, wa, wb, w2, w3, w4. split_and!; try done; [by rewrite Fb|].
  rewrite Q3, Q2, Q1, Hzero in Hfinal. destruct (ea_prove_only args).
  { by apply (proj2 Hv). }
  destruct Hfinal as (passed & Hcheck & Hf). replace (bool_decide (v = AllPassed)) with passed; [done|].
  destruct passed.
  - rewrite bool_decide_eq_true_2; [done|]. by apply (proj2 Hv).
  - rewrite bool_decide_eq_false_2; [done|]. intros Hall%(proj1 Hv). rewrite Hf in Hall.
    vm_compute in Hall. done.
Qed.
End facts.

Section run_facts.
Context {W : Type} `{Http W} `{Clock W} `{SerdeJson} `{FeltLaws} `{!Crypto} `{Env W}.
Context `{Process W} `{Files W} `{Random W} `{Gateway W} `{RegexLite} `{JsonText}.
Context `{Statics W} `{Console W} `{DriverHost W} `{!DriverLaws}.
Context (fuel : nat) (checks : bool) (args : E2eArgs).

End run_facts.
