(* ===== verification/MessagesE2e.v ===== *)
(** * The messages driver ([apps/messages/src/e2e.rs])

    Deploys the messenger contract, proves one [send_message] transaction,
    looks at the messages that the prover wrote and submits the proof.  The
    counter's crate has a copy ([apps/counter/src/e2e_messages.rs]) that
    differs in its punctuation alone; the differing texts are a parameter. *)

From S2P Require Import Prelude RustNum RustStr Json Felt Types Signing ProofCodec.
From S2P Require Import Config Rpc Host Submission Counter Driver DriverFacts.

Definition SEND_MESSAGE_SELECTOR : string :=
  "0x12ead94ae9d3f9d2bdb6b847cf255f1f398193a1f88884a0ae8e18f24a037b6".

Record E2eMessagesArgs := {
  ma_prover_url : option string;
  ma_output_dir : string;
  ma_prove_only : bool;
  ma_to_address : string;
  ma_payload : string;
}.

(** How a copy writes an arrow and a dash. *)
Record texts := { arrow : string; dash : string }.

Definition l2_l1 (t : texts) : string := "L2" +:+ arrow t +:+ "L1".

Definition payload_strs (payload : string) : list string := trim <$> split_char ","%char payload.

(** One call to [send_message(to_address, payload)]. *)
Definition inner_calldata (to_address : string) (payload : list string) : list string :=
  ([to_address; fmt_len payload] ++ payload)%list.

Definition message_calldata (contract_address to_address : string) (payload : list string)
    : list string :=
  let inner := inner_calldata to_address payload in
  (["0x1"; contract_address; SEND_MESSAGE_SELECTOR; fmt_len inner] ++ inner)%list.

Section e2e.
Context {W : Type} `{Http W} `{Clock W} `{SerdeJson} `{FeltOps} `{!Crypto} `{Env W}.
Context `{Process W} `{Files W} `{Random W} `{Gateway W} `{RegexLite} `{JsonText}.
Context `{Statics W} `{Console W} `{DriverHost W} `{DebugFmt (list string)}.
Context (fuel : nat) (checks : bool) (txt : texts) (args : E2eMessagesArgs).

Definition account_name : string := "e2e-test-account-2".

Definition check_prereqs (c : Config) : prog W string unit :=
  for_each require_command ["scarb"; "sncast"];;
  require_file (prover_bin c) ("stwo-run-and-prove not found at " +:+ prover_bin c
    +:+ ". Run `snip36 setup` first.").

Section phases.
Context (c : Config).

(** The outcome of the wait is dropped, before the check passes. *)
Definition declare_messenger : prog W string string :=
  computed_hash ← computed_class_hash c "Messenger";
  declared ← already_declared c computed_hash;
  match declared with
  | Some h => pass "Messenger already declared";; info ("  Class hash: " +:+ h);; mret h
  | None =>
      declare_combined ← run_declare c account_name "Messenger";
      match class_hash_of declare_combined with
      | Some h =>
          match parse_hex_from_output "transaction_hash" declare_combined with
          | Some tx =>
              info ("  Waiting for declare tx " +:+ tx +:+ "...");;
              attempt (wait_for_tx (client c) fuel tx 120 3);; mret tt
          | None => mret tt
          end;;
          pass "Messenger declared";; info ("  Class hash: " +:+ h);; mret h
      | None => fail_with "Could not determine class hash" "declare failed"
      end
  end.

(** Steps 0 to 3. *)
Definition deploy_contract : prog W string (string * option string) :=
  step 0 "Import account into sncast";;
  import_silently c account_name;;
  verify_account c "Account imported" "Could not verify account on-chain"
    "cannot proceed without account";;
  step 1 "Compile messenger contract";;
  compile c "Contract compiled" "Compilation failed";;
  step 2 "Declare Messenger class";;
  class_hash ← declare_messenger;
  step 3 "Deploy messenger contract";;
  deploy c account_name class_hash "Messenger deployed".

(** Step 4: the contract and the block of its deployment. *)
Definition deploy_messenger : prog W string (string * Z) :=
  deployed ← deploy_contract;
  step 4 "Wait for deploy tx inclusion";;
  reference_block ← await_deploy fuel c (deployed : string * option string).2;
  mret (deployed.1, reference_block).

Definition tx_path : string := path_join (ma_output_dir args) "msg_tx.json".
Definition proof_path : string := path_join (ma_output_dir args) "msg.proof".

(** Step 5: the felts and the nonce of the transaction that was proved. *)
Definition prove_message (contract_address : string) (reference_block : Z)
    : prog W string (task_felts * Z) :=
  step 5 "Prove send_message transaction";;
  let calldata := message_calldata contract_address (ma_to_address args)
    (payload_strs (ma_payload args)) in
  felts ← parse_felts c calldata;
  modify (sleep (from_secs 3));;
  nonce ← rpc_ (get_nonce (client c) (account_address c));
  info ("  Using nonce: " +:+ pretty (nonce : Z) +:+ " (" +:+ fmt_hex nonce +:+ ")");;
  construct_tx c "signing failed: " felts calldata nonce tx_path;;
  info ("  Nonce: " +:+ pretty nonce +:+ ", ref block: " +:+ pretty reference_block +:+ ", tx: "
    +:+ felt_hex (standard_tx_hash felts nonce));;
  pass "Transaction constructed and signed";;
  prover_url ← reads (prover_url_of (ma_prover_url args));
  exe ← reads exe_name;
  run_prover c exe "failed to run prove command" "proving failed" prover_url reference_block
    tx_path proof_path;;
  mret (felts, nonce).

(** ** The messages *)

Definition message_line (i : nat) (msg : Value) : string :=
  let payload := get msg "payload" ≫= as_array in
  "  [" +:+ pretty i +:+ "] from=" +:+ default "?" (get_str msg "from_address") +:+ " to="
    +:+ default "?" (get_str msg "to_address") +:+ " payload_len="
    +:+ pretty (length (default [] payload)).

(** The comparison with what was sent: its outcome is printed and nothing
    else. *)
Definition compare_message (first_msg : Value) : prog W string unit :=
  let msg_to := default "" (get_str first_msg "to_address") in
  let expected_to := ma_to_address args in
  (if decide (msg_to = expected_to) then info ("  to_address matches: " +:+ msg_to)
   else info ("  to_address: got " +:+ msg_to +:+ ", expected " +:+ expected_to));;
  match get first_msg "payload" ≫= as_array with
  | Some payload_arr =>
      let got_payload := array_strings payload_arr in
      let sent := payload_strs (ma_payload args) in
      info ("  payload: " +:+ debug got_payload);;
      if decide (got_payload = sent) then info "  payload matches expected"
      else info ("  payload differs from input (expected " +:+ debug sent +:+ ")")
  | None => mret tt
  end.

Definition l2_to_l1 (messages_json : Value) : option (list Value) :=
  get messages_json "l2_to_l1_messages" ≫= as_array.

Definition check_messages (messages_json : Value) : prog W string unit :=
  match l2_to_l1 messages_json with
  | Some ((first_msg :: _) as msgs) =>
      info ("  Found " +:+ pretty (length msgs) +:+ " " +:+ l2_l1 txt +:+ " message(s):");;
      for_each info (imap message_line msgs);;
      compare_message first_msg;;
      pass ("raw_messages.json contains " +:+ pretty (length msgs) +:+ " message(s)")
  | _ => fail_with "raw_messages.json has no l2_to_l1_messages" "empty messages"
  end.

Definition messages_file : string := with_extension proof_path "raw_messages.json".

(** Step 6. *)
Definition verify_messages : prog W string unit :=
  step 6 ("Verify " +:+ l2_l1 txt +:+ " messages output");;
  there ← reads (λ w, path_exists w messages_file);
  (if (there : bool) then mret tt
   else fail_with ("raw_messages.json not found " +:+ dash txt +:+ " prover did not return "
          +:+ l2_l1 txt +:+ " messages") "missing raw_messages.json");;
  messages_str ← wrapped "failed to read raw_messages.json"
    (try_host (read_to_string messages_file) id);
  messages_json ← wrapped "invalid JSON in raw_messages.json" (lift (json_from_str messages_str));
  check_messages messages_json;;
  info ("  File: " +:+ messages_file).

(** ** Submission *)

Definition saved_locally : prog W string unit :=
  info "  --prove-only: skipping RPC submission";;
  info ("  Proof:       " +:+ proof_path);;
  info ("  Proof facts: " +:+ with_extension proof_path "proof_facts");;
  info ("  Messages:    " +:+ messages_file);;
  pass "Proof and messages saved locally".

Definition submit_message (felts : task_felts) (nonce : Z) : prog W string unit :=
  step 7 "Submit via RPC";;
  submission ← read_submission felts nonce proof_path "empty proof";
  accepted ← submit c [] submission;
  match accepted with
  | Some rpc_tx_hash => await_included fuel c rpc_tx_hash
  | None => throw "Submission failed"
  end.

Definition report (e2e_start : Z) : prog W string verdict :=
  summary checks (l2_l1 txt +:+ " MESSAGES E2E SUMMARY") e2e_start.

Definition run_steps (e2e_start : Z) : prog W string verdict :=
  deployed ← deploy_messenger;
  proved ← prove_message (deployed : string * Z).1 deployed.2;
  verify_messages;;
  (if ma_prove_only args then saved_locally
   else submit_message (proved : task_felts * Z).1 proved.2);;
  report e2e_start.
End phases.

Definition run (env_file : option string) : prog W string verdict :=
  c ← mapping_err config_error_text (from_env env_file);
  reset_statics;;
  e2e_start ← reads now;
  for_each info ["=== SNIP-36 " +:+ l2_l1 txt +:+ " Messages E2E Test ==="; "";
    "  RPC:        " +:+ rpc_url c; "  Account:    " +:+ account_address c;
    "  To address: " +:+ ma_to_address args;
    "  Payload:    " +:+ debug (payload_strs (ma_payload args)); ""];;
  check_prereqs c;;
  try_host (create_dir_all (ma_output_dir args)) id;;
  run_steps c e2e_start.
End e2e.

(** The texts of this file. *)
Definition messages_texts : texts := {| arrow := "→"; dash := "—" |}.

(** ** Facts *)

Lemma message_calldata_eq address to payload :
  message_calldata address to payload =
  encode_account_calls [(address, SEND_MESSAGE_SELECTOR, inner_calldata to payload)].
Proof. done. Qed.

Section facts.
Context {W : Type} `{Http W} `{Clock W} `{SerdeJson} `{FeltOps} `{!Crypto} `{Env W}.
Context `{Process W} `{Files W} `{Random W} `{Gateway W} `{RegexLite} `{JsonText}.
Context `{Statics W} `{Console W} `{DriverHost W} `{DebugFmt (list string)} `{!DriverLaws}.
Context (fuel : nat) (checks : bool) (txt : texts) (args : E2eMessagesArgs).

Abbreviation then_follows := (follows stable_driver).

Lemma quiet_compare msg : quiet (compare_message args msg).
Proof. unfold compare_message. quiets. Qed.

Lemma silent_compare msg : silent (compare_message args msg).
Proof. unfold compare_message. silences. Qed.

Lemma compare_total msg (w : W) : ∃ w', compare_message args msg w = (Ok tt, w').
Proof.
  unfold compare_message, info, modify. cbv zeta.
  destruct (decide (default "" (get_str msg "to_address") = ma_to_address args));
    (destruct (get msg "payload" ≫= as_array) as [arr|]; [|eexists; reflexivity];
     destruct (decide (array_strings arr = payload_strs (ma_payload args))); eexists; reflexivity).
Qed.

(** Although the driver means to verify that the first message is the one
    that was sent, any document with at least one message passes: for every
    such document the check returns without an error and records one passed
    check and no failed one, whatever the addresses and the payloads are. *)
Theorem any_message_passes messages_json first rest (w : W) :
  l2_to_l1 messages_json = Some (first :: rest) →
  ∃ w', check_messages txt args messages_json w = (Ok tt, w') ∧ tally w' = count_pass (tally w).
Proof.
  intros Hmsgs. unfold check_messages. rewrite Hmsgs.
  erewrite (prog_bind_eq (info _)) by reflexivity. set (w1 := trace_info _ w).
  destruct (for_each_info (E:=string) (imap message_line (first :: rest)) w1) as (l & w2 & Hl).
  rewrite (prog_bind_eq _ _ _ _ _ Hl). destruct (compare_total first w2) as (w3 & Hc).
  rewrite (prog_bind_eq _ _ _ _ _ Hc), pass_eq. eexists. split; [done|].
  rewrite printed_pass_tally. f_equal. rewrite (silent_tally _ _ _ _ (silent_compare first) Hc).
  rewrite (silent_tally _ _ _ _ (silent_lines _) Hl). apply kept_tally.
  intros P HP Hw. by apply (calls_info P HP).
Qed.

(** *** The run *)

Lemma quiet_verify_messages : quiet (verify_messages txt args).
Proof. pose proof quiet_compare as Hc. unfold verify_messages, check_messages. quiets. Qed.

Lemma quiet_prove_message c address block : quiet (prove_message args c address block).
Proof. unfold prove_message, parse_felts. quiets. Qed.

Lemma quiet_deploy_messenger c : quiet (deploy_messenger fuel c).
Proof.
  unfold deploy_messenger, deploy_contract, declare_messenger, computed_class_hash, already_declared,
    import_silently. quiets.
Qed.

Lemma quiet_submit_message c felts nonce : quiet (submit_message fuel args c felts nonce).
Proof.
  unfold submit_message. apply quiet_bind; [quiets|intros _]. apply quiet_bind; [quiets|intros submission].
  intros w u w' (accepted & w1 & (wa & wb & _ & _ & Hacc)%submit_Ok & Hrun)%prog_bind_Ok.
  destruct accepted as [h|]; [|done]. destruct Hacc as [_ <-]. revert w1 u w' Hrun.
  change (quiet (await_included fuel c h)). unfold await_included. quiets.
Qed.

Lemma deploy_messenger_Ok c deployed (w w' : W) :
  deploy_messenger fuel c w = (Ok deployed, w') →
  ∃ w1 w2, then_follows w w1 ∧ deployed_in fuel c deployed.2 w1 w2 ∧ then_follows w2 w'.
Proof.
  unfold deploy_messenger. intros (d & w1 & Hd & Hrun)%prog_bind_Ok.
  apply prog_bind_Ok in Hrun as (? & w2 & Hstep & Hrun).
  apply prog_bind_Ok in Hrun as (block & w3 & (w4 & Hb & F4)%await_deploy_Ok & [= <- <-]).
  exists w2, w4. split_and!; [|done..]. transitivity w1.
  - eapply follows_run; [|exact Hd]. intros P HP.
    unfold deploy_contract, declare_messenger, computed_class_hash, already_declared, import_silently,
      verify_account, compile, run_declare, deploy, fresh_salt. keeps_driver HP.
  - eapply follows_run; [|exact Hstep]. intros P HP. by apply step_keeps.
Qed.

Lemma prove_message_Ok c address block proved (w w' : W) :
  prove_message args c address block w = (Ok proved, w') →
  let calldata := message_calldata address (ma_to_address args) (payload_strs (ma_payload args)) in
  collect_res felt_from_hex calldata = Ok (pf_calldata proved.1) ∧
  felt_from_hex (account_address c) = Ok (pf_sender proved.1) ∧
  ∃ w1 w2, then_follows w w1 ∧
    get_nonce (client c) (account_address c) w1 = (Ok proved.2, w2) ∧
    written_and_proved c proved.1 calldata proved.2 (tx_path args) (proof_path args) block w2 w'.
Proof.
  unfold prove_message. cbv zeta. intros (? & w1 & Hstep & Hrun)%prog_bind_Ok.
  apply prog_bind_Ok in Hrun as (felts & ? & (-> & Hcd & Hs & _ & _)%parsed_felts_Ok & Hrun).
  apply prog_bind_Ok in Hrun as (? & w2 & Hsleep & Hrun).
  apply prog_bind_Ok in Hrun as (nonce & w3 & Hn%mapping_err_Ok & Hrun).
  apply prog_bind_Ok in Hrun as (? & w4 & Hi & Hrun).
  apply prog_bind_Ok in Hrun as ([] & w5 & (sig & Hsig & Hw)%construct_tx_written & Hrun).
  apply prog_bind_Ok in Hrun as (? & w6 & Hi2 & Hrun).
  apply prog_bind_Ok in Hrun as (? & w7 & Hp & Hrun).
  apply prog_bind_Ok in Hrun as (url & ? & [= _ <-] & Hrun).
  apply prog_bind_Ok in Hrun as (exe & ? & [= _ <-] & Hrun).
  apply prog_bind_Ok in Hrun as (? & w8 & (w9 & Hprove & F9)%run_prover_Ok & [= <- <-]).
  split; [done|]. split; [done|]. exists w2, w3. split; [|split; [done|]].
  - transitivity w1; [eapply follows_run; [|exact Hstep]|eapply follows_run; [|exact Hsleep]];
      intros P HP; [by apply step_keeps|keeps_driver HP].
  - exists sig, exe, url, w4, w5, w7, w9. split_and!; try done.
    + eapply follows_run; [|exact Hi]. intros P HP. keeps_driver HP.
    + transitivity w6; [eapply follows_run; [|exact Hi2]|eapply follows_run; [|exact Hp]];
        intros P HP; keeps_driver HP.
Qed.

Lemma submit_message_Ok c felts nonce (w w' : W) u :
  submit_message fuel args c felts nonce w = (Ok u, w') → submitted_once fuel c felts nonce w w'.
Proof.
  unfold submit_message. intros (? & w1 & Hstep & Hrun)%prog_bind_Ok.
  apply prog_bind_Ok in Hrun as (submission & w2 & Hs & Hrun).
  assert (then_follows w1 w2) as F2.
  { eapply follows_run; [|exact Hs]. intros P HP.
    unfold read_submission, read_proof_facts, sign_submission. keeps_driver HP. }
  apply read_submission_Ok in Hs.
  apply prog_bind_Ok in Hrun as (accepted & w3 & (wa & wb & Fa & Fb & Hacc)%submit_Ok & Hrun).
  destruct accepted as [h|]; [|done]. destruct Hacc as [Hacc _].
  apply await_included_Ok in Hrun as (receipt & wc & wd & Fc & Hw & Fd).
  exists submission, h, receipt, wa, wb, wc, wd. split_and!; try done; [|by rewrite Fb].
  rewrite <-Fa, <-F2. eapply follows_run; [|exact Hstep]. intros P HP. by apply step_keeps.
Qed.

(** The prover's file of messages was read and has at least one. *)
Definition has_message (w w' : W) : Prop :=
  ∃ text json first rest wa wb, then_follows w wa ∧
    read_to_string (messages_file args) wa = (inr text, wb) ∧ json_from_str text = Ok json ∧
    l2_to_l1 json = Some (first :: rest) ∧ then_follows wb w'.

Lemma verify_messages_Ok (w w' : W) u : verify_messages txt args w = (Ok u, w') → has_message w w'.
Proof.
  unfold verify_messages. intros (? & w1 & Hstep & Hrun)%prog_bind_Ok.
  apply prog_bind_Ok in Hrun as (there & ? & [= _ <-] & Hrun).
  apply prog_bind_Ok in Hrun as (? & w2 & Ht & Hrun).
  assert (w2 = w1) as -> by (destruct there; [by injection Ht|by apply fail_with_Ok in Ht]).
  apply prog_bind_Ok in Hrun as (text & w3 & Hr%wrapped_Ok%try_host_Ok & Hrun).
  apply prog_bind_Ok in Hrun as (json & ? & [Hj ->]%wrapped_Ok%lift_Ok & Hrun).
  apply prog_bind_Ok in Hrun as (? & w4 & Hc & Hrun).
  destruct (l2_to_l1 json) as [[|first rest]|] eqn:Hl;
    unfold check_messages in Hc; rewrite Hl in Hc; try by apply fail_with_Ok in Hc.
  exists text, json, first, rest, w1, w3. split_and!; try done.
  - eapply follows_run; [|exact Hstep]. intros P HP. by apply step_keeps.
  - transitivity w4; [eapply follows_run; [|exact Hc]|eapply follows_run; [|exact Hrun]];
      intros P HP; unfold compare_message; keeps_driver HP.
Qed.

Lemma messages_start_quiet c (w w' : W) l :
  (for_each info l;; check_prereqs c;; try_host (create_dir_all (ma_output_dir args)) id) w
    = (Ok tt, w') →
  fail_count (tally w') = fail_count (tally w) ∧ then_follows w w'.
Proof.
  intros Hrun. split.
  - revert Hrun. assert (Hq : quiet (for_each info l;; check_prereqs c;;
      try_host (create_dir_all (ma_output_dir args)) id : prog W string unit)).
    { apply quiet_bind; [apply silent_quiet, silent_lines|intros _]. unfold check_prereqs. quiets. }
    apply Hq.
  - eapply follows_run; [|exact Hrun]. intros P HP. unfold check_prereqs. keeps_driver HP.
Qed.

Lemma messages_run_steps_Ok c start v (w w' : W) :
  fail_count (tally w) = 0 → run_steps fuel checks txt args c start w = (Ok v, w') →
  v = AllPassed ∧ ∃ deployed proved wa wb wc wd we wf,
    then_follows w wa ∧ deployed_in fuel c deployed.2 wa wb ∧ then_follows wb wc ∧
    get_nonce (client c) (account_address c) wc = (Ok proved.2, wd) ∧
    let calldata := message_calldata deployed.1 (ma_to_address args) (payload_strs (ma_payload args)) in
    collect_res felt_from_hex calldata = Ok (pf_calldata proved.1) ∧
    written_and_proved c proved.1 calldata proved.2 (tx_path args) (proof_path args) deployed.2 wd we ∧
    has_message we wf ∧ (ma_prove_only args = true ∨ submitted_once fuel c proved.1 proved.2 wf w').
Proof.
  intros Hzero. unfold run_steps. intros (deployed & w1 & Hd & Hrun)%prog_bind_Ok.
  pose proof (quiet_deploy_messenger _ _ _ _ Hd) as Q1. apply deploy_messenger_Ok in Hd as (wa & wb & Fa & Hb & Fb).
  apply prog_bind_Ok in Hrun as (proved & w2 & Hp & Hrun).
  pose proof (quiet_prove_message _ _ _ _ _ _ Hp) as Q2.
  apply prove_message_Ok in Hp as (Hcd & _ & wc & wd & Fc & Hn & Hp).
  apply prog_bind_Ok in Hrun as (? & w3 & Hm & Hrun).
  pose proof (quiet_verify_messages _ _ _ Hm) as Q3. apply verify_messages_Ok in Hm.
  apply prog_bind_Ok in Hrun as (? & w4 & Hs & [Hv Fv]%summary_Ok).
  assert (fail_count (tally w4) = fail_count (tally w3)) as Q4.
  { destruct (ma_prove_only args); [|by eapply quiet_submit_message].
    revert Hs. assert (Hq : quiet (saved_locally args)) by (unfold saved_locally; quiets). apply Hq. }
  split; [apply Hv; congruence|].
  exists deployed, proved, wa, wb, wc, wd, w2, w3. cbv zeta. split_and!; try done; [by rewrite Fb|].
  destruct (ma_prove_only args); [by left|right].
  apply submit_message_Ok in Hs as (sub & h & receipt & wi & wj & wk & wl & ? & ? & ? & ? & ? & ?).
  exists sub, h, receipt, wi, wj, wk, wl. split_and!; try done. by rewrite <-Fv.
Qed.

End facts.
