(* ===== verification/CounterMessages.v ===== *)
(** * The counter crate's copy of the messages driver
      ([apps/counter/src/e2e_messages.rs])

    The file repeats [apps/messages/src/e2e.rs] word for word but for its
    arrows and dashes, which are ASCII here; its functions are those of
    MessagesE2e.v at these texts. *)

From S2P Require Import Prelude RustNum RustStr Json Felt Types Signing ProofCodec.
From S2P Require Import Config Rpc Host Submission Counter Driver DriverFacts MessagesE2e.

Definition ascii_texts : texts := {| arrow := "->"; dash := "--" |}.

Section copy.
Context {W : Type} `{Http W} `{Clock W} `{SerdeJson} `{FeltOps} `{!Crypto} `{Env W}.
Context `{Process W} `{Files W} `{Random W} `{Gateway W} `{RegexLite} `{JsonText}.
Context `{Statics W} `{Console W} `{DriverHost W} `{DebugFmt (list string)}.
Context (fuel : nat) (checks : bool) (args : E2eMessagesArgs) (c : Config).

Definition copy_declare : prog W string string := MessagesE2e.declare_messenger fuel c.
Definition copy_deploy : prog W string (string * Z) := MessagesE2e.deploy_messenger fuel c.
Definition copy_prove : string → Z → prog W string (task_felts * Z) := MessagesE2e.prove_message args c.
Definition copy_verify : prog W string unit := MessagesE2e.verify_messages ascii_texts args.
Definition copy_submit : task_felts → Z → prog W string unit := MessagesE2e.submit_message fuel args c.
Definition copy_summary : Z → prog W string verdict := summary checks "L2->L1 MESSAGES E2E SUMMARY".

(** The same phases in the same order. *)
Definition copy_run_steps (e2e_start : Z) : prog W string verdict :=
  deployed ← copy_deploy;
  proved ← copy_prove (deployed : string * Z).1 deployed.2;
  copy_verify;;
  (if ma_prove_only args then saved_locally args
   else copy_submit (proved : task_felts * Z).1 proved.2);;
  copy_summary e2e_start.
End copy.

Section copy_run.
Context {W : Type} `{Http W} `{Clock W} `{SerdeJson} `{FeltOps} `{!Crypto} `{Env W}.
Context `{Process W} `{Files W} `{Random W} `{Gateway W} `{RegexLite} `{JsonText}.
Context `{Statics W} `{Console W} `{DriverHost W} `{DebugFmt (list string)}.
Context (fuel : nat) (checks : bool) (args : E2eMessagesArgs).

Definition copy_run (env_file : option string) : prog W string verdict :=
  c ← mapping_err config_error_text (from_env env_file);
  reset_statics;;
  e2e_start ← reads now;
  for_each info ["=== SNIP-36 L2->L1 Messages E2E Test ==="; "";
    "  RPC:        " +:+ rpc_url c; "  Account:    " +:+ account_address c;
    "  To address: " +:+ ma_to_address args;
    "  Payload:    " +:+ debug (payload_strs (ma_payload args)); ""];;
  check_prereqs c;;
  try_host (create_dir_all (ma_output_dir args)) id;;
  copy_run_steps fuel checks args c e2e_start.

(** The two crates' drivers do the same. *)
Lemma copy_run_eq env_file : copy_run env_file = MessagesE2e.run fuel checks ascii_texts args env_file.
Proof. done. Qed.
End copy_run.
