(* ===== verification/CoinFlipE2e.v ===== *)
(** * The coin flip's end-to-end driver ([apps/coinflip/src/e2e.rs])

    Deploys the game, proves one round against the block of the deployment,
    whose number is the seed, compares the settlement message with the
    outcome computed here and submits the proof through the node. *)

From S2P Require Import Prelude RustNum RustStr Json Felt Types Signing ProofCodec.
From S2P Require Import Config Rpc Host Submission Counter Driver DriverFacts.

Definition PLAY_SELECTOR : string :=
  "0x21c4a0db2b08b026c4e31bf76d5dd9b92aa54c0978df57474355786073775e8".

Record E2eCoinflipArgs := {
  fa_prover_url : option string;
  fa_output_dir : string;
  fa_prove_only : bool;
  fa_bet : Z;
}.

Definition face (b : Z) : string := if b =? 0 then "heads" else "tails".

(** One call to [play(seed, player, bet)]. *)
Definition play_calldata (contract_address seed player bet_hex : string) : list string :=
  ["0x1"; contract_address; PLAY_SELECTOR; "0x3"; seed; player; bet_hex].

Section outcome.
Context `{FeltOps} `{!Crypto}.

(** [to_bytes_be()[31] & 1] of the Pedersen hash of the seed and the player. *)
Definition flip_outcome (seed_felt player_felt : Felt) : Z :=
  Z.land (nth 31 (felt_to_bytes_be (pedersen_hash seed_felt player_felt)) 0) 1.
End outcome.

Definition flip_won (outcome bet : Z) : Z := if outcome =? bet then 1 else 0.

Section e2e.
Context {W : Type} `{Http W} `{Clock W} `{SerdeJson} `{FeltOps} `{!Crypto} `{Env W}.
Context `{Process W} `{Files W} `{Random W} `{Gateway W} `{RegexLite} `{JsonText}.
Context `{Statics W} `{Console W} `{DriverHost W}.
Context (fuel : nat) (checks : bool) (args : E2eCoinflipArgs).

Definition account_name : string := "e2e-test-account-2".

(** [args.bet.min(1)]. *)
Definition bet : Z := Z.min (fa_bet args) 1.

Definition check_prereqs (c : Config) : prog W string unit :=
  for_each require_command ["scarb"; "sncast"];;
  require_file (prover_bin c) ("stwo-run-and-prove not found at " +:+ prover_bin c
    +:+ ". Run `snip36 setup` first.").

Section phases.
Context (c : Config).

(** Unlike the messages driver, an unconfirmed declaration is an error. *)
Definition declare_coinflip : prog W string string :=
  computed_hash ← computed_class_hash c "CoinFlip";
  declared ← already_declared c computed_hash;
  match declared with
  | Some h => pass "CoinFlip already declared";; info ("  Class hash: " +:+ h);; mret h
  | None => declare_ fuel c account_name "CoinFlip" "CoinFlip declared"
  end.

(** Steps 0 to 3. *)
Definition deploy_contract : prog W string (string * option string) :=
  step 0 "Import account into sncast";;
  import_silently c account_name;;
  verify_account c "Account imported" "Could not verify account on-chain"
    "cannot proceed without account";;
  step 1 "Compile CoinFlip contract";;
  compile c "Contract compiled" "Compilation failed";;
  step 2 "Declare CoinFlip class";;
  class_hash ← declare_coinflip;
  step 3 "Deploy CoinFlip contract";;
  deploy c account_name class_hash "CoinFlip deployed".

(** Step 4: the contract and the block of its deployment. *)
Definition deploy_coinflip : prog W string (string * Z) :=
  deployed ← deploy_contract;
  step 4 "Wait for deploy tx inclusion";;
  reference_block ← await_deploy fuel c (deployed : string * option string).2;
  mret (deployed.1, reference_block).

Definition tx_path : string := path_join (fa_output_dir args) "coinflip_tx.json".
Definition proof_path : string := path_join (fa_output_dir args) "coinflip.proof".
Definition messages_file : string := with_extension proof_path "raw_messages.json".

(** ** The round *)

(** What is expected of the settlement: the outcome and whether the bet won. *)
Definition expect_outcome (reference_block : Z) : prog W string (Z * Z) :=
  player_felt ← lift (felt_from_hex (account_address c));
  let expected_outcome := flip_outcome (felt_of reference_block) player_felt in
  let expected_won := flip_won expected_outcome bet in
  info ("  Expected outcome: " +:+ pretty expected_outcome +:+ " (" +:+ face expected_outcome +:+ ") => "
    +:+ (if expected_won =? 1 then "WIN" else "LOSE"));;
  mret (expected_outcome, expected_won).

(** Step 5. *)
Definition prove_flip (contract_address : string) (reference_block : Z)
    : prog W string (Z * Z * task_felts * Z) :=
  step 5 "Prove coin flip";;
  let seed := fmt_hex reference_block in
  let player := account_address c in
  let bet_hex := fmt_hex bet in
  for_each info ["  Game parameters:"; "    seed (block#): " +:+ seed; "    player:        " +:+ player;
    "    bet:           " +:+ bet_hex +:+ " (" +:+ face bet +:+ ")"];;
  expected ← expect_outcome reference_block;
  let calldata := play_calldata contract_address seed player bet_hex in
  felts ← parse_felts c calldata;
  modify (sleep (from_secs 3));;
  nonce ← rpc_ (get_nonce (client c) (account_address c));
  construct_tx c "signing failed: " felts calldata nonce tx_path;;
  pass "Transaction constructed and signed";;
  prover_url ← reads (prover_url_of (fa_prover_url args));
  exe ← reads exe_name;
  run_prover c exe "failed to run prove command" "proving failed" prover_url reference_block
    tx_path proof_path;;
  mret (expected, felts, nonce).

(** ** The settlement message *)

Definition nth_field (fields : list string) (n : nat) : string := nth n fields "".

Definition receipt_lines (fields : list string) : list string :=
  let f := nth_field fields in
  ["  Settlement receipt:"; "    player:  " +:+ f 0%nat; "    seed:    " +:+ f 1%nat;
   "    bet:     " +:+ f 2%nat +:+ " (" +:+ (if decide (f 2%nat = "0x0") then "heads" else "tails") +:+ ")";
   "    outcome: " +:+ f 3%nat +:+ " (" +:+ (if decide (f 3%nat = "0x0") then "heads" else "tails") +:+ ")";
   "    won:     " +:+ f 4%nat +:+ " (" +:+ (if decide (f 4%nat = "0x1") then "WIN" else "LOSE") +:+ ")"].

(** Payload: player, seed, bet, outcome, won. *)
Definition message_outcome (fields : list string) : Z :=
  if decide (nth_field fields 3 = "0x0") then 0 else 1.
Definition message_won (fields : list string) : Z :=
  if decide (nth_field fields 4 = "0x1") then 1 else 0.

Definition check_fields (expected : Z * Z) (fields : list string) : prog W string unit :=
  for_each info (receipt_lines fields);;
  let msg_outcome := message_outcome fields in
  let msg_won := message_won fields in
  (if msg_outcome =? expected.1 then pass "Outcome matches client-side Poseidon hash"
   else fail ("Outcome mismatch: contract says " +:+ pretty msg_outcome +:+ ", expected "
          +:+ pretty expected.1));;
  if msg_won =? expected.2 then
    pass ("Game result verified: " +:+ (if msg_won =? 1 then "PLAYER WINS" else "HOUSE WINS"))
  else fail "Win/loss mismatch".

(** A message that cannot be checked is a failed check, not an error. *)
Definition check_settlement (expected : Z * Z) (messages_json : Value) : prog W string unit :=
  match get messages_json "l2_to_l1_messages" ≫= as_array with
  | Some (msg :: _) =>
      match get msg "payload" ≫= as_array with
      | Some p =>
          let fields := array_strings p in
          if Nat.leb 5 (length fields) then check_fields expected fields
          else fail ("Unexpected payload length: " +:+ pretty (length fields))
      | None => fail "No payload in settlement message"
      end
  | _ => fail_with "No L2→L1 messages in output" "empty messages"
  end.

(** Step 6. *)
Definition verify_settlement (expected : Z * Z) : prog W string unit :=
  step 6 "Verify settlement message";;
  there ← reads (λ w, path_exists w messages_file);
  (if (there : bool) then mret tt
   else fail_with "raw_messages.json not found" "missing raw_messages.json");;
  messages_str ← wrapped "failed to read raw_messages.json"
    (try_host (read_to_string messages_file) id);
  messages_json ← wrapped "invalid JSON in raw_messages.json" (lift (json_from_str messages_str));
  check_settlement expected messages_json.

(** ** Submission *)

Definition saved_locally : prog W string unit :=
  info "  --prove-only: skipping RPC submission";;
  info ("  Proof:       " +:+ proof_path);;
  info ("  Proof facts: " +:+ with_extension proof_path "proof_facts");;
  info ("  Messages:    " +:+ messages_file);;
  pass "All artifacts saved locally".

(** Through the node only, whatever the configuration says of a gateway. *)
Definition submit_flip (felts : task_felts) (nonce : Z) : prog W string unit :=
  step 7 "Submit via RPC";;
  submission ← read_submission felts nonce proof_path "empty proof";
  info ("  Submitting tx " +:+ felt_hex (submission : Felt * Value).1 +:+ " via RPC...");;
  accepted ← rpc_loop c max_attempts submission.2;
  match accepted with
  | Some rpc_tx_hash => await_included fuel c rpc_tx_hash
  | None => throw "RPC submission failed"
  end.

Definition report (e2e_start : Z) : prog W string verdict :=
  summary checks "COINFLIP E2E SUMMARY" e2e_start.

Definition run_steps (e2e_start : Z) : prog W string verdict :=
  deployed ← deploy_coinflip;
  proved ← prove_flip (deployed : string * Z).1 deployed.2;
  let '(expected, felts, nonce) := (proved : Z * Z * task_felts * Z) in
  verify_settlement expected;;
  (if fa_prove_only args then saved_locally else submit_flip felts nonce);;
  report e2e_start.
End phases.

Definition run (env_file : option string) : prog W string verdict :=
  c ← mapping_err config_error_text (from_env env_file);
  reset_statics;;
  e2e_start ← reads now;
  for_each info ["=== SNIP-36 CoinFlip E2E Test ==="; ""; "  RPC:     " +:+ rpc_url c;
    "  Account: " +:+ account_address c; "  Bet:     " +:+ pretty bet +:+ " (" +:+ face bet +:+ ")"; ""];;
  check_prereqs c;;
  try_host (create_dir_all (fa_output_dir args)) id;;
  run_steps c e2e_start.
End e2e.

(** ** Facts *)

Section facts.
Context {W : Type} `{Http W} `{Clock W} `{SerdeJson} `{FeltOps} `{!Crypto} `{Env W}.
Context `{Process W} `{Files W} `{Random W} `{Gateway W} `{RegexLite} `{JsonText}.
Context `{Statics W} `{Console W} `{DriverHost W} `{!DriverLaws}.
Context (fuel : nat) (checks : bool) (args : E2eCoinflipArgs).

Abbreviation then_follows := (follows stable_driver).

(** The first message carries a settlement with the given outcome and result. *)
Definition settlement_agrees (expected : Z * Z) (messages_json : Value) : Prop :=
  ∃ msg rest p, get messages_json "l2_to_l1_messages" ≫= as_array = Some (msg :: rest) ∧
    get msg "payload" ≫= as_array = Some p ∧ (5 ≤ length (array_strings p))%nat ∧
    message_outcome (array_strings p) = expected.1 ∧ message_won (array_strings p) = expected.2.

(** One or two checks failed. *)
Definition some_failed (w w' : W) : Prop :=
  fail_count (tally w') = fetch_inc (fail_count (tally w)) ∨
  fail_count (tally w') = fetch_inc (fetch_inc (fail_count (tally w))).

Lemma fail_once msg (w w' : W) u : fail (E:=string) msg w = (Ok u, w') → some_failed w w'.
Proof. rewrite fail_eq. intros [= _ <-]. left. by rewrite printed_fail_tally. Qed.

Lemma check_fields_Ok expected fields (w w' : W) u :
  check_fields expected fields w = (Ok u, w') →
  (message_outcome fields = expected.1 ∧ message_won fields = expected.2 ∧
     fail_count (tally w') = fail_count (tally w)) ∨
  (¬ (message_outcome fields = expected.1 ∧ message_won fields = expected.2) ∧ some_failed w w').
Proof.
  unfold check_fields. intros (? & w1 & Hl & Hrun)%prog_bind_Ok.
  rewrite <-(silent_tally _ _ _ _ (silent_lines _) Hl) in *. cbv zeta in Hrun.
  unfold some_failed. rewrite <-(silent_tally _ _ _ _ (silent_lines _) Hl).
  apply prog_bind_Ok in Hrun as (? & w2 & Ho & Hw).
  destruct (Z.eqb_spec (message_outcome fields) expected.1) as [Eo|Eo];
    destruct (Z.eqb_spec (message_won fields) expected.2) as [Ew|Ew].
  - left. split_and!; [done..|]. by rewrite (quiet_pass _ _ _ _ Hw), (quiet_pass _ _ _ _ Ho).
  - right. split; [naive_solver|]. rewrite fail_eq in Hw. injection Hw as _ <-.
    rewrite printed_fail_tally. left. cbn. by rewrite (quiet_pass _ _ _ _ Ho).
  - right. split; [naive_solver|]. rewrite (quiet_pass _ _ _ _ Hw).
    rewrite fail_eq in Ho. injection Ho as _ <-. left. by rewrite printed_fail_tally.
  - right. split; [naive_solver|]. rewrite fail_eq in Ho, Hw. injection Ho as _ <-. injection Hw as _ <-.
    right. by rewrite !printed_fail_tally.
Qed.

Lemma check_settlement_Ok expected json (w w' : W) u :
  check_settlement expected json w = (Ok u, w') →
  (settlement_agrees expected json ∧ fail_count (tally w') = fail_count (tally w)) ∨
  (¬ settlement_agrees expected json ∧ some_failed w w').
Proof.
  unfold check_settlement, settlement_agrees.
  destruct (get json "l2_to_l1_messages" ≫= as_array) as [[|msg rest]|];
    [by intros ?%fail_with_Ok| |by intros ?%fail_with_Ok].
  destruct (get msg "payload" ≫= as_array) as [p|] eqn:Hp.
  - cbv zeta. destruct (Nat.leb_spec 5 (length (array_strings p))).
    + intros [(Ho & Hw & Hf)|[Hno Hf]]%check_fields_Ok; [left; split; [naive_solver|done]|right].
      split; [|done]. intros (m & r & p' & [= -> ->] & Hp' & _ & ? & ?). rewrite Hp in Hp'. simplify_eq. auto.
    + intros Hf%fail_once. right. split; [|done].
      intros (m & r & p' & [= -> ->] & Hp' & ? & _). rewrite Hp in Hp'. simplify_eq. lia.
  - intros Hf%fail_once. right. split; [|done].
    intros (m & r & p' & [= -> ->] & Hp' & _). by rewrite Hp in Hp'.
Qed.

Lemma check_settlement_keeps expected json (P : W → Prop) :
  stable_driver P → preserves P (check_settlement expected json).
Proof. intros HP. unfold check_settlement, check_fields. keeps_driver HP. Qed.

(** The document that step 6 checked, and what it recorded. *)
Definition settlement_checked (expected : Z * Z) (w w' : W) : Prop :=
  ∃ text json wa wb, then_follows w wa ∧
    read_to_string (messages_file args) wa = (inr text, wb) ∧ json_from_str text = Ok json ∧
    then_follows wb w' ∧
    ((settlement_agrees expected json ∧ fail_count (tally w') = fail_count (tally w)) ∨
     (¬ settlement_agrees expected json ∧ some_failed w w')).

Lemma verify_settlement_Ok expected (w w' : W) u :
  verify_settlement args expected w = (Ok u, w') → settlement_checked expected w w'.
Proof.
  unfold verify_settlement. intros (? & w1 & Hstep & Hrun)%prog_bind_Ok.
  pose proof (quiet_step _ _ _ _ _ Hstep) as Q1.
  apply prog_bind_Ok in Hrun as (there & ? & [= _ <-] & Hrun).
  apply prog_bind_Ok in Hrun as (? & w2 & Ht & Hrun).
  assert (w2 = w1) as -> by (destruct there; [by injection Ht|by apply fail_with_Ok in Ht]).
  apply prog_bind_Ok in Hrun as (text & w3 & Hr%wrapped_Ok & Hrun).
  assert (Hq : quiet (try_host (read_to_string (messages_file args)) id : prog W string string)) by quiets.
  pose proof (Hq _ _ _ Hr) as Q3. apply try_host_Ok in Hr.
  apply prog_bind_Ok in Hrun as (json & ? & [Hj ->]%wrapped_Ok%lift_Ok & Hrun).
  exists text, json, w1, w3. split_and!; [| done | done | |].
  - eapply follows_run; [|exact Hstep]. intros P HP. by apply step_keeps.
  - eapply follows_run; [|exact Hrun]. intros P HP. by apply check_settlement_keeps.
  - apply check_settlement_Ok in Hrun. unfold some_failed in *. by rewrite Q3, Q1 in Hrun.
Qed.

(** *** The phases *)

Lemma quiet_deploy_coinflip c : quiet (deploy_coinflip fuel c).
Proof.
  unfold deploy_coinflip, deploy_contract, declare_coinflip, computed_class_hash, already_declared,
    import_silently. quiets.
Qed.

Lemma deploy_coinflip_Ok c deployed (w w' : W) :
  deploy_coinflip fuel c w = (Ok deployed, w') →
  ∃ w1 w2, then_follows w w1 ∧ deployed_in fuel c deployed.2 w1 w2 ∧ then_follows w2 w'.
Proof.
  unfold deploy_coinflip. intros (d & w1 & Hd & Hrun)%prog_bind_Ok.
  apply prog_bind_Ok in Hrun as (? & w2 & Hstep & Hrun).
  apply prog_bind_Ok in Hrun as (block & w3 & (w4 & Hb & F4)%await_deploy_Ok & [= <- <-]).
  exists w2, w4. split_and!; [|done..]. transitivity w1.
  - eapply follows_run; [|exact Hd]. intros P HP.
    unfold deploy_contract, declare_coinflip, computed_class_hash, already_declared, import_silently,
      verify_account, compile, declare_, run_declare, await_declare, deploy, fresh_salt. keeps_driver HP.
  - eapply follows_run; [|exact Hstep]. intros P HP. by apply step_keeps.
Qed.

Lemma quiet_prove_flip c address block : quiet (prove_flip args c address block).
Proof. unfold prove_flip, expect_outcome, parse_felts. quiets. Qed.

Definition flip_calldata (c : Config) (address : string) (block : Z) : list string :=
  play_calldata address (fmt_hex block) (account_address c) (fmt_hex (bet args)).

Lemma prove_flip_Ok c address block expected felts nonce (w w' : W) :
  prove_flip args c address block w = (Ok (expected, felts, nonce), w') →
  expected = (flip_outcome (felt_of block) (pf_sender felts),
              flip_won (flip_outcome (felt_of block) (pf_sender felts)) (bet args)) ∧
  collect_res felt_from_hex (flip_calldata c address block) = Ok (pf_calldata felts) ∧
  felt_from_hex (account_address c) = Ok (pf_sender felts) ∧
  ∃ w1 w2, then_follows w w1 ∧ get_nonce (client c) (account_address c) w1 = (Ok nonce, w2) ∧
    written_and_proved c felts (flip_calldata c address block) nonce (tx_path args) (proof_path args)
      block w2 w'.
Proof.
  unfold prove_flip. cbv zeta. intros (? & w1 & Hstep & Hrun)%prog_bind_Ok.
  apply prog_bind_Ok in Hrun as (? & w2 & Hl & Hrun).
  apply prog_bind_Ok in Hrun as (e & w3 & He & Hrun).
  apply prog_bind_Ok in Hrun as (f & ? & (-> & Hcd & Hs & _ & _)%parsed_felts_Ok & Hrun).
  apply prog_bind_Ok in Hrun as (? & w4 & Hsleep & Hrun).
  apply prog_bind_Ok in Hrun as (n & w5 & Hn%mapping_err_Ok & Hrun).
  apply prog_bind_Ok in Hrun as ([] & w6 & (sig & Hsig & Hw)%construct_tx_written & Hrun).
  apply prog_bind_Ok in Hrun as (? & w7 & Hp & Hrun).
  apply prog_bind_Ok in Hrun as (url & ? & [= _ <-] & Hrun).
  apply prog_bind_Ok in Hrun as (exe & ? & [= _ <-] & Hrun).
  apply prog_bind_Ok in Hrun as (? & w8 & (w9 & Hprove & F9)%run_prover_Ok & [= <- <- <- <-]).
  assert (F3 : then_follows w2 w3).
  { eapply follows_run; [|exact He]. intros P HP. unfold expect_outcome. keeps_driver HP. }
  unfold expect_outcome in He. apply prog_bind_Ok in He as (player & ? & [Hpl ->]%lift_Ok & He).
  cbv zeta in He. apply prog_bind_Ok in He as (? & ? & _ & [= <- _]).
  rewrite Hs in Hpl. injection Hpl as <-. split_and!; try done. exists w4, w5. split_and!; [|done|].
  - transitivity w3; [transitivity w2; [transitivity w1|done]|].
    + eapply follows_run; [|exact Hstep]. intros P HP. by apply step_keeps.
    + eapply follows_run; [|exact Hl]. intros P HP. apply silent_lines, HP.
    + eapply follows_run; [|exact Hsleep]. intros P HP. keeps_driver HP.
  - exists sig, exe, url, w5, w6, w7, w9. split_and!; try done.
    eapply follows_run; [|exact Hp]. intros P HP. by apply pass_keeps.
Qed.
Lemma quiet_submit_flip c felts nonce : quiet (submit_flip fuel args c felts nonce).
Proof.
  unfold submit_flip. apply quiet_bind; [quiets|intros _]. apply quiet_bind; [quiets|intros submission].
  apply quiet_bind; [quiets|intros _].
  intros w u w' (accepted & w1 & (wa & wb & _ & _ & Hacc)%rpc_loop_Ok & Hrun)%prog_bind_Ok.
  destruct accepted as [h|]; [|done]. destruct Hacc as [_ <-]. revert w1 u w' Hrun.
  change (quiet (await_included fuel c h)). unfold await_included. quiets.
Qed.

Lemma submit_flip_Ok c felts nonce (w w' : W) u :
  submit_flip fuel args c felts nonce w = (Ok u, w') →
  submitted_once fuel (no_gateway c) felts nonce w w'.
Proof.
  unfold submit_flip. intros (? & w1 & Hstep & Hrun)%prog_bind_Ok.
  apply prog_bind_Ok in Hrun as (submission & w2 & Hs & Hrun).
  assert (then_follows w1 w2) as F2.
  { eapply follows_run; [|exact Hs]. intros P HP.
    unfold read_submission, read_proof_facts, sign_submission. keeps_driver HP. }
  apply read_submission_Ok in Hs. apply prog_bind_Ok in Hrun as (? & w3 & Hi & Hrun).
  apply prog_bind_Ok in Hrun as (accepted & w4 & (wa & wb & Fa & Fb & Hacc)%rpc_loop_Ok & Hrun).
  destruct accepted as [h|]; [|done]. destruct Hacc as [Hacc _].
  apply await_included_Ok in Hrun as (receipt & wc & wd & Fc & Hw & Fd).
  exists submission, h, receipt, wa, wb, wc, wd. split_and!; try done; [|by rewrite Fb].
  rewrite <-Fa. transitivity w2; [rewrite <-F2|]; (eapply follows_run; [|first [exact Hstep|exact Hi]]);
    intros P HP; [by apply step_keeps|keeps_driver HP].
Qed.

Lemma flip_start_quiet c l (w w' : W) :
  (for_each info l;; check_prereqs c;; try_host (create_dir_all (fa_output_dir args)) id) w
    = (Ok tt, w') →
  fail_count (tally w') = fail_count (tally w) ∧ then_follows w w'.
Proof.
  intros Hrun. split.
  - revert Hrun. assert (Hq : quiet (for_each info l;; check_prereqs c;;
      try_host (create_dir_all (fa_output_dir args)) id : prog W string unit)).
    { apply quiet_bind; [apply silent_quiet, silent_lines|intros _]. unfold check_prereqs. quiets. }
    apply Hq.
  - eapply follows_run; [|exact Hrun]. intros P HP. unfold check_prereqs. keeps_driver HP.
Qed.

(** Two failures are not none. *)
Lemma failures_count (w w' : W) : fail_count (tally w) = 0 → some_failed w w' → fail_count (tally w') ≠ 0.
Proof. unfold some_failed. intros ->. by intros [->| ->]. Qed.

(** The work of a round: the world after each piece of it, and the worlds
    between which the message was checked. *)
Definition round_played (c : Config) (deployed : string * Z) (felts : task_felts) (nonce : Z)
    (w we wf w' : W) : Prop :=
  ∃ wa wb wc wd,
    then_follows w wa ∧ deployed_in fuel c deployed.2 wa wb ∧ then_follows wb wc ∧
    get_nonce (client c) (account_address c) wc = (Ok nonce, wd) ∧
    collect_res felt_from_hex (flip_calldata c deployed.1 deployed.2) = Ok (pf_calldata felts) ∧
    felt_from_hex (account_address c) = Ok (pf_sender felts) ∧
    written_and_proved c felts (flip_calldata c deployed.1 deployed.2) nonce (tx_path args)
      (proof_path args) deployed.2 wd we ∧
    (fa_prove_only args = true ∨ submitted_once fuel (no_gateway c) felts nonce wf w').

(** The result that the seed decides for the account and the bet. *)
Definition decided (felts : task_felts) (block : Z) : Z * Z :=
  let outcome := flip_outcome (felt_of block) (pf_sender felts) in (outcome, flip_won outcome (bet args)).

Lemma flip_run_steps_Ok c start v (w w' : W) :
  fail_count (tally w) = 0 → run_steps fuel checks args c start w = (Ok v, w') →
  ∃ deployed felts nonce json text we wf wg wh,
    round_played c deployed felts nonce w we wf w' ∧
    then_follows we wg ∧ read_to_string (messages_file args) wg = (inr text, wh) ∧
    json_from_str text = Ok json ∧ then_follows wh wf ∧
    (v = AllPassed ↔ settlement_agrees (decided felts deployed.2) json).
Proof.
  intros Hzero. unfold run_steps. intros (deployed & w1 & Hd & Hrun)%prog_bind_Ok.
  pose proof (quiet_deploy_coinflip _ _ _ _ Hd) as Q1.
  apply deploy_coinflip_Ok in Hd as (wa & wb & Fa & Hb & Fb).
  apply prog_bind_Ok in Hrun as ([[expected felts] nonce] & w2 & Hp & Hrun).
  pose proof (quiet_prove_flip _ _ _ _ _ _ Hp) as Q2.
  apply prove_flip_Ok in Hp as (He & Hcd & Hs & wc & wd & Fc & Hn & Hp).
  apply prog_bind_Ok in Hrun as (? & w3 & Hm%verify_settlement_Ok & Hrun).
  destruct Hm as (text & json & wg & wh & Fg & Hr & Hj & Fh & Hm). subst expected.
  apply prog_bind_Ok in Hrun as (? & w4 & Hsub & [Hv Fv]%summary_Ok).
  assert (fail_count (tally w4) = fail_count (tally w3)) as Q4.
  { destruct (fa_prove_only args); [|by eapply quiet_submit_flip].
    revert Hsub. assert (Hq : quiet (saved_locally args)) by (unfold saved_locally; quiets). apply Hq. }
  exists deployed, felts, nonce, json, text, w2, w3, wg, wh. split_and!; try done.
  - exists wa, wb, wc, wd. split_and!; try done; [by rewrite Fb|].
    destruct (fa_prove_only args); [by left|right].
    apply submit_flip_Ok in Hsub as (sub & h & receipt & wi & wj & wk & wl & ? & ? & ? & ? & ? & ?).
    exists sub, h, receipt, wi, wj, wk, wl. split_and!; try done. by rewrite <-Fv.
  - rewrite Hv, Q4. unfold decided. destruct Hm as [[Ha Hf]|[Hno Hf]].
    + split; [done|]. intros _. congruence.
    + split; [|done]. intros Hz. exfalso. revert Hz. apply (failures_count w2); [congruence|done].
Qed.

End facts.
