(* ===== verification/SettlementE2e.v ===== *)
(** * The settlement's end-to-end driver ([apps/coinflip/src/e2e_settlement.rs])

    The whole life of a bet with money: the game and its bank are deployed, the
    bank is funded, the player deposits, the bank matches, the flip is proved
    and submitted, the bank settles and the player's balance is compared.
    This copy prints its checks in its own way, so the phases that record
    checks are its own; the rest is [Driver]'s and [CoinFlipE2e]'s. *)

From Stdlib Require Import SpecFloat.
From S2P Require Import Prelude RustNum RustStr RustFloat Json Felt Types Signing ProofCodec.
From S2P Require Import Config Rpc Host Submission Counter Driver DriverFacts CoinFlipE2e.

Record E2eSettlementArgs := {
  sa_prover_url : option string;
  sa_output_dir : string;
  sa_prove_only : bool;
  sa_bet : Z;
  sa_bet_amount : spec_float;
}.

(** The console of this copy: no blank lines around a check. *)
Section console.
Context {W : Type} `{Statics W} `{Console W} {E : Type}.

Definition pass (msg : string) : prog W E unit := on_tally count_pass;; info ("  PASS: " +:+ msg).
Definition fail (msg : string) : prog W E unit := on_tally count_fail;; error ("  FAIL: " +:+ msg).
End console.

(** [fail(msg); bail!(reason)]. *)
Definition fail_with {W} `{Statics W} `{Console W} {A} (msg reason : string) : prog W string A :=
  fail msg;; throw reason.

Definition account_name : string := "playground-master".
Definition max_approval : string := "0xffffffffffffffffffffffffffffffff".
Definition fund_amount : Z := 10 ^ 18.

(** [{:.6}] of an amount in STRK. *)
Definition strk (wei : Z) : spec_float := f64_div (f64_of_Z wei) f64_1e18.
Definition strk_6 (wei : Z) : string := fmt_fixed 6 (strk wei).

Section e2e.
Context {W : Type} `{Http W} `{Clock W} `{SerdeJson} `{FeltOps} `{!Crypto} `{Env W}.
Context `{Process W} `{Files W} `{Random W} `{Gateway W} `{RegexLite} `{JsonText}.
Context `{Statics W} `{Console W} `{DriverHost W}.
Context (fuel : nat) (args : E2eSettlementArgs).

Definition bet : Z := Z.min (sa_bet args) 1.
Definition bet_amount_wei : Z := as_u128 (f64_mul (sa_bet_amount args) f64_1e18).

Definition check_prereqs (c : Config) : prog W string unit :=
  for_each require_command ["scarb"; "sncast"];;
  require_file (prover_bin c) "stwo-run-and-prove not found. Run `snip36 setup` first.".

Section phases.
Context (c : Config).

(** ** Commands *)

Definition declare_args (contract_name : string) : list string :=
  ["--account"; account_name; "declare"; "--contract-name"; contract_name; "--url"; rpc_url c].

Definition deploy_args (class_hash salt constructor_calldata : string) : list string :=
  (["--account"; account_name; "deploy"; "--class-hash"; class_hash; "--salt"; salt;
    "--url"; rpc_url c]
   ++ (if decide (constructor_calldata = "") then []
       else ["--constructor-calldata"; constructor_calldata]))%list.

(** The wait for a transaction that the output names; its result is
    dropped. *)
Definition wait_silently (text : string) : prog W string unit :=
  match parse_hex_from_output "transaction_hash" text with
  | Some tx => attempt (wait_for_tx (client c) fuel tx 120 3);; mret tt
  | None => mret tt
  end.

Definition declare_and_deploy (contract_name constructor_calldata : string) : prog W string string :=
  declare_output ← try_host (command_output "sncast" (declare_args contract_name)
    (Some (contracts_dir c))) id;
  let declare_text := format_cmd_output declare_output in
  class_hash ← lift (ok_or (class_hash_of declare_text)
    (contract_name +:+ " declare failed: " +:+ declare_text));
  wait_silently declare_text;;
  salt ← fresh_salt;
  deploy_output ← try_host (command_output "sncast"
    (deploy_args class_hash salt constructor_calldata) None) id;
  let deploy_text := format_cmd_output deploy_output in
  contract_address ← lift (ok_or (parse_hex_from_output "contract_address" deploy_text)
    (contract_name +:+ " deploy failed: " +:+ deploy_text));
  wait_silently deploy_text;;
  mret contract_address.

Definition invoke_args (contract_address function calldata : string) : list string :=
  ["--account"; account_name; "invoke"; "--url"; rpc_url c;
   "--contract-address"; contract_address; "--function"; function; "--calldata"; calldata].

(** Unlike the server's [sncast_invoke], an unconfirmed transaction is an
    error. *)
Definition sncast_invoke (contract_address function calldata : string) : prog W string string :=
  output ← try_host (command_output "sncast" (invoke_args contract_address function calldata) None) id;
  let text := format_cmd_output output in
  tx_hash ← lift (ok_or (parse_hex_from_output "transaction_hash" text)
    (function +:+ " invoke failed: " +:+ text));
  wrapped (function +:+ " tx not confirmed: " +:+ tx_hash) (wait_for_tx (client c) fuel tx_hash 120 3);;
  mret tx_hash.

(** Whatever goes wrong, the balance is 0. *)
Definition get_strk_balance (address : string) : prog W string Z :=
  r ← attempt (starknet_call (client c) STRK_TOKEN BALANCE_OF_SELECTOR [address]);
  mret (match r with
        | inr result => default 0 (ok (parse_hex_quantity u128_max (default "0x0" (head result))))
        | inl _ => 0
        end).

(** ** Steps 0 to 3 *)

Definition import_and_compile : prog W string unit :=
  step 0 "Import account into sncast";;
  import_silently c account_name;;
  r ← attempt (get_nonce (client c) (account_address c));
  match r with
  | inr nonce => pass ("Account imported (nonce: " +:+ fmt_hex nonce +:+ ")")
  | inl e => fail_with ("Could not verify account: " +:+ rpc_error_text e) "cannot proceed"
  end;;
  step 1 "Compile contracts";;
  build ← wrapped "failed to run scarb build"
    (try_host (command_output "scarb" ["build"] (Some (contracts_dir c))) id);
  if out_success build then pass "Contracts compiled"
  else
    out ← lift (first_bytes 500 (format_cmd_output build));
    fail_with ("Compilation failed: " +:+ out) "compilation failed".

(** The game and its bank, which the account owns. *)
Definition deploy_contracts : prog W string (string * string) :=
  import_and_compile;;
  step 2 "Deploy CoinFlip contract";;
  coinflip_address ← declare_and_deploy "CoinFlip" "";
  pass ("CoinFlip: " +:+ coinflip_address);;
  step 3 "Deploy CoinFlipBank contract";;
  bank_address ← declare_and_deploy "CoinFlipBank" (account_address c);
  pass ("CoinFlipBank: " +:+ bank_address);;
  mret (coinflip_address, bank_address).

(** ** Steps 4 to 6: the money *)

Definition approve_calldata (bank_address : string) : string :=
  bank_address +:+ " " +:+ max_approval +:+ " 0x0".
Definition fund_calldata (bank_address : string) : string :=
  bank_address +:+ " " +:+ fmt_hex fund_amount +:+ " 0x0".

Definition fund_bank (bank_address : string) : prog W string unit :=
  step 4 "Approve and fund bank";;
  sncast_invoke STRK_TOKEN "approve" (approve_calldata bank_address);;
  pass "Approved STRK for bank";;
  sncast_invoke STRK_TOKEN "transfer" (fund_calldata bank_address);;
  pass "Funded bank with 1 STRK".

Definition deposit_calldata (session_felt : string) (block : Z) : string :=
  session_felt +:+ " " +:+ fmt_hex bet_amount_wei +:+ " 0x0 " +:+ fmt_hex block +:+ " " +:+ fmt_hex bet.

(** The session and the block before the deposit. *)
Definition player_deposit (bank_address : string) : prog W string (string * Z) :=
  step 5 "Player deposit";;
  session_felt ← fresh_salt;
  pre_deposit_block ← rpc_ (block_number (client c));
  sncast_invoke bank_address "deposit" (deposit_calldata session_felt pre_deposit_block);;
  pass ("Player deposited " +:+ f64_display (sa_bet_amount args) +:+ " STRK");;
  mret (session_felt, pre_deposit_block).

(** The block of the seed. *)
Definition bank_match (bank_address session_felt : string) (pre_deposit_block : Z)
    : prog W string Z :=
  step 6 "Bank match deposit";;
  match_tx ← sncast_invoke bank_address "match_deposit" session_felt;
  match_receipt ← rpc_ (wait_for_tx (client c) fuel match_tx 120 3);
  let match_block := default 0 (receipt_block_number match_receipt) in
  let reference_block := Z.max match_block pre_deposit_block in
  pass ("Bank matched (block " +:+ pretty match_block +:+ "), seed_block: " +:+ pretty reference_block);;
  mret reference_block.

(** ** Step 7 *)

Definition tx_path : string := path_join (sa_output_dir args) "settlement_tx.json".
Definition proof_path : string := path_join (sa_output_dir args) "settlement.proof".
Definition messages_file : string := with_extension proof_path "raw_messages.json".

Definition flip_calldata (coinflip_address : string) (reference_block : Z) : list string :=
  play_calldata coinflip_address (fmt_hex reference_block) (account_address c) (fmt_hex bet).

Definition expect_outcome (reference_block : Z) : prog W string Z :=
  player_felt ← lift (felt_from_hex (account_address c));
  let expected_outcome := flip_outcome (felt_of reference_block) player_felt in
  info ("  Expected: " +:+ pretty expected_outcome +:+ " (" +:+ face expected_outcome +:+ ") => "
    +:+ (if expected_outcome =? bet then "WIN" else "LOSE"));;
  mret expected_outcome.

Definition run_prover (exe : string) (prover_url : option string) (reference_block : Z)
    : prog W string unit :=
  success ← wrapped "prove command failed"
    (try_host (command_status exe (prove_args c prover_url reference_block tx_path proof_path)) id);
  there ← reads (λ w, path_exists w proof_path);
  if success && there then
    sz ← try_host (file_len proof_path) id;
    pass ("Proof generated (" +:+ pretty (sz : Z) +:+ " bytes)")
  else fail_with "Proof generation failed" "proving failed".

Definition prove_flip (coinflip_address : string) (reference_block : Z)
    : prog W string (Z * task_felts * Z) :=
  step 7 "Prove coin flip";;
  expected_outcome ← expect_outcome reference_block;
  let calldata := flip_calldata coinflip_address reference_block in
  felts ← parse_felts c calldata;
  modify (sleep (from_secs 3));;
  nonce ← rpc_ (get_nonce (client c) (account_address c));
  construct_tx c "signing: " felts calldata nonce tx_path;;
  pass "Transaction constructed";;
  prover_url ← reads (prover_url_of (sa_prover_url args));
  exe ← reads exe_name;
  run_prover exe prover_url reference_block;;
  mret (expected_outcome, felts, nonce).

(** The outcome in the first message, when there is a document with one. *)
Definition stated_outcome (msg_json : Value) : option Z :=
  match get msg_json "l2_to_l1_messages" ≫= as_array with
  | Some msgs =>
      match (msg ← head msgs; get msg "payload") ≫= as_array with
      | Some p =>
          let fields := array_strings p in
          if Nat.leb 5 (length fields) then Some (message_outcome fields) else None
      | None => None
      end
  | None => None
  end.

(** No file, no message or a short one is no failure. *)
Definition verify_message (expected_outcome : Z) : prog W string unit :=
  there ← reads (λ w, path_exists w messages_file);
  if (there : bool) then
    msg_str ← try_host (read_to_string messages_file) id;
    msg_json ← lift (json_from_str msg_str);
    match stated_outcome msg_json with
    | Some msg_outcome =>
        if msg_outcome =? expected_outcome then pass "Settlement message matches expected outcome"
        else fail ("Outcome mismatch: msg=" +:+ pretty msg_outcome +:+ ", expected="
               +:+ pretty expected_outcome)
    | None => mret tt
    end
  else mret tt.

(** ** Step 8 *)

Definition sign_proof (felts : task_felts) (nonce : Z) : prog W string (Felt * Value) :=
  proof_b64 ← try_host (read_to_string proof_path) id;
  proof_facts_str ← try_host (read_to_string (with_extension proof_path "proof_facts")) id;
  proof_facts ← read_proof_facts "parse proof_facts: " proof_facts_str;
  sign_submission "signing: " felts nonce (trim proof_b64) proof_facts.

(** The payload is posted in the node's form, and a request that fails is not
    repeated. *)
Fixpoint accept_loop (left : nat) (url : string) (invoke_tx : Value) : prog W string bool :=
  match left with
  | O => mret false
  | S left' =>
      let attempt := (S max_attempts - left)%nat in
      response ← call_host (post_gateway url invoke_tx);
      match response with
      | inr resp =>
          let body := match resp with inr v => v | inl _ => JNull end in
          let code := default "" (get_str body "code") in
          let msg := default "" (get_str body "message") in
          if decide (code = "TRANSACTION_RECEIVED") then
            pass ("Proof accepted (attempt " +:+ pretty attempt +:+ ")");;
            mret true
          else if gateway_not_ready msg && Nat.ltb attempt max_attempts then
            info ("  Attempt " +:+ attempt_text attempt +:+ ": not ready, waiting 10s... (" +:+ msg +:+ ")");;
            modify (sleep (from_secs 10));;
            accept_loop left' url invoke_tx
          else fail ("Rejected: " +:+ json_to_string body);; mret false
      | inl e => fail ("Request failed: " +:+ e);; mret false
      end
  end.

Definition submit_proof (felts : task_felts) (nonce : Z) : prog W string unit :=
  step 8 "Submit proof on-chain";;
  submission ← sign_proof felts nonce;
  let '(tx_hash, invoke_tx) := (submission : Felt * Value) in
  let tx_hash_hex := felt_hex tx_hash in
  short ← lift (first_bytes 18 tx_hash_hex);
  info ("  Submitting tx " +:+ (short : string));;
  accepted ← accept_loop max_attempts (submit_url (default "" (gateway_url c))) invoke_tx;
  (if (accepted : bool) then mret tt else throw "proof submission failed");;
  info "  Waiting for proof tx inclusion...";;
  r ← attempt (wait_for_tx (client c) fuel tx_hash_hex 600 5);
  match r with
  | inr receipt =>
      pass ("Proof tx included in block " +:+ pretty (default 0 (receipt_block_number receipt)))
  | inl e => fail_with ("Proof tx not confirmed: " +:+ rpc_error_text e) "proof tx failed"
  end.

(** ** Steps 9 and 10 *)

Definition settle_calldata (session_felt : string) (reference_block : Z) : string :=
  session_felt +:+ " " +:+ fmt_hex reference_block.

Definition settle (bank_address session_felt : string) (reference_block : Z) : prog W string unit :=
  step 9 "Settle on-chain";;
  sncast_invoke bank_address "settle" (settle_calldata session_felt reference_block);;
  pass "Settlement tx confirmed".

(** Only a win that did not pay is a failure. *)
Definition verify_balance (balance_before : Z) (expected_won : bool) : prog W string unit :=
  step 10 "Verify settlement";;
  balance_after ← get_strk_balance (account_address c);
  info ("  Player STRK balance after:  " +:+ strk_6 balance_after);;
  let diff := if balance_before <? balance_after then balance_after - balance_before else 0 in
  if expected_won then
    if 0 <? diff then pass ("Player balance increased by " +:+ strk_6 diff +:+ " STRK (won)")
    else fail ("Player balance did NOT increase (expected win, diff=" +:+ f64_display (strk diff) +:+ ")")
  else pass ("Player lost, balance diff: " +:+ strk_6 diff +:+ " STRK").

Definition saved_locally : prog W string unit :=
  info "  --prove-only: skipping submission and settlement";; pass "Artifacts saved".

Definition summary (e2e_start : Z) : prog W string verdict :=
  finish_last_step;;
  total ← reads (λ w, Z.max 0 (now w - e2e_start));
  t ← reads tally;
  for_each info (["";  rule; "  SETTLEMENT E2E SUMMARY"; rule;
    "  Passed: " +:+ pretty (pass_count t) +:+ "  Failed: " +:+ pretty (fail_count t); "";
    "  Step Timings:"]
    ++ ((λ nd, timing_line nd.1 (format_duration nd.2)) <$> step_timings t)
    ++ [timing_line "Total" (format_duration total); ""])%list;;
  if fail_count t =? 0 then info "  RESULT: ALL TESTS PASSED";; mret AllPassed
  else info ("  RESULT: " +:+ pretty (fail_count t) +:+ " TEST(S) FAILED");; mret ExitFailure.

(** ** The run *)

Definition settle_bet (bank_address session_felt : string) (reference_block balance_before : Z)
    (expected_won : bool) (felts : task_felts) (nonce : Z) : prog W string unit :=
  submit_proof felts nonce;;
  settle bank_address session_felt reference_block;;
  verify_balance balance_before expected_won.

Definition run_steps (e2e_start : Z) : prog W string verdict :=
  contracts ← deploy_contracts;
  let '(coinflip_address, bank_address) := (contracts : string * string) in
  fund_bank bank_address;;
  deposited ← player_deposit bank_address;
  let '(session_felt, pre_deposit_block) := (deposited : string * Z) in
  reference_block ← bank_match bank_address session_felt pre_deposit_block;
  balance_before ← get_strk_balance (account_address c);
  info ("  Player STRK balance before: " +:+ strk_6 balance_before);;
  proved ← prove_flip coinflip_address reference_block;
  let '(expected_outcome, felts, nonce) := (proved : Z * task_felts * Z) in
  verify_message expected_outcome;;
  (if sa_prove_only args then saved_locally
   else settle_bet bank_address session_felt reference_block balance_before
          (expected_outcome =? bet) felts nonce);;
  summary e2e_start.
End phases.

Definition run (env_file : option string) : prog W string verdict :=
  c ← mapping_err config_error_text (from_env env_file);
  reset_statics;;
  e2e_start ← reads now;
  for_each info ["=== SNIP-36 Settlement E2E Test ==="; ""; "  RPC:     " +:+ rpc_url c;
    "  Account: " +:+ account_address c; "  Bet:     " +:+ pretty bet +:+ " (" +:+ face bet +:+ ")";
    "  Amount:  " +:+ f64_display (sa_bet_amount args) +:+ " STRK (" +:+ pretty bet_amount_wei +:+ " wei)";
    ""];;
  check_prereqs c;;
  try_host (create_dir_all (sa_output_dir args)) id;;
  run_steps c e2e_start.
End e2e.

(** ** Facts *)

Section facts.
Context {W : Type} `{Http W} `{Clock W} `{SerdeJson} `{FeltOps} `{!Crypto} `{Env W}.
Context `{Process W} `{Files W} `{Random W} `{Gateway W} `{RegexLite} `{JsonText}.
Context `{Statics W} `{Console W} `{DriverHost W} `{!DriverLaws}.
Context (fuel : nat) (args : E2eSettlementArgs) (c : Config).

Abbreviation then_follows := (follows stable_driver).

Ltac keeps_here HP := repeat first
  [ progress unfold pass, fail, fail_with | progress keeps_driver HP ].
Ltac follows_here Hrun := eapply follows_run; [|exact Hrun]; intros ? HP; keeps_here HP.

(** *** Counting *)

Lemma silent_error {E} line : silent (error (E:=E) line).
Proof. silences. Qed.

Lemma quiet_own_pass msg : quiet (pass msg).
Proof.
  unfold pass. apply quiet_bind; [|intros; apply silent_quiet, silent_info].
  intros w u w' [= _ <-]. by rewrite tally_set.
Qed.

Lemma own_fail_tally {E} msg (w w' : W) u :
  fail (E:=E) msg w = (Ok u, w') → fail_count (tally w') = fetch_inc (fail_count (tally w)).
Proof.
  intros (? & w1 & [= _ <-] & Hrun)%prog_bind_Ok.
  rewrite (silent_tally _ _ _ _ (silent_error _) Hrun). by rewrite tally_set.
Qed.

Lemma own_fail_with_Ok {A} msg reason (w : W) a w1 : fail_with (A:=A) msg reason w ≠ (Ok a, w1).
Proof. by intros (? & ? & _ & [=])%prog_bind_Ok. Qed.

Lemma quiet_own_fail_with {A} msg reason : quiet (fail_with (A:=A) msg reason).
Proof. by intros w a w1 ?%own_fail_with_Ok. Qed.

Hint Resolve quiet_own_pass quiet_own_fail_with : quiet.

Lemma quiet_invoke contract function calldata : quiet (sncast_invoke fuel c contract function calldata).
Proof. unfold sncast_invoke. quiets. Qed.

Lemma quiet_declare_and_deploy name calldata : quiet (declare_and_deploy fuel c name calldata).
Proof. unfold declare_and_deploy, wait_silently, fresh_salt. quiets. Qed.

Hint Resolve quiet_invoke quiet_declare_and_deploy : quiet.

Lemma quiet_deploy_contracts : quiet (deploy_contracts fuel c).
Proof. unfold deploy_contracts, import_and_compile, import_silently. quiets. Qed.

Lemma quiet_money bank session pre :
  quiet (fund_bank fuel c bank) ∧ quiet (player_deposit fuel args c bank) ∧
  quiet (bank_match fuel c bank session pre) ∧ quiet (get_strk_balance c (account_address c)).
Proof.
  unfold fund_bank, player_deposit, bank_match, get_strk_balance, fresh_salt. split_and!; quiets.
Qed.

Lemma quiet_prove_bet coinflip block : quiet (prove_flip args c coinflip block).
Proof. unfold prove_flip, expect_outcome, parse_felts, run_prover. quiets. Qed.

(** *** Commands *)

(** The command named a transaction that was then seen to succeed. *)
Definition invoked (contract function calldata tx : string) (w w' : W) : Prop :=
  ∃ output receipt w1,
    command_output "sncast" (invoke_args c contract function calldata) None w = (inr output, w1) ∧
    parse_hex_from_output "transaction_hash" (format_cmd_output output) = Some tx ∧
    wait_for_tx (client c) fuel tx 120 3 w1 = (Ok receipt, w').

Lemma sncast_invoked_Ok contract function calldata tx (w w' : W) :
  sncast_invoke fuel c contract function calldata w = (Ok tx, w') →
  invoked contract function calldata tx w w'.
Proof.
  unfold sncast_invoke. intros (output & w1 & Hcmd%try_host_Ok & Hrun)%prog_bind_Ok. cbv zeta in Hrun.
  apply prog_bind_Ok in Hrun as (h & ? & [Hh%ok_or_Ok ->]%lift_Ok & Hrun).
  apply prog_bind_Ok in Hrun as (receipt & w2 & Hw%wrapped_Ok & [= <- <-]).
  by exists output, receipt, w1.
Qed.

(** *** The money *)

Definition bank_funded (bank : string) (w w' : W) : Prop :=
  ∃ approval transfer wa wb wc wd, then_follows w wa ∧
    invoked STRK_TOKEN "approve" (approve_calldata bank) approval wa wb ∧ then_follows wb wc ∧
    invoked STRK_TOKEN "transfer" (fund_calldata bank) transfer wc wd ∧ then_follows wd w'.

Lemma fund_bank_Ok bank (w w' : W) u : fund_bank fuel c bank w = (Ok u, w') → bank_funded bank w w'.
Proof.
  unfold fund_bank. intros (? & w1 & Hstep & Hrun)%prog_bind_Ok.
  apply prog_bind_Ok in Hrun as (t1 & w2 & Ha%sncast_invoked_Ok & Hrun).
  apply prog_bind_Ok in Hrun as (? & w3 & Hp & Hrun).
  apply prog_bind_Ok in Hrun as (t2 & w4 & Ht%sncast_invoked_Ok & Hrun).
  exists t1, t2, w1, w2, w3, w4. split_and!; [follows_here Hstep|done|follows_here Hp|done|follows_here Hrun].
Qed.

(** The player's deposit was made with the block [pre], the bank matched it,
    and [ref] is the later of [pre] and the block of the match. *)
Definition bet_placed (bank session : string) (pre ref : Z) (w w' : W) : Prop :=
  ∃ deposit matching receipt wa wb wc wd we wf, then_follows w wa ∧
    block_number (client c) wa = (Ok pre, wb) ∧
    invoked bank "deposit" (deposit_calldata args session pre) deposit wb wc ∧ then_follows wc wd ∧
    invoked bank "match_deposit" session matching wd we ∧
    wait_for_tx (client c) fuel matching 120 3 we = (Ok receipt, wf) ∧
    ref = Z.max (default 0 (receipt_block_number receipt)) pre ∧ then_follows wf w'.

Lemma bet_placed_Ok bank session pre ref (w w1 w' : W) :
  player_deposit fuel args c bank w = (Ok (session, pre), w1) →
  bank_match fuel c bank session pre w1 = (Ok ref, w') → bet_placed bank session pre ref w w'.
Proof.
  unfold player_deposit, bank_match. intros (? & wa & Hstep & Hrun)%prog_bind_Ok.
  apply prog_bind_Ok in Hrun as (s & wb & Hs & Hrun).
  apply prog_bind_Ok in Hrun as (b & wc & Hb%mapping_err_Ok & Hrun).
  apply prog_bind_Ok in Hrun as (t1 & wd & Hd%sncast_invoked_Ok & Hrun).
  apply prog_bind_Ok in Hrun as (? & we & Hp & [= <- <- <-]).
  intros (? & wf & Hstep2 & Hrun)%prog_bind_Ok.
  apply prog_bind_Ok in Hrun as (t2 & wg & Hm%sncast_invoked_Ok & Hrun).
  apply prog_bind_Ok in Hrun as (receipt & wh & Hw%mapping_err_Ok & Hrun). cbv zeta in Hrun.
  apply prog_bind_Ok in Hrun as (? & wi & Hp2 & [= <- <-]).
  exists t1, t2, receipt, wb, wc, wd, wf, wg, wh. split_and!; try done.
  - transitivity wa; [follows_here Hstep|]. unfold fresh_salt in Hs. follows_here Hs.
  - transitivity we; [follows_here Hp|follows_here Hstep2].
  - follows_here Hp2.
Qed.

(** *** The proof *)

Lemma run_prover_own_Ok exe url block (w w' : W) u :
  run_prover args c exe url block w = (Ok u, w') →
  ∃ w1, prover_succeeded c exe url block (tx_path args) (proof_path args) w w1 ∧ then_follows w1 w'.
Proof.
  unfold run_prover. intros (success & w1 & Hrun%wrapped_Ok%try_host_Ok & Hend)%prog_bind_Ok.
  apply prog_bind_Ok in Hend as (there & ? & [= <- <-] & Hend).
  destruct success; cbn [andb] in Hend; [|by apply own_fail_with_Ok in Hend].
  destruct (path_exists w1 (proof_path args)) eqn:Hp; [|by apply own_fail_with_Ok in Hend].
  exists w1. split; [done|]. follows_here Hend.
Qed.

Lemma prove_bet_Ok coinflip block outcome felts nonce (w w' : W) :
  prove_flip args c coinflip block w = (Ok (outcome, felts, nonce), w') →
  outcome = flip_outcome (felt_of block) (pf_sender felts) ∧
  collect_res felt_from_hex (flip_calldata args c coinflip block) = Ok (pf_calldata felts) ∧
  felt_from_hex (account_address c) = Ok (pf_sender felts) ∧
  ∃ w1 w2, then_follows w w1 ∧ get_nonce (client c) (account_address c) w1 = (Ok nonce, w2) ∧
    written_and_proved c felts (flip_calldata args c coinflip block) nonce (tx_path args)
      (proof_path args) block w2 w'.
Proof.
  unfold prove_flip. cbv zeta. intros (? & w1 & Hstep & Hrun)%prog_bind_Ok.
  apply prog_bind_Ok in Hrun as (o & w2 & He & Hrun).
  apply prog_bind_Ok in Hrun as (f & ? & (-> & Hcd & Hs & _ & _)%parsed_felts_Ok & Hrun).
  apply prog_bind_Ok in Hrun as (? & w3 & Hsleep & Hrun).
  apply prog_bind_Ok in Hrun as (n & w4 & Hn%mapping_err_Ok & Hrun).
  apply prog_bind_Ok in Hrun as ([] & w5 & (sig & Hsig & Hw)%construct_tx_written & Hrun).
  apply prog_bind_Ok in Hrun as (? & w6 & Hp & Hrun).
  apply prog_bind_Ok in Hrun as (url & ? & [= _ <-] & Hrun).
  apply prog_bind_Ok in Hrun as (exe & ? & [= _ <-] & Hrun).
  apply prog_bind_Ok in Hrun as (? & w7 & (w8 & Hprove & F8)%run_prover_own_Ok & [= <- <- <- <-]).
  assert (F2 : then_follows w1 w2) by (unfold expect_outcome in He; follows_here He).
  unfold expect_outcome in He. apply prog_bind_Ok in He as (player & ? & [Hpl ->]%lift_Ok & He).
  cbv zeta in He. apply prog_bind_Ok in He as (? & ? & _ & [= <- _]).
  rewrite Hs in Hpl. injection Hpl as <-. split_and!; try done. exists w3, w4. split_and!; [|done|].
  - transitivity w2; [transitivity w1; [follows_here Hstep|done]|follows_here Hsleep].
  - exists sig, exe, url, w4, w5, w6, w8. split_and!; try done. follows_here Hp.
Qed.

(** *** The message *)

(** The prover's document states another outcome. *)
Definition contradicted (outcome : Z) (w : W) : Prop :=
  path_exists w (messages_file args) = true ∧
  ∃ text w1 json o, read_to_string (messages_file args) w = (inr text, w1) ∧
    json_from_str text = Ok json ∧ stated_outcome json = Some o ∧ o ≠ outcome.

Lemma verify_message_Ok outcome (w w' : W) u :
  verify_message args outcome w = (Ok u, w') →
  then_follows w w' ∧
  ((contradicted outcome w ∧ fail_count (tally w') = fetch_inc (fail_count (tally w))) ∨
   (¬ contradicted outcome w ∧ fail_count (tally w') = fail_count (tally w))).
Proof.
  intros Hrun. split; [unfold verify_message in Hrun; follows_here Hrun|]. revert Hrun.
  unfold verify_message, contradicted. intros (there & ? & [= <- <-] & Hrun)%prog_bind_Ok.
  destruct (path_exists w (messages_file args)); [|right; injection Hrun as _ <-; by split; [intros [[=] _]|]].
  apply prog_bind_Ok in Hrun as (text & w1 & Hr & Hrun).
  assert (Hq : quiet (try_host (read_to_string (messages_file args)) id : prog W string string)) by quiets.
  pose proof (Hq _ _ _ Hr) as Q1. apply try_host_Ok in Hr.
  apply prog_bind_Ok in Hrun as (json & ? & [Hj ->]%lift_Ok & Hrun). rewrite <-Q1.
  assert (∀ P : Prop, (∀ o, stated_outcome json = Some o → o ≠ outcome → P) →
    (true = true ∧ ∃ text w1 json o, read_to_string (messages_file args) w = (inr text, w1) ∧
      json_from_str text = Ok json ∧ stated_outcome json = Some o ∧ o ≠ outcome) → P) as Hno.
  { intros P HP (_ & t & wr & j & o & Hr' & Hj' & Ho & Hne). rewrite Hr in Hr'. injection Hr' as <- <-.
    rewrite Hj in Hj'. injection Hj' as <-. by apply (HP o). }
  destruct (stated_outcome json) as [o|] eqn:Ho; [destruct (Z.eqb_spec o outcome) as [->|Hne]|].
  - right. split; [refine (Hno False _); intros; congruence|by apply quiet_own_pass in Hrun].
  - left. split; [by split; [|eauto 10]|by apply own_fail_tally in Hrun].
  - right. split; [refine (Hno False _); intros; congruence|by injection Hrun as _ <-].
Qed.

(** *** Submission, settlement, balance *)

(** The gateway received a transaction. *)
Definition gateway_received (url : string) (tx : Value) (w w' : W) : Prop :=
  ∃ body, post_gateway url tx w = (inr (inr body), w') ∧
    get_str body "code" = Some "TRANSACTION_RECEIVED".

Lemma accept_loop_Ok left url tx (w w' : W) :
  accept_loop left url tx w = (Ok true, w') →
  ∃ wa wb, then_follows w wa ∧ gateway_received url tx wa wb ∧ then_follows wb w' ∧
    fail_count (tally w') = fail_count (tally w).
Proof.
  revert w. induction left as [|left IH]; intros w; cbn [accept_loop]; [done|]. cbv zeta.
  intros (response & w1 & Hp & Hrun)%prog_bind_Ok.
  assert (Hq : quiet (call_host (post_gateway url tx) : prog W string _)) by quiets.
  pose proof (Hq _ _ _ Hp) as Q1.
  assert (F1 : then_follows w w1) by follows_here Hp.
  unfold call_host in Hp. destruct (post_gateway url tx w) as [r wr] eqn:Hpost. injection Hp as -> ->.
  destruct response as [e|resp]; [by apply prog_bind_Ok in Hrun as (? & ? & _ & [=])|].
  destruct (decide _) as [Hcode|_]; [|case_match].
  - apply prog_bind_Ok in Hrun as (? & w2 & Hpass & [= <-]). exists w, w1.
    split_and!; [done| |follows_here Hpass|by rewrite (quiet_own_pass _ _ _ _ Hpass)].
    destruct resp as [m|body]; [done|]. exists body. split; [done|].
    by destruct (get_str body "code"); simplify_eq/=.
  - apply prog_bind_Ok in Hrun as (? & w2 & Hi & Hrun). apply prog_bind_Ok in Hrun as (? & w3 & Hs & Hrun).
    apply IH in Hrun as (wa & wb & Fa & Hacc & Fb & Hf). exists wa, wb. split_and!; try done.
    + transitivity w3; [|done]. transitivity w2; [transitivity w1; [done|follows_here Hi]|follows_here Hs].
    + assert (Hqs : quiet (modify (sleep (from_secs 10)) : prog W string unit)) by quiets.
      assert (Hqi : ∀ l, quiet (info l : prog W string unit)) by (intros; quiets).
      by rewrite Hf, (Hqs _ _ _ Hs), (Hqi _ _ _ _ Hi), Q1.
  - by apply prog_bind_Ok in Hrun as (? & ? & _ & [=]).
Qed.

(** The signed proof was received by the gateway and its transaction, whose
    hash was computed here, was seen to succeed. *)
Definition proof_accepted (felts : task_felts) (nonce : Z) (w w' : W) : Prop :=
  ∃ submission receipt wa wb wc wd, then_follows w wa ∧
    signed_submission felts nonce submission ∧
    gateway_received (submit_url (default "" (gateway_url c))) submission.2 wa wb ∧
    then_follows wb wc ∧
    wait_for_tx (client c) fuel (felt_hex submission.1) 600 5 wc = (Ok receipt, wd) ∧
    then_follows wd w'.

Lemma submit_proof_Ok felts nonce (w w' : W) u :
  submit_proof fuel args c felts nonce w = (Ok u, w') →
  proof_accepted felts nonce w w' ∧ fail_count (tally w') = fail_count (tally w).
Proof.
  unfold submit_proof. intros (? & w1 & Hstep & Hrun)%prog_bind_Ok.
  apply prog_bind_Ok in Hrun as ([h tx] & w2 & Hs & Hrun). cbv zeta in Hrun.
  assert (then_follows w1 w2) as F2
    by (unfold sign_proof, read_proof_facts, sign_submission in Hs; follows_here Hs).
  assert (Hq : quiet (sign_proof args felts nonce)).
  { unfold sign_proof, read_proof_facts, sign_submission. quiets. }
  pose proof (Hq _ _ _ Hs) as Q2. clear Hq.
  assert (signed_submission felts nonce (h, tx)) as Hsig.
  { unfold sign_proof in Hs. do 3 (apply prog_bind_Ok in Hs as (? & ? & _ & Hs)).
    by apply sign_submission_Ok in Hs. }
  apply prog_bind_Ok in Hrun as (short & ? & [_ ->]%lift_Ok & Hrun).
  apply prog_bind_Ok in Hrun as (? & w3 & Hi & Hrun).
  apply prog_bind_Ok in Hrun as (accepted & w4 & Hacc & Hrun).
  apply prog_bind_Ok in Hrun as (? & w5 & Ha & Hrun). destruct accepted; [|done]. injection Ha as _ <-.
  apply accept_loop_Ok in Hacc as (wa & wb & Fa & Hrec & Fb & Q4).
  apply prog_bind_Ok in Hrun as (? & w6 & Hi2 & Hrun).
  apply prog_bind_Ok in Hrun as (r & w7 & Hw & Hrun).
  assert (quiet (attempt (wait_for_tx (client c) fuel (felt_hex h) 600 5) : prog W string _)) as Hqw by quiets.
  pose proof (Hqw _ _ _ Hw) as Q7. apply attempt_Ok in Hw.
  destruct Hw as [(receipt & -> & Hw)|(e & -> & _)]; [|by apply own_fail_with_Ok in Hrun].
  split.
  - exists (h, tx), receipt, wa, wb, w6, w7. split_and!; try done.
    + transitivity w3; [|done]. transitivity w2; [|follows_here Hi].
      transitivity w1; [follows_here Hstep|done].
    + transitivity w4; [done|follows_here Hi2].
    + follows_here Hrun.
  - assert (Hqi : ∀ l, quiet (info l : prog W string unit)) by (intros; quiets).
    by rewrite (quiet_own_pass _ _ _ _ Hrun), Q7, (Hqi _ _ _ _ Hi2), Q4, (Hqi _ _ _ _ Hi), Q2,
      (quiet_step _ _ _ _ _ Hstep).
Qed.

(** The proof was accepted, then the bet settled with the seed [ref], then the
    balance read. *)
Definition bet_settled (bank session : string) (ref after : Z) (felts : task_felts) (nonce : Z)
    (w w' : W) : Prop :=
  ∃ settling wa wb wc wd we, proof_accepted felts nonce w wa ∧ then_follows wa wb ∧
    invoked bank "settle" (settle_calldata session ref) settling wb wc ∧ then_follows wc wd ∧
    get_strk_balance c (account_address c) wd = (Ok after, we) ∧ then_follows we w'.

(** A win that did not pay. *)
Definition unpaid (won : bool) (before after : Z) : Prop := won = true ∧ after ≤ before.

Lemma settle_bet_Ok bank session ref before won felts nonce (w w' : W) u :
  settle_bet fuel args c bank session ref before won felts nonce w = (Ok u, w') →
  ∃ after, bet_settled bank session ref after felts nonce w w' ∧
    ((unpaid won before after ∧ fail_count (tally w') = fetch_inc (fail_count (tally w))) ∨
     (¬ unpaid won before after ∧ fail_count (tally w') = fail_count (tally w))).
Proof.
  unfold settle_bet. intros (? & w1 & [Hacc Q1]%submit_proof_Ok & Hrun)%prog_bind_Ok.
  apply prog_bind_Ok in Hrun as (? & w2 & Hs & Hrun).
  assert (Hqs : quiet (settle fuel c bank session ref)) by (unfold settle; quiets).
  pose proof (Hqs _ _ _ Hs) as Q2. unfold settle in Hs.
  apply prog_bind_Ok in Hs as (? & w3 & Hstep & Hs).
  apply prog_bind_Ok in Hs as (tx & w4 & Hi%sncast_invoked_Ok & Hp).
  unfold verify_balance in Hrun. apply prog_bind_Ok in Hrun as (? & w5 & Hstep2 & Hrun).
  pose proof (quiet_step _ _ _ _ _ Hstep2) as Q5.
  apply prog_bind_Ok in Hrun as (after & w6 & Hb & Hrun).
  destruct (quiet_money bank session 0) as (_ & _ & _ & Hqb). pose proof (Hqb _ _ _ Hb) as Q6.
  apply prog_bind_Ok in Hrun as (? & w7 & Hinfo & Hrun). cbv zeta in Hrun.
  assert (Hqi : ∀ l, quiet (info l : prog W string unit)) by (intros; quiets).
  pose proof (Hqi _ _ _ _ Hinfo) as Q7.
  exists after. split.
  - exists tx, w1, w3, w4, w5, w6. split_and!; [done|follows_here Hstep|done| |done|].
    + transitivity w2; [follows_here Hp|follows_here Hstep2].
    + transitivity w7; [follows_here Hinfo|follows_here Hrun].
  - assert (fail_count (tally w7) = fail_count (tally w)) as <- by congruence. unfold unpaid.
    destruct won; [|right; split; [by intros [[=] _]|by apply quiet_own_pass in Hrun]].
    destruct (Z.ltb_spec before after).
    + rewrite (proj2 (Z.ltb_lt 0 (after - before))) in Hrun by lia.
      right. split; [lia|by apply quiet_own_pass in Hrun].
    + left. split; [lia|by apply own_fail_tally in Hrun].
Qed.

Lemma summary_own_Ok start (w w' : W) v :
  summary start w = (Ok v, w') → (v = AllPassed ↔ fail_count (tally w) = 0) ∧ then_follows w w'.
Proof.
  intros Hrun. split; [|unfold summary in Hrun; follows_here Hrun].
  unfold summary in Hrun. apply prog_bind_Ok in Hrun as (? & w1 & Hfin & Hrun).
  assert (fail_count (tally w1) = fail_count (tally w)) as Hf.
  { injection Hfin as _ <-. rewrite tally_set. unfold close_step.
    by destruct (step_start (tally w)) as [[]|]. }
  do 2 (apply prog_bind_Ok in Hrun as (? & ? & [= <- <-] & Hrun)).
  apply prog_bind_Ok in Hrun as (? & w2 & _ & Hrun). rewrite <-Hf.
  destruct (Z.eqb_spec (fail_count (tally w1)) 0); apply prog_bind_Ok in Hrun as (? & ? & _ & [= <- _]);
    naive_solver.
Qed.

(** What is done before the submission: the money, the balance before, and
    the proof at block [ref], whose call has [ref] as the seed. *)
Definition bet_proved (coinflip bank session : string) (pre ref before : Z) (felts : task_felts)
    (nonce : Z) (w w' : W) : Prop :=
  ∃ wa wb wc wd we wf, then_follows w wa ∧ bank_funded bank wa wb ∧
    bet_placed bank session pre ref wb wc ∧
    get_strk_balance c (account_address c) wc = (Ok before, wd) ∧ then_follows wd we ∧
    get_nonce (client c) (account_address c) we = (Ok nonce, wf) ∧
    collect_res felt_from_hex (flip_calldata args c coinflip ref) = Ok (pf_calldata felts) ∧
    felt_from_hex (account_address c) = Ok (pf_sender felts) ∧
    written_and_proved c felts (flip_calldata args c coinflip ref) nonce (tx_path args)
      (proof_path args) ref wf w'.

(** The verdict of the checks that can fail. *)
Definition outcome_won (felts : task_felts) (ref : Z) : bool :=
  flip_outcome (felt_of ref) (pf_sender felts) =? bet args.

Definition settled_or_saved (bank session : string) (ref before : Z) (felts : task_felts) (nonce : Z)
    (v : verdict) (wm we w' : W) : Prop :=
  let contradiction := contradicted (flip_outcome (felt_of ref) (pf_sender felts)) wm in
  (sa_prove_only args = true ∧ (v = AllPassed ↔ ¬ contradiction)) ∨
  (∃ after, bet_settled bank session ref after felts nonce we w' ∧
     (v = AllPassed ↔ ¬ contradiction ∧ ¬ unpaid (outcome_won felts ref) before after)).

Lemma settlement_run_steps_Ok start v (w w' : W) :
  fail_count (tally w) = 0 → run_steps fuel args c start w = (Ok v, w') →
  ∃ coinflip bank session pre ref before felts nonce wm we,
    bet_proved coinflip bank session pre ref before felts nonce w wm ∧ then_follows wm we ∧
    settled_or_saved bank session ref before felts nonce v wm we w'.
Proof.
  intros Hzero. unfold run_steps. intros ([coinflip bank] & w1 & Hd & Hrun)%prog_bind_Ok.
  pose proof (quiet_deploy_contracts _ _ _ Hd) as Q1.
  assert (then_follows w w1) as F1.
  { unfold deploy_contracts, import_and_compile, declare_and_deploy, wait_silently, import_silently,
      fresh_salt in Hd. follows_here Hd. }
  apply prog_bind_Ok in Hrun as (? & w2 & Hf & Hrun).
  apply prog_bind_Ok in Hrun as ([session pre] & w3 & Hp & Hrun).
  apply prog_bind_Ok in Hrun as (ref & w4 & Hm & Hrun).
  apply prog_bind_Ok in Hrun as (before & w5 & Hb & Hrun).
  destruct (quiet_money bank session pre) as (Hq2 & Hq3 & Hq4 & Hq5).
  pose proof (Hq2 _ _ _ Hf) as Q2. pose proof (Hq3 _ _ _ Hp) as Q3. pose proof (Hq4 _ _ _ Hm) as Q4.
  pose proof (Hq5 _ _ _ Hb) as Q5. clear Hq2 Hq3 Hq4 Hq5 Hd.
  apply fund_bank_Ok in Hf. pose proof (bet_placed_Ok _ _ _ _ _ _ _ Hp Hm) as Hplaced. clear Hp Hm.
  apply prog_bind_Ok in Hrun as (? & w6 & Hi & Hrun).
  assert (Hqi : ∀ l, quiet (info l : prog W string unit)) by (intros; quiets).
  pose proof (Hqi _ _ _ _ Hi) as Q6.
  apply prog_bind_Ok in Hrun as ([[outcome felts] nonce] & w7 & Hf7 & Hrun).
  pose proof (quiet_prove_bet _ _ _ _ _ Hf7) as Q7.
  apply prove_bet_Ok in Hf7 as (-> & Hcd & Hs & wa & wb & Fa & Hn & Hproved).
  apply prog_bind_Ok in Hrun as (? & w8 & [F8 Q8]%verify_message_Ok & Hrun).
  apply prog_bind_Ok in Hrun as (? & w9 & Hsub & [Hv F9]%summary_own_Ok).
  assert (fail_count (tally w7) = 0) as Hzero7 by congruence. rewrite Hzero7 in Q8.
  exists coinflip, bank, session, pre, ref, before, felts, nonce, w7, w8. split; [|split; [done|]].
  - exists w1, w2, w4, w5, wa, wb. split_and!; try done. rewrite <-Fa. follows_here Hi.
  - unfold settled_or_saved. fold (outcome_won felts ref) in Hsub. destruct (sa_prove_only args); [left|right].
    + assert (Hq9 : quiet (saved_locally : prog W string unit)) by (unfold saved_locally; quiets).
      rewrite Hv, (Hq9 _ _ _ Hsub). split; [done|]. by destruct Q8 as [[? ->]|[? ->]].
    + apply settle_bet_Ok in Hsub as (after & (tx & wi & wj & wk & wl & wm & ? & ? & ? & ? & ? & F) & Q9).
      exists after. split.
      * exists tx, wi, wj, wk, wl, wm. split_and!; try done. by rewrite F.
      * rewrite Hv. destruct Q8 as [[? Q8]|[? Q8]], Q9 as [[? ->]|[? ->]]; rewrite Q8; naive_solver.
Qed.
End facts.

(** C17: A settlement run that ends without an error did, in this order: approve
    and fund the bank; deposit the bet with the block pre of that moment;
    have the bank match it; read the player's balance; get the prover to
    succeed on play(ref, account, bet) at block ref, the later of pre and
    the block of the match; and, unless told to stop, get the gateway to
    receive the signed proof and see it succeed, settle the same session
    with the seed ref and read the balance again. It reports that everything
    passed exactly when no document of the prover states another outcome and
    a bet that the seed makes a win increased the balance: a lost bet and a
    missing document always pass. *)
Theorem settlement_e2e_sound {W : Type} `{Http W} `{Clock W} `{SerdeJson} `{FeltOps} `{!Crypto} `{Env W}
    `{Process W} `{Files W} `{Random W} `{Gateway W} `{RegexLite} `{JsonText}
    `{Statics W} `{Console W} `{DriverHost W} `{!DriverLaws} fuel args env_file v (w w' : W) :
  run fuel args env_file w = (Ok v, w') →
  ∃ c w0 coinflip bank session pre ref before felts nonce wm we,
    from_env env_file w = (Ok c, w0) ∧
    bet_proved fuel args c coinflip bank session pre ref before felts nonce w0 wm ∧
    follows stable_driver wm we ∧
    settled_or_saved fuel args c bank session ref before felts nonce v wm we w'.
Proof.
  unfold run. intros (c & w0 & Henv%mapping_err_Ok & Hrun)%prog_bind_Ok.
  apply prog_bind_Ok in Hrun as (? & w1 & [= _ Hreset] & Hrun).
  apply prog_bind_Ok in Hrun as (start & ? & [= _ <-] & Hrun).
  assert (follows stable_driver w0 w1) as F1
    by (intros P HP Hp; rewrite <-Hreset; by apply (driver_tally P HP)).
  assert (fail_count (tally w1) = 0) as Hzero by (rewrite <-Hreset, tally_set; done).
  apply prog_bind_Ok in Hrun as (? & w2 & Hi & Hrun). apply prog_bind_Ok in Hrun as (? & w3 & Hc & Hrun).
  apply prog_bind_Ok in Hrun as (? & w4 & Hd & Hrun).
  assert (follows stable_driver w1 w4) as F4.
  { transitivity w2; [|transitivity w3].
    - eapply follows_run; [|exact Hi]. intros P HP. apply silent_lines, HP.
    - eapply follows_run; [|exact Hc]. intros P HP. unfold check_prereqs. keeps_driver HP.
    - eapply follows_run; [|exact Hd]. intros P HP. keeps_driver HP. }
  assert (Hq3 : quiet (check_prereqs c : prog W string unit)) by (unfold check_prereqs; quiets).
  assert (Hq4 : quiet (try_host (create_dir_all (sa_output_dir args)) id : prog W string unit)) by quiets.
  apply settlement_run_steps_Ok in Hrun as (coinflip & bank & session & pre & ref & before & felts & nonce & wm & we & Hp & Hrest).
  - exists c, w0, coinflip, bank, session, pre, ref, before, felts, nonce, wm, we. split; [done|].
    split; [|exact Hrest]. destruct Hp as (wa & wb & wc & wd & we' & wf & Fa & Hp).
    exists wa, wb, wc, wd, we', wf. split; [|exact Hp]. by rewrite F1, F4.
  - rewrite (Hq4 _ _ _ Hd), (Hq3 _ _ _ Hc). rewrite <-Hzero.
    assert (silent (for_each (info (E:=string)) (["=== SNIP-36 Settlement E2E Test ==="; ""; "  RPC:     " +:+ rpc_url c;
    "  Account: " +:+ account_address c; "  Bet:     " +:+ pretty (bet args) +:+ " (" +:+ face (bet args) +:+ ")";
    "  Amount:  " +:+ f64_display (sa_bet_amount args) +:+ " STRK (" +:+ pretty (bet_amount_wei args) +:+ " wei)";
    ""]))) as Hsil by apply silent_lines. by rewrite (silent_tally _ _ _ _ Hsil Hi).
Qed.
