(* ===== verification/SubmissionLoops.v ===== *)
(** * The submission loops behind one interface

    Five loops submit a signed transaction: the drivers' through the gateway
    and through the node, the settlement driver's, the coin flip's task and the
    counter's task.  They print differently and treat a failed request
    differently, but each makes at most twenty attempts with ten seconds
    between them.  [Submitter] states that; its theorems hold for every loop,
    and each loop has an instance. *)

From Stdlib Require Import SpecFloat.
From S2P Require Import Prelude RustNum RustStr Json Felt Types Signing Config Rpc Host Submission.
From S2P Require Import CoinFlipState Counter CoinFlip Driver DriverFacts CoinFlipE2e SettlementE2e.

Definition attempts : nat := 20.

(** An attempt ends the loop with its result, or is followed by another one. *)
Inductive attempted (W R : Type) :=
  | Done (r : res string R) (w : W)
  | Again (w : W).
Arguments Done {W R} r w.
Arguments Again {W R} w.

(** A loop that is given the number of attempts left; [attempt n] is the
    [n]-th attempt with what it prints. *)
Class Submitter {W R : Type} `{Clock W} (loop : nat → prog W string R) := {
  attempt_at : nat → W → attempted W R;
  loop_attempts left w : (left < attempts)%nat →
    loop (S left) w = match attempt_at (attempts - left) w with
                      | Done r w' => (r, w')
                      | Again w' => loop left (sleep (from_secs 10) w')
                      end;
  last_attempt w w' : attempt_at attempts w ≠ Again w';
}.

Section interface.
Context {W R : Type} `{Http W} `{!Clock W} `{!ClockLaws W} (loop : nat → prog W string R) `{!Submitter loop}.

(** [n] attempts that were not the last, each followed by ten seconds. *)
Inductive waited : nat → W → W → Prop :=
  | Waited0 w : waited 0 w w
  | WaitedS n w w1 w2 :
      waited n w w1 → attempt_at (S n) w1 = Again w2 → waited (S n) w (sleep (from_secs 10) w2).

Lemma loop_ends left w0 w r w' : (1 ≤ left ≤ attempts)%nat → waited (attempts - left) w0 w →
  loop left w = (r, w') → ∃ n w1, (n < attempts)%nat ∧ waited n w0 w1 ∧ attempt_at (S n) w1 = Done r w'.
Proof.
  revert w. induction left as [|left IH]; intros w Hleft Hw; [lia|]. rewrite loop_attempts by lia.
  assert (attempts - left = S (attempts - S left))%nat as Hn by lia.
  destruct (attempt_at (attempts - left) w) as [r' w1|w1] eqn:Ha.
  - intros [= -> ->]. exists (attempts - S left)%nat, w. rewrite <-Hn. split_and!; [lia|done|done].
  - destruct left as [|left].
    { rewrite Nat.sub_0_r in Ha. by apply last_attempt in Ha. }
    apply IH; [lia|]. rewrite Hn in Ha |- *. by eapply WaitedS.
Qed.

(** Not ready before [T], and accepted from then on. *)
Definition ready_at (T : Z) (accepted : res string R → Prop) : Prop :=
  ∀ n w, (n < attempts)%nat ∨ T ≤ now w →
    match attempt_at n w with
    | Again w' => now w < T ∧ now w ≤ now w'
    | Done r w' => T ≤ now w ∧ accepted r
    end.

Lemma loop_live T accepted left w : ready_at T accepted → (1 ≤ left ≤ attempts)%nat →
  T ≤ now w + Z.of_nat (left - 1) * from_secs 10 →
  ∃ r w', loop left w = (r, w') ∧ accepted r.
Proof.
  intros Hready. revert w. induction left as [|left IH]; intros w Hleft Hnow; [lia|].
  rewrite loop_attempts by lia. specialize (Hready (attempts - left)%nat w).
  destruct left as [|left].
  - rewrite Nat.sub_0_r in *. simpl in Hnow.
    destruct (attempt_at attempts w) as [r w'|w'] eqn:Ha; [|by apply last_attempt in Ha].
    destruct Hready as [_ Hacc]; [right; lia|]. eauto.
  - destruct (attempt_at (attempts - S left) w) as [r w'|w'].
    + destruct Hready as [_ Hacc]; [left; lia|]. eauto.
    + destruct Hready as [_ Hn]; [left; lia|]. apply IH; [lia|].
      pose proof (sleep_now (from_secs 10) w' ltac:(unfold from_secs; lia)). unfold from_secs in *. lia.
Qed.
End interface.

(** Whatever is submitted through the interface, the loop of twenty
    attempts ends with an attempt that ends it: the first one, or one after
    at most nineteen others, each followed by ten seconds. *)
Theorem submission_ends {W R} `{Http W} `{!Clock W} (loop : nat → prog W string R) `{!Submitter loop} w r w' :
  loop attempts w = (r, w') →
  ∃ n w1, (n < attempts)%nat ∧ waited loop n w w1 ∧ attempt_at (S n) w1 = Done r w'.
Proof. apply loop_ends; [unfold attempts; lia|constructor]. Qed.

(** ** The drivers' loops *)

Section drivers.
Context {W : Type} `{Http W} `{!Clock W} `{SerdeJson} `{FeltOps} `{!Crypto} `{Env W}.
Context `{Process W} `{Files W} `{Random W} `{Gateway W}.
Context `{Statics W} `{Console W} `{DriverHost W}.

Definition driver_attempt (round : nat → W → reply * W) (n : nat) (w : W) : attempted W (option string) :=
  match round n w with
  | (Accepted text h, w1) => Done (Ok (Some h)) (Driver.pass (E:=string) text w1).2
  | (NotYet line, w1) => Again (trace_info line w1)
  | (Refused msg, w1) => Done (Ok None) (Driver.fail (E:=string) msg w1).2
  end.

Lemma retry_attempts round left (w : W) : (left < attempts)%nat →
  retry_loop (S left) round w = match driver_attempt round (attempts - left) w with
                                | Done r w' => (r, w')
                                | Again w' => retry_loop left round (sleep (from_secs 10) w')
                                end.
Proof.
  intros Hleft. cbn [retry_loop]. replace (S Driver.max_attempts - S left)%nat with (attempts - left)%nat by done.
  unfold driver_attempt. destruct (round (attempts - left)%nat w) as [[text h|line|msg] w1]; [|done|].
  - unfold mbind, prog_bind. by rewrite pass_eq.
  - unfold mbind, prog_bind. by rewrite fail_eq.
Qed.

(** A loop that the abstract one of DriverFacts.v describes. *)
Definition retry_submitter round (loop : nat → prog W string (option string)) (Hround : settles round)
    (Hloop : ∀ left w, (left ≤ attempts)%nat → loop left w = retry_loop left round w) : Submitter loop.
Proof.
  refine {| attempt_at := driver_attempt round |}.
  - intros left w Hleft. rewrite Hloop, retry_attempts by lia.
    destruct (driver_attempt _ _ _); [done|]. by rewrite Hloop by lia.
  - intros w w'. unfold driver_attempt.
    destruct (round attempts w) as [[| line |] w1] eqn:Hr; [done|by apply Hround in Hr|done].
Defined.

Lemma gateway_settles url tx h : settles (gateway_round url tx h).
Proof.
  intros w line w1. unfold gateway_round. destruct (post_gateway _ _ w) as [[e|resp] w2]; unfold gateway_reply.
  - by rewrite Nat.ltb_irrefl.
  - cbv zeta. destruct (decide _); [done|]. by rewrite Nat.ltb_irrefl, andb_false_r.
Qed.

Lemma rpc_settles rpc tx : settles (rpc_round rpc tx).
Proof.
  intros w line w1. unfold rpc_round.
  destruct (add_invoke_outcome rpc tx w) as (o & w2 & -> & [[h ->]|[e ->]]); unfold rpc_reply; [done|].
  rewrite Nat.ltb_irrefl. by destruct e.
Qed.

#[export] Instance gateway_submitter url tx h : Submitter (λ left, gateway_loop (W:=W) left url tx h) :=
  retry_submitter (gateway_round url tx h) _ (gateway_settles url tx h)
    (λ left w Hleft, gateway_loop_retry left url tx h w Hleft).

#[export] Instance rpc_submitter c tx : Submitter (λ left, rpc_loop (W:=W) c left tx) :=
  retry_submitter (rpc_round (client c) tx) _ (rpc_settles (client c) tx)
    (λ left w Hleft, rpc_loop_retry c left tx w Hleft).

(** ** The settlement driver's loop *)

Definition accept_attempt (url : string) (tx : Value) (n : nat) (w : W) : attempted W bool :=
  let '(response, w1) := post_gateway url tx w in
  match response with
  | inr resp =>
      let body := match resp with inr v => v | inl _ => JNull end in
      let code := default "" (get_str body "code") in
      let msg := default "" (get_str body "message") in
      if decide (code = "TRANSACTION_RECEIVED") then
        Done (Ok true) (SettlementE2e.pass (E:=string) ("Proof accepted (attempt " +:+ pretty n +:+ ")") w1).2
      else if gateway_not_ready msg && Nat.ltb n attempts then
        Again (trace_info ("  Attempt " +:+ Driver.attempt_text n +:+ ": not ready, waiting 10s... ("
          +:+ msg +:+ ")") w1)
      else Done (Ok false) (SettlementE2e.fail (E:=string) ("Rejected: " +:+ json_to_string body) w1).2
  | inl e => Done (Ok false) (SettlementE2e.fail (E:=string) ("Request failed: " +:+ e) w1).2
  end.

#[export] Instance accept_submitter url tx : Submitter (λ left, accept_loop (W:=W) left url tx).
Proof.
  refine {| attempt_at := accept_attempt url tx |}.
  - intros left w Hleft. cbn [accept_loop].
    replace (S Driver.max_attempts - S left)%nat with (attempts - left)%nat by done. cbv zeta.
    unfold accept_attempt, call_host, mbind at 1, prog_bind at 1.
    destruct (post_gateway url tx w) as [[e|resp] w1]; [done|]. cbv zeta.
    destruct (decide _); [done|]. change Driver.max_attempts with attempts. by destruct (_ && _).
  - intros w w'. unfold accept_attempt. destruct (post_gateway url tx w) as [[e|resp] w1]; [done|].
    cbv zeta. destruct (decide _); [done|]. by rewrite Nat.ltb_irrefl, andb_false_r.
Defined.
End drivers.

(** ** The handlers' loops *)

Section handlers.
Context {W : Type} `{Http W} `{!Clock W} `{SerdeJson} `{Gateway W} `{Events W} `{!Server W}.

Definition flip_attempt (tx : Value) (n : nat) (w : W) : attempted W bool :=
  let '(response, w1) := post_gateway CoinFlip.submit_url tx w in
  match response with
  | inl e => Done (Err ("Request failed: " +:+ e)) (emit "error" ("Request failed: " +:+ e) w1)
  | inr (inl e) =>
      Done (Err ("Failed to read response: " +:+ e)) (emit "error" ("Failed to read response: " +:+ e) w1)
  | inr (inr body) =>
      let code := default "" (get_str body "code") in
      let msg := default "" (get_str body "message") in
      if String.eqb code "TRANSACTION_RECEIVED" then
        Done (Ok true) (emit "log" ("Accepted (attempt " +:+ CoinFlip.attempt_text n +:+ ")") w1)
      else if not_ready msg && Nat.ltb n attempts then
        Again (emit "log" ("Not ready (attempt " +:+ CoinFlip.attempt_text n +:+ "), waiting 10s...") w1)
      else Done (Err ("Rejected: " +:+ json_to_string body)) (emit "error" ("Rejected: " +:+ json_to_string body) w1)
  end.

#[export] Instance flip_submitter tx : Submitter (λ left, submit_loop (W:=W) left tx).
Proof.
  refine {| attempt_at := flip_attempt tx |}.
  - intros left w Hleft. cbn [submit_loop].
    replace (S CoinFlip.max_attempts - S left)%nat with (attempts - left)%nat by done. cbv zeta.
    unfold flip_attempt, call_host, mbind at 1, prog_bind at 1.
    destruct (post_gateway CoinFlip.submit_url tx w) as [[e|[e|body]] w1]; rewrite ?abort_task_eq; [done..|].
    cbv zeta. destruct (String.eqb _ _); [done|]. change CoinFlip.max_attempts with attempts.
    destruct (_ && _); [done|]. by rewrite abort_task_eq.
  - intros w w'. unfold flip_attempt.
    destruct (post_gateway CoinFlip.submit_url tx w) as [[e|[e|body]] w1]; [done..|].
    cbv zeta. destruct (String.eqb _ _); [done|]. by rewrite Nat.ltb_irrefl, andb_false_r.
Defined.

Definition counter_attempt (tx : Value) (n : nat) (w : W) : attempted W (option string) :=
  match add_invoke_transaction rpc tx w with
  | (Ok h, w1) => Done (Ok (Some h)) (emit "log" ("RPC accepted (attempt " +:+ round_text n +:+ "): " +:+ h) w1)
  | (Err (JsonRpc msg), w1) =>
      if Nat.ltb n attempts then
        Again (emit "log" ("RPC error (attempt " +:+ round_text n +:+ "), waiting 10s... (" +:+ msg +:+ ")") w1)
      else let text := "RPC submission failed: " +:+ rpc_error_text (JsonRpc msg) in
        Done (Err text) (emit "error" text w1)
  | (Err e, w1) =>
      let text := "RPC submission failed: " +:+ rpc_error_text e in Done (Err text) (emit "error" text w1)
  | (Panic m, w1) => Done (Panic m) w1
  | (OutOfFuel, w1) => Done OutOfFuel w1
  end.

#[export] Instance counter_submitter tx : Submitter (λ left, rpc_submit_loop (W:=W) left tx).
Proof.
  refine {| attempt_at := counter_attempt tx |}.
  - intros left w Hleft. cbn [rpc_submit_loop].
    replace (S rpc_attempts - S left)%nat with (attempts - left)%nat by done. cbv zeta.
    unfold counter_attempt, attempt, mbind at 1, prog_bind at 1.
    destruct (add_invoke_transaction rpc tx w) as [[h|e|m|] w1]; [done| |done|done].
    change rpc_attempts with attempts.
    destruct e; rewrite ?abort_task_eq; try done. destruct (_ <? _)%nat; [done|]. by rewrite abort_task_eq.
  - intros w w'. unfold counter_attempt.
    destruct (add_invoke_transaction rpc tx w) as [[h|e|m|] w1]; [done| |done|done].
    rewrite Nat.ltb_irrefl. by destruct e.
Defined.
End handlers.

(** ** Liveness of the gateway loops *)

(** A gateway that asks for patience before [T] and accepts from then on. *)
Definition gateway_opens {W} `{Clock W} `{Gateway W} (T : Z) (url : string) (tx : Value) : Prop :=
  ∀ w, ∃ body w1, post_gateway url tx w = (inr (inr body), w1) ∧
    if now w <? T
    then default "" (get_str body "code") ≠ "TRANSACTION_RECEIVED" ∧
         gateway_not_ready (default "" (get_str body "message")) = true
    else default "" (get_str body "code") = "TRANSACTION_RECEIVED".

(** What prints or asks the gateway does not turn the clock back. *)
Class SteadyClock (W : Type) `{Clock W} `{Gateway W} `{Events W} `{Statics W} `{Console W} := {
  steady_gateway url v w : now w ≤ now (post_gateway url v w).2;
  steady_emit kind text w : now w ≤ now (emit kind text w);
  steady_info text w : now w ≤ now (trace_info text w);
}.

Section live.
Context {W : Type} `{Http W} `{!Clock W} `{!ClockLaws W} `{SerdeJson} `{FeltOps} `{!Crypto} `{Env W}.
Context `{Process W} `{Files W} `{Random W} `{Gateway W} `{Events W} `{!Server W}.
Context `{Statics W} `{Console W} `{DriverHost W} `{!SteadyClock W}.

Ltac open_gateway Hopen w T :=
  pose proof (Hopen w) as (body & w1 & Hpost & Hbody);
  match type of Hpost with
  | post_gateway ?u ?v _ = _ =>
      pose proof (steady_gateway u v w) as Hg; rewrite Hpost in Hg; rewrite Hpost; cbn [snd] in Hg
  end;
  destruct (Z.ltb_spec (now w) T) as [Hlt|Hge].

Lemma gateway_ready T url tx h : gateway_opens T url tx →
  ready_at (λ left, gateway_loop (W:=W) left url tx h) T (λ r, r = Ok (Some h)).
Proof.
  intros Hopen n w Hn. cbn. unfold driver_attempt, gateway_round. open_gateway Hopen w T; unfold gateway_reply; cbv zeta.
  - destruct Hbody as [Hc Hm]. rewrite decide_False, Hm by done.
    rewrite (proj2 (Nat.ltb_lt n Driver.max_attempts)) by (destruct Hn; [done|lia]). cbn.
    set (line := ("  Attempt " +:+ _)%string). pose proof (steady_info line w1). lia.
  - by rewrite decide_True.
Qed.

Lemma accept_ready T url tx : gateway_opens T url tx →
  ready_at (λ left, accept_loop (W:=W) left url tx) T (λ r, r = Ok true).
Proof.
  intros Hopen n w Hn. cbn. unfold accept_attempt. open_gateway Hopen w T; cbv zeta.
  - destruct Hbody as [Hc Hm]. rewrite decide_False, Hm by done.
    rewrite (proj2 (Nat.ltb_lt n attempts)) by (destruct Hn; [done|lia]). cbn.
    set (line := ("  Attempt " +:+ _)%string). pose proof (steady_info line w1). lia.
  - by rewrite decide_True.
Qed.

Lemma flip_ready T tx : gateway_opens T CoinFlip.submit_url tx →
  ready_at (λ left, submit_loop (W:=W) left tx) T (λ r, r = Ok true).
Proof.
  intros Hopen n w Hn. cbn. unfold flip_attempt. open_gateway Hopen w T; cbv zeta.
  - destruct Hbody as [Hc Hm]. rewrite (proj2 (String.eqb_neq _ _)) by done.
    change (not_ready (default "" (get_str body "message"))) with (gateway_not_ready (default "" (get_str body "message"))).
    rewrite Hm, (proj2 (Nat.ltb_lt n attempts)) by (destruct Hn; [done|lia]). cbn.
    set (line := ("Not ready (attempt " +:+ _)%string). pose proof (steady_emit "log" line w1). lia.
  - by rewrite Hbody, String.eqb_refl.
Qed.

(** C29: A gateway that asks for patience and then opens, at most 190 seconds
    after a submission starts, accepts it, whichever loop submits: the
    drivers' loop ends with the transaction's hash, the settlement driver's
    and the coin flip's with success. *)
Theorem gateway_loops_live T url tx h (w : W) :
  gateway_opens T url tx → gateway_opens T CoinFlip.submit_url tx → T ≤ now w + from_secs 190 →
  (∃ w', gateway_loop attempts url tx h w = (Ok (Some h), w')) ∧
  (∃ w', accept_loop attempts url tx w = (Ok true, w')) ∧
  (∃ w', submit_loop attempts tx w = (Ok true, w')).
Proof.
  intros Hopen Hflip Hnow.
  assert (T ≤ now w + Z.of_nat (attempts - 1) * from_secs 10) as HT by (unfold attempts, from_secs in *; simpl; lia).
  assert (1 ≤ attempts ≤ attempts)%nat as Hle by (unfold attempts; lia).
  split_and!.
  - destruct (loop_live _ T _ attempts w (gateway_ready T url tx h Hopen) Hle HT) as (r & w' & Hr & ->). eauto.
  - destruct (loop_live _ T _ attempts w (accept_ready T url tx Hopen) Hle HT) as (r & w' & Hr & ->). eauto.
  - destruct (loop_live _ T _ attempts w (flip_ready T tx Hflip) Hle HT) as (r & w' & Hr & ->). eauto.
Qed.
End live.
