(* ===== verification/Selectors.v ===== *)
(** * Entry-point selectors

    A Cairo contract's entry point is called by its selector, the Keccak-256
    hash of the function's name without its upper six bits.  The selectors are
    constants of the Rust code; the functions are those of
    [tests/contracts/src/lib.cairo] and of the STRK token.  Keccak is executable
    here, on lanes of 64 bits, so the constants can be computed. *)

From S2P Require Import Prelude RustNum RustStr Types Counter CoinFlip CoinFlipE2e MessagesE2e.

(** ** Keccak-f[1600] *)

Definition lane_mask : Z := 2 ^ 64 - 1.

Definition rotl (x n : Z) : Z :=
  Z.lor (Z.land (Z.shiftl x n) lane_mask) (Z.shiftr x (64 - n)).

Definition lane (a : list Z) (i : nat) : Z := nth i a 0.

(** The lane in column [x] and row [y] is at [x + 5 * y]. *)
Definition rotation_offsets : list Z :=
  [ 0;  1; 62; 28; 27;
   36; 44;  6; 55; 20;
    3; 10; 43; 25; 39;
   41; 45; 15; 21;  8;
   18;  2; 61; 56; 14].

Definition round_constants : list Z :=
  [0x0000000000000001; 0x0000000000008082; 0x800000000000808a; 0x8000000080008000;
   0x000000000000808b; 0x0000000080000001; 0x8000000080008081; 0x8000000000008009;
   0x000000000000008a; 0x0000000000000088; 0x0000000080008009; 0x000000008000000a;
   0x000000008000808b; 0x800000000000008b; 0x8000000000008089; 0x8000000000008003;
   0x8000000000008002; 0x8000000000000080; 0x000000000000800a; 0x800000008000000a;
   0x8000000080008081; 0x8000000000008080; 0x0000000080000001; 0x8000000080008008].

Definition theta (a : list Z) : list Z :=
  let c := (λ x, foldr Z.lxor 0 ((λ y, lane a (x + 5 * y)) <$> seq 0 5)) <$> seq 0 5 in
  let d := (λ x, Z.lxor (lane c ((x + 4) mod 5)) (rotl (lane c ((x + 1) mod 5)) 1)) <$> seq 0 5 in
  imap (λ i v, Z.lxor v (lane d (i mod 5))) a.

(** The lane that moves to [(x, y)] comes from [(x + 3 y, x)]. *)
Definition rho_pi (a : list Z) : list Z :=
  (λ i, let x := (i mod 5)%nat in let y := (i / 5)%nat in
        let from := ((x + 3 * y) mod 5 + 5 * x)%nat in
        rotl (lane a from) (lane rotation_offsets from)) <$> seq 0 25.

Definition chi (a : list Z) : list Z :=
  imap (λ i v, let row := (5 * (i / 5))%nat in let x := (i mod 5)%nat in
    Z.lxor v (Z.ldiff (lane a (row + (x + 2) mod 5)) (lane a (row + (x + 1) mod 5)))) a.

Definition iota (rc : Z) (a : list Z) : list Z :=
  match a with v :: a => Z.lxor v rc :: a | [] => [] end.

Definition keccak_f (a : list Z) : list Z :=
  fold_left (λ a rc, iota rc (chi (rho_pi (theta a)))) round_constants a.

(** ** The sponge

    A name is shorter than the rate of 136 bytes, so one block is absorbed. *)

Definition keccak_rate : nat := 136.

Definition from_le_bytes (l : list Z) : Z := foldr (λ b acc, b + 256 * acc) 0 l.
Definition to_le_bytes (n : nat) (z : Z) : list Z :=
  (λ i, Z.land (Z.shiftr z (8 * Z.of_nat i)) 255) <$> seq 0 n.

Definition name_bytes (s : string) : list Z :=
  (λ c, Z.of_nat (nat_of_ascii c)) <$> String.list_ascii_of_string s.

Definition keccak_pad (msg : list Z) : list Z :=
  let padded := (msg ++ 0x01 :: replicate (keccak_rate - 1 - length msg) 0)%list in
  imap (λ i b, if Nat.eqb i (keccak_rate - 1) then Z.lor b 0x80 else b) padded.

Definition block_lanes (block : list Z) : list Z :=
  (λ i, from_le_bytes (take 8 (drop (8 * i) block))) <$> seq 0 25.

Definition keccak256 (msg : list Z) : list Z :=
  take 32 (mjoin (to_le_bytes 8 <$> take 4 (keccak_f (block_lanes (keccak_pad msg))))).

(** [sn_keccak]: the lower 250 bits. *)
Definition starknet_keccak (name : string) : Z :=
  from_be_bytes (keccak256 (name_bytes name)) mod 2 ^ 250.

(** ** The constants *)

(** The entry point that each constant names; STRK has its balances under two
    names. *)
Definition selector_table : list (string * string) := [
  ("increment", Counter.INCREMENT_SELECTOR);
  ("get_counter", Counter.GET_COUNTER_SELECTOR);
  ("send_message", MessagesE2e.SEND_MESSAGE_SELECTOR);
  ("play", CoinFlip.PLAY_SELECTOR);
  ("play", CoinFlipE2e.PLAY_SELECTOR);
  ("get_balance", CoinFlip.get_balance_selector);
  ("balanceOf", CoinFlip.balance_of_selector);
  ("balance_of", Types.BALANCE_OF_SELECTOR)].

(** Every selector that the programs write is the selector of the function
    they mean: the hexadecimal text, without leading zeros, of the
    Keccak-256 hash of its name modulo 2^250. *)
Theorem selectors_named : Forall (λ entry, entry.2 = fmt_hex (starknet_keccak entry.1)) selector_table.
Proof. repeat constructor; vm_compute; reflexivity. Qed.
