(* ===== verification/Contracts.v ===== *)
(** * The Cairo contracts ([tests/contracts/src/lib.cairo])

    The contracts that the Rust programs deploy, call and prove: the counter,
    the messenger, the coin flip and its bank.  A call is a [prog] over the
    contract's state, in which a panic is an error; a transaction whose call
    panics is reverted ([transact]).  A felt is added modulo the prime, a
    [u256] is an integer below 2^256 whose operations panic when they leave
    that range, and a [Map] reads zero where nothing was written.

    Outside of the file are the token, seen through [ERC20] with the behaviour
    of STRK that the bank relies on in [ERC20Laws], and the system call that
    sends a message ([L1Syscall]).  The entry points that Cairo generates from
    the interfaces are [decode_u256], [decode_span], [counter_entry],
    [messenger_entry], [game_entry] and the bank's [decode_call]: the felts of
    the calldata, in order, and nothing after them. *)

From S2P Require Import Prelude RustNum Felt Selectors.

(** ** The runtime *)

Definition u256_max : Z := 2 ^ 256 - 1.
Definition u128_base : Z := 2 ^ 128.

(** The token's calls with their caller; a call that panics is an error and
    reverts the whole transaction. *)
Class ERC20 (T : Type) `{FeltOps} := {
  transfer_from : Felt → Felt → Felt → Z → T → res string (bool * T);
  transfer : Felt → Felt → Z → T → res string (bool * T);
  balance_of : T → Felt → Z;
  allowance : T → Felt → Felt → Z;
}.

Definition moved `{ERC20 T} (sender recipient : Felt) (amount : Z) (t t' : T) : Prop :=
  amount ≤ balance_of t sender ∧
  balance_of t' sender = balance_of t sender - (if decide (sender = recipient) then 0 else amount) ∧
  balance_of t' recipient = balance_of t recipient + (if decide (sender = recipient) then 0 else amount) ∧
  (∀ a, a ≠ sender → a ≠ recipient → balance_of t' a = balance_of t a).

(** A call of STRK that returns moved the amount between two accounts that are
    not zero and returned true; a covered transfer to such an account returns,
    and so does a covered transfer that was allowed. *)
Class ERC20Laws (T : Type) `{ERC20 T} := {
  balance_range t a : 0 ≤ balance_of t a ≤ u256_max;
  transfer_moves caller recipient amount t b t' : 0 ≤ amount →
    transfer caller recipient amount t = Ok (b, t') →
    b = true ∧ felt_val caller ≠ 0 ∧ felt_val recipient ≠ 0 ∧ moved caller recipient amount t t';
  transfer_covered caller recipient amount t : 0 ≤ amount →
    felt_val caller ≠ 0 → felt_val recipient ≠ 0 → amount ≤ balance_of t caller →
    ∃ r, transfer caller recipient amount t = Ok r;
  transfer_from_moves caller sender recipient amount t b t' : 0 ≤ amount →
    transfer_from caller sender recipient amount t = Ok (b, t') →
    b = true ∧ felt_val sender ≠ 0 ∧ felt_val recipient ≠ 0 ∧ moved sender recipient amount t t' ∧
    amount ≤ allowance t sender caller ∧
    allowance t sender caller - amount ≤ allowance t' sender caller;
  transfer_from_covered caller sender recipient amount t : 0 ≤ amount →
    felt_val caller ≠ 0 → felt_val sender ≠ 0 → felt_val recipient ≠ 0 →
    amount ≤ balance_of t sender → amount ≤ allowance t sender caller →
    ∃ r, transfer_from caller sender recipient amount t = Ok r;
}.

(** [send_message_to_l1_syscall(to_address, payload).unwrap()]. *)
Class L1Syscall `{FeltOps} := {
  send_message_to_l1_syscall : Felt → list Felt → res string unit;
}.

(** A message of a contract: receiver and payload. *)
Record L1Message `{FeltOps} := { to_address : Felt; payload : list Felt }.

Section runtime.
Context {S : Type}.

(** [assert(cond, message)]. *)
Definition assert (cond : bool) (message : string) : prog S string unit :=
  if cond then mret tt else throw message.

(** A transaction's call: a panic leaves the state as it was. *)
Definition transact {A} (call : prog S string A) (s : S) : S :=
  match call s with (Ok _, s') => s' | _ => s end.
End runtime.

Section calldata.
Context `{FeltOps}.

Definition too_long : string := "Input too long for arguments".
Definition bad_param : string := "Failed to deserialize param".

Definition decode_u256 (low high : Felt) : res string Z :=
  if (felt_val low <? u128_base) && (felt_val high <? u128_base)
  then Ok (felt_val low + u128_base * felt_val high) else Err bad_param.

(** A [Span] and the end of the calldata. *)
Definition decode_span (l : list Felt) : res string (list Felt) :=
  match l with
  | [] => Err bad_param
  | n :: rest =>
      if felt_val n =? Z.of_nat (length rest) then Ok rest
      else if felt_val n <? Z.of_nat (length rest) then Err too_long else Err bad_param
  end.

(** The selector of an entry point. *)
Definition selector (name : string) : Felt := felt_of (starknet_keccak name).
Definition no_entry : string := "ENTRYPOINT_NOT_FOUND".
End calldata.

(** ** The counter *)

Module CounterContract.
Section counter.
Context `{FeltOps}.

Definition increment (amount : Felt) : prog Felt string unit := modify (λ counter, felt_add counter amount).
Definition get_counter (counter : Felt) : Felt := counter.

Definition counter_entry (sel : Felt) (calldata : list Felt) : prog Felt string unit :=
  if decide (sel = selector "increment") then
    match calldata with
    | [amount] => increment amount
    | [] => throw bad_param
    | _ => throw too_long
    end
  else throw no_entry.
End counter.
End CounterContract.

(** ** The messenger *)

Module Messenger.
Section messenger.
Context `{L1Syscall}.

(** The state is the list of the messages that were sent. *)
Definition send_message (to_address : Felt) (payload : list Felt) : prog (list L1Message) string unit :=
  lift (send_message_to_l1_syscall to_address payload);;
  modify (λ sent, (sent ++ [{| to_address := to_address; payload := payload |}])%list).

Definition messenger_entry (sel : Felt) (calldata : list Felt) : prog (list L1Message) string unit :=
  if decide (sel = selector "send_message") then
    match calldata with
    | to :: rest => payload ← lift (decode_span rest); send_message to payload
    | [] => throw bad_param
    end
  else throw no_entry.
End messenger.
End Messenger.

(** ** The coin flip *)

Module CoinFlipGame.
Section game.
Context `{FeltOps} `{!Crypto} `{!L1Syscall}.

Definition SETTLEMENT_ADDRESS : Felt := felt_of 1.

(** [hash_u256.low % 2] of the Pedersen hash. *)
Definition outcome (seed player : Felt) : Felt :=
  let hash := pedersen_hash seed player in
  let low := felt_val hash mod u128_base in
  if low mod 2 =? 0 then felt_of 0 else felt_of 1.

Definition won (seed player bet : Felt) : Felt :=
  if decide (outcome seed player = bet) then felt_of 1 else felt_of 0.

Definition play (seed player bet : Felt) : prog (list L1Message) string unit :=
  Messenger.send_message SETTLEMENT_ADDRESS [player; seed; bet; outcome seed player; won seed player bet].

Definition game_entry (sel : Felt) (calldata : list Felt) : prog (list L1Message) string unit :=
  if decide (sel = selector "play") then
    match calldata with
    | [seed; player; bet] => play seed player bet
    | _ :: _ :: _ :: _ :: _ => throw too_long
    | _ => throw bad_param
    end
  else throw no_entry.
End game.
End CoinFlipGame.

(** ** The bank *)

Module CoinFlipBank.

Definition STATE_EMPTY : Z := 0.
Definition STATE_DEPOSITED : Z := 1.
Definition STATE_MATCHED : Z := 2.
Definition STATE_SETTLED : Z := 3.

Record Storage `{FeltOps} := {
  owner : Felt;
  game_player : gmap Felt Felt;
  game_amount : gmap Felt Z;
  game_seed : gmap Felt Felt;
  game_bet : gmap Felt Felt;
  game_state : gmap Felt Z;
  player_balance : gmap Felt Z;
}.

(** The bank's storage and the token's state: what a transaction changes. *)
Record State (T : Type) `{FeltOps} := { storage : Storage; token : T }.
#[global] Arguments storage {T _} _.
#[global] Arguments token {T _} _.

Section bank.
Context `{FeltOps} `{!Crypto} {T : Type} `{!ERC20 T}.

(** Reads of a [Map]. *)
Definition read_felt (m : gmap Felt Felt) (k : Felt) : Felt := default (felt_of 0) (m !! k).
Definition read_int (m : gmap Felt Z) (k : Felt) : Z := default 0 (m !! k).

Definition on_storage (f : Storage → Storage) : prog (State T) string unit :=
  modify (λ s, {| storage := f (storage s); token := token s |}).

(** A call of the token's dispatcher, whose result the bank ignores. *)
Definition strk (call : T → res string (bool * T)) : prog (State T) string unit := λ s,
  match call (token s) with
  | Ok (_, t) => (Ok tt, {| storage := storage s; token := t |})
  | Err e => (Err e, s)
  | Panic e => (Panic e, s)
  | OutOfFuel => (OutOfFuel, s)
  end.

Definition constructor (owner : Felt) : Storage := {|
  owner := owner; game_player := ∅; game_amount := ∅; game_seed := ∅; game_bet := ∅;
  game_state := ∅; player_balance := ∅ |}.

Definition record_game (session_id caller : Felt) (bet_amount : Z) (seed bet : Felt) (s : Storage)
    : Storage := {|
  owner := owner s;
  game_player := <[session_id := caller]> (game_player s);
  game_amount := <[session_id := bet_amount]> (game_amount s);
  game_seed := <[session_id := seed]> (game_seed s);
  game_bet := <[session_id := bet]> (game_bet s);
  game_state := <[session_id := STATE_DEPOSITED]> (game_state s);
  player_balance := player_balance s |}.

Definition set_state (session_id : Felt) (state : Z) (s : Storage) : Storage := {|
  owner := owner s; game_player := game_player s; game_amount := game_amount s;
  game_seed := game_seed s; game_bet := game_bet s;
  game_state := <[session_id := state]> (game_state s); player_balance := player_balance s |}.

Definition set_balance (player : Felt) (balance : Z) (s : Storage) : Storage := {|
  owner := owner s; game_player := game_player s; game_amount := game_amount s;
  game_seed := game_seed s; game_bet := game_bet s;
  game_state := game_state s; player_balance := <[player := balance]> (player_balance s) |}.

(** [this] is the bank's address, [caller] the address that called. *)
Context (this : Felt).

Definition deposit (caller session_id : Felt) (bet_amount : Z) (seed bet : Felt)
    : prog (State T) string unit :=
  assert (0 <? bet_amount) "Amount must be > 0";;
  s ← reads storage;
  assert (read_int (game_state s) session_id =? STATE_EMPTY) "Session already exists";;
  strk (transfer_from this caller this bet_amount);;
  on_storage (record_game session_id caller bet_amount seed bet).

Definition match_deposit (caller session_id : Felt) : prog (State T) string unit :=
  s ← reads storage;
  assert (bool_decide (caller = owner s)) "Only owner";;
  assert (read_int (game_state s) session_id =? STATE_DEPOSITED) "Not deposited";;
  strk (transfer_from this caller this (read_int (game_amount s) session_id));;
  on_storage (set_state session_id STATE_MATCHED).

(** [amount * 2] on u256. *)
Definition double (amount : Z) : res string Z :=
  if amount * 2 <=? u256_max then Ok (amount * 2) else Err "u256_mul Overflow".

(** Who is paid: the player of a bet that the seed makes a win, else the
    owner. *)
Definition payee (s : Storage) (session_id seed : Felt) : Felt :=
  let player := read_felt (game_player s) session_id in
  if decide (CoinFlipGame.outcome seed player = read_felt (game_bet s) session_id)
  then player else owner s.

Definition settle (caller session_id seed : Felt) : prog (State T) string unit :=
  s ← reads storage;
  assert (bool_decide (caller = owner s)) "Only owner";;
  assert (read_int (game_state s) session_id =? STATE_MATCHED) "Not matched";;
  payout ← lift (double (read_int (game_amount s) session_id));
  strk (transfer this (payee s session_id seed) payout);;
  on_storage (set_state session_id STATE_SETTLED).

Definition withdraw (caller : Felt) : prog (State T) string unit :=
  s ← reads storage;
  let balance := read_int (player_balance s) caller in
  assert (0 <? balance) "Nothing to withdraw";;
  on_storage (set_balance caller 0);;
  strk (transfer this caller balance).

Definition get_game (s : Storage) (session_id : Felt) : Felt * Z * Felt * Felt * Z :=
  (read_felt (game_player s) session_id, read_int (game_amount s) session_id,
   read_felt (game_seed s) session_id, read_felt (game_bet s) session_id,
   read_int (game_state s) session_id).

Definition get_balance (s : Storage) (player : Felt) : Z := read_int (player_balance s) player.

(** ** The entry points that change the state *)

Inductive call :=
  | Deposit (session_id : Felt) (bet_amount : Z) (seed bet : Felt)
  | MatchDeposit (session_id : Felt)
  | Settle (session_id seed : Felt)
  | Withdraw.

Definition run (caller : Felt) (c : call) : prog (State T) string unit :=
  match c with
  | Deposit session_id bet_amount seed bet => deposit caller session_id bet_amount seed bet
  | MatchDeposit session_id => match_deposit caller session_id
  | Settle session_id seed => settle caller session_id seed
  | Withdraw => withdraw caller
  end.

(** The call that the entry point of the given name makes of its calldata. *)
Definition decode_call (name : string) (calldata : list Felt) : res string call :=
  if decide (name = "deposit") then
    match calldata with
    | [session_id; low; high; seed; bet] =>
        bet_amount ← decode_u256 low high; Ok (Deposit session_id bet_amount seed bet)
    | _ :: _ :: _ :: _ :: _ :: _ => Err too_long
    | _ => Err bad_param
    end
  else if decide (name = "match_deposit") then
    match calldata with
    | [session_id] => Ok (MatchDeposit session_id)
    | [] => Err bad_param
    | _ => Err too_long
    end
  else if decide (name = "settle") then
    match calldata with
    | [session_id; seed] => Ok (Settle session_id seed)
    | _ :: _ :: _ => Err too_long
    | _ => Err bad_param
    end
  else if decide (name = "withdraw") then
    match calldata with [] => Ok Withdraw | _ => Err too_long end
  else Err no_entry.

(** The session that a call is about. *)
Definition call_session (c : call) : option Felt :=
  match c with
  | Deposit session_id _ _ _ | MatchDeposit session_id | Settle session_id _ => Some session_id
  | Withdraw => None
  end.
End bank.
End CoinFlipBank.
