(* ===== verification/Bank.v ===== *)
(** * The bank of the coin flip

    What [CoinFlipBank] of Contracts.v guarantees whatever is called, by whom,
    and whatever else moves the token: its books balance, a session goes
    through its states once, and a matched game can always be settled.  The
    contract is a transition system: a step is a call that did not panic, or
    a movement of the token that does not take from the bank, which approves
    nobody. *)

From S2P Require Import Prelude RustNum Felt Contracts.
Import CoinFlipBank.

Section bank_system.
Context `{FeltOps} `{!Crypto} {T : Type} `{!ERC20 T}.

(** [this] is the bank, which calls only the token; [o] is the owner given to
    its constructor and [t0] the token when it was deployed. *)
Context (this o : Felt) (t0 : T).

Inductive event :=
  | Called (caller : Felt) (c : call)
  | Received (amount : Z).

Inductive bank_step : State T → event → State T → Prop :=
  | step_call caller c s s' :
      caller ≠ this → run this caller c s = (Ok tt, s') → bank_step s (Called caller c) s'
  | step_receive amount s t' :
      0 ≤ amount → balance_of t' this = balance_of (token s) this + amount →
      bank_step s (Received amount) {| storage := storage s; token := t' |}.

(** The states that the deployed bank reaches, with what happened. *)
Inductive bank_trace : list event → State T → Prop :=
  | trace_deployed : bank_trace [] {| storage := constructor o; token := t0 |}
  | trace_step tr s e s' : bank_trace tr s → bank_step s e s' → bank_trace (tr ++ [e])%list s'.

(** ** The books *)

(** What the bank holds for a session, in units of its stake. *)
Definition stakes (state : Z) : Z :=
  if state =? STATE_DEPOSITED then 1 else if state =? STATE_MATCHED then 2 else 0.

Definition owed (s : Storage) : Z :=
  gmap_sum (λ session_id state, stakes state * read_int (game_amount s) session_id) (game_state s).

Definition received (tr : list event) : Z :=
  foldr (λ e acc, match e with Received amount => amount + acc | Called _ _ => acc end) 0 tr.

(** ** The life of a session *)

Definition about (session_id : Felt) (e : event) : option (Felt * call) :=
  match e with
  | Called caller c => if decide (call_session c = Some session_id) then Some (caller, c) else None
  | Received _ => None
  end.

Definition session_calls (session_id : Felt) (tr : list event) : list (Felt * call) :=
  omap (about session_id) tr.

(** The calls of a session, and the game that they leave. *)
Inductive game_history (session_id : Felt) : list (Felt * call) → Felt * Z * Felt * Felt * Z → Prop :=
  | history_empty :
      game_history session_id [] (felt_of 0, 0, felt_of 0, felt_of 0, STATE_EMPTY)
  | history_deposited player amount seed bet : 0 < amount →
      game_history session_id [(player, Deposit session_id amount seed bet)]
        (player, amount, seed, bet, STATE_DEPOSITED)
  | history_matched player amount seed bet : 0 < amount →
      game_history session_id
        [(player, Deposit session_id amount seed bet); (o, MatchDeposit session_id)]
        (player, amount, seed, bet, STATE_MATCHED)
  | history_settled player amount seed bet seed' : 0 < amount →
      game_history session_id
        [(player, Deposit session_id amount seed bet); (o, MatchDeposit session_id);
         (o, Settle session_id seed')]
        (player, amount, seed, bet, STATE_SETTLED).
End bank_system.

Ltac states := unfold STATE_EMPTY, STATE_DEPOSITED, STATE_MATCHED, STATE_SETTLED in *; lia.

Section bank_facts.
Context `{FeltOps} `{!Crypto} {T : Type} `{!ERC20 T}.
Context (this : Felt).

(** ** What a call that returns has done *)

Lemma assert_Ok {S} cond msg (s s' : S) u :
  assert cond msg s = (Ok u, s') ↔ cond = true ∧ s' = s.
Proof. destruct u, cond; unfold assert, throw, mret, prog_ret; naive_solver. Qed.

Lemma strk_Ok (c : T → res string (bool * T)) (s s' : State T) u :
  strk c s = (Ok u, s') ↔ ∃ b t, c (token s) = Ok (b, t) ∧ s' = {| storage := storage s; token := t |}.
Proof. destruct u. unfold strk. destruct (c (token s)) as [[b t]| | |]; naive_solver. Qed.

Lemma deposit_Ok caller session_id amount seed bet (s s' : State T) u :
  deposit this caller session_id amount seed bet s = (Ok u, s') ↔
  0 < amount ∧ read_int (game_state (storage s)) session_id = STATE_EMPTY ∧
  ∃ b t, transfer_from this caller this amount (token s) = Ok (b, t) ∧
    s' = {| storage := record_game session_id caller amount seed bet (storage s); token := t |}.
Proof.
  destruct u. unfold deposit. rewrite prog_bind_Ok. setoid_rewrite assert_Ok. split.
  - intros (? & s1 & [Ha%Z.ltb_lt ->] & Hrun). unfold reads, on_storage, modify in Hrun.
    apply prog_bind_Ok in Hrun as (? & ? & [= <- <-] & Hrun).
    apply prog_bind_Ok in Hrun as (? & ? & [Hs%Z.eqb_eq ->]%assert_Ok & Hrun).
    apply prog_bind_Ok in Hrun as (? & ? & (b & t & Ht & ->)%strk_Ok & [= <-]). eauto 10.
  - intros (Ha & Hs & b & t & Ht & ->). exists tt, s. split; [split; [by apply Z.ltb_lt|done]|].
    unfold reads, on_storage, modify, mbind, prog_bind, assert. rewrite Hs. simpl.
    unfold strk. by rewrite Ht.
Qed.

Lemma match_deposit_Ok caller session_id (s s' : State T) u :
  match_deposit this caller session_id s = (Ok u, s') ↔
  caller = owner (storage s) ∧ read_int (game_state (storage s)) session_id = STATE_DEPOSITED ∧
  ∃ b t, transfer_from this caller this (read_int (game_amount (storage s)) session_id) (token s)
           = Ok (b, t) ∧
    s' = {| storage := set_state session_id STATE_MATCHED (storage s); token := t |}.
Proof.
  destruct u. unfold match_deposit, reads, on_storage, modify. rewrite prog_bind_Ok. split.
  - intros (? & ? & [= <- <-] & Hrun).
    apply prog_bind_Ok in Hrun as (? & ? & [Hc%bool_decide_eq_true ->]%assert_Ok & Hrun).
    apply prog_bind_Ok in Hrun as (? & ? & [Hs%Z.eqb_eq ->]%assert_Ok & Hrun).
    apply prog_bind_Ok in Hrun as (? & ? & (b & t & Ht & ->)%strk_Ok & [= <-]). eauto 10.
  - intros (Hc & Hs & b & t & Ht & ->). exists (storage s), s. split; [done|].
    unfold mbind, prog_bind, assert. rewrite bool_decide_true by done. simpl. rewrite Hs. simpl.
    unfold strk. by rewrite Ht.
Qed.

Lemma settle_Ok caller session_id seed (s s' : State T) u :
  settle this caller session_id seed s = (Ok u, s') ↔
  caller = owner (storage s) ∧ read_int (game_state (storage s)) session_id = STATE_MATCHED ∧
  2 * read_int (game_amount (storage s)) session_id ≤ u256_max ∧
  ∃ b t, transfer this (payee (storage s) session_id seed)
           (2 * read_int (game_amount (storage s)) session_id) (token s) = Ok (b, t) ∧
    s' = {| storage := set_state session_id STATE_SETTLED (storage s); token := t |}.
Proof.
  destruct u. unfold settle, reads, on_storage, modify. rewrite prog_bind_Ok.
  rewrite (Z.mul_comm 2). split.
  - intros (? & ? & [= <- <-] & Hrun).
    apply prog_bind_Ok in Hrun as (? & ? & [Hc%bool_decide_eq_true ->]%assert_Ok & Hrun).
    apply prog_bind_Ok in Hrun as (? & ? & [Hs%Z.eqb_eq ->]%assert_Ok & Hrun).
    apply prog_bind_Ok in Hrun as (p & ? & [Hd ->]%lift_Ok & Hrun). unfold double in Hd.
    destruct (Z.leb_spec (read_int (game_amount (storage s)) session_id * 2) u256_max); [|done].
    injection Hd as <-.
    apply prog_bind_Ok in Hrun as (? & ? & (b & t & Ht & ->)%strk_Ok & [= <-]). eauto 10.
  - intros (Hc & Hs & Hle%Z.leb_le & b & t & Ht & ->). exists (storage s), s. split; [done|].
    unfold mbind, prog_bind, assert, lift, double. rewrite bool_decide_true by done. simpl.
    rewrite Hs. simpl. rewrite Hle. unfold strk. by rewrite Ht.
Qed.

(** ** The books *)

Context `{!ERC20Laws T} (o : Felt) (t0 : T).

Lemma read_int_insert (m : gmap Felt Z) k k' v :
  read_int (<[k := v]> m) k' = if decide (k = k') then v else read_int m k'.
Proof. unfold read_int. rewrite lookup_insert. by destruct (decide (k = k')). Qed.

Lemma read_felt_insert (m : gmap Felt Felt) k k' v :
  read_felt (<[k := v]> m) k' = if decide (k = k') then v else read_felt m k'.
Proof. unfold read_felt. rewrite lookup_insert. by destruct (decide (k = k')). Qed.

Lemma stakes_entry (m : gmap Felt Z) session_id (amount : Z) :
  from_option (λ state, stakes state * amount) 0 (m !! session_id)
  = stakes (read_int m session_id) * amount.
Proof. unfold read_int. by destruct (m !! session_id). Qed.

Lemma owed_set_state s session_id state :
  owed (set_state session_id state s) =
  owed s + (stakes state - stakes (read_int (game_state s) session_id))
           * read_int (game_amount s) session_id.
Proof. unfold owed. simpl. rewrite gmap_sum_insert, stakes_entry. lia. Qed.

Lemma owed_record s session_id caller amount seed bet :
  read_int (game_state s) session_id = STATE_EMPTY →
  owed (record_game session_id caller amount seed bet s) = owed s + amount.
Proof.
  intros Hs. unfold owed. simpl. rewrite gmap_sum_insert.
  rewrite (stakes_entry (game_state s) session_id (read_int (<[session_id:=amount]> _) session_id)).
  rewrite Hs, read_int_insert, decide_True by done.
  rewrite (gmap_sum_ext _ (λ k state, stakes state * read_int (game_amount s) k)); [by unfold stakes; simpl; lia|].
  intros k state Hk. rewrite read_int_insert. destruct (decide (session_id = k)) as [<-|]; [|done].
  unfold read_int in Hs. rewrite Hk in Hs. simpl in Hs. by subst state.
Qed.

Lemma received_app tr tr' : received (tr ++ tr')%list = received tr + received tr'.
Proof. induction tr as [|[] tr IH]; simpl; lia. Qed.

(** ** The invariant *)

Record bank_ok (tr : list event) (s : State T) : Prop := {
  ok_owner : owner (storage s) = o;
  ok_games session_id :
    game_history o session_id (session_calls session_id tr) (get_game (storage s) session_id);
  ok_player session_id : read_int (game_state (storage s)) session_id ≠ STATE_EMPTY →
    read_felt (game_player (storage s)) session_id ≠ this ∧
    felt_val (read_felt (game_player (storage s)) session_id) ≠ 0;
  ok_matched session_id : read_int (game_state (storage s)) session_id = STATE_MATCHED →
    o ≠ this ∧ felt_val o ≠ 0;
  ok_balance : player_balance (storage s) = ∅;
  ok_books : balance_of (token s) this = balance_of t0 this + received tr + owed (storage s);
}.

Lemma bank_ok_deployed : bank_ok [] {| storage := constructor o; token := t0 |}.
Proof.
  split; simpl; try done.
  - intros session_id. apply history_empty.
  - unfold owed. simpl. unfold gmap_sum. rewrite map_fold_empty. lia.
Qed.

Lemma session_calls_app session_id tr e :
  session_calls session_id (tr ++ [e])%list =
  (session_calls session_id tr ++ option_list (about session_id e))%list.
Proof. unfold session_calls. rewrite omap_app. simpl. by destruct (about session_id e). Qed.

(** The state of a game, and what its calls then are. *)
Lemma history_state session_id l p a sd b st :
  game_history o session_id l (p, a, sd, b, st) →
  (st = STATE_EMPTY ∧ l = []) ∨
  (0 < a ∧ st = STATE_DEPOSITED ∧ l = [(p, Deposit session_id a sd b)]) ∨
  (0 < a ∧ st = STATE_MATCHED ∧ l = [(p, Deposit session_id a sd b); (o, MatchDeposit session_id)]) ∨
  (0 < a ∧ st = STATE_SETTLED ∧ ∃ sd', l =
     [(p, Deposit session_id a sd b); (o, MatchDeposit session_id); (o, Settle session_id sd')]).
Proof. inversion 1; subst; eauto 10. Qed.

Lemma session_calls_called session_id tr caller c session_id' :
  call_session c = Some session_id' →
  session_calls session_id (tr ++ [Called caller c])%list =
  (session_calls session_id tr ++ if decide (session_id' = session_id) then [(caller, c)] else [])%list.
Proof.
  intros Hc. rewrite session_calls_app. unfold about. rewrite Hc.
  by destruct (decide (session_id' = session_id)) as [->|];
    [rewrite decide_True|rewrite decide_False by congruence].
Qed.

(** The money that a call brings in or pays out. *)
Lemma paid_in caller sender amount (t t' : T) b : 0 ≤ amount → sender ≠ this →
  transfer_from caller sender this amount t = Ok (b, t') →
  felt_val sender ≠ 0 ∧ balance_of t' this = balance_of t this + amount.
Proof.
  intros Ha Hne (_ & Hs & _ & (_ & _ & Hb & _) & _)%transfer_from_moves; [|done].
  rewrite decide_False in Hb by done. done.
Qed.

Lemma paid_out recipient amount (t t' : T) b : 0 ≤ amount → recipient ≠ this →
  transfer this recipient amount t = Ok (b, t') →
  balance_of t' this = balance_of t this - amount.
Proof.
  intros Ha Hne (_ & _ & _ & (_ & Hb & _))%transfer_moves; [|done].
  by rewrite decide_False in Hb by congruence.
Qed.

Context (tr : list event) (s s' : State T) (caller session_id : Felt) (Hcaller : caller ≠ this).

Lemma bank_ok_deposit amount seed bet u : bank_ok tr s →
  deposit this caller session_id amount seed bet s = (Ok u, s') →
  bank_ok (tr ++ [Called caller (Deposit session_id amount seed bet)]) s'.
Proof.
  intros [Ho Hg Hp Hm Hb Hk] (Ha & Hs & b & t & Ht & ->)%deposit_Ok.
  apply paid_in in Ht as [Hnz Hbal]; [|lia|done].
  split; cbn [storage token owner record_game game_state game_player player_balance]; try done.
  - intros id. rewrite (session_calls_called _ _ _ _ session_id) by done. specialize (Hg id).
    unfold get_game in *. cbn. rewrite !read_int_insert, !read_felt_insert.
    destruct (decide (session_id = id)) as [->|]; [|by rewrite app_nil_r].
    apply history_state in Hg as [[_ ->]|[(_&?&_)|[(_&?&_)|(_&?&_)]]]; [|states..].
    by apply history_deposited.
  - intros id. rewrite read_int_insert, read_felt_insert.
    by destruct (decide (session_id = id)); [|apply Hp].
  - intros id. rewrite read_int_insert. destruct (decide (session_id = id)); [done|apply Hm].
  - rewrite owed_record, received_app, Hbal by done. simpl. lia.
Qed.

(** The two calls that only change a session's state. *)
Lemma game_set_state state id :
  get_game (set_state session_id state (storage s)) id =
  ((get_game (storage s) id).1,
   if decide (session_id = id) then state else (get_game (storage s) id).2).
Proof. unfold get_game. cbn. by rewrite read_int_insert. Qed.

Lemma bank_ok_match u : bank_ok tr s →
  match_deposit this caller session_id s = (Ok u, s') →
  bank_ok (tr ++ [Called caller (MatchDeposit session_id)]) s'.
Proof.
  intros [Ho Hg Hp Hm Hb Hk] (-> & Hs & b & t & Ht & ->)%match_deposit_Ok.
  assert (0 < read_int (game_amount (storage s)) session_id) as Ha.
  { specialize (Hg session_id). apply history_state in Hg as [[? _]|[(?&_)|[(?&_)|(?&_)]]]; [states|done..]. }
  apply paid_in in Ht as [Hnz Hbal]; [|lia|done].
  split; cbn [storage token]; try done.
  - intros id. rewrite (session_calls_called _ _ _ _ session_id), game_set_state by done.
    specialize (Hg id). unfold get_game in *. cbn [fst snd] in *.
    destruct (decide (session_id = id)) as [->|]; [|by rewrite app_nil_r].
    apply history_state in Hg as [[? _]|[(_&_&->)|[(_&?&_)|(_&?&_)]]]; [states| |states..].
    rewrite Ho. by apply history_matched.
  - intros id. cbn. rewrite read_int_insert.
    destruct (decide (session_id = id)) as [->|]; intros ?; apply Hp; [states|done].
  - intros id. cbn. rewrite read_int_insert. destruct (decide (session_id = id)); [|apply Hm].
    intros _. by rewrite <-Ho.
  - rewrite owed_set_state, received_app, Hbal, Hs. cbn. lia.
Qed.

Lemma bank_ok_settle seed u : bank_ok tr s →
  settle this caller session_id seed s = (Ok u, s') →
  bank_ok (tr ++ [Called caller (Settle session_id seed)]) s'.
Proof.
  intros [Ho Hg Hp Hm Hb Hk] (-> & Hs & Hmax & b & t & Ht & ->)%settle_Ok.
  assert (0 < read_int (game_amount (storage s)) session_id) as Ha.
  { specialize (Hg session_id). apply history_state in Hg as [[? _]|[(?&_)|[(?&_)|(?&_)]]]; [states|done..]. }
  apply paid_out in Ht as Hbal; [|lia|].
  2: { unfold payee. destruct (decide _); [|done]. apply Hp. states. }
  split; cbn [storage token]; try done.
  - intros id. rewrite (session_calls_called _ _ _ _ session_id), game_set_state by done.
    specialize (Hg id). unfold get_game in *. cbn [fst snd] in *.
    destruct (decide (session_id = id)) as [->|]; [|by rewrite app_nil_r].
    apply history_state in Hg as [[? _]|[(_&?&_)|[(_&_&->)|(_&?&_)]]]; [states|states| |states].
    rewrite Ho. by apply history_settled.
  - intros id. cbn. rewrite read_int_insert.
    destruct (decide (session_id = id)) as [->|]; intros ?; apply Hp; [states|done].
  - intros id. cbn. rewrite read_int_insert. destruct (decide (session_id = id)); [done|apply Hm].
  - rewrite owed_set_state, received_app, Hbal, Hs. cbn. lia.
Qed.

Lemma withdraw_never who : bank_ok tr s → withdraw this who s = (Err "Nothing to withdraw", s).
Proof. intros [_ _ _ _ Hb _]. unfold withdraw, reads, mbind, prog_bind. by rewrite Hb. Qed.
End bank_facts.

(** ** The claims *)

Section bank_claims.
Context `{FeltOps} `{!Crypto} {T : Type} `{!ERC20 T} `{!ERC20Laws T}.
Context (this o : Felt) (t0 : T).

Lemma bank_trace_ok tr s : bank_trace this o t0 tr s → bank_ok this o t0 tr s.
Proof.
  induction 1 as [|tr s e s' _ IH Hstep]; [apply bank_ok_deployed|].
  destruct Hstep as [caller c s s' Hne Hrun|amount s t' Ha Hbal].
  - destruct c as [id amount seed bet|id|id seed|]; simpl in Hrun.
    + by eapply bank_ok_deposit.
    + by eapply bank_ok_match.
    + by eapply bank_ok_settle.
    + rewrite (withdraw_never this o t0 tr s caller IH) in Hrun. done.
  - destruct IH as [Ho Hg Hp Hm Hb Hk]. split; cbn [storage token]; try done.
    + intros id. rewrite session_calls_app. simpl. by rewrite app_nil_r.
    + rewrite Hbal, received_app, Hk. simpl. lia.
Qed.

Lemma weights_nonneg tr s session_id state :
  bank_ok this o t0 tr s → game_state (storage s) !! session_id = Some state →
  0 ≤ stakes state * read_int (game_amount (storage s)) session_id.
Proof.
  intros Hok Hs. pose proof (ok_games _ _ _ _ _ Hok session_id) as Hg.
  assert (read_int (game_state (storage s)) session_id = state) as Hst
    by (unfold read_int; by rewrite Hs).
  apply history_state in Hg as [[Hg _]|[(?&Hg&_)|[(?&Hg&_)|(?&Hg&_)]]];
    rewrite Hst in Hg; subst state; unfold stakes; simpl; lia.
Qed.

Lemma received_nonneg tr s : bank_trace this o t0 tr s → 0 ≤ received tr.
Proof.
  induction 1 as [|tr s e s' _ IH Hstep]; [done|]. rewrite received_app.
  destruct Hstep; simpl; lia.
Qed.

(** Every game that is owed is covered. *)
Lemma books_cover tr s session_id : bank_trace this o t0 tr s →
  stakes (read_int (game_state (storage s)) session_id)
    * read_int (game_amount (storage s)) session_id ≤ balance_of (token s) this.
Proof.
  intros Htr. pose proof (received_nonneg _ _ Htr) as Hrec. apply bank_trace_ok in Htr as Hok.
  rewrite (ok_books _ _ _ _ _ Hok). pose proof (balance_range t0 this) as [Ht0 _].
  unfold read_int at 1. destruct (game_state (storage s) !! session_id) as [state|] eqn:Hs.
  - simpl. pose proof (gmap_sum_entry _ _ _ _ (λ k a, weights_nonneg tr s k a Hok) Hs) as Hle. simpl in Hle.
    unfold owed. lia.
  - pose proof (gmap_sum_nonneg _ _ (λ k a, weights_nonneg tr s k a Hok)) as Hle. simpl in *.
    unfold owed. change (stakes 0) with 0. lia.
Qed.

Lemma settle_taken tr s session_id seed : felt_val this ≠ 0 → bank_trace this o t0 tr s →
  read_int (game_state (storage s)) session_id = STATE_MATCHED →
  let amount := read_int (game_amount (storage s)) session_id in
  ∃ t', settle this o session_id seed s
          = (Ok tt, {| storage := set_state session_id STATE_SETTLED (storage s); token := t' |}) ∧
    0 < amount ∧ moved this (payee (storage s) session_id seed) (2 * amount) (token s) t'.
Proof.
  intros Hthis Htr Hm amount. pose proof (bank_trace_ok _ _ Htr) as Hok.
  pose proof (books_cover _ _ session_id Htr) as Hcov. rewrite Hm in Hcov.
  change (stakes STATE_MATCHED) with 2 in Hcov. fold amount in Hcov.
  pose proof (balance_range (token s) this) as [_ Hmax].
  destruct (ok_matched _ _ _ _ _ Hok session_id Hm) as [Hne Ho].
  destruct (ok_player _ _ _ _ _ Hok session_id) as [Hpne Hp]; [states|].
  assert (0 < amount) as Ha.
  { pose proof (ok_games _ _ _ _ _ Hok session_id) as Hg.
    apply history_state in Hg as [[? _]|[(?&_)|[(?&_)|(?&_)]]]; [states|done..]. }
  pose proof (ok_owner _ _ _ _ _ Hok) as Hown.
  destruct (transfer_covered this (payee (storage s) session_id seed) (2 * amount) (token s)) as [[b t'] Ht];
    [lia|done| |done|].
  { unfold payee. rewrite Hown. by case_decide. }
  exists t'. split_and!; [|done|].
  - apply settle_Ok. rewrite Hown. split_and!; try done; [lia|]. by exists b, t'.
  - by apply transfer_moves in Ht as (_ & _ & _ & Ht); [|lia].
Qed.

(** C10: The bank's books balance: whatever is called and by whom, what it holds
    is what it held when it was deployed, plus what it was given, plus one
    stake for every deposited and two for every matched game, and nothing
    else; so every game it owes is covered. *)
Theorem bank_books tr s : bank_trace this o t0 tr s →
  balance_of (token s) this = balance_of t0 this + received tr + owed (storage s) ∧
  ∀ session_id, stakes (read_int (game_state (storage s)) session_id)
    * read_int (game_amount (storage s)) session_id ≤ balance_of (token s) this.
Proof.
  intros Htr. split; [by apply bank_trace_ok|]. intros session_id. by eapply books_cover.
Qed.

(** C11: A session's life is one deposit, then one match by the owner, then one
    settlement by the owner, and nothing else: in every reachable state the
    calls about a session that did not panic are the first of these that its
    state counts, and the stored game is the one of the deposit. *)
Theorem session_life tr s session_id : bank_trace this o t0 tr s →
  game_history o session_id (session_calls session_id tr) (get_game (storage s) session_id).
Proof. intros Hok%bank_trace_ok. apply Hok. Qed.

(** C28: A matched game can always be settled, for any seed the owner gives: the
    call returns, pays twice the stake, without overflow, to the player when
    that seed makes the bet a win and to the owner when not, and leaves the
    game settled. The seed that was stored with the deposit plays no part. *)
Theorem settle_pays tr s session_id seed : felt_val this ≠ 0 → bank_trace this o t0 tr s →
  read_int (game_state (storage s)) session_id = STATE_MATCHED →
  let '(player, amount, _, bet, _) := get_game (storage s) session_id in
  ∃ t', settle this o session_id seed s
          = (Ok tt, {| storage := set_state session_id STATE_SETTLED (storage s); token := t' |}) ∧
    0 < amount ∧
    moved this (if decide (CoinFlipGame.outcome seed player = bet) then player else o)
      (2 * amount) (token s) t'.
Proof.
  intros Hthis Htr Hm. destruct (settle_taken tr s session_id seed Hthis Htr Hm) as (t' & Hs & Ha & Hmv).
  exists t'. split_and!; [done|done|]. unfold payee in Hmv.
  by rewrite (ok_owner _ _ _ _ _ (bank_trace_ok _ _ Htr)) in Hmv.
Qed.

(** C39: Nothing can ever be withdrawn: every withdrawal, by anyone and in every
    reachable state, panics, because no call credits a player. *)
Theorem withdraw_panics tr s caller : bank_trace this o t0 tr s →
  withdraw this caller s = (Err "Nothing to withdraw", s) ∧ get_balance (storage s) caller = 0.
Proof.
  intros Hok%bank_trace_ok. split; [by eapply withdraw_never|].
  unfold get_balance. by rewrite (ok_balance _ _ _ _ _ Hok).
Qed.
End bank_claims.
