(* ===== verification/OnChain.v ===== *)
(** * The programs against the contracts

    The Rust programs write calldata, as hexadecimal texts, for contracts whose
    source is [tests/contracts/src/lib.cairo], and read back what these did.
    Here both sides meet: an account executes the calldata ([execute]) on the
    contracts of Contracts.v, and the texts that sncast is given are parsed into
    the bank's calls. *)

From S2P Require Import Prelude RustNum RustStr Json Felt Types Signing.
From S2P Require Import Config Rpc Host Submission CoinFlipState Counter CoinFlip Driver DriverFacts.
From S2P Require Import CounterE2e MessagesE2e CoinFlipE2e Selectors Contracts.

(** ** Contracts at addresses *)

Inductive instance `{FeltOps} :=
  | CounterAt (counter : Felt)
  | MessengerAt
  | CoinFlipAt.

(** The contracts, and the messages that were sent, with their senders. *)
Record Chain `{FeltOps} := { contracts : gmap Felt instance; sent : list (Felt * L1Message) }.

Section chain.
Context `{FeltOps} `{!Crypto} `{!L1Syscall}.

(** A contract without a state of its own, run for the messages it sends. *)
Definition sending (from : Felt) (m : prog (list L1Message) string unit) : prog Chain string unit := λ ch,
  match m [] with
  | (Ok _, ms) => (Ok tt, {| contracts := contracts ch; sent := (sent ch ++ ((from,.) <$> ms))%list |})
  | (Err e, _) => (Err e, ch)
  | (Panic e, _) => (Panic e, ch)
  | (OutOfFuel, _) => (OutOfFuel, ch)
  end.

Definition counting (at_ counter : Felt) (m : prog Felt string unit) : prog Chain string unit := λ ch,
  match m counter with
  | (Ok _, counter) =>
      (Ok tt, {| contracts := <[at_ := CounterAt counter]> (contracts ch); sent := sent ch |})
  | (Err e, _) => (Err e, ch)
  | (Panic e, _) => (Panic e, ch)
  | (OutOfFuel, _) => (OutOfFuel, ch)
  end.

Definition call_contract (to sel : Felt) (calldata : list Felt) : prog Chain string unit :=
  ch ← reads id;
  match contracts ch !! to with
  | Some (CounterAt counter) => counting to counter (CounterContract.counter_entry sel calldata)
  | Some MessengerAt => sending to (Messenger.messenger_entry sel calldata)
  | Some CoinFlipAt => sending to (CoinFlipGame.game_entry sel calldata)
  | None => throw "Contract not deployed"
  end.

(** [__execute__] of an account, for calldata as it is transmitted. *)
Definition execute (calldata : list Felt) : prog Chain string unit :=
  calls ← lift (ok_or (decode_execute calldata) bad_param);
  for_each (λ c, call_contract c.1.1 c.1.2 c.2) calls;;
  mret tt.
End chain.

Section chain_facts.
Context `{FeltLaws} `{!Crypto} `{!L1Syscall}.

(** ** Selectors *)

Lemma keccak_range name : 0 ≤ starknet_keccak name < stark_prime.
Proof.
  unfold starknet_keccak. pose proof (Z.mod_pos_bound (from_be_bytes (keccak256 (name_bytes name))) (2 ^ 250)).
  assert (2 ^ 250 < stark_prime) by done. lia.
Qed.

Lemma parse_selector name text : text = fmt_hex (starknet_keccak name) →
  felt_from_hex text = Ok (selector name).
Proof. intros ->. apply felt_from_hex_fmt, keccak_range. Qed.

(** ** The account *)

Lemma execute_eq calls fs : Z.of_nat (length calls) ≤ u64_max → Forall call_fits calls →
  Forall2 parsed_call calls fs →
  ∃ calldata, collect_res felt_from_hex (encode_account_calls calls) = Ok calldata ∧
    ∀ ch, execute calldata ch = (for_each (λ c, call_contract c.1.1 c.1.2 c.2) fs;; mret tt) ch.
Proof.
  intros Hlen Hfit Hfs. exists (execute_felts fs). split; [apply execute_calls; eauto|].
  intros ch. unfold execute. by rewrite (decode_execute_felts calls fs).
Qed.

Lemma execute_one to sel data t sl d : Z.of_nat (length data) ≤ u64_max →
  felt_from_hex to = Ok t → felt_from_hex sel = Ok sl → collect_res felt_from_hex data = Ok d →
  ∃ calldata, collect_res felt_from_hex (encode_account_calls [(to, sel, data)]) = Ok calldata ∧
    ∀ ch ch', call_contract t sl d ch = (Ok tt, ch') → execute calldata ch = (Ok tt, ch').
Proof.
  intros Hfit Ht Hsl Hd. destruct (execute_eq [(to, sel, data)] [(t, sl, d)]) as (cd & Hcd & He);
    [done|by repeat constructor|by repeat constructor|].
  exists cd. split; [done|]. intros ch ch' Hc. rewrite He. cbn.
  unfold mbind, prog_bind. cbn. by rewrite Hc.
Qed.

(** ** The outcome *)

Lemma felt_of_bit : felt_val (felt_of 0) = 0 ∧ felt_val (felt_of 1) = 1.
Proof. split; by apply felt_of_small. Qed.

Lemma last_byte n z : nth n (to_be_bytes (S n) z) 0 = z mod 256.
Proof.
  cbn [to_be_bytes]. rewrite app_nth2; rewrite length_to_be_bytes; [|lia].
  by rewrite Nat.sub_diag.
Qed.

(** The low bit of the last byte is the low bit of the lower half. *)
Lemma flip_outcome_eq seed player :
  felt_val (CoinFlipGame.outcome seed player) = flip_outcome seed player.
Proof.
  unfold CoinFlipGame.outcome, flip_outcome. rewrite felt_to_bytes_be_val, last_byte.
  set (v := felt_val (pedersen_hash seed player)). cbv zeta.
  rewrite (Z.land_ones _ 1 ltac:(done) : Z.land _ 1 = _). change (2 ^ 1) with 2.
  assert ((v mod u128_base) mod 2 = v mod 2) as ->.
  { change u128_base with (2 * 2 ^ 127). rewrite Z.rem_mul_r, Z.add_mod, Z.mul_mod by done. simpl.
    rewrite Z.add_0_r, !Z.mod_mod by done. done. }
  assert (v mod 256 mod 2 = v mod 2) as ->.
  { change 256 with (2 * 128). rewrite Z.rem_mul_r by done. rewrite Z.mul_comm, Z_mod_plus_full.
    by rewrite Z.mod_mod. }
  destruct felt_of_bit as [E0 E1]. pose proof (Z.mod_pos_bound v 2).
  destruct (Z.eqb_spec (v mod 2) 0) as [->|]; [done|]. rewrite E1. lia.
Qed.

Lemma outcome_bit seed player :
  (CoinFlipGame.outcome seed player = felt_of 0 ∧ flip_outcome seed player = 0) ∨
  (CoinFlipGame.outcome seed player = felt_of 1 ∧ flip_outcome seed player = 1).
Proof.
  rewrite <-flip_outcome_eq. destruct felt_of_bit as [E0 E1]. unfold CoinFlipGame.outcome.
  destruct (_ =? 0); eauto.
Qed.

(** A bet of the programs, 0 or 1, wins exactly when it is the outcome. *)
Lemma outcome_is_bet seed player bet : bet ∈ [0; 1] →
  CoinFlipGame.outcome seed player = felt_of bet ↔ flip_outcome seed player = bet.
Proof.
  intros Hbet. destruct felt_of_bit as [E0 E1]. rewrite <-flip_outcome_eq.
  assert (felt_val (felt_of bet) = bet) as Ev.
  { rewrite !elem_of_cons, elem_of_nil in Hbet. by destruct Hbet as [->|[->|[]]]. }
  split; [by intros ->|]. intros Hv. apply felt_val_inj. congruence.
Qed.

(** ** The coin flip *)

(** The message that the game sends for a play. *)
Definition play_message (game seed player bet : Felt) : Felt * L1Message :=
  (game, {| to_address := CoinFlipGame.SETTLEMENT_ADDRESS;
            payload := [player; seed; bet; CoinFlipGame.outcome seed player;
                        CoinFlipGame.won seed player bet] |}).

(** A document that lists the payloads of messages as hexadecimal texts: what
    the prover's command writes next to a proof. *)
Definition reports (messages_json : Value) (ms : list (Felt * L1Message)) : Prop :=
  ∃ docs, get messages_json "l2_to_l1_messages" = Some (JArray docs) ∧
    Forall2 (λ m doc, get doc "payload" = Some (json_strings (felt_hex <$> payload m.2))) ms docs.

Lemma play_selector : felt_from_hex CoinFlipE2e.PLAY_SELECTOR = Ok (selector "play").
Proof. apply parse_selector. by vm_compute. Qed.

Lemma play_calldata_eq game seed player bet :
  CoinFlipE2e.play_calldata game seed player bet =
  encode_account_calls [(game, CoinFlipE2e.PLAY_SELECTOR, [seed; player; bet])].
Proof. done. Qed.

Lemma call_play game seed player bet ch :
  contracts ch !! game = Some CoinFlipAt →
  (∀ p, send_message_to_l1_syscall CoinFlipGame.SETTLEMENT_ADDRESS p = Ok tt) →
  call_contract game (selector "play") [seed; player; bet] ch =
  (Ok tt, {| contracts := contracts ch; sent := (sent ch ++ [play_message game seed player bet])%list |}).
Proof.
  intros Hat Hsys. unfold call_contract, mbind, prog_bind, reads, id. rewrite Hat.
  unfold sending, CoinFlipGame.game_entry. rewrite decide_True by done.
  unfold CoinFlipGame.play, Messenger.send_message, lift, modify, mbind, prog_bind. by rewrite Hsys.
Qed.

(** What both readers of the document make of the game's message. *)
Lemma play_reported game seed player bet messages_json : bet ∈ [0; 1] →
  reports messages_json [play_message game seed player (felt_of bet)] →
  let outcome := flip_outcome seed player in
  settlement_agrees (outcome, flip_won outcome bet) messages_json ∧
  parse_settlement messages_json = Some (face outcome, bool_decide (outcome = bet)).
Proof.
  intros Hbet (docs & Hdocs & (doc & ? & Hdoc & ->%Forall2_nil_inv_l & ->)%Forall2_cons_inv_l).
  cbn zeta. cbn [payload play_message snd fmap list_fmap] in Hdoc.
  set (fields := [felt_hex player; felt_hex seed; felt_hex (felt_of bet);
    felt_hex (CoinFlipGame.outcome seed player); felt_hex (CoinFlipGame.won seed player (felt_of bet))]) in *.
  assert (felt_hex (felt_of 0) = "0x0") as E0 by (rewrite felt_hex_val, (proj1 felt_of_bit); done).
  assert (felt_hex (felt_of 1) = "0x1") as E1 by (rewrite felt_hex_val, (proj2 felt_of_bit); done).
  assert (CoinFlipGame.won seed player (felt_of bet) =
    felt_of (flip_won (flip_outcome seed player) bet)) as Ewon.
  { unfold CoinFlipGame.won, flip_won. destruct (Z.eqb_spec (flip_outcome seed player) bet) as [He|He].
    - rewrite decide_True; [done|]. by apply outcome_is_bet.
    - rewrite decide_False; [done|]. by rewrite outcome_is_bet. }
  assert (message_outcome fields = flip_outcome seed player) as Eo.
  { unfold message_outcome, nth_field, fields. cbn.
    destruct (outcome_bit seed player) as [[-> ->]|[-> ->]]; [by rewrite E0|by rewrite E1]. }
  assert (message_won fields = flip_won (flip_outcome seed player) bet) as Ew.
  { unfold message_won, nth_field, fields. cbn. rewrite Ewon. unfold flip_won.
    destruct (_ =? _); [by rewrite E1|by rewrite E0]. }
  split.
  - exists doc, [], (JString <$> fields). rewrite Hdocs. cbn [mbind option_bind].
    rewrite Hdoc, array_strings_json. cbn [fst snd]. by split_and!.
  - unfold parse_settlement. rewrite Hdocs. cbn [mbind option_bind as_array head]. rewrite Hdoc.
    cbn [mbind option_bind as_array json_strings]. rewrite array_strings_json. unfold fields. do 2 f_equal.
    + unfold face. destruct (outcome_bit seed player) as [[-> ->]|[-> ->]]; [by rewrite E0|by rewrite E1].
    + rewrite Ewon. unfold flip_won. destruct (Z.eqb_spec (flip_outcome seed player) bet) as [He|He].
      * by rewrite E1, bool_decide_true.
      * by rewrite E0, bool_decide_false.
Qed.

(** The calldata of a play sends the game's message. *)
Lemma play_executes job a player :
  felt_from_hex (job_contract_address job) = Ok a →
  felt_from_hex (job_player job) = Ok player → in_u u64_max (job_seed_block job) →
  job_bet job ∈ [0; 1] →
  (∀ p, send_message_to_l1_syscall CoinFlipGame.SETTLEMENT_ADDRESS p = Ok tt) →
  ∃ calldata, collect_res felt_from_hex (CoinFlip.play_calldata job) = Ok calldata ∧
    ∀ ch, contracts ch !! a = Some CoinFlipAt →
      execute calldata ch = (Ok tt, {| contracts := contracts ch;
        sent := (sent ch ++ [play_message a (felt_of (job_seed_block job)) player (felt_of (job_bet job))])%list |}).
Proof.
  intros Ha Hp [Hs0 Hs] Hbet Hsys. assert (u64_max < stark_prime) by done.
  assert (0 ≤ job_bet job < stark_prime) as Hb.
  { rewrite !elem_of_cons, elem_of_nil in Hbet. by destruct Hbet as [->|[->|[]]]. }
  destruct (execute_one (job_contract_address job) CoinFlipE2e.PLAY_SELECTOR
    [fmt_hex (job_seed_block job); job_player job; fmt_hex (job_bet job)] a (selector "play")
    [felt_of (job_seed_block job); player; felt_of (job_bet job)]) as (cd & Hcd & He);
    [done|done|by apply play_selector| |].
  { apply collect_res_Ok. repeat constructor; [|done|]; apply felt_from_hex_fmt; lia. }
  exists cd. split; [done|]. intros ch Hat. by apply He, call_play.
Qed.

(** C14: The game and its clients agree. The calldata of a play, which the
    server's task and the drivers write in the same way, makes the game send
    exactly one message, and of any document that reports it every reader
    makes the outcome that the clients compute from the seed and the player:
    the driver's check passes, and the server's result names that outcome
    and says won exactly when it is the bet. *)
Theorem play_agrees job a player ch :
  felt_from_hex (job_contract_address job) = Ok a → contracts ch !! a = Some CoinFlipAt →
  felt_from_hex (job_player job) = Ok player → in_u u64_max (job_seed_block job) →
  job_bet job ∈ [0; 1] →
  (∀ p, send_message_to_l1_syscall CoinFlipGame.SETTLEMENT_ADDRESS p = Ok tt) →
  let seed := felt_of (job_seed_block job) in
  let outcome := flip_outcome seed player in
  let m := play_message a seed player (felt_of (job_bet job)) in
  CoinFlip.play_calldata job = CoinFlipE2e.play_calldata (job_contract_address job)
    (fmt_hex (job_seed_block job)) (job_player job) (fmt_hex (job_bet job)) ∧
  ∃ calldata, collect_res felt_from_hex (CoinFlip.play_calldata job) = Ok calldata ∧
    execute calldata ch = (Ok tt, {| contracts := contracts ch; sent := (sent ch ++ [m])%list |}) ∧
    ∀ messages_json, reports messages_json [m] →
      settlement_agrees (outcome, flip_won outcome (job_bet job)) messages_json ∧
      parse_settlement messages_json = Some (face outcome, bool_decide (outcome = job_bet job)).
Proof.
  intros Ha Hat Hp Hs Hbet Hsys. cbn zeta. split; [done|].
  destruct (play_executes job a player) as (cd & Hcd & He); [done..|].
  exists cd. split_and!; [done|by apply He|]. intros doc Hdoc. by apply (play_reported a).
Qed.

(** ** The counter *)

(** The chain with the counter at [a] increased by [n]. *)
Definition counted (a : Felt) (n : Z) (ch ch' : Chain) : Prop :=
  ∃ v v', contracts ch !! a = Some (CounterAt v) ∧
    felt_val v' = (felt_val v + n) mod stark_prime ∧
    ch' = {| contracts := <[a := CounterAt v']> (contracts ch); sent := sent ch |}.

Lemma counted_0 a v ch : contracts ch !! a = Some (CounterAt v) → counted a 0 ch ch.
Proof.
  intros Hat. exists v, v. rewrite Z.add_0_r, Z.mod_small by apply felt_val_range.
  split_and!; [done..|]. rewrite insert_id by done. by destruct ch.
Qed.

Lemma counted_trans a n n' ch ch' ch'' :
  counted a n ch ch' → counted a n' ch' ch'' → counted a (n + n') ch ch''.
Proof.
  intros (v & v1 & Hat & Hv & ->) (v2 & v' & Hat' & Hv' & ->). cbn in Hat'.
  rewrite lookup_insert, decide_True in Hat' by done. injection Hat' as <-.
  exists v, v'. split_and!; [done| |].
  - rewrite Hv', Hv, Zplus_mod_idemp_l. f_equal. lia.
  - cbn. by rewrite insert_insert, decide_True.
Qed.

Lemma counted_at a n ch ch' : counted a n ch ch' → ∃ v, contracts ch' !! a = Some (CounterAt v).
Proof. intros (v & v' & _ & _ & ->). exists v'. cbn. by rewrite lookup_insert, decide_True. Qed.

Lemma call_increment a v amount ch : contracts ch !! a = Some (CounterAt v) → in_u u64_max amount →
  ∃ ch', call_contract a (selector "increment") [felt_of amount] ch = (Ok tt, ch') ∧ counted a amount ch ch'.
Proof.
  intros Hat [Hn0 Hn]. assert (u64_max < stark_prime) by done.
  unfold call_contract, mbind, prog_bind, reads, id. rewrite Hat. unfold counting, CounterContract.counter_entry.
  rewrite decide_True by done. eexists. split; [done|].
  exists v, (felt_add v (felt_of amount)). split_and!; [done| |done].
  by rewrite felt_add_val, felt_of_small by lia.
Qed.

Lemma calls_increment n a v amount ch : contracts ch !! a = Some (CounterAt v) → in_u u64_max amount →
  ∃ us ch', for_each (λ c, call_contract c.1.1 c.1.2 c.2)
      (replicate n (a, selector "increment", [felt_of amount])) ch = (Ok us, ch') ∧
    counted a (Z.of_nat n * amount) ch ch'.
Proof.
  intros Hat Hn. revert v ch Hat. induction n as [|n IH]; intros v ch Hat.
  { exists [], ch. split; [done|by eapply counted_0]. }
  destruct (call_increment a v amount ch Hat Hn) as (ch1 & Hc1 & C1).
  destruct (counted_at _ _ _ _ C1) as [v1 Hat1]. destruct (IH v1 ch1 Hat1) as (us & ch2 & Hc2 & C2).
  exists (tt :: us), ch2. split.
  - cbn [replicate for_each fst snd]. unfold mbind, prog_bind. rewrite Hc1.
    unfold mbind, prog_bind in Hc2. by rewrite Hc2.
  - replace (Z.of_nat (S n) * amount) with (amount + Z.of_nat n * amount) by lia.
    by eapply counted_trans.
Qed.

Lemma increment_selector_eq : increment_selector = selector "increment".
Proof. unfold increment_selector, selector. f_equal. Qed.

Lemma execute_multicall address a amount n : felt_from_hex address = Ok a →
  in_u u64_max amount → in_u u32_max n →
  ∃ calldata, collect_res felt_from_hex (multicall_strs address amount n) = Ok calldata ∧
    ∀ ch v, contracts ch !! a = Some (CounterAt v) →
      ∃ ch', execute calldata ch = (Ok tt, ch') ∧ counted a (n * amount) ch ch'.
Proof.
  intros Ha Hamount Hn. destruct (multicall_read address a amount n Ha Hamount Hn) as (cd & Hcd & Hdec).
  exists cd. split; [done|]. intros ch v Hat. destruct Hn as [Hn _].
  destruct (calls_increment (Z.to_nat n) a v amount ch Hat Hamount) as (us & ch' & Hf & Hc).
  rewrite Z2Nat.id in Hc by done. exists ch'. split; [|done].
  unfold execute. rewrite Hdec, increment_selector_eq. cbn [ok_or]. unfold lift, mbind, prog_bind at 1.
  unfold prog_bind. by rewrite Hf.
Qed.

Lemma execute_times calldata a n k ch v :
  (∀ ch v, contracts ch !! a = Some (CounterAt v) →
     ∃ ch', execute calldata ch = (Ok tt, ch') ∧ counted a n ch ch') →
  contracts ch !! a = Some (CounterAt v) →
  ∀ i, ∃ us ch', for_each (λ _, execute calldata) (seq i k) ch = (Ok us, ch') ∧
    counted a (Z.of_nat k * n) ch ch'.
Proof.
  intros Hstep. revert v ch. induction k as [|k IH]; intros v ch Hat i.
  { exists [], ch. split; [done|by eapply counted_0]. }
  destruct (Hstep ch v Hat) as (ch1 & Hc1 & C1). destruct (counted_at _ _ _ _ C1) as [v1 Hat1].
  destruct (IH v1 ch1 Hat1 (S i)) as (us & ch2 & Hc2 & C2). exists (tt :: us), ch2. split.
  - cbn [seq for_each]. unfold mbind, prog_bind. rewrite Hc1.
    unfold mbind, prog_bind in Hc2. by rewrite Hc2.
  - replace (Z.of_nat (S k) * n) with (n + Z.of_nat k * n) by lia. by eapply counted_trans.
Qed.

(** C19: The counter counts what the driver expects. The calldata that is proved
    for every block makes the account increment the contract's counter by
    the driver's increment per block; after k blocks the counter holds
    exactly the value that the driver expects after block k, as long as that
    fits the u64 it is read into, and the text of that value reads back as
    it. *)
Theorem counter_as_expected args cy checks a v k ch :
  let amount := ea_counter_increments args in
  let n := ea_increments_per_snos args in
  felt_from_hex (cy_contract_address cy) = Ok a → contracts ch !! a = Some (CounterAt v) →
  in_u u64_max amount → in_u u32_max n →
  cy_initial_counter cy = felt_val v → cy_increment_per_block cy = amount * n →
  felt_val v + amount * n * Z.of_nat k ≤ u64_max →
  ∃ calldata us ch' v',
    collect_res felt_from_hex (increment_calldata args (cy_contract_address cy)) = Ok calldata ∧
    for_each (λ _, execute calldata) (seq 1 k) ch = (Ok us, ch') ∧
    contracts ch' !! a = Some (CounterAt v') ∧ sent ch' = sent ch ∧
    expected_counter checks cy (Z.of_nat k) = Ok (felt_val v') ∧
    parse_hex_quantity u64_max (felt_hex (CounterContract.get_counter v')) = Ok (felt_val v').
Proof.
  intros amount n Ha Hat Hamount Hn Hinit Hinc Hmax. assert (u64_max < stark_prime) by done.
  destruct (execute_multicall _ a amount n Ha Hamount Hn) as (calldata & Hcd & Hrun).
  destruct (execute_times calldata a (n * amount) k ch v Hrun Hat 1) as (us & ch' & Hus & v0 & v' & Hv0 & Hv & ->).
  rewrite Hat in Hv0. injection Hv0 as <-. pose proof (felt_val_range v) as [Hv0 _].
  destruct Hamount as [Ha0 _], Hn as [Hn0 _].
  assert (0 ≤ amount * n * Z.of_nat k) by (apply Z.mul_nonneg_nonneg; nia).
  rewrite Z.mod_small in Hv by lia.
  exists calldata, us. eexists. exists v'. split_and!; [|exact Hus| |done| |].
  - unfold increment_calldata. rewrite increments_agree. fold n. rewrite Z2Nat.id by done. done.
  - cbn. by rewrite lookup_insert, decide_True.
  - unfold expected_counter. rewrite Hinit, Hinc.
    unfold mul_u64. destruct (in_u_dec _ _) as [|Hout]; [|destruct Hout; unfold in_u; lia]. cbn.
    unfold add_u. destruct (in_u_dec _ _) as [|Hout]; [|destruct Hout; unfold in_u; lia]. f_equal. lia.
  - unfold CounterContract.get_counter. rewrite felt_hex_val. apply parse_fmt_hex. unfold in_u. lia.
Qed.

(** ** The messenger *)

Lemma send_message_selector : felt_from_hex MessagesE2e.SEND_MESSAGE_SELECTOR = Ok (selector "send_message").
Proof. apply parse_selector. by vm_compute. Qed.

(** The messenger sends what the driver means: when the address and the
    pieces of the payload are felts, executing the calldata of the messages
    driver makes the contract send exactly one message, to that address and
    with exactly these felts. *)
Theorem message_sent address a to t words ps ch :
  felt_from_hex address = Ok a → contracts ch !! a = Some MessengerAt →
  felt_from_hex to = Ok t → collect_res felt_from_hex (payload_strs words) = Ok ps →
  Z.of_nat (length ps) + 2 ≤ u64_max → send_message_to_l1_syscall t ps = Ok tt →
  ∃ calldata, collect_res felt_from_hex (message_calldata address to (payload_strs words)) = Ok calldata ∧
    execute calldata ch = (Ok tt, {| contracts := contracts ch;
      sent := (sent ch ++ [(a, {| to_address := t; payload := ps |})])%list |}).
Proof.
  intros Ha Hat Ht Hps Hlen Hsys. assert (u64_max < stark_prime) by done.
  rewrite message_calldata_eq. pose proof (collect_res_length _ _ _ Hps) as Hl.
  destruct (execute_one address MessagesE2e.SEND_MESSAGE_SELECTOR (inner_calldata to (payload_strs words))
    a (selector "send_message") (t :: felt_of (Z.of_nat (length ps)) :: ps)) as (cd & Hcd & He); [..|].
  - unfold inner_calldata. rewrite length_app. cbn [length]. lia.
  - done.
  - apply send_message_selector.
  - apply collect_res_Ok. unfold inner_calldata. constructor; [done|].
    constructor; [|by apply collect_res_Ok]. unfold fmt_len. rewrite <-Hl. apply felt_from_hex_fmt. lia.
  - exists cd. split; [done|]. apply He. unfold call_contract, mbind, prog_bind, reads, id. rewrite Hat.
    unfold sending, Messenger.messenger_entry. rewrite decide_True by done.
    unfold decode_span. rewrite felt_of_small by lia. rewrite Z.eqb_refl.
    unfold lift, mbind, prog_bind, Messenger.send_message, modify, mbind, prog_bind, lift. by rewrite Hsys.
Qed.
End chain_facts.
