(* ===== verification/Account.v ===== *)
(** * The account contract ([vendor/openzeppelin/account/src/account.cairo])

    The account whose transactions the programs sign: the check of the
    signature, the execution of the calls, and the change of the owner.  The
    payload that signing.rs builds is read as a transaction, validated and
    executed. *)

From S2P Require Import Prelude RustNum RustStr Json Felt Types Signing Config Rpc Host Submission.
From S2P Require Import CoinFlipState Counter CoinFlip Driver DriverFacts CounterE2e MessagesE2e CoinFlipE2e.
From S2P Require Import Selectors Contracts OnChain.

(** [core::ecdsa], and the key that signatures of a private key verify under. *)
Class Ecdsa `{FeltOps} := {
  check_ecdsa_signature : Felt → Felt → Felt → Felt → bool;
  get_public_key : Felt → Felt;
}.
Class EcdsaLaws `{Crypto} `{!Ecdsa} := {
  check_signed key message_hash k r s : ecdsa_sign key message_hash k = Ok (r, s) →
    check_ecdsa_signature message_hash (get_public_key key) r s = true;
}.

Module AccountComponent.
Section account.
Context `{FeltOps} `{!Crypto} `{!Ecdsa}.

Definition MIN_TRANSACTION_VERSION : Z := 1.
Definition QUERY_OFFSET : Z := 2 ^ 128.

Definition INVALID_CALLER : string := "Account: invalid caller".
Definition INVALID_SIGNATURE : string := "Account: invalid signature".
Definition INVALID_TX_VERSION : string := "Account: invalid tx version".
Definition UNAUTHORIZED : string := "Account: unauthorized".

Definition VALIDATED : Felt := felt_from_bytes_be (as_bytes "VALID").

(** What the contract reads of [get_tx_info]. *)
Record TxInfo := { version : Felt; transaction_hash : Felt; signature : list Felt }.

Inductive Event :=
  | OwnerAdded (new_owner_guid : Felt)
  | OwnerRemoved (removed_owner_guid : Felt).

(** The storage and the events that were emitted. *)
Record Storage := { Account_public_key : Felt; emitted : list Event }.

Definition is_valid_stark_signature (msg_hash public_key : Felt) (signature : list Felt) : bool :=
  match signature with
  | [r; s] => check_ecdsa_signature msg_hash public_key r s
  | _ => false
  end.

Definition is_tx_version_valid (tx : TxInfo) : bool :=
  let tx_version := felt_val (version tx) in
  if QUERY_OFFSET <=? tx_version then QUERY_OFFSET + MIN_TRANSACTION_VERSION <=? tx_version
  else MIN_TRANSACTION_VERSION <=? tx_version.

Definition is_valid_signature_with (self : Storage) (hash : Felt) (signature : list Felt) : bool :=
  is_valid_stark_signature hash (Account_public_key self) signature.

Definition is_valid_signature (self : Storage) (hash : Felt) (signature : list Felt) : Felt :=
  if is_valid_signature_with self hash signature then VALIDATED else felt_of 0.

Definition validate_transaction (self : Storage) (tx : TxInfo) : res string Felt :=
  if is_valid_signature_with self (transaction_hash tx) (signature tx)
  then Ok VALIDATED else Err INVALID_SIGNATURE.

(** [__validate__] ignores the calls; so do the two other validations. *)
Definition validate (self : Storage) (tx : TxInfo) (calls : list (Felt * Felt * list Felt)) : res string Felt :=
  validate_transaction self tx.

(** [__execute__]. *)
Definition execute_calls `{!L1Syscall} (caller : Felt) (tx : TxInfo) (calls : list (Felt * Felt * list Felt))
    : prog Chain string unit :=
  assert (felt_val caller =? 0) INVALID_CALLER;;
  assert (is_tx_version_valid tx) INVALID_TX_VERSION;;
  for_each (λ c, call_contract c.1.1 c.1.2 c.2) calls;;
  mret tt.

(** ** The owner *)

Definition emit_event (e : Event) : prog Storage string unit :=
  modify (λ s, {| Account_public_key := Account_public_key s; emitted := (emitted s ++ [e])%list |}).

(** [_set_public_key]. *)
Definition write_public_key (new_public_key : Felt) : prog Storage string unit :=
  modify (λ s, {| Account_public_key := new_public_key; emitted := emitted s |});;
  emit_event (OwnerAdded new_public_key).

(** The message that a new owner signs. *)
Definition accept_ownership_hash (this current_owner : Felt) : Felt :=
  poseidon_hash_many [felt_from_bytes_be (as_bytes "StarkNet Message");
    felt_from_bytes_be (as_bytes "accept_ownership"); this; current_owner].

Definition assert_valid_new_owner (this current_owner new_owner : Felt) (signature : list Felt)
    : prog Storage string unit :=
  assert (is_valid_stark_signature (accept_ownership_hash this current_owner) new_owner signature)
    INVALID_SIGNATURE.

Definition set_public_key (this caller new_public_key : Felt) (signature : list Felt) : prog Storage string unit :=
  assert (bool_decide (this = caller)) UNAUTHORIZED;;
  current_owner ← reads Account_public_key;
  assert_valid_new_owner this current_owner new_public_key signature;;
  emit_event (OwnerRemoved current_owner);;
  write_public_key new_public_key.
End account.
End AccountComponent.
Import AccountComponent.

(** ** Whoever owns the account accepted it *)

Section owner.
Context `{FeltOps} `{!Crypto} `{!Ecdsa}.
Context (this first : Felt).

(** The keys of an account deployed with [first], the last one first: any
    contract may call [set_public_key] with anything. *)
Inductive owned : list Felt → Storage → Prop :=
  | owned_deployed : owned [first] {| Account_public_key := first; emitted := [OwnerAdded first] |}
  | owned_call owners s caller key sig u s' :
      owned owners s → set_public_key this caller key sig s = (Ok u, s') → owned (key :: owners) s'.

Lemma set_public_key_Ok caller key sig s u s' :
  set_public_key this caller key sig s = (Ok u, s') →
  caller = this ∧ (∃ r t, sig = [r; t] ∧
    check_ecdsa_signature (accept_ownership_hash this (Account_public_key s)) key r t = true) ∧
  s' = {| Account_public_key := key;
          emitted := (emitted s ++ [OwnerRemoved (Account_public_key s); OwnerAdded key])%list |}.
Proof.
  unfold set_public_key. intros Hrun.
  apply prog_bind_Ok in Hrun as (? & s1 & Ha & Hrun). unfold assert in Ha. case_bool_decide; [|done].
  injection Ha as <- <-. apply prog_bind_Ok in Hrun as (? & ? & [= <- <-] & Hrun).
  apply prog_bind_Ok in Hrun as (? & s2 & Hs & Hrun). unfold assert_valid_new_owner, assert in Hs.
  destruct (is_valid_stark_signature _ key sig) eqn:Hsig; [|done]. injection Hs as <- <-.
  apply prog_bind_Ok in Hrun as (? & ? & [= _ <-] & Hrun).
  apply prog_bind_Ok in Hrun as (? & ? & [= _ <-] & [= _ <-]).
  split; [done|]. split; [|by rewrite <-app_assoc].
  destruct sig as [|r [|t [|]]]; try done. by exists r, t.
Qed.

(** The key is the last owner's, and every owner but the first signed, for this
    account, that it takes over from the one before it. *)
Theorem owners_accepted owners s : owned owners s →
  head owners = Some (Account_public_key s) ∧
  ∀ i old new, owners !! S i = Some old → owners !! i = Some new →
    ∃ r t, check_ecdsa_signature (accept_ownership_hash this old) new r t = true.
Proof.
  induction 1 as [|owners s caller key sig u s' _ [Hhead IH] Hcall].
  { split; [done|]. intros [|i]; done. }
  apply set_public_key_Ok in Hcall as (_ & (r & t & _ & Hsig) & ->). split; [done|].
  intros [|i] old new Hold Hnew; [|by eapply IH].
  injection Hnew as <-. destruct owners as [|owner owners]; [done|].
  injection Hold as <-. injection Hhead as ->. eauto.
Qed.
End owner.

(** ** A signed payload *)

Section payload.
Context `{FeltLaws} `{!Crypto} `{!Ecdsa} `{!L1Syscall}.

(** An invoke transaction as the sequencer reads it from a payload. *)
Record InvokeTx := { iv_info : TxInfo; iv_sender : Felt; iv_calldata_felts : list Felt }.

Definition read_invoke (chain : Felt) (v : Value) : option InvokeTx :=
  h ← receiver_tx_hash chain v;
  ver ← read_felt v "version";
  sender ← read_felt v "sender_address";
  cd ← read_felts v "calldata";
  sig ← read_felts v "signature";
  Some {| iv_info := {| version := ver; transaction_hash := h; signature := sig |};
          iv_sender := sender; iv_calldata_felts := cd |}.

(** The account at the sender: the calls are read, validated and, from no
    contract, executed. *)
Definition run_invoke (account : Storage) (tx : InvokeTx) : prog Chain string unit :=
  calls ← lift (ok_or (decode_execute (iv_calldata_felts tx)) bad_param);
  lift (validate account (iv_info tx) calls);;
  execute_calls (felt_of 0) (iv_info tx) calls.

(** The account runs a transaction of a valid version exactly when the two felts
    of its signature verify under its key; any other one changes nothing. *)
Lemma run_invoke_eq account tx ch : is_tx_version_valid (iv_info tx) = true →
  run_invoke account tx ch =
  if is_valid_signature_with account (transaction_hash (iv_info tx)) (signature (iv_info tx))
  then execute (iv_calldata_felts tx) ch
  else (match decode_execute (iv_calldata_felts tx) with
        | Some _ => Err INVALID_SIGNATURE | None => Err bad_param end, ch).
Proof.
  intros Hv. unfold run_invoke, execute, validate, validate_transaction, execute_calls.
  unfold lift, assert, mbind, prog_bind. rewrite felt_of_small by done. rewrite Hv.
  destruct (decode_execute _); cbn [ok_or]; by destruct (is_valid_signature_with _ _ _).
Qed.

Lemma version_3 h sig : is_tx_version_valid {| version := felt_of 3; transaction_hash := h; signature := sig |} = true.
Proof. unfold is_tx_version_valid. cbn [version]. by rewrite felt_of_small. Qed.

(** C3: What signing.rs signs, the account executes. The payload that
    sign_and_build_payload returns is read, on the chain it was signed for,
    as the transaction of the returned hash with the given sender and two
    felts of signature; an account whose key is that of the private key
    validates it and does exactly what the calls of the given calldata do,
    on any chain; an account under whose key this signature does not verify
    refuses it and nothing changes. *)
Theorem signed_payload_runs `{!EcdsaLaws} params h v account :
  bounds_ok (sp_resource_bounds params) → sign_and_build_payload params = Ok (h, v) →
  ∃ tx r s, read_invoke (sp_chain_id params) v = Some tx ∧ transaction_hash (iv_info tx) = h ∧
    iv_sender tx = sp_sender_address params ∧ signature (iv_info tx) = [r; s] ∧
    (Account_public_key account = get_public_key (sp_private_key params) →
     ∀ ch, run_invoke account tx ch = execute (sp_calldata params) ch) ∧
    (check_ecdsa_signature h (Account_public_key account) r s = false →
     ∀ ch, (run_invoke account tx ch).2 = ch ∧ ∃ e, (run_invoke account tx ch).1 = Err e).
Proof.
  intros Hb (-> & sig & Hsign & ->)%sign_and_build_payload_Ok.
  unfold sign in Hsign. apply res_bind_Ok in Hsign as ([r t] & Hs%map_err_Ok & [= <-]).
  eexists _, r, t. split.
  { unfold read_invoke. rewrite receiver_hash_payload by done.
    rewrite (read_felt_hex _ "sender_address" (sp_sender_address params)) by done.
    rewrite (read_felts_json _ "calldata" (sp_calldata params)) by done.
    rewrite (read_felts_json _ "signature" [r; t]) by done.
    rewrite (read_felt_hex _ "version" (felt_of 3)); [reflexivity|].
    by rewrite felt_hex_val, felt_of_small. }
  cbn [iv_info iv_sender iv_calldata_felts transaction_hash signature]. split_and!; [done..| |].
  - intros Hkey ch. rewrite run_invoke_eq by apply version_3. unfold is_valid_signature_with. cbn.
    by rewrite Hkey, (check_signed _ _ _ _ _ Hs).
  - intros Hkey ch. rewrite run_invoke_eq by apply version_3. unfold is_valid_signature_with. cbn.
    rewrite Hkey. by destruct (decode_execute _); eauto.
Qed.
End payload.
