(* ===== verification/SettlementOnChain.v ===== *)
(** * The settlement against the bank

    The driver [e2e_settlement.rs] and the server's handlers call the bank with
    texts that sncast turns into calldata; here these texts meet the bank of
    Contracts.v and its invariant of Bank.v. *)

From Stdlib Require Import SpecFloat.
From S2P Require Import Prelude RustNum RustStr RustFloat Json Felt Types Signing Config Rpc Host Submission.
From S2P Require Import CoinFlipState Counter CoinFlip Driver DriverFacts CoinFlipE2e SettlementE2e.
From S2P Require Import Selectors Contracts Bank OnChain.
Import CoinFlipBank.

(** [sncast invoke --calldata]: felts separated by spaces. *)
Class SncastText `{FeltOps} := sncast_felts : string → res string (list Felt).
Class SncastTextLaws `{SncastText} := {
  sncast_words words felts : words ≠ [] → collect_res felt_parse_hex words = Ok felts →
    sncast_felts (String.concat " " words) = Ok felts;
}.

Section invoke.
Context `{FeltOps} `{!Crypto} {T : Type} `{!ERC20 T} `{!SncastText}.

(** [sncast invoke --function .. --calldata ..] on the bank. *)
Definition invoke (this caller : Felt) (function calldata : string) : prog (State T) string unit :=
  felts ← lift (sncast_felts calldata);
  c ← lift (decode_call function felts);
  run this caller c.
End invoke.

Section texts.
Context `{FeltLaws} `{!Crypto} {T : Type} `{!ERC20 T} `{!ERC20Laws T} `{!SncastText} `{!SncastTextLaws}.
Context (this : Felt) (args : E2eSettlementArgs).

Lemma invoke_words caller function words felts c (s : State T) :
  words ≠ [] → collect_res felt_from_hex words = Ok felts → decode_call function felts = Ok c →
  invoke this caller function (String.concat " " words) s = run this caller c s.
Proof.
  intros Hne Hf%collect_from_hex_parse Hd. unfold invoke, lift, mbind, prog_bind.
  by rewrite (sncast_words words felts), Hd.
Qed.

Lemma decode_u256_low low high : in_u u128_max low → felt_val high = 0 →
  decode_u256 (felt_of low) high = Ok low.
Proof.
  intros [? Hlow] Hhigh. assert (u128_max < stark_prime) by done.
  unfold decode_u256. rewrite felt_of_small, Hhigh by lia.
  rewrite (proj2 (Z.ltb_lt _ _)) by (unfold u128_max, u128_base in *; lia). cbn. f_equal. lia.
Qed.

Lemma parse_u128 n : in_u u128_max n → felt_from_hex (fmt_hex n) = Ok (felt_of n).
Proof. intros [? ?]. apply felt_from_hex_fmt. assert (u128_max < stark_prime) by done. lia. Qed.

Lemma invoke_deposit caller session_felt session_id block (s : State T) :
  felt_from_hex session_felt = Ok session_id → in_u u64_max block → 0 ≤ sa_bet args →
  invoke this caller "deposit" (deposit_calldata args session_felt block) s =
  deposit this caller session_id (bet_amount_wei args) (felt_of block) (felt_of (bet args)) s.
Proof.
  intros Hid [? ?] Hb. assert (u64_max < u128_max) by done.
  pose proof (as_u128_range (f64_mul (sa_bet_amount args) f64_1e18)) as Hw. fold (bet_amount_wei args) in Hw.
  assert (in_u u128_max (bet args)) by (unfold in_u, bet; lia).
  change (deposit_calldata args session_felt block) with
    (String.concat " " [session_felt; fmt_hex (bet_amount_wei args); "0x0"; fmt_hex block; fmt_hex (bet args)]).
  erewrite (invoke_words _ _ _ _
    (Deposit session_id (bet_amount_wei args) (felt_of block) (felt_of (bet args)))); [done|done| |].
  - apply collect_res_Ok. constructor; [done|]. constructor; [by apply parse_u128|].
    constructor; [by apply (felt_from_hex_fmt 0)|].
    repeat constructor; apply parse_u128; [unfold in_u; lia|done].
  - unfold decode_call. rewrite decide_True, decode_u256_low; [done|done|by apply felt_of_small|done].
Qed.

Lemma invoke_match caller session_felt session_id (s : State T) :
  felt_from_hex session_felt = Ok session_id →
  invoke this caller "match_deposit" session_felt s = match_deposit this caller session_id s.
Proof.
  intros Hid. change session_felt with (String.concat " " [session_felt]).
  erewrite (invoke_words _ _ _ _ (MatchDeposit session_id)); [done|done| |].
  - apply collect_res_Ok. by repeat constructor.
  - done.
Qed.

(** The server's task writes the calldata of a settlement as the driver does. *)
Lemma invoke_settle caller session_felt session_id block (s : State T) :
  felt_from_hex session_felt = Ok session_id → in_u u64_max block →
  invoke this caller "settle" (settle_calldata session_felt block) s =
  settle this caller session_id (felt_of block) s.
Proof.
  intros Hid [? ?]. assert (u64_max < u128_max) by done.
  change (settle_calldata session_felt block) with (String.concat " " [session_felt; fmt_hex block]).
  erewrite (invoke_words _ _ _ _ (Settle session_id (felt_of block))); [done|done| |].
  - apply collect_res_Ok. repeat constructor; [done|]. apply parse_u128. unfold in_u. lia.
  - done.
Qed.
End texts.

(** ** The driver's account on both sides *)

Section both_sides.
Context `{FeltLaws} `{!Crypto} {T : Type} `{!ERC20 T} `{!ERC20Laws T} `{!SncastText} `{!SncastTextLaws}.
Context (this o : Felt) (t0 : T) (args : E2eSettlementArgs).

Lemma step_run tr s caller c s' : bank_trace this o t0 tr s → caller ≠ this →
  run this caller c s = (Ok tt, s') → bank_trace this o t0 (tr ++ [Called caller c])%list s'.
Proof. intros Htr Hne Hrun. eapply trace_step; [done|]. by apply step_call. Qed.

(** A deposit and a match are taken when the money is there. *)
Lemma deposit_taken caller session_id amount seed bet (s : State T) :
  felt_val this ≠ 0 → felt_val caller ≠ 0 → 0 < amount →
  read_int (game_state (storage s)) session_id = STATE_EMPTY →
  amount ≤ balance_of (token s) caller → amount ≤ allowance (token s) caller this →
  ∃ t', deposit this caller session_id amount seed bet s
        = (Ok tt, {| storage := record_game session_id caller amount seed bet (storage s); token := t' |}) ∧
    moved caller this amount (token s) t' ∧
    allowance (token s) caller this - amount ≤ allowance t' caller this.
Proof.
  intros Hthis Hc Ha Hs Hb Hal.
  destruct (transfer_from_covered this caller this amount (token s)) as [[b t'] Ht]; [lia|done..|].
  exists t'. pose proof (transfer_from_moves _ _ _ _ _ _ _ (Z.lt_le_incl _ _ Ha) Ht) as (_ & _ & _ & Hm & _ & Hl).
  split_and!; [|done|done]. apply deposit_Ok. eauto 10.
Qed.

Lemma match_taken session_id (s : State T) :
  let amount := read_int (game_amount (storage s)) session_id in
  felt_val this ≠ 0 → felt_val (owner (storage s)) ≠ 0 → 0 < amount →
  read_int (game_state (storage s)) session_id = STATE_DEPOSITED →
  amount ≤ balance_of (token s) (owner (storage s)) →
  amount ≤ allowance (token s) (owner (storage s)) this →
  ∃ t', match_deposit this (owner (storage s)) session_id s
        = (Ok tt, {| storage := set_state session_id STATE_MATCHED (storage s); token := t' |}) ∧
    moved (owner (storage s)) this amount (token s) t'.
Proof.
  intros amount Hthis Hc Ha Hs Hb Hal.
  destruct (transfer_from_covered this (owner (storage s)) this amount (token s)) as [[b t'] Ht]; [lia|done..|].
  exists t'. pose proof (transfer_from_moves _ _ _ _ _ _ _ (Z.lt_le_incl _ _ Ha) Ht) as (_ & _ & _ & Hm & _).
  split; [|done]. apply match_deposit_Ok. eauto 10.
Qed.

(** C18: The settlement driver plays against itself: its account is the bank's
    owner and the player. With the money and the allowance for both stakes
    and a fresh session, the three calls it makes, with the texts it writes,
    all succeed, and the settlement raises the account's balance by twice
    the stake, back to what it was before the deposit, whatever the flip
    decides: the comparison of balances cannot tell a won bet from a lost
    one. *)
Theorem settlement_cycle tr s session_felt session_id pre ref :
  let amount := bet_amount_wei args in
  bank_trace this o t0 tr s → o ≠ this → felt_val this ≠ 0 → felt_val o ≠ 0 →
  felt_from_hex session_felt = Ok session_id → in_u u64_max pre → in_u u64_max ref →
  0 ≤ sa_bet args → 0 < amount →
  read_int (game_state (storage s)) session_id = STATE_EMPTY →
  2 * amount ≤ balance_of (token s) o → 2 * amount ≤ allowance (token s) o this →
  ∃ s1 s2 s3,
    invoke this o "deposit" (deposit_calldata args session_felt pre) s = (Ok tt, s1) ∧
    invoke this o "match_deposit" session_felt s1 = (Ok tt, s2) ∧
    invoke this o "settle" (settle_calldata session_felt ref) s2 = (Ok tt, s3) ∧
    balance_of (token s2) o = balance_of (token s) o - 2 * amount ∧
    balance_of (token s3) o = balance_of (token s2) o + 2 * amount.
Proof.
  intros amount Htr Hne Hthis Ho Hid Hpre Href Hbet Ha Hs Hbal Hal.
  destruct (deposit_taken o session_id amount (felt_of pre) (felt_of (bet args)) s)
    as (t1 & Hdep & (_ & Hb1 & _) & Hal1); [done..|lia|lia|].
  pose proof (step_run _ _ o (Deposit session_id amount (felt_of pre) (felt_of (bet args))) _ Htr Hne Hdep) as Htr1.
  pose proof (ok_owner _ _ _ _ _ (bank_trace_ok _ _ _ _ _ Htr1)) as Hown.
  set (s1 := {| storage := record_game _ _ _ _ _ _; token := t1 |}) in *.
  assert (read_int (game_amount (storage s1)) session_id = amount) as Ham.
  { subst s1. cbn. by rewrite read_int_insert, decide_True. }
  assert (read_felt (game_player (storage s1)) session_id = o) as Hpl.
  { subst s1. cbn. by rewrite read_felt_insert, decide_True. }
  rewrite decide_False in Hb1 by done.
  destruct (match_taken session_id s1) as (t2 & Hmat & (_ & Hb2 & _)); rewrite ?Ham, ?Hown; try done.
  { subst s1. cbn. by rewrite read_int_insert, decide_True. }
  { subst s1. cbn. lia. }
  { subst s1. cbn. lia. }
  rewrite Hown in Hmat. rewrite Ham, Hown, decide_False in Hb2 by done.
  pose proof (step_run _ _ o (MatchDeposit session_id) _ Htr1 Hne Hmat) as Htr2.
  set (s2 := {| storage := set_state session_id STATE_MATCHED (storage s1); token := t2 |}) in *.
  destruct (settle_taken this o t0 _ s2 session_id (felt_of ref) Hthis Htr2) as (t3 & Hset & _ & Hmv).
  { subst s2. cbn. by rewrite read_int_insert, decide_True. }
  assert (payee (storage s2) session_id (felt_of ref) = o) as Hpay.
  { unfold payee. change (read_felt (game_player (storage s2)) session_id) with
      (read_felt (game_player (storage s1)) session_id). rewrite Hpl.
    change (owner (storage s2)) with (owner (storage s1)). rewrite Hown. by case_decide. }
  change (read_int (game_amount (storage s2)) session_id) with
    (read_int (game_amount (storage s1)) session_id) in Hmv.
  rewrite Hpay, Ham in Hmv. destruct Hmv as (_ & _ & Hb3 & _). rewrite decide_False in Hb3 by done.
  exists s1, s2. eexists. split_and!.
  - by rewrite (invoke_deposit _ _ _ _ session_id).
  - by rewrite (invoke_match _ _ _ session_id).
  - by rewrite (invoke_settle _ _ _ session_id).
  - subst s1 s2. cbn in *. lia.
  - exact Hb3.
Qed.
End both_sides.

(** ** The result that a player is told, and the money *)

Section payout.
Context `{FeltLaws} `{!Crypto} `{!L1Syscall} {T : Type} `{!ERC20 T} `{!ERC20Laws T}.
Context (this o : Felt) (t0 : T).

(** The settlement gave the player both stakes. *)
Definition paid (player : Felt) (amount : Z) (t t' : T) : Prop :=
  balance_of t' player = balance_of t player + 2 * amount.

Lemma paid_payee recipient player amount (t t' : T) :
  0 < amount → recipient ≠ this → player ≠ this → moved this recipient (2 * amount) t t' →
  paid player amount t t' ↔ recipient = player.
Proof.
  intros Ha Hr Hp (_ & _ & Hb & Hrest). rewrite decide_False in Hb by done. unfold paid.
  split; [|by intros <-]. intros Hpaid. destruct (decide (player = recipient)) as [|Hne]; [done|].
  rewrite Hrest in Hpaid by done. lia.
Qed.

(** The money follows the result that the server tells exactly when the bet in
    the bank is the bet that was revealed. *)
Lemma payout_told tr s session_id game player amount sd stored bet block messages_json :
  bank_trace this o t0 tr s → felt_val this ≠ 0 → player ≠ o →
  get_game (storage s) session_id = (player, amount, sd, felt_of stored, STATE_MATCHED) →
  stored ∈ [0; 1] → bet ∈ [0; 1] →
  reports messages_json [play_message game (felt_of block) player (felt_of bet)] →
  ∃ told t', parse_settlement messages_json = Some (face (flip_outcome (felt_of block) player), told) ∧
    settle this o session_id (felt_of block) s
      = (Ok tt, {| storage := set_state session_id STATE_SETTLED (storage s); token := t' |}) ∧
    (bet = stored → paid player amount (token s) t' ↔ told = true) ∧
    (bet ≠ stored → paid player amount (token s) t' ↔ told = false).
Proof.
  intros Htr Hthis Hpo Hg Hst Hbet Hdoc. injection Hg as Hpl Ham _ Hb Hm.
  destruct (play_reported game (felt_of block) player bet messages_json Hbet Hdoc) as [_ Htold].
  destruct (settle_taken this o t0 tr s session_id (felt_of block) Hthis Htr Hm) as (t' & Hs & Ha & Hmv).
  pose proof (bank_trace_ok _ _ _ _ _ Htr) as Hok. rewrite Ham in Ha, Hmv.
  destruct (ok_player _ _ _ _ _ Hok session_id) as [Hpt _]; [states|]. rewrite Hpl in Hpt.
  destruct (ok_matched _ _ _ _ _ Hok session_id Hm) as [Hot _].
  unfold payee in Hmv. rewrite Hpl, Hb, (ok_owner _ _ _ _ _ Hok) in Hmv.
  assert (paid player amount (token s) t' ↔ flip_outcome (felt_of block) player = stored) as Hpaid.
  { rewrite <-outcome_is_bet by done.
    rewrite paid_payee; [|exact Ha| |exact Hpt|exact Hmv]; [|by case_decide].
    case_decide; naive_solver. }
  exists (bool_decide (flip_outcome (felt_of block) player = bet)), t'.
  split_and!; [done..| |]; rewrite Hpaid, ?bool_decide_eq_true, ?bool_decide_eq_false; [naive_solver|].
  rewrite !elem_of_cons, elem_of_nil in Hst, Hbet.
  destruct (outcome_bit (felt_of block) player) as [[_ ->]|[_ ->]];
    destruct Hst as [->|[->|[]]], Hbet as [->|[->|[]]]; naive_solver.
Qed.
End payout.
