(* ===== verification/CoinFlipRun.v ===== *)
(** * One play of the coin flip, from the reveal to the payment

    The request of [play_coinflip] and its task, over the host, together with
    the game and the bank of Contracts.v: what the prover's command and sncast
    are documented to do ([house_rules]) ties the server's calls to the
    contracts, and everything else that the world does meanwhile is a sequence
    of steps of the bank that do not settle this session. *)

From S2P Require Import Prelude RustNum RustStr Json Felt Types Signing Config Rpc Host Submission.
From S2P Require Import CoinFlipState Counter CoinFlip Driver DriverFacts CoinFlipE2e SettlementE2e.
From S2P Require Import Selectors Contracts Bank OnChain SettlementOnChain.
Import CoinFlipBank.

(** The network holds the bank and the [settle] transactions of the owner that
    were submitted to it: their hash, their calldata's text, and whether the
    network has executed them. *)
Record network `{FeltOps} (T : Type) := Net {
  at_bank : State T;
  settlements : gmap string (string * bool);
}.
Arguments Net {_ _} _ _.
Arguments at_bank {_ _} _.
Arguments settlements {_ _} _.

(** ** The bank while a game is matched *)

Section quiet.
Context `{FeltLaws} `{!Crypto} {T : Type} `{!ERC20 T} `{!ERC20Laws T}.
Context (this o : Felt) (t0 : T) (session : Felt).

Definition bank_moves (s s' : State T) : Prop := ∃ e, bank_step this s e s'.

(** A step that is not the owner settling the session: anyone may deposit,
    match, try to withdraw or pay in, and settle any other session. *)
Definition quiet_step (s s' : State T) : Prop :=
  ∃ e, bank_step this s e s' ∧ ∀ seed, e ≠ Called o (Settle session seed).

(** The deployed bank holds the session's game, matched. *)
Definition matched_game (game : Felt * Z * Felt * Felt) (s : State T) : Prop :=
  ∃ tr, bank_trace this o t0 tr s ∧ get_game (storage s) session = (game, STATE_MATCHED).

(** The bank settled that game with [seed], going from [s] to the token's
    state [t']. *)
Definition settled_from (game : Felt * Z * Felt * Felt) (seed : Felt) (s : State T) (t' : T) (s' : State T)
    : Prop :=
  matched_game game s ∧
  settle this o session seed s
    = (Ok tt, {| storage := set_state session STATE_SETTLED (storage s); token := t' |}) ∧
  rtc bank_moves {| storage := set_state session STATE_SETTLED (storage s); token := t' |} s'.

Definition settled_with game seed s' : Prop := ∃ s t', settled_from game seed s t' s'.

Lemma quiet_moves s s' : rtc quiet_step s s' → rtc bank_moves s s'.
Proof. induction 1 as [|s s1 s' (e & He & _) _ IH]; [done|]. eapply rtc_l; [by exists e|done]. Qed.

Lemma settled_moves game seed s s' :
  settled_with game seed s → rtc bank_moves s s' → settled_with game seed s'.
Proof. intros (s0 & t' & Hm & Hs & Hr) Hr'. exists s0, t'. split_and!; [done|done|by etrans]. Qed.

(** Nothing that is not its settlement changes a matched game. *)
Lemma quiet_step_matched game s s' : matched_game game s → quiet_step s s' → matched_game game s'.
Proof.
  intros (tr & Htr & Hg) (e & Hstep & Hquiet).
  assert (bank_trace this o t0 (tr ++ [e])%list s') as Htr' by by econstructor.
  exists (tr ++ [e])%list. split; [done|]. destruct game as [[[p a] sd] b].
  pose proof (ok_games _ _ _ _ _ (bank_trace_ok _ _ _ _ _ Htr) session) as Hh. rewrite Hg in Hh.
  apply history_state in Hh as [[? _]|[(_&?&_)|[(_&_&Hl)|(_&?&_)]]]; [states|states| |states].
  pose proof (ok_games _ _ _ _ _ (bank_trace_ok _ _ _ _ _ Htr') session) as Hh.
  rewrite session_calls_app, Hl in Hh.
  destruct (get_game (storage s') session) as [[[[p' a'] sd'] b'] st'].
  destruct (about session e) as [[c k]|] eqn:He; cbn in Hh.
  - destruct e as [c' k'|]; [|done]. unfold about in He. case_decide; [|done]. injection He as -> ->.
    inversion Hh; subst. by edestruct Hquiet.
  - by inversion Hh.
Qed.

Lemma quiet_matched game s s' : matched_game game s → rtc quiet_step s s' → matched_game game s'.
Proof. intros Hm. induction 1; eauto using quiet_step_matched. Qed.

Lemma matched_owner game s : matched_game game s → o ≠ this.
Proof.
  intros (tr & Htr & Hg). destruct game as [[[p a] sd] b]. injection Hg as _ _ _ _ Hst.
  by destruct (ok_matched _ _ _ _ _ (bank_trace_ok _ _ _ _ _ Htr) session Hst).
Qed.

Lemma settle_matched game seed s : felt_val this ≠ 0 → matched_game game s →
  settled_with game seed (transact (settle this o session seed) s).
Proof.
  intros Hthis Hm. pose proof Hm as (tr & Htr & Hg). destruct game as [[[p a] sd] b].
  injection Hg as _ _ _ _ Hst.
  destruct (settle_taken this o t0 tr s session seed Hthis Htr Hst) as (t' & Hs & _).
  exists s, t'. split_and!; [done|done|]. unfold transact. by rewrite Hs.
Qed.

(** ** Submitted is not executed *)

Context `{!SncastText}.

(** The text is the calldata of this settlement; of any settlement of this
    session. *)
Definition settles_with (text : string) (id seed : Felt) : Prop :=
  ∃ felts, sncast_felts text = Ok felts ∧ decode_call "settle" felts = Ok (Settle id seed).
Definition settles_here (text : string) : Prop := ∃ seed, settles_with text session seed.

(** What the network does: somebody else's call of the bank; a settlement is
    submitted, with a hash of its own and a text that [may] be submitted; a
    submitted one is executed, and takes its effect unless it reverts. *)
Inductive network_step (may : string → Prop) : network T → network T → Prop :=
  | step_other s s' p : quiet_step s s' → network_step may (Net s p) (Net s' p)
  | step_submit s p hash text : p !! hash = None → may text →
      network_step may (Net s p) (Net s (<[hash := (text, false)]> p))
  | step_execute s p hash text : p !! hash = Some (text, false) →
      network_step may (Net s p)
        (Net (transact (invoke this o "settle" text) s) (<[hash := (text, true)]> p)).

Definition submitted_as (hash text : string) (n : network T) : Prop :=
  ∃ done, settlements n !! hash = Some (text, done).
Definition executed (hash text : string) (n : network T) : Prop :=
  settlements n !! hash = Some (text, true).

Lemma network_step_mono (may may' : string → Prop) n n' :
  (∀ text, may text → may' text) → network_step may n n' → network_step may' n n'.
Proof. intros Hm. destruct 1; constructor; auto. Qed.

Lemma submitted_stays may hash text n n' :
  network_step may n n' → submitted_as hash text n → submitted_as hash text n'.
Proof.
  intros Hstep (d & Hd). destruct Hstep as [s s' p _|s p h t Hn _|s p h t Hp]; cbn in Hd.
  - by exists d.
  - exists d. cbn. rewrite lookup_insert_ne by congruence. done.
  - destruct (decide (h = hash)) as [->|Hne].
    + exists true. cbn. rewrite lookup_insert_eq. congruence.
    + exists d. cbn. by rewrite lookup_insert_ne.
Qed.

Lemma settles_with_fun text id id' seed seed' :
  settles_with text id seed → settles_with text id' seed' → id = id' ∧ seed = seed'.
Proof. intros (fs & Hf & Hd) (fs' & Hf' & Hd'). rewrite Hf in Hf'. injection Hf' as <-. rewrite Hd in Hd'. injection Hd'. done. Qed.

Lemma decode_settle felts c : decode_call "settle" felts = Ok c → ∃ id seed, c = Settle id seed.
Proof.
  destruct felts as [|id [|seed [|? ?]]]; [discriminate..| |discriminate]. intros [= <-]. eauto.
Qed.

(** A text is a settlement's, and is executed as that settlement, or no
    settlement's, and changes nothing. *)
Lemma settle_text_cases text :
  (∃ id seed, settles_with text id seed ∧
     ∀ s : State T, invoke this o "settle" text s = settle this o id seed s) ∨
  ((∀ id seed, ¬ settles_with text id seed) ∧
     ∀ s : State T, transact (invoke this o "settle" text) s = s).
Proof.
  unfold settles_with, transact, invoke, lift, mbind, prog_bind.
  destruct (sncast_felts text) as [felts|e|m|];
    [|by right; (split; [intros ?? (? & [=] & _)|])..].
  destruct (decode_call "settle" felts) as [c|e|m|] eqn:Hd;
    [|right; (split; [intros ?? (? & [= <-] & Hd'); congruence|done])..].
  destruct (decode_settle felts c Hd) as (id & seed & ->).
  left. exists id, seed. split; [by eexists|done].
Qed.

Lemma settle_step id seed s : o ≠ this →
  transact (settle this o id seed) s = s ∨
  bank_step this s (Called o (Settle id seed)) (transact (settle this o id seed) s).
Proof.
  intros Hne. unfold transact. destruct (settle this o id seed s) as [[[]| | |] s'] eqn:Hrun; [right|by left..].
  by apply step_call.
Qed.

(** The bank has the game matched and none of its settlements was executed, or
    has settled it with [seed]; every one that is submitted is with [seed]. *)
Record booked (game : Felt * Z * Felt * Felt) (seed : Felt) (n : network T) : Prop := {
  booked_bank :
    (matched_game game (at_bank n) ∧ ∀ hash text, executed hash text n → ¬ settles_here text) ∨
    settled_with game seed (at_bank n);
  booked_seed hash text sd :
    submitted_as hash text n → settles_with text session sd → sd = seed;
}.

Lemma booked_execute game seed s p hash text :
  felt_val this ≠ 0 → p !! hash = Some (text, false) → booked game seed (Net s p) →
  booked game seed (Net (transact (invoke this o "settle" text) s) (<[hash := (text, true)]> p)).
Proof.
  intros Hthis Hp [Hb Hs]. cbn [at_bank] in Hb. split; cbn [at_bank].
  - destruct (settle_text_cases text) as [(id & sd & Htext & Hrun)|[Hno Hrun]].
    + unfold transact. rewrite Hrun. change (settled_with game seed ?x) with (settled_with game seed x).
      fold (transact (settle this o id sd) s).
      destruct Hb as [[Hm Hex]|Hset].
      * destruct (decide (id = session)) as [->|Hne].
        { right. rewrite (Hs hash text sd); [by apply settle_matched|by exists false|done]. }
        left. split.
        { destruct (settle_step id sd s (matched_owner _ _ Hm)) as [->|Hstep]; [done|].
          eapply quiet_step_matched; [done|]. exists (Called o (Settle id sd)). split; [done|congruence]. }
        intros h t. unfold executed. cbn. intros [[-> [= <-]]|[? Hh]]%lookup_insert_Some; [|by eapply Hex].
        intros (sd' & [-> _]%(settles_with_fun _ _ _ _ _ Htext)). done.
      * right. pose proof Hset as (? & ? & Hm & _).
        destruct (settle_step id sd s (matched_owner _ _ Hm)) as [->|Hstep]; [done|].
        eapply settled_moves; [done|]. apply rtc_once. by eexists.
    + rewrite Hrun. destruct Hb as [[Hm Hex]|Hset]; [left|by right]. split; [done|].
      intros h t. unfold executed. cbn. intros [[-> [= <-]]|[? Hh]]%lookup_insert_Some; [|by eapply Hex].
      intros (sd & Hsd). by eapply Hno.
  - intros h t sd [d Hd]. cbn in Hd. apply lookup_insert_Some in Hd as [[-> [= <- _]]|[? Hh]];
      intros Ht; [apply (Hs h text)|apply (Hs h t)]; try done; by eexists.
Qed.

Lemma booked_step game seed may n n' :
  felt_val this ≠ 0 → (∀ text sd, may text → settles_with text session sd → sd = seed) →
  booked game seed n → network_step may n n' → booked game seed n'.
Proof.
  intros Hthis Hmay Hn Hstep. destruct Hstep as [s s' p Hq|s p h t Hnew Ht|s p h t Hp].
  - destruct Hn as [Hb Hs]. split; [|exact Hs]. destruct Hb as [[Hm Hex]|Hset].
    + left. split; [by eapply quiet_step_matched|exact Hex].
    + right. destruct Hq as (e & He & _). eapply settled_moves; [done|]. apply rtc_once. by eexists.
  - destruct Hn as [Hb Hs]. split.
    + destruct Hb as [[Hm Hex]|Hset]; [left; split; [exact Hm|]|by right].
      intros h' t'. unfold executed. cbn. intros [[_ [=]]|[_ Hh]]%lookup_insert_Some. by eapply Hex.
    + intros h' t' sd [d Hd]. cbn in Hd. apply lookup_insert_Some in Hd as [[-> [= <- _]]|[? Hh]];
        [by apply Hmay|]. apply (Hs h' t'). by exists d.
  - by apply booked_execute.
Qed.

Lemma booked_steps game seed may n n' :
  felt_val this ≠ 0 → (∀ text sd, may text → settles_with text session sd → sd = seed) →
  rtc (network_step may) n n' → booked game seed n → booked game seed n'.
Proof. intros Hthis Hmay. induction 1; eauto using booked_step. Qed.

(** Once a settlement of the game is executed, the bank has settled it. *)
Lemma booked_executed game seed hash text n :
  booked game seed n → executed hash text n → settles_here text → settled_with game seed (at_bank n).
Proof. intros [[[_ Hno]|Hset] _] Hex Ht; [by destruct (Hno _ _ Hex)|done]. Qed.

Lemma submitted_steps may hash text n n' :
  rtc (network_step may) n n' → submitted_as hash text n → submitted_as hash text n'.
Proof. induction 1; eauto using submitted_stays. Qed.

(** What is executed stays so. *)
Lemma executed_step may hash text n n' :
  network_step may n n' → executed hash text n → executed hash text n'.
Proof.
  unfold executed. intros Hstep Hd. destruct Hstep as [s s' p _|s p h t Hn _|s p h t Hp]; cbn in *;
    [done|..]; rewrite lookup_insert_ne; congruence.
Qed.

Lemma executed_steps may hash text n n' :
  rtc (network_step may) n n' → executed hash text n → executed hash text n'.
Proof. induction 1; eauto using executed_step. Qed.
End quiet.

(** ** The world of a play *)

(** The network, and the text of a file. *)
Class Ledger (W T : Type) `{FeltOps} := { ledger : W → network T }.
Class FileTexts (W : Type) := { file_text : W → string → option string }.

Section run.
Context {W : Type} `{Http W} `{Clock W} `{SerdeJson} `{FeltLaws} `{!Crypto} `{!L1Syscall} `{Env W}.
Context `{Process W} `{Files W} `{Random W} `{Gateway W} `{Events W} `{!Server W}.
Context `{RegexCaptures} `{JsonText} `{CoinFlipApp W}.
Context {T : Type} `{!ERC20 T} `{!ERC20Laws T} `{!SncastText} `{!SncastTextLaws}.
Context `{!Ledger W T} `{!FileTexts W}.

(** [b] is the bank that the server uses, [this] its address and [o] the
    server's account, its owner; [chain_at] is the chain at a block. *)
Context (fuel : nat) (b : BankDeployment) (this o : Felt) (t0 : T) (chain_at : Z → Chain).
Context (job : PlayJob) (session : Felt).

Definition tx_file : string := path_join CoinFlip.play_dir (job_session_id job +:+ "_tx.json").
Definition proof_file : string := path_join CoinFlip.play_dir (job_session_id job +:+ ".proof").
Definition messages_file : string := with_extension proof_file "raw_messages.json".

Definition settle_command (account : string) (w : W) : (string + Output) * W :=
  command_output "sncast" (CoinFlip.invoke_args account (bd_contract_address b) "settle"
    (settle_calldata (session_felt_of (job_session_id job)) (job_seed_block job))) None w.

(** The text of the settlement that the task submits. *)
Definition settle_text : string :=
  settle_calldata (session_felt_of (job_session_id job)) (job_seed_block job).

(** A text that settles another session, or none. *)
Definition elsewhere (text : string) : Prop := ¬ settles_here session text.

(** The world moved: the network executed what was submitted and nobody
    submitted a settlement of this session; the server kept its bank. *)
Definition calm (w w' : W) : Prop :=
  rtc (network_step this o session elsewhere) (ledger w) (ledger w') ∧
  bank (cf_state w') = bank (cf_state w).

Record house_rules : Prop := {
  (** only the command above submits settlements of this session: a property
      that all other movements of the world keep is kept by every host call *)
  rule_calls (P : W → Prop) :
    (∀ w w', calm w w' → P w → P w') →
    (∀ account w, P w → P (settle_command account w).2) → stable_world P;
  (** sncast submits at most the settlement it is called for, and prints a hash
      only of a transaction that it has submitted: the network may execute it
      later, or never *)
  rule_settle account w r w' : settle_command account w = (r, w') →
    bank (cf_state w') = bank (cf_state w) ∧
    rtc (network_step this o session (λ text, elsewhere text ∨ text = settle_text))
      (ledger w) (ledger w') ∧
    ∀ output hash, r = inr output →
      parse_hex "transaction_hash" (combined_output output) = Some hash →
      submitted_as hash settle_text (ledger w');
  (** the node gives an accepted receipt only for what the network has executed *)
  rule_receipt hash w receipt w' :
    wait_for_tx rpc fuel hash 120 3 w = (Ok receipt, w') →
    submitted_as hash settle_text (ledger w) → executed hash settle_text (ledger w');
  (** the two files of this session are the task's and its prover's *)
  rule_write text w w' : write_file tx_file text w = (inr tt, w') → file_text w' tx_file = Some text;
  rule_emit path e d w : path ∈ [tx_file; messages_file] → file_text (emit e d w) path = file_text w path;
  rule_len w : file_text (file_len proof_file w).2 messages_file = file_text w messages_file;
  rule_exists w path : path_exists w path = bool_decide (is_Some (file_text w path));
  rule_read w path text : file_text w path = Some text → (read_to_string path w).1 = inr text;
  (** the prover executes the transaction of its file on the state of the block
      and reports the messages that were sent, next to the proof *)
  rule_prove w w' url lines tx calldata :
    command_stream (find_snip36_bin w) (CoinFlip.prove_args job tx_file proof_file url) w = (inr (lines, inr true), w') →
    file_text w tx_file = Some (to_string_pretty tx) → read_felts tx "calldata" = Some calldata →
    ∃ ch' ms doc text, execute calldata (chain_at (job_seed_block job)) = (Ok tt, ch') ∧
      sent ch' = (sent (chain_at (job_seed_block job)) ++ ms)%list ∧ reports doc ms ∧
      file_text w' messages_file = Some text ∧ json_from_str text = Ok doc;
}.

(** ** The task's run *)

Context (Hrules : house_rules) (Hthis : felt_val this ≠ 0)
  (Hsession : felt_from_hex (session_felt_of (job_session_id job)) = Ok session)
  (Hblock : in_u u64_max (job_seed_block job)).

Abbreviation then_follows := (follows (W:=W) stable_world).

(** The game is still matched, or was settled with the seed of the play, and
    nothing else was submitted about it. *)
Definition open_or_settled (game : Felt * Z * Felt * Felt) (w : W) : Prop :=
  bank (cf_state w) = Some b ∧
  booked this o t0 session game (felt_of (job_seed_block job)) (ledger w).

Lemma settle_text_settles : settles_with settle_text session (felt_of (job_seed_block job)).
Proof.
  exists [session; felt_of (job_seed_block job)]. split; [|done].
  change settle_text with (String.concat " "
    [session_felt_of (job_session_id job); fmt_hex (job_seed_block job)]).
  apply sncast_words; [done|]. apply collect_from_hex_parse, collect_res_Ok.
  assert (u64_max < u128_max) by done. destruct Hblock.
  repeat constructor; [done|]. apply parse_u128. unfold in_u. lia.
Qed.

(** What may be submitted settles this session, if at all, with the play's
    seed. *)
Lemma may_seed text sd : elsewhere text ∨ text = settle_text →
  settles_with text session sd → sd = felt_of (job_seed_block job).
Proof.
  intros [Hno| ->] Ht; [by destruct Hno; exists sd|].
  by destruct (settles_with_fun _ _ _ _ _ Ht settle_text_settles).
Qed.

Lemma calm_open game w w' : calm w w' → open_or_settled game w → open_or_settled game w'.
Proof.
  intros [Hq Hb] [Hbank Hgame]. split; [by rewrite Hb|].
  eapply booked_steps; [done| |exact Hq|done]. intros text sd Hno. apply may_seed. by left.
Qed.

Lemma settle_command_open game account w r w' : settle_command account w = (r, w') →
  open_or_settled game w → open_or_settled game w'.
Proof.
  intros (Hb & Hrun & _)%(rule_settle Hrules) [Hbank Hgame]. split; [by rewrite Hb|].
  eapply booked_steps; [done|apply may_seed|exact Hrun|done].
Qed.

Lemma open_stable game : stable_world (open_or_settled game).
Proof.
  apply (rule_calls Hrules); [apply calm_open|]. intros account w Hopen.
  destruct (settle_command account w) as [r w'] eqn:E. by eapply settle_command_open.
Qed.

(** What every movement of the network keeps, every host call keeps. *)
Lemma ledger_stable (P : network T → Prop) :
  (∀ may n n', rtc (network_step this o session may) n n' → P n → P n') →
  stable_world (λ w, P (ledger w)).
Proof.
  intros HP. apply (rule_calls Hrules).
  - intros w w' [Hq _]. by eapply HP.
  - intros account w Hw. destruct (settle_command account w) as [r w'] eqn:E.
    apply (rule_settle Hrules) in E as (_ & Hrun & _). by eapply HP.
Qed.

(** A hash that the task reports is that of a submitted settlement, and when
    the wait for it gave a receipt the network has executed it. *)
Definition settlement_told (tx : string) (ws w' : W) : Prop :=
  ∃ account w1 output w2 outcome w3,
    then_follows ws w1 ∧
    settle_command account w1 = (inr output, w2) ∧
    parse_hex "transaction_hash" (combined_output output) = Some tx ∧
    wait_for_tx rpc fuel tx 120 3 w2 = (outcome, w3) ∧
    submitted_as tx settle_text (ledger w') ∧
    (∀ receipt, outcome = Ok receipt → executed tx settle_text (ledger w')).

Lemma settle_told game w tx w' : open_or_settled game w → CoinFlip.settle fuel job w = (Ok tx, w') →
  open_or_settled game w' ∧ (tx = "" ∨ settlement_told tx w w').
Proof.
  intros Hopen Hrun.
  assert (open_or_settled game w') as Hopen'.
  { pose proof (settle_keeps fuel _ (open_stable game) job w Hopen) as Hk. by rewrite Hrun in Hk. }
  split; [done|]. unfold CoinFlip.settle in Hrun.
  apply prog_bind_Ok in Hrun as (s & ? & [= <- <-] & Hrun).
  rewrite (proj1 Hopen) in Hrun. cbn [fmap option_fmap option_map] in Hrun.
  apply prog_bind_Ok in Hrun as (? & w1 & F1%(follows_run stable_world) & Hrun);
    [|intros P HP; apply send_keeps, HP].
  apply prog_bind_Ok in Hrun as (? & w2 & F2%(follows_run stable_world) & Hrun);
    [|intros P HP; apply send_keeps, HP].
  apply prog_bind_Ok in Hrun as (reply & w3 & Hx & Hrun).
  apply attempt_Ok in Hx as [(r & -> & Hx)|(e & -> & Hx)];
    [|apply prog_bind_Ok in Hrun as (? & ? & _ & [= <- _]); by left].
  destruct (CoinFlip.tx_hash r) as [hash|] eqn:Hhash;
    [|apply prog_bind_Ok in Hrun as (? & ? & _ & [= <- _]); by left].
  right. apply sncast_invoke_Ok in Hx as (output & wc & wd & Hcmd & -> & Hparse & Hwait).
  rewrite Hhash in Hparse, Hwait. destruct Hwait as (outcome & Hwait & _).
  apply prog_bind_Ok in Hrun as (? & w4 & F4%(follows_run stable_world) & Hrun);
    [|intros P HP; apply send_keeps, HP].
  apply prog_bind_Ok in Hrun as (? & w5 & F5%(follows_run stable_world) & [= <- <-]);
    [|intros P HP; apply send_keeps, HP].
  pose proof (ledger_stable (submitted_as hash settle_text)
    (λ may n n' Hs, submitted_steps _ _ _ may hash settle_text n n' Hs)) as HS.
  pose proof (ledger_stable (executed hash settle_text)
    (λ may n n' Hs, executed_steps _ _ _ may hash settle_text n n' Hs)) as HE.
  pose proof Hcmd as (_ & _ & Hsub)%(rule_settle Hrules).
  specialize (Hsub output hash eq_refl (eq_sym Hparse)).
  eexists _, _, output, wc, outcome, wd. split_and!; [|exact Hcmd|done|exact Hwait|..].
  - intros P HP Hw. by apply (stable_lock _ (stable_host_calls _ HP)), F2, F1.
  - apply (F5 _ HS), (F4 _ HS), (stable_unlock _ (stable_host_calls _ HS)).
    pose proof (preserves_wait_for_tx _ (stable_post _ (stable_host_calls _ HS))
      (stable_sleep _ (stable_host_calls _ HS)) rpc fuel hash 120 3 wc Hsub) as Hk.
    by rewrite Hwait in Hk.
  - intros receipt ->. apply (rule_receipt Hrules) in Hwait; [|exact Hsub].
    by apply (F5 _ HE), (F4 _ HE), (stable_unlock _ (stable_host_calls _ HE)).
Qed.

(** *** What the player is told *)

Lemma log_text {E} path text msg : path ∈ [tx_file; messages_file] →
  preserves (E:=E) (λ w, file_text w path = text) (log msg).
Proof. intros Hp. apply preserves_modify. intros w Hw. by rewrite (rule_emit Hrules). Qed.

(** The transaction that is left for the prover. *)
Lemma construct_tx_file felts nonce (w w' : W) : CoinFlip.construct_tx job felts tx_file w = (Ok nonce, w') →
  ∃ sig, file_text w' tx_file = Some (to_string_pretty (CoinFlip.play_tx_json (CoinFlip.play_calldata job) nonce sig)).
Proof.
  unfold CoinFlip.construct_tx. intros Hrun.
  apply prog_bind_Ok in Hrun as (n & w1 & _ & Hrun). cbv zeta in Hrun.
  apply prog_bind_Ok in Hrun as (sig & w2 & _ & Hrun).
  apply prog_bind_Ok in Hrun as (? & w3 & _ & Hrun).
  apply prog_bind_Ok in Hrun as (? & w4 & Hw%or_abort_Ok & Hrun).
  apply prog_bind_Ok in Hrun as (? & w5 & [= _ <-] & [= <- <-]). exists sig.
  unfold try_host in Hw. apply prog_bind_Ok in Hw as (r & w6 & Hc & Hr). unfold call_host in Hc.
  destruct (write_file tx_file _ w3) as [r' w7] eqn:Hwrite. injection Hc as <- <-.
  destruct r' as [|[]]; [done|]. injection Hr as <- <-.
  rewrite (rule_emit Hrules) by left. by apply (rule_write Hrules) in Hwrite.
Qed.

Lemma run_prover_reports tx calldata size (w w' : W) :
  file_text w tx_file = Some (to_string_pretty tx) → read_felts tx "calldata" = Some calldata →
  CoinFlip.run_prover job tx_file proof_file w = (Ok size, w') →
  ∃ ch' ms doc text, execute calldata (chain_at (job_seed_block job)) = (Ok tt, ch') ∧
    sent ch' = (sent (chain_at (job_seed_block job)) ++ ms)%list ∧ reports doc ms ∧
    file_text w' messages_file = Some text ∧ json_from_str text = Ok doc.
Proof.
  intros Htx Hcd. unfold CoinFlip.run_prover. intros Hrun.
  apply prog_bind_Ok in Hrun as (? & w1 & [= _ <-] & Hrun).
  apply prog_bind_Ok in Hrun as (? & w2 & [= _ <-] & Hrun).
  apply prog_bind_Ok in Hrun as (bin & ? & [= <- <-] & Hrun).
  apply prog_bind_Ok in Hrun as (url & ? & [= <- <-] & Hrun).
  apply prog_bind_Ok in Hrun as (child & w3 & Hchild & Hrun). unfold call_host in Hchild.
  destruct (command_stream _ _ _) as [child' w4] eqn:Hcmd. injection Hchild as <- <-.
  destruct child' as [|[lines [|[]]]]; [done|..]; apply prog_bind_Ok in Hrun as (? & w5 & Hlines & Hrun);
    [done| |done].
  eapply (rule_prove Hrules) in Hcmd as (ch' & ms & doc & text & He & Hs & Hr & Ht & Hdoc);
    [|by rewrite !(rule_emit Hrules) by left|exact Hcd].
  exists ch', ms, doc, text. split_and!; try done.
  assert (messages_file ∈ [tx_file; messages_file]) as Hin by (right; left).
  pose proof (preserves_for_each _ (log (E:=string)) lines (λ line, log_text messages_file _ line Hin) w4 Ht) as Ht5.
  rewrite Hlines in Ht5. cbn [snd] in Ht5.
  apply prog_bind_Ok in Hrun as (len & w6 & Hlen & Hrun). unfold call_host in Hlen.
  pose proof (rule_len Hrules w5) as Hkeep. destruct (file_len proof_file w5) as [l w7]. injection Hlen as <- <-.
  cbv zeta in Hrun. apply prog_bind_Ok in Hrun as (? & w8 & [= _ <-] & [= _ <-]).
  rewrite (rule_emit Hrules) by done. cbn [snd] in Hkeep. by rewrite Hkeep.
Qed.

Lemma read_settlement_told text doc told outcome (w w' : W) :
  file_text w messages_file = Some text → json_from_str text = Ok doc →
  CoinFlip.parse_settlement doc = Some told →
  CoinFlip.read_settlement proof_file w = (Ok outcome, w') → outcome = told.
Proof.
  intros Ht Hdoc Htold. unfold CoinFlip.read_settlement. cbv zeta. fold messages_file. intros Hrun.
  apply prog_bind_Ok in Hrun as (there & ? & [= <- <-] & Hrun).
  rewrite (rule_exists Hrules), Ht in Hrun. cbn [negb] in Hrun.
  rewrite bool_decide_true in Hrun by eauto. cbn [negb] in Hrun.
  apply prog_bind_Ok in Hrun as (r & w1 & Hread & Hrun). unfold call_host in Hread.
  pose proof (rule_read Hrules w _ _ Ht) as Hr. destruct (read_to_string messages_file w) as [r' w2].
  injection Hread as <- <-. cbn [fst] in Hr. rewrite Hr, Hdoc in Hrun. cbn [ok mbind option_bind] in Hrun.
  rewrite Htold in Hrun. destruct told as [outcome' won]. by apply prog_bind_Ok in Hrun as (? & ? & _ & [= <- _]).
Qed.

(** *** From the reveal to the payment *)

(** The parts of a run that tell the result and settle. *)
Lemma play_task_parts (w w' : W) : CoinFlip.play_task fuel job w = (Ok tt, w') →
  ∃ wt wp wr ws w7 nonce sig size outcome hash tx,
    file_text wt tx_file = Some (to_string_pretty (CoinFlip.play_tx_json (CoinFlip.play_calldata job) nonce sig)) ∧
    CoinFlip.run_prover job tx_file proof_file wt = (Ok size, wp) ∧
    CoinFlip.read_settlement proof_file wp = (Ok outcome, wr) ∧
    then_follows w ws ∧ CoinFlip.settle fuel job ws = (Ok tx, w7) ∧
    w' = emit "result" (json_to_string (CoinFlip.result_json job outcome hash tx size)) w7.
Proof.
  unfold CoinFlip.play_task. intros Hrun. cbv zeta in Hrun. fold tx_file proof_file in Hrun.
  apply prog_bind_Ok in Hrun as (? & w1 & F1%(follows_run stable_world) & Hrun);
    [|intros; by apply first_log_keeps].
  apply prog_bind_Ok in Hrun as (? & w2 & F2%(follows_run stable_world) & Hrun);
    [|intros P HP; apply send_keeps, HP].
  apply prog_bind_Ok in Hrun as (felts & w3 & F3%(follows_run stable_world) & Hrun);
    [|intros; by apply parse_felts_keeps].
  apply prog_bind_Ok in Hrun as (nonce & w4 & Hc & Hrun).
  pose proof (follows_run stable_world _ _ _ _ (λ P HP, construct_tx_keeps P HP job felts tx_file) Hc) as F4.
  apply construct_tx_file in Hc as [sig Hfile].
  apply prog_bind_Ok in Hrun as (size & w5 & Hprove & Hrun).
  pose proof (follows_run stable_world _ _ _ _ (λ P HP, run_prover_keeps P HP job _ _) Hprove) as F5.
  apply prog_bind_Ok in Hrun as (outcome & w6 & Hread & Hrun).
  pose proof (follows_run stable_world _ _ _ _ (λ P HP, read_settlement_keeps P HP _) Hread) as F6.
  apply prog_bind_Ok in Hrun as (? & w7 & F7%(follows_run stable_world) & Hrun);
    [|intros P HP; apply send_keeps, HP].
  apply prog_bind_Ok in Hrun as ([hash payload] & w8 & F8%(follows_run stable_world) & Hrun);
    [|intros; by apply build_submission_stable].
  apply prog_bind_Ok in Hrun as (? & w9 & F9%(follows_run stable_world) & Hrun);
    [|intros P HP; apply send_keeps, HP].
  apply prog_bind_Ok in Hrun as (accepted & w10 & F10%(follows_run stable_world) & Hrun);
    [|intros; by apply submit_loop_keeps].
  apply prog_bind_Ok in Hrun as (? & w11 & F11%(follows_run stable_world) & Hrun);
    [|intros P HP; destruct accepted; [apply preserves_ret|apply abort_task_keeps, HP]].
  apply prog_bind_Ok in Hrun as (? & w12 & F12%(follows_run stable_world) & Hrun);
    [|intros; by apply await_inclusion_keeps].
  apply prog_bind_Ok in Hrun as (tx & w13 & Hsettle & [= <-]).
  exists w4, w5, w6, w12, w13, nonce, sig, size, outcome. do 2 eexists.
  split_and!; [exact Hfile|exact Hprove|exact Hread| |exact Hsettle|reflexivity].
  by rewrite F1, F2, F3, F4, F5, F6, F7, F8, F9, F10, F11.
Qed.

Lemma json_calldata nonce sig calldata :
  collect_res felt_from_hex (CoinFlip.play_calldata job) = Ok calldata →
  read_felts (CoinFlip.play_tx_json (CoinFlip.play_calldata job) nonce sig) "calldata" = Some calldata.
Proof. intros Hcd. by eapply read_felts_words. Qed.

(** What the task reads back is the message of the game. *)
Lemma prover_told a player nonce sig size outcome (wt wp wr : W) :
  felt_from_hex (job_contract_address job) = Ok a →
  contracts (chain_at (job_seed_block job)) !! a = Some CoinFlipAt →
  felt_from_hex (job_player job) = Ok player → job_bet job ∈ [0; 1] →
  (∀ p, send_message_to_l1_syscall CoinFlipGame.SETTLEMENT_ADDRESS p = Ok tt) →
  file_text wt tx_file = Some (to_string_pretty (CoinFlip.play_tx_json (CoinFlip.play_calldata job) nonce sig)) →
  CoinFlip.run_prover job tx_file proof_file wt = (Ok size, wp) →
  CoinFlip.read_settlement proof_file wp = (Ok outcome, wr) →
  ∃ doc, reports doc [play_message a (felt_of (job_seed_block job)) player (felt_of (job_bet job))] ∧
    CoinFlip.parse_settlement doc = Some outcome.
Proof.
  intros Ha Hat Hp Hbet Hsys Hfile Hprove Hread.
  destruct (play_executes job a player) as (cd & Hcd & Hexec); [done..|].
  eapply run_prover_reports in Hprove as (ch' & ms & doc & text & He & Hms & Hdoc & Ht & Hjson);
    [|exact Hfile|by apply json_calldata].
  rewrite Hexec in He by done. injection He as <-. cbn [sent] in Hms. apply app_inv_head in Hms as <-.
  exists doc. split; [done|].
  destruct (play_reported a (felt_of (job_seed_block job)) player (job_bet job) doc Hbet Hdoc) as [_ Htold].
  by rewrite (read_settlement_told text doc _ outcome wp wr Ht Hjson Htold Hread).
Qed.
End run.

Section claim.
Context {W : Type} `{Http W} `{Clock W} `{SerdeJson} `{FeltLaws} `{!Crypto} `{!L1Syscall} `{Env W}.
Context `{Process W} `{Files W} `{Random W} `{Gateway W} `{Events W} `{!Server W}.
Context `{RegexCaptures} `{JsonText} `{CoinFlipApp W} `{!CoinFlipAppLaws W}.
Context {T : Type} `{!ERC20 T} `{!ERC20Laws T} `{!SncastText} `{!SncastTextLaws}.
Context `{!Ledger W T} `{!FileTexts W}.

(** Whatever settlement of the game is made with the seed, it pays as the
    player was told, by the bet of the deposit. *)
Lemma paid_as_told this o (t0 : T) session game player amount sd stored bet block a doc outcome told s t' s' :
  game = (player, amount, sd, felt_of stored) →
  bet ∈ [0; 1] → stored ∈ [0; 1] → felt_val this ≠ 0 → player ≠ o →
  settled_from this o t0 session game (felt_of block) s t' s' →
  reports doc [play_message a (felt_of block) player (felt_of bet)] →
  CoinFlip.parse_settlement doc = Some (outcome, told) →
  (bet = stored → paid player amount (token s) t' ↔ told = true) ∧
  (bet ≠ stored → paid player amount (token s) t' ↔ told = false).
Proof.
  intros -> Hbet Hst Hthis Hpo ((tr & Htr & Hg) & Hs & _) Hdoc Htold.
  destruct (payout_told this o t0 tr s session a player amount sd stored bet block doc)
    as (told' & t1 & Ht1 & Hs1 & Heq & Hneq); [done..|].
  rewrite Htold in Ht1. injection Ht1 as _ <-. rewrite Hs in Hs1. injection Hs1 as <-. done.
Qed.

Lemma settlement_told_from fuel b job tx (w ws w' : W) :
  follows stable_world w ws → settlement_told fuel b job tx ws w' → settlement_told fuel b job tx w w'.
Proof.
  intros Hf (account & w1 & output & w2 & outcome & w3 & Hw1 & Hrest).
  exists account, w1, output, w2, outcome, w3. split; [by etrans|done].
Qed.

(** C13: One play, from the accepted reveal to the payment. When the session's
    game is matched in the bank, nobody else submits a settlement of it, and
    the task ends, the player is told the outcome of the seed and the
    revealed bet, and the game is still matched or was settled with that
    seed. Such a settlement pays by the bet of the deposit: if the two bets
    are the same, the player gets both stakes exactly when told to have won,
    and if they are not, exactly when told to have lost. A settlement hash
    in the result was printed by sncast and is that of a submitted
    transaction: it was executed if the wait for it gave a receipt, and
    whenever it is executed the bank has settled the game; but the hash is
    reported also when the wait fails. *)
Theorem fair_play fuel b this o (t0 : T) chain_at job session params (w0 w w' : W)
    a player amount sd stored :
  house_rules fuel b this o chain_at job session → felt_val this ≠ 0 →
  felt_from_hex (session_felt_of (job_session_id job)) = Ok session →
  in_u u64_max (job_seed_block job) → 0 ≤ pq_bet params → stored ∈ [0; 1] → player ≠ o →
  play_start (job_session_id job) params w0 = (Ok job, w) →
  felt_from_hex (pq_player params) = Ok player → felt_from_hex (job_contract_address job) = Ok a →
  contracts (chain_at (job_seed_block job)) !! a = Some CoinFlipAt →
  (∀ p, send_message_to_l1_syscall CoinFlipGame.SETTLEMENT_ADDRESS p = Ok tt) →
  bank (cf_state w) = Some b →
  matched_game this o t0 session (player, amount, sd, felt_of stored) (at_bank (ledger w)) →
  (∀ hash text, submitted_as hash text (ledger w) → elsewhere session text) →
  CoinFlip.play_task fuel job w = (Ok tt, w') →
  let game := (player, amount, sd, felt_of stored) in
  let seed := felt_of (job_seed_block job) in
  let bet := Z.min (pq_bet params) 1 in
  let told := bool_decide (flip_outcome seed player = bet) in
  ∃ hash settle_tx size w1,
    w' = emit "result" (json_to_string (CoinFlip.result_json job
      (face (flip_outcome seed player), told) hash settle_tx size)) w1 ∧
    (matched_game this o t0 session game (at_bank (ledger w1)) ∨
     settled_with this o t0 session game seed (at_bank (ledger w1))) ∧
    (∀ s t' s', settled_from this o t0 session game seed s t' s' →
       (bet = stored → paid player amount (token s) t' ↔ told = true) ∧
       (bet ≠ stored → paid player amount (token s) t' ↔ told = false)) ∧
    (settle_tx = "" ∨
     settlement_told fuel b job settle_tx w w1 ∧
     ∀ n, rtc (network_step this o session (elsewhere session)) (ledger w1) n →
       executed settle_tx (settle_text job) n →
       settled_with this o t0 session game seed (at_bank n)).
Proof.
  intros Hrules Hthis Hid Hblock Hbet Hst Hpo Hstart Hp Ha Hat Hsys Hbank Hm Hnone Hrun game seed bet told.
  apply play_start_Ok in Hstart as (d & c & bet' & _ & _ & (-> & _)%verify_reveal_Ok & Hj & _).
  fold bet in Hj.
  assert (job_bet job = bet ∧ job_player job = pq_player params) as [Hjb Hjp] by by rewrite Hj.
  assert (bet ∈ [0; 1]) as Hbit.
  { rewrite !elem_of_cons, elem_of_nil. subst bet. lia. }
  eapply play_task_parts in Hrun as (wt & wp & wr & ws & w7 & nonce & sig & size & outcome & hash & tx &
    Hfile & Hprove & Hread & Hfollow & Hsettle & ->); [|exact Hrules].
  destruct (prover_told fuel b this o chain_at job session Hrules Hblock a player nonce sig size outcome wt wp wr)
    as (doc & Hdoc & Htold); rewrite ?Hjb, ?Hjp; [done..|].
  rewrite Hjb in Hdoc.
  assert (booked this o t0 session game seed (ledger w)) as Hstart.
  { split; [left; split; [done|]|].
    - intros h t Ht. apply (Hnone h). by exists true.
    - intros h t sd' Ht Hsd. destruct (Hnone h t Ht). by exists sd'. }
  assert (open_or_settled b this o t0 job session game ws) as Hopen.
  { apply (Hfollow _ (open_stable _ _ _ _ _ _ _ _ Hrules Hthis Hid Hblock game)). by split. }
  eapply settle_told in Hsettle as [Hopen' Hset]; [|done..].
  destruct (play_reported a seed player bet doc Hbit Hdoc) as [_ Htold'].
  rewrite Htold in Htold'. injection Htold' as ->.
  exists hash, tx, size, w7. split; [done|]. split.
  { destruct Hopen' as [_ [[[Hmt _]|Hs] _]]; [by left|by right]. }
  split; [intros s t' s' Hs; by eapply paid_as_told|].
  destruct Hset as [|Hset]; [by left|right]. split; [by eapply settlement_told_from|].
  intros n Hn Hex. eapply booked_executed; [|exact Hex|].
  - eapply booked_steps; [done| |exact Hn|exact (proj2 Hopen')].
    intros text sd' Hno. eapply may_seed; [done..|by left].
  - eexists. by eapply settle_text_settles.
Qed.
End claim.
