(* ===== verification/Health.v ===== *)
(** * The health check ([apps/counter/src/health.rs])

    [snip36 health]: is the node there, has the account money, is the account
    class declared, and does a counter work from its compilation to its first
    increment.  A check that fails is recorded and never an error; [PASSED]
    and [FAILED] are the counters of [Driver.Tally]. *)

From Stdlib Require Import SpecFloat.
From S2P Require Import Prelude RustNum RustStr RustFloat Json Felt Types Signing.
From S2P Require Import Config Rpc Host Submission Counter Driver DriverFacts.

Record HealthArgs := { quick : bool }.

(** A line that starts with a line break. *)
Definition titled (title : string) : string := String "010" ("-- " +:+ title +:+ " --").

Definition sncast_account : string := "ci-health-check".

(** [a << n] on [u128]: a shift of 128 or more is a panic with overflow
    checks, and shifts by the low seven bits of [n] without. *)
Definition shl_u128 (overflow_checks : bool) (a n : Z) : res string Z :=
  if n <? 128 then Ok (Z.shiftl a n mod 2 ^ 128)
  else if overflow_checks then Panic "attempt to shift left with overflow"
  else Ok (Z.shiftl a (Z.land n 127) mod 2 ^ 128).

(** [u128::from_str_radix(s.trim_start_matches("0x"), 16).unwrap_or(0)]. *)
Definition word_of (s : string) : Z := default 0 (ok (parse_hex_quantity u128_max s)).

(** [low + (high << 128)] of the words of a balance. *)
Definition balance_wei (checks : bool) (first : string) (rest : list string) : res string Z :=
  let low := word_of first in
  let high := match rest with second :: _ => word_of second | [] => 0 end in
  shifted ← shl_u128 checks high 128;
  add_u checks u128_max low shifted.

Definition balance_strk (wei : Z) : spec_float := f64_div (f64_of_Z wei) f64_1e18.

Section health.
Context {W : Type} `{Http W} `{Clock W} `{SerdeJson} `{Env W}.
Context `{Process W} `{Files W} `{Random W} `{RegexLite}.
Context `{Statics W} `{Console W}.
Context (fuel : nat) (checks : bool) (args : HealthArgs).

Definition check_pass (name detail : string) : prog W string unit :=
  on_tally count_pass;;
  if decide (detail = "") then info ("  PASS: " +:+ name)
  else info ("  PASS: " +:+ name +:+ " (" +:+ detail +:+ ")").

Definition check_fail (name detail : string) : prog W string unit :=
  on_tally count_fail;;
  if decide (detail = "") then error ("  FAIL: " +:+ name)
  else error ("  FAIL: " +:+ name +:+ " -- " +:+ detail).

(** [check_fail(..); return]. *)
Definition stop {A} (name detail : string) : prog W string (option A) :=
  check_fail name detail;; mret None.

Section checks.
Context (c : Config).

(** ** The node *)

Definition check_rpc : prog W string unit :=
  info (titled "Check 1: RPC node reachable");;
  r ← attempt (block_number (client c));
  match r with
  | inl e => check_fail "RPC reachable" (rpc_error_text e)
  | inr block =>
      if 0 <? block then
        check_pass "RPC reachable" ("block " +:+ pretty block);;
        r ← attempt (get_chain_id (client c));
        match r with
        | inr chain_id => check_pass "Chain ID" chain_id
        | inl e => check_fail "Chain ID" (rpc_error_text e)
        end
      else check_fail "RPC reachable" ("unexpected block number: " +:+ pretty block)
  end.

Definition check_balance (master_address : string) : prog W string unit :=
  info (titled "Check 2: Master account STRK balance");;
  r ← attempt (starknet_call (client c) STRK_TOKEN BALANCE_OF_SELECTOR [master_address]);
  match r with
  | inl e => check_fail "Balance check" (rpc_error_text e)
  | inr [] => check_fail "Balance check" "empty result"
  | inr (first :: rest) =>
      wei ← lift (balance_wei checks first rest);
      let strk := balance_strk wei in
      if f64_ge strk (f64_of_Z 1) then
        check_pass "STRK balance" (fmt_fixed 2 strk +:+ " STRK")
      else check_fail "STRK balance too low" (fmt_fixed 2 strk +:+ " STRK < 1.0 STRK minimum")
  end.

Definition check_oz_class : prog W string unit :=
  info (titled "Check 3: OZ Account class declared");;
  r ← attempt (get_class (client c) OZ_ACCOUNT_CLASS_HASH);
  match r with
  | inr _ => short ← lift (first_bytes 18 OZ_ACCOUNT_CLASS_HASH);
             check_pass "OZ class declared" ((short : string) +:+ "...")
  | inl e => check_fail "OZ class declared" (rpc_error_text e)
  end.

(** ** The counter *)

Fixpoint commands_present (cmds : list string) : prog W string (option unit) :=
  match cmds with
  | [] => mret (Some tt)
  | cmd :: cmds =>
      r ← call_host (command_output "which" [cmd] None);
      match r with
      | inr o => if out_success o then commands_present cmds
                 else stop (cmd +:+ " not in PATH") "skipping full flow"
      | inl _ => stop (cmd +:+ " not in PATH") "skipping full flow"
      end
  end.

Definition compile_counter : prog W string (option unit) :=
  info "  Compiling counter contract...";;
  build ← call_host (command_output "scarb" ["build"] (Some (contracts_dir c)));
  match build with
  | inr output =>
      if out_success output then check_pass "Compile counter" "";; mret (Some tt)
      else out ← lift (first_bytes 500 (format_cmd_output output)); stop "Compile counter" out
  | inl e => stop "Compile counter" e
  end.

(** What an output names is shown by its first eighteen bytes. *)
Definition found (name missing : string) (o : option string) : prog W string (option string) :=
  match o with
  | Some h =>
      short ← lift (first_bytes 18 h);
      check_pass name ((short : string) +:+ "...");; mret (Some h)
  | None => stop name missing
  end.

Definition declare_args : list string :=
  ["--account"; sncast_account; "declare"; "--contract-name"; "Counter"; "--url"; rpc_url c].

Definition declare_counter : prog W string (option string) :=
  info "  Declaring counter class...";;
  declared ← call_host (command_output "sncast" declare_args (Some (contracts_dir c)));
  match declared with
  | inr output =>
      found "Declare counter" "could not parse class_hash" (class_hash_of (format_cmd_output output))
  | inl e => stop "Declare counter" e
  end.

Definition deploy_args (class_hash salt : string) : list string :=
  ["--account"; sncast_account; "deploy"; "--class-hash"; class_hash; "--salt"; salt;
   "--url"; rpc_url c].

Definition deploy_counter (class_hash : string) : prog W string (option (string * option string)) :=
  info "  Deploying counter contract...";;
  salt ← fresh_salt;
  deployed ← call_host (command_output "sncast" (deploy_args class_hash salt) None);
  match deployed with
  | inr output =>
      let combined := format_cmd_output output in
      address ← found "Deploy counter" "could not parse contract_address"
        (parse_hex_from_output "contract_address" combined);
      mret ((λ a : string, (a, parse_hex_from_output "transaction_hash" combined)) <$> address)
  | inl e => stop "Deploy counter" e
  end.

(** Nothing is checked or recorded without a hash, and nothing is recorded with
    a receipt without a block number. *)
Definition confirm_deploy (deploy_tx : option string) : prog W string (option unit) :=
  match deploy_tx with
  | None => mret (Some tt)
  | Some tx =>
      r ← attempt (wait_for_tx (client c) fuel tx 120 3);
      match r with
      | inr receipt =>
          match receipt_block_number receipt with
          | Some bn =>
              attempt (wait_for_block_after (client c) fuel bn 120 3);;
              check_pass "Deploy tx confirmed" ("block " +:+ pretty bn)
          | None => mret tt
          end;;
          mret (Some tt)
      | inl _ => stop "Deploy tx confirmation" "timeout"
      end
  end.

Definition invoke_args (contract_address : string) : list string :=
  ["--account"; sncast_account; "invoke"; "--contract-address"; contract_address;
   "--function"; "increment"; "--calldata"; "0x1"; "--url"; rpc_url c].

Definition invoke_increment (contract_address : string) : prog W string (option string) :=
  info "  Invoking increment(1)...";;
  invoke ← call_host (command_output "sncast" (invoke_args contract_address) None);
  match invoke with
  | inr output =>
      found "Invoke increment" "could not parse tx hash"
        (parse_hex_from_output "transaction_hash" (format_cmd_output output))
  | inl e => stop "Invoke increment" e
  end.

Definition confirm_invoke (invoke_tx : string) : prog W string (option unit) :=
  r ← attempt (wait_for_tx (client c) fuel invoke_tx 120 3);
  match r with
  | inr receipt =>
      check_pass "Invoke tx confirmed" "";;
      match receipt_block_number receipt with
      | Some bn => attempt (wait_for_block_after (client c) fuel bn 120 3);; mret tt
      | None => mret tt
      end;;
      mret (Some tt)
  | inl _ => stop "Invoke tx confirmation" "timeout"
  end.

(** [values.first().and_then(|v| u64::from_str_radix(..).ok()).unwrap_or(0)]. *)
Definition counter_of (values : list string) : Z :=
  default 0 (head values ≫= λ v, ok (parse_hex_quantity u64_max v)).

Definition read_counter (contract_address : string) : prog W string unit :=
  info "  Reading counter value...";;
  r ← attempt (starknet_call (client c) contract_address GET_COUNTER_SELECTOR []);
  match r with
  | inr values =>
      let counter := counter_of values in
      if 1 <=? counter then check_pass "Counter value" (pretty counter)
      else check_fail "Counter value" ("expected >= 1, got " +:+ pretty counter)
  | inl e => check_fail "Read counter" (rpc_error_text e)
  end.

(** [m], and the rest unless [m] returned early. *)
Definition and_then {A} (m : prog W string (option A)) (k : A → prog W string unit)
    : prog W string unit :=
  o ← m; match o with Some a => k a | None => mret tt end.

Definition check_full_flow : prog W string unit :=
  info (titled "Check 4: Full playground flow");;
  and_then (commands_present ["sncast"; "scarb"]) (λ _,
  import_silently c sncast_account;;
  and_then compile_counter (λ _,
  and_then declare_counter (λ class_hash,
  and_then (deploy_counter class_hash) (λ deployed,
  and_then (confirm_deploy deployed.2) (λ _,
  and_then (invoke_increment deployed.1) (λ invoke_tx,
  and_then (confirm_invoke invoke_tx) (λ _, read_counter deployed.1))))))).

(** ** The run *)

Definition optional_flow : prog W string unit :=
  if negb (quick args) && negb (bool_decide (private_key c = "")) then check_full_flow
  else if quick args then info (titled "Check 4: Skipped (--quick)")
  else info (titled "Check 4: Skipped (no STARKNET_PRIVATE_KEY)").

Definition result : prog W string verdict :=
  t ← reads tally;
  for_each info [""; rule; "  Passed: " +:+ pretty (pass_count t);
    "  Failed: " +:+ pretty (fail_count t); rule];;
  if 0 <? fail_count t then
    info ("  RESULT: " +:+ pretty (fail_count t) +:+ " CHECK(S) FAILED");; mret ExitFailure
  else info "  RESULT: ALL CHECKS PASSED";; mret AllPassed.

Definition greeting : prog W string unit :=
  info "=== SNIP-36 Playground Health Check ===";;
  info ("  RPC:     " +:+ rpc_url c);;
  let account := account_address c in
  front ← lift (first_bytes 10 account);
  back ← lift (bytes_from (String.length account - 6) account);
  info ("  Account: " +:+ (front : string) +:+ "..." +:+ (back : string)).
End checks.

Definition run (env_file : option string) : prog W string verdict :=
  c ← mapping_err config_error_text (from_env env_file);
  reset_statics;;
  greeting c;;
  check_rpc c;;
  check_balance c (account_address c);;
  check_oz_class c;;
  optional_flow c;;
  result.
End health.

(** ** Facts *)

(** The second word of a balance is lost: with overflow checks every balance
    is a panic, and without them the second word is added to the first
    instead of counting 2^128 times as much. *)
Lemma balance_wei_eq checks first rest :
  balance_wei checks first rest =
  if checks then Panic "attempt to shift left with overflow"
  else Ok ((word_of first + match rest with second :: _ => word_of second | [] => 0 end) mod 2 ^ 128).
Proof.
  unfold balance_wei, shl_u128. destruct checks; [done|]. cbn [Z.ltb Z.compare Pos.compare Pos.compare_cont].
  change (Z.land 128 127) with 0. rewrite Z.shiftl_0_r. cbn [mbind res_bind].
  set (high := match rest with [] => _ | _ => _ end).
  assert (0 ≤ high < 2 ^ 128) as Hhigh.
  { assert (∀ s, 0 ≤ word_of s < 2 ^ 128) as Hw.
    { intros s. unfold word_of. destruct (parse_hex_quantity u128_max s) as [n| | |] eqn:Hn; cbn; try lia.
      apply parse_hex_quantity_range in Hn; [unfold in_u, u128_max in *; lia|done]. }
    destruct rest; [cbn; lia|apply Hw]. }
  rewrite (Z.mod_small high) by done. unfold add_u, in_u, u128_max.
  destruct (in_u_dec _ _) as [Hin|Hout]; unfold in_u in *.
  - by rewrite Z.mod_small by lia.
  - f_equal.
Qed.

Section facts.
Context {W : Type} `{Http W} `{Clock W} `{SerdeJson} `{Env W}.
Context `{Process W} `{Files W} `{Random W} `{Gateway W} `{RegexLite}.
Context `{Statics W} `{Console W} `{DriverHost W} `{!DriverLaws}.
Context (fuel : nat) (checks : bool) (args : HealthArgs) (c : Config).

Abbreviation then_follows := (follows stable_driver).

Ltac keeps_health HP := repeat first
  [ progress unfold check_pass, check_fail, stop, found, and_then, import_silently, fresh_salt
  | progress keeps_driver HP ].
Ltac follows_health Hrun := eapply follows_run; [|exact Hrun]; intros ? HP; keeps_health HP.

(** *** Counting *)

(** [good] holds and no failed check was recorded, or exactly one was. *)
Definition recorded (good : Prop) (w w' : W) : Prop :=
  (fail_count (tally w') = fail_count (tally w) ∧ good) ∨
  fail_count (tally w') = fetch_inc (fail_count (tally w)).

Lemma quiet_check_pass name detail : quiet (check_pass name detail).
Proof.
  unfold check_pass. apply quiet_bind; [|intros; case_match; apply silent_quiet, silent_info].
  intros w u w' [= _ <-]. by rewrite tally_set.
Qed.
Hint Resolve quiet_check_pass : quiet.

Lemma check_fail_tally name detail (w w' : W) u :
  check_fail name detail w = (Ok u, w') → fail_count (tally w') = fetch_inc (fail_count (tally w)).
Proof.
  intros (? & w1 & [= _ <-] & Hrun)%prog_bind_Ok. revert Hrun.
  match goal with |- ?m _ = _ → _ => assert (silent m) as Hs by (case_match; silences) end.
  intros Hrun. rewrite (silent_tally _ _ _ _ Hs Hrun). by rewrite tally_set.
Qed.

Lemma stop_Ok {A} name detail (w w' : W) (o : option A) :
  stop name detail w = (Ok o, w') →
  o = None ∧ fail_count (tally w') = fetch_inc (fail_count (tally w)).
Proof. by intros (? & w1 & Hf%check_fail_tally & [= <- <-])%prog_bind_Ok. Qed.

Lemma check_fail_recorded name detail good (w w1 w' : W) u :
  fail_count (tally w1) = fail_count (tally w) → check_fail name detail w1 = (Ok u, w') →
  recorded good w w'.
Proof. intros Hq Hf%check_fail_tally. right. by rewrite Hf, Hq. Qed.

Lemma quiet_info line : quiet (info line : prog W string unit).
Proof. quiets. Qed.

Lemma quiet_attempt_post {A} (m : prog W RpcError A) : silent m → quiet (attempt m : prog W string _).
Proof. intros Hm. apply silent_quiet. intros P HP. apply preserves_attempt, Hm, HP. Qed.

(** *** The node, the balance, the class *)

Definition node_up (w w' : W) : Prop :=
  ∃ block id wa wb wc wd, then_follows w wa ∧ block_number (client c) wa = (Ok block, wb) ∧ 0 < block ∧
    then_follows wb wc ∧ get_chain_id (client c) wc = (Ok id, wd) ∧ then_follows wd w'.

Lemma check_rpc_recorded (w w' : W) u : check_rpc c w = (Ok u, w') → recorded (node_up w w') w w'.
Proof.
  unfold check_rpc. intros (? & wa & Hi & Hrun)%prog_bind_Ok.
  pose proof (quiet_info _ _ _ _ Hi) as Qa.
  apply prog_bind_Ok in Hrun as (r & wb & Hb & Hrun).
  assert (Hq : quiet (attempt (block_number (client c)) : prog W string _)) by quiets.
  pose proof (Hq _ _ _ Hb) as Qb. apply attempt_Ok in Hb. rewrite Qa in Qb.
  destruct Hb as [(block & -> & Hb)|(e & -> & _)]; [|by eapply check_fail_recorded].
  destruct (Z.ltb_spec 0 block); [|by eapply check_fail_recorded].
  apply prog_bind_Ok in Hrun as (? & wc & Hp & Hrun). pose proof (quiet_check_pass _ _ _ _ _ Hp) as Qc.
  apply prog_bind_Ok in Hrun as (r & wd & Hid & Hrun).
  assert (Hq2 : quiet (attempt (get_chain_id (client c)) : prog W string _)) by quiets.
  pose proof (Hq2 _ _ _ Hid) as Qd. apply attempt_Ok in Hid. rewrite Qc, Qb in Qd.
  destruct Hid as [(id & -> & Hid)|(e & -> & _)]; [|by eapply check_fail_recorded].
  left. split; [by rewrite (quiet_check_pass _ _ _ _ _ Hrun)|].
  exists block, id, wa, wb, wc, wd. split_and!; try done;
    [follows_health Hi|follows_health Hp|follows_health Hrun].
Qed.

Definition funded (w w' : W) : Prop :=
  ∃ first rest wei wa wb, then_follows w wa ∧
    starknet_call (client c) STRK_TOKEN BALANCE_OF_SELECTOR [account_address c] wa
      = (Ok (first :: rest), wb) ∧
    balance_wei checks first rest = Ok wei ∧ f64_ge (balance_strk wei) (f64_of_Z 1) = true ∧
    then_follows wb w'.

Lemma check_balance_recorded (w w' : W) u :
  check_balance checks c (account_address c) w = (Ok u, w') → recorded (funded w w') w w'.
Proof.
  unfold check_balance. intros (? & wa & Hi & Hrun)%prog_bind_Ok.
  pose proof (quiet_info _ _ _ _ Hi) as Qa.
  apply prog_bind_Ok in Hrun as (r & wb & Hb & Hrun).
  assert (Hq : quiet (attempt (starknet_call (client c) STRK_TOKEN BALANCE_OF_SELECTOR
    [account_address c]) : prog W string _)) by quiets.
  pose proof (Hq _ _ _ Hb) as Qb. apply attempt_Ok in Hb. rewrite Qa in Qb.
  destruct Hb as [(l & -> & Hb)|(e & -> & _)]; [|by eapply check_fail_recorded].
  destruct l as [|first rest]; [by eapply check_fail_recorded|].
  apply prog_bind_Ok in Hrun as (wei & ? & [Hwei ->]%lift_Ok & Hrun). cbv zeta in Hrun.
  destruct (f64_ge _ _) eqn:Hge; [|by eapply check_fail_recorded].
  left. split; [by rewrite (quiet_check_pass _ _ _ _ _ Hrun)|].
  exists first, rest, wei, wa, wb. split_and!; try done; [follows_health Hi|follows_health Hrun].
Qed.

Definition class_known (w w' : W) : Prop :=
  ∃ class wa wb, then_follows w wa ∧ get_class (client c) OZ_ACCOUNT_CLASS_HASH wa = (Ok class, wb) ∧
    then_follows wb w'.

Lemma check_oz_class_recorded (w w' : W) u :
  check_oz_class c w = (Ok u, w') → recorded (class_known w w') w w'.
Proof.
  unfold check_oz_class. intros (? & wa & Hi & Hrun)%prog_bind_Ok.
  pose proof (quiet_info _ _ _ _ Hi) as Qa.
  apply prog_bind_Ok in Hrun as (r & wb & Hb & Hrun).
  assert (Hq : quiet (attempt (get_class (client c) OZ_ACCOUNT_CLASS_HASH) : prog W string _)) by quiets.
  pose proof (Hq _ _ _ Hb) as Qb. apply attempt_Ok in Hb. rewrite Qa in Qb.
  destruct Hb as [(class & -> & Hb)|(e & -> & _)]; [|by eapply check_fail_recorded].
  apply prog_bind_Ok in Hrun as (short & ? & [_ ->]%lift_Ok & Hrun).
  left. split; [by rewrite (quiet_check_pass _ _ _ _ _ Hrun)|].
  exists class, wa, wb. split_and!; try done; [follows_health Hi|follows_health Hrun].
Qed.

(** *** The counter *)

(** A stage that does not return early has done its work without recording a
    failure, and one that does has recorded one. *)
Definition staged {A} (good : A → W → W → Prop) (m : prog W string (option A)) : Prop :=
  ∀ w o w', m w = (Ok o, w') →
    match o with
    | Some a => fail_count (tally w') = fail_count (tally w) ∧ good a w w'
    | None => fail_count (tally w') = fetch_inc (fail_count (tally w))
    end.

Lemma and_then_Ok {A} good (m : prog W string (option A)) k (w w' : W) u :
  staged good m → and_then m k w = (Ok u, w') →
  (∃ a w1, fail_count (tally w1) = fail_count (tally w) ∧ good a w w1 ∧ k a w1 = (Ok u, w')) ∨
  fail_count (tally w') = fetch_inc (fail_count (tally w)).
Proof.
  intros Hm (o & w1 & Ho & Hk)%prog_bind_Ok. apply Hm in Ho. destruct o as [a|].
  - left. destruct Ho as [??]. eauto.
  - right. by injection Hk as _ <-.
Qed.

Lemma commands_present_staged cmds : staged (λ _, then_follows) (commands_present cmds).
Proof.
  induction cmds as [|cmd cmds IH]; intros w o w'; cbn [commands_present]; [by intros [= <- <-]|].
  intros (r & w1 & Hcmd & Hrun)%prog_bind_Ok.
  assert (Hq : quiet (call_host (command_output "which" [cmd] None) : prog W string _)) by quiets.
  pose proof (Hq _ _ _ Hcmd) as Q. assert (then_follows w w1) as F by follows_health Hcmd. rewrite <-Q.
  destruct r as [e|out]; [by apply stop_Ok in Hrun as [-> ->]|].
  destruct (out_success out); [|by apply stop_Ok in Hrun as [-> ->]].
  apply IH in Hrun. destruct o as [a|]; [|done]. destruct Hrun as [Q2 F2]. split; [done|]. by rewrite F.
Qed.

(** A stage starts with a line and a command. *)
Lemma stage_start {A} line program arguments dir k (w w' : W) (o : A) :
  (info line;; r ← call_host (command_output program arguments dir); k r : prog W string A) w = (Ok o, w') →
  ∃ r wa wb, then_follows w wa ∧ command_output program arguments dir wa = (r, wb) ∧
    fail_count (tally wb) = fail_count (tally w) ∧ k r wb = (Ok o, w').
Proof.
  intros (? & wa & Hi & Hrun)%prog_bind_Ok. apply prog_bind_Ok in Hrun as (r & wb & Hr & Hrun).
  assert (Hq : quiet (call_host (command_output program arguments dir) : prog W string _)) by quiets.
  pose proof (Hq _ _ _ Hr) as Q. rewrite (quiet_info _ _ _ _ Hi) in Q. unfold call_host in Hr.
  destruct (command_output program arguments dir wa) as [r' w1] eqn:Hcmd. injection Hr as -> ->.
  exists r, wa, wb. split_and!; try done. follows_health Hi.
Qed.

Definition ran (program : string) (arguments : list string) (dir : option string) (good : Output → Prop)
    (w w' : W) : Prop :=
  ∃ output wa wb, then_follows w wa ∧ command_output program arguments dir wa = (inr output, wb) ∧
    good output ∧ then_follows wb w'.

Lemma compile_staged :
  staged (λ _, ran "scarb" ["build"] (Some (contracts_dir c)) (λ o, out_success o = true)) (compile_counter c).
Proof.
  intros w o w' (r & wa & wb & F & Hcmd & Q & Hrun)%stage_start. rewrite <-Q.
  destruct r as [e|out]; [by apply stop_Ok in Hrun as [-> ->]|].
  destruct (out_success out) eqn:Hs.
  - apply prog_bind_Ok in Hrun as (? & w1 & Hp & [= <- <-]).
    split; [by eapply quiet_check_pass|]. exists out, wa, wb. split_and!; try done. follows_health Hp.
  - apply prog_bind_Ok in Hrun as (text & ? & [_ ->]%lift_Ok & Hrun). by apply stop_Ok in Hrun as [-> ->].
Qed.

Lemma found_Ok name missing x (w w' : W) o :
  found name missing x w = (Ok o, w') →
  o = x ∧ match o with
          | Some _ => fail_count (tally w') = fail_count (tally w) ∧ then_follows w w'
          | None => fail_count (tally w') = fetch_inc (fail_count (tally w))
          end.
Proof.
  unfold found. destruct x as [h|]; [|by intros [-> ->]%stop_Ok].
  intros (short & ? & [_ ->]%lift_Ok & Hrun)%prog_bind_Ok.
  apply prog_bind_Ok in Hrun as (? & w1 & Hp & [= <- <-]). split; [done|].
  split; [by eapply quiet_check_pass|follows_health Hp].
Qed.

Lemma declare_staged :
  staged (λ h, ran "sncast" (declare_args c) (Some (contracts_dir c))
    (λ o, class_hash_of (format_cmd_output o) = Some h)) (declare_counter c).
Proof.
  intros w o w' (r & wa & wb & F & Hcmd & Q & Hrun)%stage_start. rewrite <-Q.
  destruct r as [e|out]; [by apply stop_Ok in Hrun as [-> ->]|].
  apply found_Ok in Hrun as [Ho Hrun]. destruct o as [h|]; [|done]. destruct Hrun as [Q2 F2].
  split; [done|]. by exists out, wa, wb.
Qed.

Lemma invoke_staged address :
  staged (λ tx, ran "sncast" (invoke_args c address) None
    (λ o, parse_hex_from_output "transaction_hash" (format_cmd_output o) = Some tx))
    (invoke_increment c address).
Proof.
  intros w o w' (r & wa & wb & F & Hcmd & Q & Hrun)%stage_start. rewrite <-Q.
  destruct r as [e|out]; [by apply stop_Ok in Hrun as [-> ->]|].
  apply found_Ok in Hrun as [Ho Hrun]. destruct o as [h|]; [|done]. destruct Hrun as [Q2 F2].
  split; [done|]. by exists out, wa, wb.
Qed.

(** A counter of the class was deployed by a command that printed its address
    and, perhaps, its transaction. *)
Definition counter_deployed (class_hash : string) (deployed : string * option string) (w w' : W) : Prop :=
  ∃ salt, ran "sncast" (deploy_args c class_hash salt) None
    (λ o, parse_hex_from_output "contract_address" (format_cmd_output o) = Some deployed.1 ∧
          parse_hex_from_output "transaction_hash" (format_cmd_output o) = deployed.2) w w'.

Lemma deploy_staged class_hash : staged (counter_deployed class_hash) (deploy_counter c class_hash).
Proof.
  intros w o w'. unfold deploy_counter. intros (? & w1 & Hi & Hrun)%prog_bind_Ok.
  apply prog_bind_Ok in Hrun as (salt & w2 & Hsalt & Hrun).
  assert (Hqs : quiet (fresh_salt : prog W string string)) by (unfold fresh_salt; quiets).
  pose proof (quiet_info _ _ _ _ Hi) as Q1. pose proof (Hqs _ _ _ Hsalt) as Q2.
  apply prog_bind_Ok in Hrun as (r & w3 & Hcmd & Hrun).
  assert (Hq : quiet (call_host (command_output "sncast" (deploy_args c class_hash salt) None)
    : prog W string _)) by quiets.
  pose proof (Hq _ _ _ Hcmd) as Q3. assert (fail_count (tally w3) = fail_count (tally w)) as <- by congruence.
  unfold call_host in Hcmd. destruct (command_output _ _ _ w2) as [r' wr] eqn:Hcmd'. injection Hcmd as -> ->.
  destruct r as [e|out]; [by apply stop_Ok in Hrun as [-> ->]|]. cbv zeta in Hrun.
  apply prog_bind_Ok in Hrun as (a & w4 & [Ha Hf]%found_Ok & [= <- <-]).
  destruct a as [address|]; [|done]. destruct Hf as [Q4 F4]. split; [done|].
  exists salt, out, w2, w3. split_and!; try done. transitivity w1; [follows_health Hi|follows_health Hsalt].
Qed.

(** A transaction whose hash was printed was waited for and seen to succeed.
    Without a hash nothing is looked at: the check goes on as if it had been
    confirmed ([health.rs], line 306). *)
Definition tx_seen (tx : option string) (w w' : W) : Prop :=
  match tx with
  | None => w' = w
  | Some h => ∃ receipt w1, wait_for_tx (client c) fuel h 120 3 w = (Ok receipt, w1) ∧ then_follows w1 w'
  end.

Lemma quiet_wait tx : quiet (attempt (wait_for_tx (client c) fuel tx 120 3) : prog W string _).
Proof. quiets. Qed.
Lemma quiet_wait_block bn : quiet (attempt (wait_for_block_after (client c) fuel bn 120 3) : prog W string _).
Proof. quiets. Qed.
Hint Resolve quiet_wait_block : quiet.

Lemma confirm_deploy_staged tx : staged (λ _, tx_seen tx) (confirm_deploy fuel c tx).
Proof.
  intros w o w'. unfold confirm_deploy. destruct tx as [tx|]; [|by intros [= <- <-]].
  intros (r & w1 & Hw & Hrun)%prog_bind_Ok. pose proof (quiet_wait _ _ _ _ Hw) as <-.
  apply attempt_Ok in Hw. destruct Hw as [(receipt & -> & Hw)|(e & -> & _)];
    [|by apply stop_Ok in Hrun as [-> ->]].
  assert (then_follows w1 w') as F by follows_health Hrun.
  apply prog_bind_Ok in Hrun as (? & w2 & Hrest & [= <- <-]). split; [|by exists receipt, w1].
  destruct (receipt_block_number receipt) as [bn|]; [|by injection Hrest as _ <-].
  apply prog_bind_Ok in Hrest as (? & w3 & Hb & Hp).
  by rewrite (quiet_check_pass _ _ _ _ _ Hp), (quiet_wait_block _ _ _ _ Hb).
Qed.

Lemma confirm_invoke_staged tx : staged (λ _, tx_seen (Some tx)) (confirm_invoke fuel c tx).
Proof.
  intros w o w'. unfold confirm_invoke.
  intros (r & w1 & Hw & Hrun)%prog_bind_Ok. pose proof (quiet_wait _ _ _ _ Hw) as <-.
  apply attempt_Ok in Hw. destruct Hw as [(receipt & -> & Hw)|(e & -> & _)];
    [|by apply stop_Ok in Hrun as [-> ->]].
  assert (then_follows w1 w') as F by follows_health Hrun.
  apply prog_bind_Ok in Hrun as (? & w2 & Hp & Hrun).
  apply prog_bind_Ok in Hrun as (? & w3 & Hrest & [= <- <-]). split; [|by exists receipt, w1].
  rewrite <-(quiet_check_pass _ _ _ _ _ Hp).
  destruct (receipt_block_number receipt) as [bn|]; [|by injection Hrest as _ <-].
  apply prog_bind_Ok in Hrest as (? & w4 & Hb & [= _ <-]). by rewrite (quiet_wait_block _ _ _ _ Hb).
Qed.

Definition counted_once (address : string) (w w' : W) : Prop :=
  ∃ values wa wb, then_follows w wa ∧
    starknet_call (client c) address GET_COUNTER_SELECTOR [] wa = (Ok values, wb) ∧
    1 ≤ counter_of values ∧ then_follows wb w'.

Lemma read_counter_recorded address (w w' : W) u :
  read_counter c address w = (Ok u, w') → recorded (counted_once address w w') w w'.
Proof.
  unfold read_counter. intros (? & wa & Hi & Hrun)%prog_bind_Ok.
  pose proof (quiet_info _ _ _ _ Hi) as Qa.
  apply prog_bind_Ok in Hrun as (r & wb & Hb & Hrun).
  assert (Hq : quiet (attempt (starknet_call (client c) address GET_COUNTER_SELECTOR [])
    : prog W string _)) by quiets.
  pose proof (Hq _ _ _ Hb) as Qb. apply attempt_Ok in Hb. rewrite Qa in Qb.
  destruct Hb as [(values & -> & Hb)|(e & -> & _)]; [|by eapply check_fail_recorded].
  cbv zeta in Hrun. destruct (Z.leb_spec 1 (counter_of values)); [|by eapply check_fail_recorded].
  left. split; [by rewrite (quiet_check_pass _ _ _ _ _ Hrun)|].
  exists values, wa, wb. split_and!; try done; [follows_health Hi|follows_health Hrun].
Qed.

(** A counter was compiled, declared, deployed and incremented, and then had
    at least one.  The increment was seen to succeed, the deployment only if
    sncast printed its hash. *)
Definition counter_worked (w w' : W) : Prop :=
  ∃ class_hash deployed tx w0 w1 w2 w3 w4 w5 w6,
    then_follows w w0 ∧
    ran "scarb" ["build"] (Some (contracts_dir c)) (λ o, out_success o = true) w0 w1 ∧
    ran "sncast" (declare_args c) (Some (contracts_dir c))
      (λ o, class_hash_of (format_cmd_output o) = Some class_hash) w1 w2 ∧
    counter_deployed class_hash deployed w2 w3 ∧ tx_seen deployed.2 w3 w4 ∧
    ran "sncast" (invoke_args c deployed.1) None
      (λ o, parse_hex_from_output "transaction_hash" (format_cmd_output o) = Some tx) w4 w5 ∧
    tx_seen (Some tx) w5 w6 ∧ counted_once deployed.1 w6 w'.

Ltac next Hrun lemma a w1 Hg :=
  let Q := fresh "Q" in
  eapply and_then_Ok in Hrun; [|apply lemma];
  destruct Hrun as [(a & w1 & Q & Hg & Hrun)|Hrun]; [|right; congruence].

Lemma check_full_flow_recorded (w w' : W) u :
  check_full_flow fuel c w = (Ok u, w') → recorded (counter_worked w w') w w'.
Proof.
  unfold check_full_flow. intros (? & wi & Hi & Hrun)%prog_bind_Ok.
  pose proof (quiet_info _ _ _ _ Hi) as Qi.
  next Hrun commands_present_staged s0 wc Hc.
  apply prog_bind_Ok in Hrun as (? & w0 & Himp & Hrun).
  assert (Hq : quiet (import_silently c sncast_account : prog W string unit)) by (unfold import_silently; quiets).
  pose proof (Hq _ _ _ Himp) as Q0.
  next Hrun compile_staged s1 w1 Hbuild. next Hrun declare_staged class_hash w2 Hdeclare.
  next Hrun deploy_staged deployed w3 Hdeploy. next Hrun confirm_deploy_staged s4 w4 Hseen.
  next Hrun invoke_staged tx w5 Hinvoke. next Hrun confirm_invoke_staged s6 w6 Hseen6.
  apply read_counter_recorded in Hrun as [[Qr Hr]|Hr]; [left|right; congruence].
  split; [congruence|]. exists class_hash, deployed, tx, w0, w1, w2, w3, w4, w5, w6.
  split_and!; try done. transitivity wc; [transitivity wi; [follows_health Hi|done]|].
  follows_health Himp.
Qed.

(** *** The run *)

Definition flow_skipped : Prop := quick args = true ∨ private_key c = "".

Lemma optional_flow_recorded (w w' : W) u :
  optional_flow fuel args c w = (Ok u, w') →
  recorded ((flow_skipped ∧ then_follows w w') ∨ counter_worked w w') w w'.
Proof.
  unfold optional_flow, flow_skipped. destruct (quick args) eqn:Hquick; cbn [negb andb].
  - intros Hrun. left. split; [by rewrite (quiet_info _ _ _ _ Hrun)|]. left. split; [by left|].
    follows_health Hrun.
  - case_bool_decide as Hkey; cbn [negb andb]; intros Hrun.
    + left. split; [by rewrite (quiet_info _ _ _ _ Hrun)|]. left. split; [by right|]. follows_health Hrun.
    + apply check_full_flow_recorded in Hrun as [[Q Hg]|Hf]; [left; auto|by right].
Qed.

Lemma result_Ok (w w' : W) v : result w = (Ok v, w') →
  (v = AllPassed ↔ fail_count (tally w) ≤ 0) ∧ then_follows w w'.
Proof.
  intros Hrun. split; [|unfold result in Hrun; follows_health Hrun].
  unfold result in Hrun. apply prog_bind_Ok in Hrun as (t & ? & [= <- <-] & Hrun).
  apply prog_bind_Ok in Hrun as (? & w1 & _ & Hrun).
  destruct (Z.ltb_spec 0 (fail_count (tally w))); apply prog_bind_Ok in Hrun as (? & ? & _ & [= <- _]);
    split; try done; lia.
Qed.
End facts.

(** C36: A health check that says that all checks passed found, in this order:
    the node up with a positive block number and a chain id; a balance whose
    comparison with one STRK succeeded; the account class declared; and,
    unless the flow was skipped, a counter that was compiled, declared and
    deployed, then incremented by a transaction that was seen to succeed,
    and then read as at least one. The deployment was seen to succeed if
    sncast printed the hash of its transaction; if it printed none, the
    deployment was not checked. A run that ends in any other way has the
    failure status. *)
Theorem health_sound {W : Type} `{Http W} `{Clock W} `{SerdeJson} `{Env W} `{Process W} `{Files W}
    `{Random W} `{Gateway W} `{RegexLite} `{Statics W} `{Console W} `{DriverHost W} `{!DriverLaws}
    fuel checks args env_file v (w w' : W) :
  run fuel checks args env_file w = (Ok v, w') →
  v = ExitFailure ∨
  ∃ c w0 wa wb wc wd we, from_env env_file w = (Ok c, w0) ∧ follows stable_driver w0 wa ∧
    node_up c wa wb ∧ funded checks c wb wc ∧ class_known c wc wd ∧
    ((flow_skipped args c ∧ follows stable_driver wd we) ∨ counter_worked fuel c wd we) ∧
    follows stable_driver we w'.
Proof.
  unfold run. intros (c & w0 & Henv%mapping_err_Ok & Hrun)%prog_bind_Ok.
  apply prog_bind_Ok in Hrun as (? & w1 & [= _ Hreset] & Hrun).
  assert (follows stable_driver w0 w1) as F1
    by (intros P HP Hp; rewrite <-Hreset; by apply (driver_tally P HP)).
  assert (fail_count (tally w1) = 0) as Hzero by (rewrite <-Hreset, tally_set; done).
  apply prog_bind_Ok in Hrun as (? & wa & Hg & Hrun).
  assert (Hq : quiet (greeting c : prog W string unit)) by (unfold greeting; quiets).
  pose proof (Hq _ _ _ Hg) as Qa.
  assert (follows stable_driver w1 wa) as Fa.
  { eapply follows_run; [|exact Hg]. intros P HP. unfold greeting. keeps_driver HP. }
  apply prog_bind_Ok in Hrun as (? & wb & Hb%check_rpc_recorded & Hrun).
  apply prog_bind_Ok in Hrun as (? & wc & Hc%check_balance_recorded & Hrun).
  apply prog_bind_Ok in Hrun as (? & wd & Hd%check_oz_class_recorded & Hrun).
  apply prog_bind_Ok in Hrun as (? & we & He%optional_flow_recorded & [Hv Fv]%result_Ok).
  destruct v; [right|by left]. assert (fail_count (tally we) ≤ 0) as Hle by (by apply Hv).
  assert (fail_count (tally wa) = 0) as Hza by congruence.
  unfold recorded in *.
  destruct Hb as [[Qb Hb]|Qb], Hc as [[Qc Hc]|Qc], Hd as [[Qd Hd]|Qd], He as [[Qe He]|Qe];
    rewrite Hza in Qb; rewrite Qb in Qc; rewrite Qc in Qd; rewrite Qd in Qe; rewrite Qe in Hle;
    try (vm_compute in Hle; by exfalso; apply Hle).
  exists c, w0, wa, wb, wc, wd, we. split_and!; try done. by rewrite F1, Fa.
Qed.

(** C37: The balance check cannot pass with overflow checks: the shift of the
    second word by the width of u128 panics on every balance that the node
    returns. Without them what is compared with one STRK is the sum of the
    two words modulo 2^128, although the second should count 2^128 times as
    much. *)
Theorem check_balance_words {W : Type} `{Http W} `{Clock W} `{SerdeJson} `{Statics W} `{Console W}
    checks c address first rest (w w1 : W) :
  starknet_call (client c) STRK_TOKEN BALANCE_OF_SELECTOR [address]
    (trace_info (titled "Check 2: Master account STRK balance") w) = (Ok (first :: rest), w1) →
  let sum := word_of first + match rest with second :: _ => word_of second | [] => 0 end in
  let strk := balance_strk (sum mod 2 ^ 128) in
  check_balance checks c address w =
    if checks then (Panic "attempt to shift left with overflow", w1)
    else if f64_ge strk (f64_of_Z 1) then check_pass "STRK balance" (fmt_fixed 2 strk +:+ " STRK") w1
    else check_fail "STRK balance too low" (fmt_fixed 2 strk +:+ " STRK < 1.0 STRK minimum") w1.
Proof.
  intros Hcall sum strk. unfold check_balance. erewrite (prog_bind_eq (info _)) by reflexivity.
  unfold attempt, lift, mbind, prog_bind. rewrite Hcall, balance_wei_eq.
  destruct checks; [done|]. cbv zeta. fold sum. fold strk. by destruct (f64_ge strk _).
Qed.
