(* ===== verification/Routes.v ===== *)
(** * The playground's routes

    [counter_routes], [coinflip_routes] and their merge in
    [playground/src/main.rs]: which handler a request reaches, how its path, its
    query and its body become the handler's arguments, and how the handler's
    result becomes the reply.  The server's two applications, proved apart in
    CoinFlip.v and CounterSessions.v, are one transition system here, driven by
    raw requests.

    axum's matching of paths, the syntax of queries and of JSON bodies, and the
    generic routes of snip36_server are interfaces. *)

From Stdlib Require Import SpecFloat.
From S2P Require Import Prelude RustNum RustStr RustFloat Json Felt Types Signing Config Rpc.
From S2P Require Import StateReader Host Submission CoinFlipState CoinFlip Counter CounterSessions.

(** ** The tables *)

(** [get(..)] also answers HEAD, without the body of the reply. *)
Inductive http_method := GET | HEAD | POST | OtherMethod.

(** A path of the router: a literal, or one that ends in a parameter. *)
Inductive pattern :=
  | Literal (path : string)
  | Capture (prefix name : string).

Inductive endpoint :=
  | Deploy_counter | Invoke_increment | Read_counter | Submit_proof | Prove_block
  | Coinflip_status | Deploy_coinflip | Commit_bet | Play_coinflip | Bank_status
  | Deploy_bank | Deposit_info | Confirm_deposit | Player_balance | Player_winnings.

Record route := { rt_pattern : pattern; rt_method : http_method; rt_handler : endpoint }.

Definition get_route (p : pattern) (h : endpoint) : route :=
  {| rt_pattern := p; rt_method := GET; rt_handler := h |}.
Definition post_route (p : pattern) (h : endpoint) : route :=
  {| rt_pattern := p; rt_method := POST; rt_handler := h |}.

Definition counter_routes : list route := [
  post_route (Literal "/api/deploy-counter") Deploy_counter;
  post_route (Literal "/api/invoke") Invoke_increment;
  post_route (Literal "/api/read-counter") Read_counter;
  post_route (Literal "/api/submit-proof") Submit_proof;
  get_route (Capture "/api/prove-block/" "session_id") Prove_block].

Definition coinflip_routes : list route := [
  get_route (Literal "/api/coinflip/status") Coinflip_status;
  post_route (Literal "/api/coinflip/deploy") Deploy_coinflip;
  post_route (Literal "/api/coinflip/commit") Commit_bet;
  get_route (Capture "/api/coinflip/play/" "session_id") Play_coinflip;
  get_route (Literal "/api/coinflip/bank/status") Bank_status;
  post_route (Literal "/api/coinflip/bank/deploy") Deploy_bank;
  post_route (Literal "/api/coinflip/deposit-info") Deposit_info;
  post_route (Literal "/api/coinflip/confirm-deposit") Confirm_deposit;
  get_route (Capture "/api/coinflip/balance/" "address") Player_balance;
  get_route (Capture "/api/coinflip/winnings/" "address") Player_winnings].

Definition app_routes : list route := (counter_routes ++ coinflip_routes)%list.

(** ** What axum does *)

(** Of a request: its method and its raw path; the decoded parameter of a
    matching pattern ([None] inside for a literal); the pairs of its query; and
    the document of its body, when the content type and the syntax are those
    of JSON, with the members in their order. *)
Class Axum (Request : Type) := {
  rq_method : Request → http_method;
  rq_path : Request → string;
  path_match : pattern → Request → option (option string);
  query_pairs : Request → option (list (string * string));
  json_body : Request → option Value;
}.

(** The part of a path up to its last slash. *)
Fixpoint dirname (s : string) : string :=
  match s with
  | EmptyString => ""
  | String c s => match dirname s with
                  | EmptyString => if decide (c = "/"%char) then "/" else ""
                  | d => String c d
                  end
  end.

(** A literal matches itself; a parameter matches one segment. *)
Class AxumLaws (Request : Type) `{Axum Request} := {
  literal_match p rq x : path_match (Literal p) rq = Some x → rq_path rq = p ∧ x = None;
  capture_match prefix name rq x : path_match (Capture prefix name) rq = Some x →
    ∃ segment, rq_path rq = prefix +:+ segment ∧ segment ≠ "" ∧ dirname segment = "" ∧ x ≠ None;
}.

(** ** Arguments *)

Inductive rejection := NotFound | MethodNotAllowed | BadPath | BadQuery | BadBody.

Inductive api_request := Flip (r : request) | Count (r : counter_request).

(** Members that a derived [Deserialize] reads: each at most once. *)
Definition body_fields (names : list string) (v : Value) : option (list (option Value)) :=
  match v with
  | JObject m =>
      if forallb (λ k, Nat.leb (length (filter (λ kv, kv.1 = k) m)) 1) names
      then struct_fields names v else None
  | _ => struct_fields names v
  end.

(** [f64] of a JSON number. *)
Definition as_f64 (v : Value) : option spec_float :=
  match v with
  | JNumber (PosInt n) | JNumber (NegInt n) => Some (f64_of_Z n)
  | JNumber (Float f) => Some f
  | _ => None
  end.

Definition de_invoke (v : Value) : option InvokeRequest :=
  match body_fields ["session_id"; "amount"; "signature_r"; "signature_s"; "nonce"] v with
  | Some [Some id; a; Some r; Some s; Some n] =>
      id ← as_str id; a ← match a with Some a => as_u64 a | None => Some default_amount end;
      r ← as_str r; s ← as_str s; n ← as_u64 n;
      Some {| iq_session_id := id; iq_amount := a; iq_signature_r := r; iq_signature_s := s;
              iq_nonce := n |}
  | _ => None
  end.

(** A body with one text. *)
Definition de_text (name : string) (v : Value) : option string :=
  match body_fields [name] v with Some [Some s] => as_str s | _ => None end.

(** A body with two texts. *)
Definition de_texts {A} (n1 n2 : string) (build : string → string → A) (v : Value) : option A :=
  match body_fields [n1; n2] v with
  | Some [Some s; Some t] => s ← as_str s; t ← as_str t; Some (build s t)
  | _ => None
  end.

Definition de_deploy_counter : Value → option string := de_text "session_id".
Definition de_read_counter : Value → option string := de_text "contract_address".
Definition de_submit_proof : Value → option string := de_text "session_id".
Definition de_commit : Value → option CommitRequest := de_texts "commitment" "player" Build_CommitRequest.
Definition de_confirm_deposit : Value → option ConfirmDepositRequest :=
  de_texts "session_id" "tx_hash" Build_ConfirmDepositRequest.

Definition de_deposit_info (v : Value) : option DepositInfoRequest :=
  match body_fields ["session_id"; "bet_amount"] v with
  | Some [Some id; Some a] =>
      id ← as_str id; a ← as_f64 a; Some {| di_session_id := id; di_bet_amount := a |}
  | _ => None
  end.

(** [str::parse] of an unsigned integer. *)
Definition digit_of (c : ascii) : option Z :=
  let z := byte_Z c in if (48 <=? z) && (z <=? 57) then Some (z - 48) else None.

Fixpoint decimal_from (acc : Z) (s : string) : option Z :=
  match s with
  | EmptyString => Some acc
  | String c s => d ← digit_of c; decimal_from (acc * 10 + d) s
  end.

Definition parse_unsigned (max : Z) (s : string) : option Z :=
  let digits := match s with String c s' => if decide (c = "+"%char) then s' else s | _ => s end in
  match digits with
  | EmptyString => None
  | _ => n ← decimal_from 0 digits; if n <=? max then Some n else None
  end.

(** A field of a query: given twice it is an error; a field that is not given
    has [missing], if that is not itself an error. *)
Definition query_field {A} (k : string) (parse : string → option A) (missing : option A)
    (q : list (string * string)) : option A :=
  match filter (λ kv, kv.1 = k) q with
  | [] => missing
  | [kv] => parse kv.2
  | _ => None
  end.

Definition de_play_query (q : list (string * string)) : option PlayQuery :=
  p ← query_field "player" Some None q;
  b ← query_field "bet" (parse_unsigned u8_max) (Some 0) q;
  n ← query_field "nonce" Some (Some "") q;
  Some {| pq_player := p; pq_bet := b; pq_nonce := n |}.

(** [default_one_u64] and [default_one_u32]. *)
Definition default_one : Z := 1.

Definition de_prove_query (q : list (string * string)) : option (Z * Z) :=
  a ← query_field "increment_amount" (parse_unsigned u64_max) (Some default_one) q;
  n ← query_field "increments_per_block" (parse_unsigned u32_max) (Some default_one) q;
  Some (a, n).

Section dispatch.
Context {Request : Type} `{!Axum Request}.

Definition from_body {A} (de : Value → option A) (rq : Request) : res rejection A :=
  ok_or (json_body rq ≫= de) BadBody.

Definition from_query {A} (de : list (string * string) → option A) (rq : Request) : res rejection A :=
  ok_or (query_pairs rq ≫= de) BadQuery.

(** The arguments of a handler: the path's parameter, then the query or the
    body. *)
Definition extract (h : endpoint) (param : option string) (rq : Request) : res rejection api_request :=
  match h with
  | Deploy_counter => id ← from_body de_deploy_counter rq; Ok (Count (PostDeployCounter id))
  | Invoke_increment => req ← from_body de_invoke rq; Ok (Count (PostInvoke req))
  | Read_counter => a ← from_body de_read_counter rq; Ok (Count (PostReadCounter a))
  | Submit_proof => id ← from_body de_submit_proof rq; Ok (Count (PostSubmitProof id))
  | Prove_block =>
      id ← ok_or param BadPath; q ← from_query de_prove_query rq;
      Ok (Count (GetProveBlock id q.1 q.2))
  | Coinflip_status => Ok (Flip GetStatus)
  | Deploy_coinflip => Ok (Flip PostDeploy)
  | Commit_bet => req ← from_body de_commit rq; Ok (Flip (PostCommit req))
  | Play_coinflip =>
      id ← ok_or param BadPath; q ← from_query de_play_query rq; Ok (Flip (GetPlay id q))
  | Bank_status => Ok (Flip GetBankStatus)
  | Deploy_bank => Ok (Flip PostBankDeploy)
  | Deposit_info => req ← from_body de_deposit_info rq; Ok (Flip (PostDepositInfo req))
  | Confirm_deposit => req ← from_body de_confirm_deposit rq; Ok (Flip (PostConfirmDeposit req))
  | Player_balance => a ← ok_or param BadPath; Ok (Flip (GetBalance a))
  | Player_winnings => a ← ok_or param BadPath; Ok (Flip (GetWinnings a))
  end.

Definition method_allowed (m : http_method) (rq : Request) : bool :=
  match m, rq_method rq with
  | GET, (GET | HEAD) | POST, POST => true
  | _, _ => false
  end.

(** The route of the path, then its method, then the arguments. *)
Fixpoint dispatch_in (routes : list route) (rq : Request) : res rejection api_request :=
  match routes with
  | [] => Err NotFound
  | r :: routes =>
      match path_match (rt_pattern r) rq with
      | Some param =>
          if method_allowed (rt_method r) rq then extract (rt_handler r) param rq
          else Err MethodNotAllowed
      | None => dispatch_in routes rq
      end
  end.

Definition dispatch (rq : Request) : res rejection api_request := dispatch_in app_routes rq.
End dispatch.

(** ** Replies *)

Definition optional_member (k : string) (o : option string) : list (string * Value) :=
  match o with Some s => [(k, JString s)] | None => [] end.

Definition coinflip_status_json (r : StatusReply) : Value :=
  JObject (("deployed", JBool (st_deployed r)) :: optional_member "contract_address" (st_contract_address r)).

Definition bank_status_json (r : StatusReply) : Value :=
  JObject (("deployed", JBool (st_deployed r)) :: optional_member "contract_address" (st_contract_address r)
    ++ optional_member "bank_balance" (st_bank_balance r)).

Definition deploy_json (r : DeployReply) : Value := JObject [
  ("contract_address", JString (dr_contract_address r)); ("class_hash", JString (dr_class_hash r));
  ("deploy_block", json_u64 (dr_deploy_block r))].

Definition deploy_bank_json (r : DeployReply) : Value := deploy_json r.

Definition commit_json (r : CommitReply) : Value := JObject [
  ("session_id", JString (cp_session_id r)); ("seed_block", json_u64 (cp_seed_block r))].

Definition deposit_info_json (r : DepositInfoReply) : Value := JObject [
  ("bank_address", JString (dp_bank_address r)); ("strk_address", JString (dp_strk_address r));
  ("session_felt", JString (dp_session_felt r)); ("bet_amount_low", JString (dp_bet_amount_low r));
  ("bet_amount_high", JString (dp_bet_amount_high r)); ("seed", JString (dp_seed r));
  ("bet", JString (dp_bet r))].

Definition confirm_deposit_json (r : ConfirmDepositReply) : Value := JObject [
  ("matched", JBool (matched r)); ("match_tx_hash", JString (match_tx_hash r))].

Definition balance_json (r : BalanceReply) : Value := JObject [
  ("balance", JString (br_balance r)); ("balance_wei", JString (br_balance_wei r))].

Definition winnings_json (r : BalanceReply) : Value := JObject [
  ("winnings", JString (br_balance r)); ("winnings_wei", JString (br_balance_wei r));
  ("bank_address", JString (default "" (br_bank_address r)))].

Definition invoke_json (r : InvokeReply) : Value := JObject (
  ("tx_hash", JString (ir_tx_hash r)) :: ("block_number", option_json json_u64 (ir_block_number r))
    :: optional_member "warning" (ir_warning r)).

Definition deploy_counter_json (r : DeployCounterReply) : Value := JObject [
  ("class_hash", JString (dc_class_hash r)); ("contract_address", JString (dc_contract_address r));
  ("tx_hash", JString (dc_tx_hash r)); ("block_number", option_json json_u64 (dc_block_number r))].

Definition read_counter_json (value : Z) : Value := JObject [("counter_value", json_u64 value)].

Definition submit_proof_json (r : SubmitProofReply) : Value := JObject (
  optional_member "tx_hash" (sr_tx_hash r) ++ optional_member "local_tx_hash" (sr_local_tx_hash r)
    ++ [("output", JString (sr_output r))]).

(** A JSON reply or a stream of the task's events. *)
Inductive api_reply := Json (body : Value) | EventStream.

(** ** The server *)

Section server.
Context {W : Type} `{Http W} `{Clock W} `{SerdeJson} `{FeltOps} `{!Crypto} `{Env W}.
Context `{Process W} `{Files W} `{Random W} `{Events W} `{Gateway W} `{!Server W}.
Context `{RegexCaptures} `{JsonText} `{CoinFlipApp W} `{Sessions W}.
Context {Request : Type} `{!Axum Request}.
Context (fuel : nat) (overflow_checks : bool) (exit_text : Output → string).

Definition replying {A} (f : A → Value) (m : prog W Response A) : prog W Response api_reply :=
  a ← m; mret (Json (f a)).

Definition streaming (m : prog W Response unit) : prog W Response api_reply := m;; mret EventStream.

Definition handle (r : api_request) : prog W Response api_reply :=
  match r with
  | Count (PostDeployCounter id) => replying deploy_counter_json (deploy_counter fuel exit_text id)
  | Count (PostInvoke req) => replying invoke_json (invoke_increment fuel req)
  | Count (PostReadCounter a) => replying read_counter_json (read_counter a)
  | Count (PostSubmitProof id) => replying submit_proof_json (submit_proof id)
  | Count (GetProveBlock id amount n) => streaming (prove_block fuel overflow_checks id amount n)
  | Flip GetStatus => replying coinflip_status_json coinflip_status
  | Flip PostDeploy => replying deploy_json (deploy_coinflip fuel)
  | Flip (PostCommit req) => replying commit_json (commit_bet req)
  | Flip (GetPlay id q) => streaming (play_coinflip fuel id q)
  | Flip GetBankStatus => replying bank_status_json bank_status
  | Flip PostBankDeploy => replying deploy_bank_json (deploy_bank fuel)
  | Flip (PostDepositInfo req) => replying deposit_info_json (deposit_info req)
  | Flip (PostConfirmDeposit req) => replying confirm_deposit_json (confirm_deposit fuel req)
  | Flip (GetBalance a) => replying balance_json (player_balance a)
  | Flip (GetWinnings a) => replying winnings_json (player_winnings a)
  end.

(** A path of no route is left to the generic routes of snip36_server. *)
Context (generic : Request → W → W).

Definition serve_http (rq : Request) (w : W) : W :=
  match dispatch rq with
  | Ok r => (handle r w).2
  | Err NotFound => generic rq w
  | _ => w
  end.
End server.

(** ** Decimal numbers *)

Lemma digits_of (P : N → Prop) : P 0%N → P 1%N → P 2%N → P 3%N → P 4%N → P 5%N → P 6%N → P 7%N → P 8%N →
  P 9%N → ∀ x, (x < 10)%N → P x.
Proof.
  intros. assert (x = 0 ∨ x = 1 ∨ x = 2 ∨ x = 3 ∨ x = 4 ∨ x = 5 ∨ x = 6 ∨ x = 7 ∨ x = 8 ∨ x = 9)%N by lia.
  naive_solver.
Qed.

Lemma digit_pretty x : (x < 10)%N → digit_of (pretty_N_char x) = Some (Z.of_N x).
Proof. revert x. by apply digits_of. Qed.

Lemma pretty_char_sign x : (x < 10)%N → pretty_N_char x ≠ "+"%char.
Proof. revert x. by apply digits_of. Qed.

Lemma decimal_pretty_go x s : ∃ k, ∀ acc,
  decimal_from acc (pretty_N_go x s) = decimal_from (acc * k + Z.of_N x) s.
Proof.
  revert s. induction (N.lt_wf_0 x) as [x _ IH]. intros s.
  destruct (decide (x = 0)%N) as [->|Hx].
  - exists 1. intros acc. rewrite pretty_N_go_0. f_equal. lia.
  - destruct (IH (x `div` 10)%N ltac:(apply N.div_lt; lia) (String (pretty_N_char (x `mod` 10)) s)) as [k Hk].
    exists (k * 10). intros acc. rewrite pretty_N_go_step, Hk by lia. cbn [decimal_from].
    rewrite digit_pretty by (by apply N.mod_lt). cbn. f_equal.
    pose proof (N.div_mod x 10 ltac:(done)). nia.
Qed.

Lemma pretty_N_go_head x s : (0 < x)%N → ∃ d s', (d < 10)%N ∧ pretty_N_go x s = String (pretty_N_char d) s'.
Proof.
  revert s. induction (N.lt_wf_0 x) as [x _ IH]. intros s Hx. rewrite pretty_N_go_step by done.
  destruct (decide (x `div` 10 = 0)%N) as [->|Hd].
  - rewrite pretty_N_go_0. eexists _, _. split; [by apply N.mod_lt|done].
  - apply IH; [by apply N.div_lt|by apply N.neq_0_lt_0].
Qed.

Lemma parse_unsigned_pretty max n : in_u max n → parse_unsigned max (pretty n) = Some n.
Proof.
  intros [Hn Hmax]. destruct n as [|p|p]; [| |lia].
  { change (parse_unsigned max (pretty 0)) with (if 0 <=? max then Some 0 else None).
    by rewrite (proj2 (Z.leb_le 0 max)) by lia. }
  change (pretty (Z.pos p)) with (pretty (N.pos p)). unfold pretty, pretty_N. rewrite decide_False by done.
  destruct (pretty_N_go_head (N.pos p) "") as (d & s' & Hd & Hs); [lia|].
  destruct (decimal_pretty_go (N.pos p) "") as [k Hk]. specialize (Hk 0). rewrite Z.mul_0_l in Hk.
  cbn [decimal_from Z.add Z.of_N] in Hk. unfold parse_unsigned. rewrite Hs in Hk |- *.
  rewrite decide_False by (by apply pretty_char_sign).
  rewrite Hk. cbn. by rewrite (proj2 (Z.leb_le _ max)) by lia.
Qed.

(** ** Which route a request takes *)

Lemma dirname_app pre s : dirname pre = pre → dirname s = "" → dirname (pre +:+ s) = pre.
Proof.
  intros Hp Hs. induction pre as [|c pre IH]; [done|]. cbn in Hp.
  destruct (dirname pre) as [|d ds] eqn:Hd.
  - case_decide; [|done]. injection Hp as <- <-. change (match dirname s with "" => "/" | d => String "/" d end = "/"). by rewrite Hs.
  - injection Hp as Hp. rewrite Hp in Hd.
    change (dirname (String c pre +:+ s)) with
      (match dirname (pre +:+ s) with "" => if decide (c = "/"%char) then "/" else "" | d => String c d end).
    by rewrite (IH Hp), <-Hp.
Qed.

(** Whether some path could match both patterns. *)
Definition overlap (p q : pattern) : bool :=
  match p, q with
  | Literal a, Literal b => bool_decide (a = b)
  | Literal a, Capture pre _ | Capture pre _, Literal a => bool_decide (dirname a = pre)
  | Capture pre _, Capture pre' _ => bool_decide (pre = pre')
  end.

Definition pattern_ok (p : pattern) : bool :=
  match p with Literal _ => true | Capture pre _ => bool_decide (dirname pre = pre) end.

(** Each pair of the positions in a list. *)
Fixpoint pairwise {A} (f : A → A → bool) (l : list A) : bool :=
  match l with [] => true | x :: l => forallb (f x) l && pairwise f l end.

Section matching.
Context {Request : Type} `{!Axum Request} `{!AxumLaws Request}.

Lemma overlap_complete p q (rq : Request) x y :
  pattern_ok p = true → pattern_ok q = true →
  path_match p rq = Some x → path_match q rq = Some y → overlap p q = true.
Proof.
  intros Hp Hq Hx Hy. destruct p as [a|pre n], q as [b|pre' n']; cbn in *; apply bool_decide_eq_true.
  - apply literal_match in Hx as [<- _]. by apply literal_match in Hy as [<- _].
  - apply literal_match in Hx as [<- _]. apply capture_match in Hy as (s & -> & _ & Hs & _).
    apply bool_decide_eq_true in Hq. by apply dirname_app.
  - apply literal_match in Hy as [<- _]. apply capture_match in Hx as (s & -> & _ & Hs & _).
    apply bool_decide_eq_true in Hp. by apply dirname_app.
  - apply capture_match in Hx as (s & Hs & _ & Hd & _). apply capture_match in Hy as (s' & Hs' & _ & Hd' & _).
    apply bool_decide_eq_true in Hp, Hq.
    by rewrite <-(dirname_app pre s), <-(dirname_app pre' s'), <-Hs, <-Hs' by done.
Qed.

(** No path takes two of the routes, so merging the two routers is allowed and
    the order of the routes does not matter. *)
Lemma routes_disjoint :
  forallb (λ r, pattern_ok (rt_pattern r)) app_routes = true ∧
  pairwise (λ r r', negb (overlap (rt_pattern r) (rt_pattern r'))) app_routes = true.
Proof. by split; vm_compute. Qed.

Lemma dispatch_in_route routes r (rq : Request) param :
  forallb (λ r, pattern_ok (rt_pattern r)) routes = true →
  pairwise (λ r r', negb (overlap (rt_pattern r) (rt_pattern r'))) routes = true →
  r ∈ routes → path_match (rt_pattern r) rq = Some param →
  dispatch_in routes rq =
    if method_allowed (rt_method r) rq then extract (rt_handler r) param rq else Err MethodNotAllowed.
Proof.
  intros Hok Hpair Hin Hm. induction routes as [|r0 routes IH]; [by apply elem_of_nil in Hin|].
  cbn in Hok, Hpair. apply andb_true_iff in Hok as [Hr0 Hok], Hpair as [Hdis Hpair].
  apply elem_of_cons in Hin as [->|Hin]; cbn; [by rewrite Hm|].
  destruct (path_match (rt_pattern r0) rq) as [x|] eqn:Hx; [|by apply IH].
  rewrite forallb_forall in Hok, Hdis. apply list_elem_of_In in Hin.
  specialize (Hdis r Hin). apply negb_true_iff in Hdis.
  by rewrite (overlap_complete (rt_pattern r0) (rt_pattern r) rq x param Hr0 (Hok r Hin)) in Hdis.
Qed.

Lemma dispatch_route r (rq : Request) param :
  r ∈ app_routes → path_match (rt_pattern r) rq = Some param →
  dispatch rq =
    if method_allowed (rt_method r) rq then extract (rt_handler r) param rq else Err MethodNotAllowed.
Proof. apply dispatch_in_route; apply routes_disjoint. Qed.
End matching.

(** ** What a client writes *)

(** The handler, the parameter of the path, the query and the body of a call; a
    client may leave out what has its default ([short]). *)
Definition member {A} `{EqDecision A} (short : bool) (default x : A) {B} (m : B) : list B :=
  if short && bool_decide (x = default) then [] else [m].

Definition asked (short : bool) (r : api_request)
    : endpoint * option string * list (string * string) * Value :=
  match r with
  | Count (PostDeployCounter id) => (Deploy_counter, None, [], JObject [("session_id", JString id)])
  | Count (PostInvoke req) => (Invoke_increment, None, [], JObject (
      ("session_id", JString (iq_session_id req)) ::
      member short default_amount (iq_amount req) ("amount", json_u64 (iq_amount req)) ++
      [("signature_r", JString (iq_signature_r req)); ("signature_s", JString (iq_signature_s req));
       ("nonce", json_u64 (iq_nonce req))]))
  | Count (PostReadCounter a) => (Read_counter, None, [], JObject [("contract_address", JString a)])
  | Count (PostSubmitProof id) => (Submit_proof, None, [], JObject [("session_id", JString id)])
  | Count (GetProveBlock id amount n) => (Prove_block, Some id,
      (member short default_one amount ("increment_amount", pretty amount) ++
       member short default_one n ("increments_per_block", pretty n))%list, JNull)
  | Flip GetStatus => (Coinflip_status, None, [], JNull)
  | Flip PostDeploy => (Deploy_coinflip, None, [], JNull)
  | Flip (PostCommit req) => (Commit_bet, None, [],
      JObject [("commitment", JString (cr_commitment req)); ("player", JString (cr_player req))])
  | Flip (GetPlay id q) => (Play_coinflip, Some id,
      (("player", pq_player q) :: member short 0 (pq_bet q) ("bet", pretty (pq_bet q)) ++
       member short "" (pq_nonce q) ("nonce", pq_nonce q))%list, JNull)
  | Flip GetBankStatus => (Bank_status, None, [], JNull)
  | Flip PostBankDeploy => (Deploy_bank, None, [], JNull)
  | Flip (PostDepositInfo req) => (Deposit_info, None, [], JObject [
      ("session_id", JString (di_session_id req)); ("bet_amount", JNumber (Float (di_bet_amount req)))])
  | Flip (PostConfirmDeposit req) => (Confirm_deposit, None, [],
      JObject [("session_id", JString (cq_session_id req)); ("tx_hash", JString (cq_tx_hash req))])
  | Flip (GetBalance a) => (Player_balance, Some a, [], JNull)
  | Flip (GetWinnings a) => (Player_winnings, Some a, [], JNull)
  end.

(** The numbers of a call are of their Rust types. *)
Definition call_ok (r : api_request) : Prop :=
  match r with
  | Count (GetProveBlock _ amount n) => in_u u64_max amount ∧ in_u u32_max n
  | Flip (GetPlay _ q) => in_u u8_max (pq_bet q)
  | _ => True
  end.

Ltac read_members :=
  unfold member; repeat (case_bool_decide; subst); rewrite ?andb_false_r, ?andb_true_r;
  repeat match goal with |- context [if ?b then [] else _] => destruct b end.

Lemma invoke_read short req : de_invoke (asked short (Count (PostInvoke req))).2 = Some req.
Proof. destruct req as [id amount r s nonce]. cbn [asked snd iq_amount]. read_members; reflexivity. Qed.

Lemma play_query_read short id q : in_u u8_max (pq_bet q) →
  de_play_query (asked short (Flip (GetPlay id q))).1.2 = Some q.
Proof.
  intros Hb%parse_unsigned_pretty. destruct q as [p b n]. cbn [asked fst snd pq_bet pq_nonce pq_player] in *.
  unfold de_play_query. revert Hb. generalize (parse_unsigned u8_max), (pretty b). intros f t Hb.
  read_members; cbv; by rewrite ?Hb.
Qed.

Lemma prove_query_read short id amount n : in_u u64_max amount → in_u u32_max n →
  de_prove_query (asked short (Count (GetProveBlock id amount n))).1.2 = Some (amount, n).
Proof.
  intros Ha%parse_unsigned_pretty Hn%parse_unsigned_pretty. cbn [asked fst snd].
  unfold de_prove_query. revert Ha Hn.
  generalize (parse_unsigned u64_max), (parse_unsigned u32_max), (pretty amount), (pretty n).
  intros f g t u Ha Hn. read_members; cbv; by rewrite ?Ha, ?Hn.
Qed.

Section client.
Context {Request : Type} `{!Axum Request} `{!AxumLaws Request}.

(** A request that was written for [r], as the server sees it. *)
Definition asks (short : bool) (rq : Request) (r : api_request) : Prop :=
  let '(h, param, query, body) := asked short r in
  ∃ rt, rt ∈ app_routes ∧ rt_handler rt = h ∧ path_match (rt_pattern rt) rq = Some param ∧
    rq_method rq = rt_method rt ∧ query_pairs rq = Some query ∧ json_body rq = Some body.

Lemma route_method rt (rq : Request) : rt ∈ app_routes → rq_method rq = rt_method rt →
  method_allowed (rt_method rt) rq = true.
Proof.
  intros Hin Hm. unfold method_allowed. rewrite Hm.
  assert (forallb (λ rt, match rt_method rt with GET | POST => true | _ => false end) app_routes = true)
    as Hall by by vm_compute.
  rewrite forallb_forall in Hall. apply list_elem_of_In, Hall in Hin. by destruct (rt_method rt).
Qed.

(** C31: A call that is written as a client writes it, on the route of its
    handler, reaches that handler with exactly its arguments, whether the
    members that have their default are written or left out; the numbers of
    a query are read back from their decimal text. *)
Theorem client_served short rq r : asks short rq r → call_ok r → dispatch rq = Ok r.
Proof.
  unfold asks. destruct (asked short r) as [[[h param] query] body] eqn:Ha.
  intros (rt & Hin & <- & Hp & Hm & Hq & Hb) Hok.
  rewrite (dispatch_route rt rq param Hin Hp), route_method by done.
  destruct r as [[| |req|id q| | |req|req|a|a]|[id|req|a|id|id amount n]]; injection Ha as Hh <- <- <-;
    rewrite <-Hh; cbn [extract ok_or]; unfold from_body, from_query; rewrite ?Hq, ?Hb.
  all: try done.
  all: try by destruct req.
  - change (ok_or (de_play_query (asked short (Flip (GetPlay id q))).1.2) BadQuery
      ≫= (λ q, Ok (Flip (GetPlay id q))) = Ok (Flip (GetPlay id q))).
    by rewrite play_query_read.
  - change (ok_or (de_invoke (asked short (Count (PostInvoke req))).2) BadBody
      ≫= (λ req, Ok (Count (PostInvoke req))) = Ok (Count (PostInvoke req))).
    by rewrite invoke_read.
  - change (ok_or (de_prove_query (asked short (Count (GetProveBlock id amount n))).1.2) BadQuery
      ≫= (λ q, Ok (Count (GetProveBlock id q.1 q.2))) = Ok (Count (GetProveBlock id amount n))).
    by rewrite prove_query_read by apply Hok.
Qed.
End client.

(** ** The whole server *)

(** The sessions and the state of the coin flip are different objects. *)
Class SeparateStates (W : Type) `{CoinFlipApp W} `{Sessions W} := {
  cf_update_session id f w : cf_state (update_session_with id f w) = cf_state w;
  session_set_cf id s w : get_session id (set_cf_state s w) = get_session id w;
}.

(** What a request makes the server do to the two states. *)
Definition makes `{Axum Request} (rq : Request) (a : access) : Prop :=
  ∃ r, dispatch rq = Ok (Flip r) ∧ issued r a.
Definition notes `{Axum Request} (rq : Request) (n : string * note) : Prop :=
  ∃ r, dispatch rq = Ok (Count r) ∧ writes r n.

Section whole.
Context {W : Type} `{Http W} `{Clock W} `{SerdeJson} `{FeltOps} `{!Crypto} `{Env W}.
Context `{Process W} `{Files W} `{Random W} `{Events W} `{Gateway W} `{!Server W}.
Context `{RegexCaptures} `{JsonText} `{CoinFlipApp W} `{!CoinFlipAppLaws W}.
Context `{Sessions W} `{!SessionsLaws W} `{!SeparateStates W}.
Context {Request : Type} `{!Axum Request}.
Context (fuel : nat) (overflow_checks : bool) (exit_text : Output → string).
Context (generic : Request → W → W).

Let server := serve_http fuel overflow_checks exit_text generic.

Lemma handle_serve r (w : W) :
  (handle fuel overflow_checks exit_text r w).2
  = match r with
    | Flip r => serve fuel r w
    | Count r => serve_counter fuel overflow_checks exit_text r w
    end.
Proof.
  destruct r as [r|r]; destruct r; cbn [handle serve serve_counter]; unfold replying, streaming, mbind, prog_bind;
    by match goal with |- context [match ?m w with _ => _ end] => destruct (m w) as [[] ?] end.
Qed.

(** The two states come from [s] and [t] by these accesses and notes. *)
Definition changed_by (A : access → Prop) (N : string * note → Prop) (s : CoinFlipState)
    (t : string → Session) (w : W) : Prop :=
  reached_by A s w ∧ noted_by N t w.

Lemma changed_by_refl A N w : changed_by A N (cf_state w) (λ id, get_session id w) w.
Proof. split; [apply reached_by_refl|apply noted_by_refl]. Qed.

Lemma changed_by_extend (A A' : access → Prop) (N N' : string * note → Prop) s t w w' :
  (∀ a, A a → A' a) → (∀ n, N n → N' n) →
  changed_by A N (cf_state w) (λ id, get_session id w) w' →
  changed_by A' N' s t w → changed_by A' N' s t w'.
Proof.
  intros Ha Hn [Hr Hs] [Hr' Hs']. split; [by eapply reached_by_extend|by eapply noted_by_extend].
Qed.

(** What the environment does to the two states, in its calls and in the
    generic routes. *)
Record environment (A : access → Prop) (N : string * note → Prop) : Prop := {
  env_world s t : stable_world (changed_by A N s t);
  env_generic s t rq w : changed_by A N s t w → changed_by A N s t (generic rq w);
}.

Lemma changed_by_world (A A' : access → Prop) (N N' : string * note → Prop) s t :
  environment A N → (∀ a, A a → A' a) → (∀ n, N n → N' n) → stable_world (changed_by A' N' s t).
Proof.
  intros Henv Ha Hn. split; [split|]; intros; (eapply changed_by_extend; [exact Ha|exact Hn| |eassumption]);
    (match goal with |- changed_by _ _ (cf_state ?w) _ _ =>
       destruct (env_world _ _ Henv (cf_state w) (λ id, get_session id w)) as [[] ?] end);
    eauto using changed_by_refl.
Qed.

Lemma changed_by_access (A : access → Prop) N s t a : A a → stable_access (changed_by A N s t) a.
Proof.
  intros Ha w [(l & Hl & Hs) (l' & Hl' & Hs')]. split.
  - exists (l ++ [a])%list. split; [by apply Forall_app; rewrite Forall_singleton|].
    rewrite cf_get_set. eapply CfSnoc; [exact Hs|constructor].
  - exists l'. split; [exact Hl'|]. intros id. by rewrite session_set_cf.
Qed.

Lemma changed_by_note A (N : string * note → Prop) s t n : N n → keeps_note (changed_by A N s t) n.
Proof.
  intros Hn w [(l & Hl & Hs) Hnoted]. split.
  - exists l. by rewrite cf_update_session.
  - by apply noted_by_note.
Qed.

(** One request: what the environment does meanwhile, and what it makes. *)
Lemma server_request A N rq (w : W) : environment A N →
  changed_by (λ a, A a ∨ makes rq a) (λ n, N n ∨ notes rq n) (cf_state w) (λ id, get_session id w)
    (server rq w).
Proof.
  intros Henv. unfold server, serve_http.
  assert (∀ s t, stable_world (changed_by (λ a, A a ∨ makes rq a) (λ n, N n ∨ notes rq n) s t)) as Hw
    by (intros; apply (changed_by_world A _ N); auto).
  destruct (dispatch rq) as [r|e|e|] eqn:Hd; try apply changed_by_refl.
  - rewrite handle_serve. destruct r as [r|r].
    + apply serve_keeps; [apply Hw| |apply changed_by_refl].
      intros a Ha. apply changed_by_access. right. by exists r.
    + apply serve_counter_keeps; [apply Hw| |apply changed_by_refl].
      intros n Hn. apply changed_by_note. right. by exists r.
  - destruct e; try apply changed_by_refl.
    eapply changed_by_extend; [| |by apply (env_generic _ _ Henv), changed_by_refl|apply changed_by_refl]; auto.
Qed.

(** C12: The whole server refines two transition systems at once. If the calls
    of the host and the generic routes change the state of the coin flip and
    the sessions only as the environment does, then any sequence of raw
    requests takes the two states along one list of accesses and one list of
    notes per request: each the environment's or one that the call makes
    which the request is dispatched to; a request that reaches no handler,
    because of its path, its method or its arguments, makes none. *)
Theorem server_refines A N rqs (w : W) : environment A N →
  let w' := fold_left (λ w rq, server rq w) rqs w in
  ∃ las lns, Forall2 (λ rq l, Forall (λ a, A a ∨ makes rq a) l) rqs las ∧
    Forall2 (λ rq l, Forall (λ n, N n ∨ notes rq n) l) rqs lns ∧
    cf_steps (cf_state w) (mjoin las) (cf_state w') ∧
    ∀ id, get_session id w' = replay id (mjoin lns) (get_session id w).
Proof.
  intros Henv. cbv zeta. revert w. induction rqs as [|rq rqs IH]; intros w.
  - exists [], []. split_and!; constructor.
  - destruct (server_request A N rq w Henv) as [(la & Hla & Hs) (ln & Hln & Hn)].
    destruct (IH (server rq w)) as (las & lns & Hlas & Hlns & Hss & Hnn).
    exists (la :: las), (ln :: lns). split_and!; [by constructor..| |].
    + rewrite mjoin_cons. by eapply cf_steps_app.
    + intros id. cbn [fold_left]. by rewrite Hnn, Hn, mjoin_cons, replay_app.
Qed.
End whole.
