(* ===== verification/Playground.v ===== *)
(** * The playground server's start ([apps/playground/src/main.rs])

    What [main] does before it serves: the configuration, the import of the
    master account into sncast, and the address it listens on.  The router
    that it then serves is made of the handlers of CoinFlip.v and Counter.v and
    of routes of the crate snip36_server, which is not part of the
    repository. *)

From S2P Require Import Prelude RustNum RustStr Json Config Rpc Host Driver DriverFacts.

(** [TcpListener::bind(addr)], then [axum::serve]. *)
Class Listener (W : Type) := {
  bind_listener : string → W → (string + unit) * W;
  serve_app : W → (string + unit) * W;
}.

Section playground.
Context {W : Type} `{Env W} `{Process W} `{Console W} `{Listener W}.

(** Both streams, one after the other. *)
Definition import_text (output : Output) : string :=
  from_utf8_lossy (out_stdout output) +:+ from_utf8_lossy (out_stderr output).

(** Every outcome of the command is a line of the log. *)
Definition ensure_sncast_account (c : Config) : prog W string unit :=
  account_name ← reads Config.sncast_account;
  info ("Importing sncast account account=" +:+ account_name);;
  result ← call_host (command_output "sncast" (import_args c account_name) None);
  match result with
  | inr output =>
      let combined := import_text output in
      if out_success output then info ("sncast account '" +:+ account_name +:+ "' imported")
      else if str_contains "already exists" combined then
        info ("sncast account '" +:+ account_name +:+ "' already exists")
      else warn ("sncast account import failed: " +:+ combined)
  | inl e => warn ("Could not run sncast to import account: " +:+ e)
  end.

Definition listen_addr (w : W) : string := "0.0.0.0:" +:+ default "8090" (env_var w "PORT").

Definition main : prog W string unit :=
  c ← mapping_err config_error_text (from_env None);
  info ("Starting SNIP-36 playground rpc_url=" +:+ rpc_url c);;
  ensure_sncast_account c;;
  addr ← reads listen_addr;
  try_host (bind_listener addr) id;;
  info ("Listening on " +:+ addr);;
  try_host serve_app id.

(** Nothing that sncast does keeps the server from starting: with a readable
    configuration, [main] always gets to bind its address. *)
Lemma ensure_total c (w : W) : ∃ w', ensure_sncast_account c w = (Ok tt, w').
Proof.
  unfold ensure_sncast_account, info, warn, modify, call_host, reads, mbind, prog_bind.
  destruct (command_output _ _ _ _) as [[e|output] w1]; [by eexists|]. cbv zeta.
  destruct (out_success output); [by eexists|]. destruct (str_contains _ _); by eexists.
Qed.

Lemma main_binds c (w w0 : W) : from_env None w = (Ok c, w0) →
  ∃ w1, match bind_listener (listen_addr w1) w1 with
        | (inl e, w2) => main w = (Err e, w2)
        | (inr _, w2) =>
            main w = (try_host serve_app id) (trace_info ("Listening on " +:+ listen_addr w1) w2)
        end.
Proof.
  intros Henv.
  destruct (ensure_total c (trace_info ("Starting SNIP-36 playground rpc_url=" +:+ rpc_url c) w0)) as [w1 Hw1].
  exists w1. destruct (bind_listener (listen_addr w1) w1) as [r w2] eqn:Hb.
  assert (mapping_err config_error_text (from_env None) w = (Ok c, w0)) as Hc
    by (unfold mapping_err; by rewrite Henv).
  unfold main. rewrite (prog_bind_eq _ _ _ _ _ Hc). erewrite (prog_bind_eq (info _)) by reflexivity.
  rewrite (prog_bind_eq _ _ _ _ _ Hw1). unfold reads, try_host, call_host, mbind, prog_bind.
  rewrite Hb. by destruct r.
Qed.
End playground.
