(* ===== verification/Extractor.v ===== *)
(** * The extractor ([extractor/src/main.rs])

    Writes the embedded program of the virtual OS to the path it is given. *)

From S2P Require Import Prelude RustNum RustStr Json Config Rpc Host.

(** ** [Path::parent] on Unix

    [trim_path] takes a path from its end: separators, and components "." that
    are not the first, are no part of it. *)
Fixpoint trim_path (rev_path : list Z) : list Z :=
  match rev_path with
  | [] => []
  | c :: l =>
      if c =? 47 then match l with [] => [c] | _ => trim_path l end
      else if c =? 46 then match l with d :: _ => if d =? 47 then trim_path l else rev_path | [] => rev_path end
      else rev_path
  end.

(** What precedes the last component, with the separator. *)
Fixpoint before_last (rev_path : list Z) : list Z :=
  match rev_path with
  | [] => []
  | c :: l => if c =? 47 then rev_path else before_last l
  end.

Definition path_parent (path : string) : option string :=
  match trim_path (rev (as_bytes path)) with
  | [] => None
  | [c] => if c =? 47 then None else Some ""
  | l => Some (of_bytes (rev (trim_path (before_last l))))
  end.

Example parent_nested : path_parent "out/os/program.json" = Some "out/os". Proof. reflexivity. Qed.
Example parent_bare : path_parent "program.json" = Some "". Proof. reflexivity. Qed.
Example parent_root : path_parent "/p" = Some "/" ∧ path_parent "/" = None. Proof. done. Qed.
Example parent_dots : path_parent "a/.//b/./" = Some "a". Proof. reflexivity. Qed.

(** [println!] and [eprintln!]. *)
Class Stdio (W : Type) := { println : string → W → W; eprintln : string → W → W }.

(** ** The program

    [process::exit(code)] is the error [code]. *)
Section extractor.
Context {W : Type} `{Env W} `{Files W} `{Stdio W}.

(** [VIRTUAL_OS_PROGRAM_BYTES]. *)
Context (VIRTUAL_OS_PROGRAM_BYTES : string).

Definition or_exit (msg : string) (f : W → (string + unit) * W) : prog W Z unit :=
  r ← call_host f;
  match r with
  | inr _ => mret tt
  | inl e => modify (eprintln ("Error: " +:+ msg +:+ ": " +:+ e));; throw 1
  end.

Definition main (args : list string) : prog W Z unit :=
  match args !! 1%nat with
  | None =>
      modify (eprintln "Usage: virtual-os-extractor <output-path>");;
      modify (eprintln "  Extracts VIRTUAL_OS_PROGRAM_BYTES to a JSON file.");;
      throw 1
  | Some output_path =>
      match path_parent output_path with
      | None => mret tt
      | Some parent =>
          there ← reads (λ w, path_exists w parent);
          if negb there then or_exit "failed to create output directory" (create_dir_all parent) else mret tt
      end;;
      or_exit "failed to write output file" (write_file output_path VIRTUAL_OS_PROGRAM_BYTES);;
      modify (println ("Virtual OS program written to: " +:+ output_path));;
      modify (println ("Size: " +:+ pretty (String.length VIRTUAL_OS_PROGRAM_BYTES) +:+ " bytes"))
  end.

Lemma or_exit_cases msg f w :
  (∃ w1, f w = (inr tt, w1) ∧ or_exit msg f w = (Ok tt, w1)) ∨
  (∃ e w1, f w = (inl e, w1) ∧ or_exit msg f w = (Err 1, eprintln ("Error: " +:+ msg +:+ ": " +:+ e) w1)).
Proof. unfold or_exit, call_host, mbind, prog_bind. destruct (f w) as [[e|[]] w1]; [right|left]; eauto. Qed.

(** The program ends with exit code 0 or 1, never with a panic; it ends with 0
    exactly when the whole program was written to the given path, after which
    it only prints. *)
Theorem main_spec args w :
  (∃ w', main args w = (Err 1, w')) ∨
  ∃ path w1 w2, args !! 1%nat = Some path ∧ write_file path VIRTUAL_OS_PROGRAM_BYTES w1 = (inr tt, w2) ∧
    main args w = (Ok tt,
      println ("Size: " +:+ pretty (String.length VIRTUAL_OS_PROGRAM_BYTES) +:+ " bytes")
        (println ("Virtual OS program written to: " +:+ path) w2)).
Proof.
  unfold main. destruct (args !! 1%nat) as [path|]; [|left; by eexists].
  set (mkdir := match path_parent path with None => _ | Some _ => _ end).
  assert ((∃ w1, mkdir w = (Ok tt, w1)) ∨ ∃ w1, mkdir w = (Err 1, w1)) as [[w1 Hm]|[w1 Hm]].
  { subst mkdir. destruct (path_parent path) as [parent|]; [|left; by eexists].
    unfold reads, mbind, prog_bind. destruct (path_exists w parent); [left; by eexists|].
    cbn [negb]. destruct (or_exit_cases "failed to create output directory" (create_dir_all parent) w)
      as [(w1 & _ & ->)|(e & w1 & _ & ->)]; eauto. }
  - rewrite (prog_bind_eq mkdir _ _ _ _ Hm).
    destruct (or_exit_cases "failed to write output file" (write_file path VIRTUAL_OS_PROGRAM_BYTES) w1)
      as [(w2 & Hw & Ho)|(e & w2 & _ & Ho)]; unfold mbind, prog_bind; rewrite Ho; [right|left; by eexists].
    by exists path, w1, w2.
  - left. exists w1. unfold mbind, prog_bind. by rewrite Hm.
Qed.
End extractor.
