(* ===== verification/ToyNode.v ===== *)
(** * A concrete prover

    Instances of the prover's interfaces, used to apply the theorems at
    concrete inputs: a node that serves a small state, a transaction executor
    that reads the sender's nonce and one storage slot through the state reader
    it is given, a facts database, a committer and a STARK prover.  The field
    elements, addresses and JSON forms are those of Felt.v and
    StarknetApi.v. *)

From S2P Require Import Prelude RustNum RustStr Json Felt Types StarknetApi StateReader.
From S2P Require Import ProofQuery CommitterUtils Blockifier Executor StorageProofs Runner Rpc SnosProver.

(** ** Evaluating a run

    That a closed run succeeds with a result that passes a test is decided by
    evaluation. *)

Definition result_passes {E A} (test : A → bool) (r : res E A) : bool :=
  match r with Ok a => test a | _ => false end.

Lemma passes_Ok {E A} (r : res E A) test :
  result_passes test r = true → ∃ a, r = Ok a ∧ test a = true.
Proof. destruct r; naive_solver. Qed.

Lemma passes_run {W E A} (run : res E A * W) test :
  result_passes test run.1 = true → ∃ a w', run = (Ok a, w') ∧ test a = true.
Proof. destruct run as [[] w]; naive_solver. Qed.

(** ** Serialisation, classes and blocks *)

Definition de_zfelt (v : Value) : res string zfelt :=
  match v with JString s => zfelt_parse s | _ => Err "expected a hex string" end.

#[export] Instance toy_serde : ApiSerde := {
  ser_felt f := JString (fmt_hex (zf f));
  ser_address (a : zkey) := JString (fmt_hex (zf (`a)));
  ser_storage_key (k : zkey) := JString (fmt_hex (zf (`k)));
  de_felt := de_zfelt;
  de_address v := f ← de_zfelt v; zkey_try_from f;
  de_storage_key v := f ← de_zfelt v; zkey_try_from f;
  de_bool v := match v with JBool b => Ok b | _ => Err "expected a boolean" end;
  to_hex_string f := fmt_hex (zf f);
}.

Lemma de_zfelt_ser (f : Felt (FeltOps:=zfelt_ops)) : de_zfelt (JString (fmt_hex (zf f))) = Ok f.
Proof. apply (@felt_parse_hex_hex zfelt_ops _ f). Qed.

#[export] Instance toy_serde_laws : ApiSerdeLaws.
Proof.
  split; [apply de_zfelt_ser|intros a|intros a|done];
    cbn [de_address de_storage_key ser_address ser_storage_key toy_serde];
    rewrite de_zfelt_ser; apply zkey_try_from_key.
Qed.

(** A class is its bytecode; every class is a Sierra class. *)
#[export] Instance toy_classes : Classes := {
  FlattenedSierra := unit;
  SierraContractClass := unit;
  SierraVersion := unit;
  CompiledClassV0 := unit;
  CompiledClassV1 := list zfelt;
  Program := unit;
  usize_max := u32_max;
  de_contract_class _ := Ok (inl tt);
  sierra_from _ := tt;
  extract_from_program _ := Ok tt;
  compiled_v1_from_json s _ := Ok [zfelt_mk (Z.of_nat (String.length s))];
  gunzip _ := Err "not gzip";
  parse_program _ := Err "not a program";
  compiled_v0_from _ _ := Ok tt;
}.

#[export] Instance toy_block_types : BlockTypes := {
  StarknetVersion := string;
  starknet_version_parse s := if decide (s = "") then Err "no version" else Ok s;
  GasPrices := list Z;
  validated_gas_prices a b c d e f := [a; b; c; d; e; f];
}.

#[export] Instance toy_casm : Casm := {
  program_data c := Int <$> c;
  SegmentLengths := nat;
  bytecode_segment_felt_sizes c := length c;
  CasmHints := unit;
  casm_hints _ := Ok tt;
  CasmEntryPoints := unit;
  casm_entry_points _ := tt;
}.

(** ** The transaction executor *)

Definition bounds_fee (b : ResourceBounds) (tip : Z) : Z :=
  max_amount (l1_gas b) * max_price_per_unit (l1_gas b)
  + max_amount (l2_gas b) * (max_price_per_unit (l2_gas b) + tip)
  + max_amount (l1_data_gas b) * max_price_per_unit (l1_data_gas b).

(** A transaction's outcome is its revert error and its messages; the cached
    state is the pair of the initial reads and the diff. *)
#[export] Instance toy_blockifier : Blockifier := {
  InvokeTransactionV0 := unit;
  InvokeTransactionV1 := unit;
  InvokeTransactionV3 := RpcInvokeTransactionV3;
  RpcDeclareTransaction := unit;
  RpcDeployAccountTransaction := unit;
  v3_of_rpc t := t;
  rpc_of_v3 t := Ok t;
  ser_rpc_invoke t := JObject [("nonce", JString (fmt_hex (zf (rt_nonce t))))];
  all_resources_max_fee := bounds_fee;
  v0_max_possible_fee _ := 0;
  v1_max_possible_fee _ := 0;
  v3_max_possible_fee t := bounds_fee (rt_resource_bounds t) (rt_tip t);
  BlockifierTransaction := RpcInvokeTransactionV3 * zfelt * ExecutionFlags;
  VersionedConstants := bool;
  latest_constants := true;
  versioned_constants_get _ := Ok false;
  set_enable_casm_hash_migration _ v := v;
  set_min_sierra_version _ v := v;
  BouncerConfig := nat;
  default_bouncer_config := 0%nat;
  concat_counts a b c _ := zfelt_mk (a * 2 ^ 128 + b * 2 ^ 64 + c);
  CallInfo := list MessageToL1;
  TransactionExecutionInfo := option string * list MessageToL1;
  revert_error := fst;
  non_optional_call_infos i := [i.2];
  get_sorted_l2_to_l1_messages c := c;
  CachedState := StateMaps * StateMaps;
  get_initial_reads s := Ok s.1;
  to_state_diff s := Ok s.2;
}.

(** The world: the clock and the class cache. *)
Record node := { nd_clock : Z; nd_classes : gmap zfelt CompiledClasses }.

Definition toy_slot : zkey := zaddr 1.

(** Read the nonce, the class and one slot of the sender; emit a message with
    the calldata and bump the nonce. *)
Definition toy_run_tx (reader : StateReader) (tx : RpcInvokeTransactionV3)
    (st : StateMaps * StateMaps * gset zfelt)
    : res string ((option string * list MessageToL1) * StateMaps)
      * (StateMaps * StateMaps * gset zfelt) :=
  let a := rt_sender_address tx in
  let '(reads, diff, executed) := st in
  match get_nonce_at reader a, get_class_hash_at reader a, get_storage_at reader a toy_slot with
  | Ok n, Ok c, Ok v =>
      let diff := {| nonces := <[a := zfelt_mk (zf n + 1)]> (nonces diff); class_hashes := ∅;
                     storage := ∅; compiled_class_hashes := ∅; declared_contracts := ∅ |} in
      let reads := {| nonces := <[a := n]> (nonces reads);
                      class_hashes := <[a := c]> (class_hashes reads);
                      storage := <[(a, toy_slot) := v]> (storage reads);
                      compiled_class_hashes := ∅; declared_contracts := ∅ |} in
      (Ok ((None, [{| msg_from_address := a; msg_to_address := [1];
                      msg_payload := rt_calldata tx |}]), diff),
       (reads, diff, executed ∪ {[ c ]}))
  | _, _, _ => (Err "cannot read the sender", st)
  end.

Fixpoint toy_run_txs (reader : StateReader) (txs : list RpcInvokeTransactionV3)
    (st : StateMaps * StateMaps * gset zfelt)
    : list (res string ((option string * list MessageToL1) * StateMaps))
      * (StateMaps * StateMaps * gset zfelt) :=
  match txs with
  | [] => ([], st)
  | tx :: txs =>
      let '(o, st) := toy_run_tx reader tx st in
      let '(os, st) := toy_run_txs reader txs st in (o :: os, st)
  end.

#[export] Instance toy_executes : Executes node := {
  blockifier_tx_from_api tx h flags :=
    match tx with InvokeV3 t => Ok (t, h, flags) | _ => Err "not an invoke v3" end;
  set_and_compile h c w := {| nd_clock := nd_clock w; nd_classes := <[h := c]> (nd_classes w) |};
  cached_class w h := nd_classes w !! h;
  execute_txs reader _ txs w :=
    let '(os, (reads, diff, executed)) :=
      toy_run_txs reader (fst <$> (fst <$> txs)) (empty_state_maps, empty_state_maps, ∅) in
    ((os, {| block_state := Some (reads, diff);
             bouncer_executed_class_hashes := Ok executed |}), w);
}.

(** ** The node *)

Definition toy_sender : zkey := zaddr 5.
Definition toy_class : zfelt := zfelt_mk 99.

Definition toy_reads : RpcInitialReads := {|
  ir_storage := [{| se_contract_address := toy_sender; se_key := toy_slot; se_value := zfelt_mk 8 |}];
  ir_nonces := [{| ne_contract_address := toy_sender; ne_nonce := zfelt_mk 3 |}];
  ir_class_hashes := [{| ce_contract_address := toy_sender; ce_class_hash := toy_class |}];
  ir_declared_contracts := [{| de_class_hash := toy_class; de_is_declared := true |}] |}.

(** The result of each method. *)
Definition toy_result (method : string) : Value :=
  if decide (method = "starknet_simulateTransactions")
  then JObject [("initial_reads", initial_reads_json toy_reads)]
  else if decide (method = "starknet_getNonce") then JString "0x3"
  else JString "0x1".

Definition toy_reply (request : Value) : Value :=
  JObject [("jsonrpc", JString "2.0"); ("id", json_u64 0);
    ("result", toy_result (match get request "method" with Some (JString m) => m | _ => "" end))].

Definition tick (w : node) : node := {| nd_clock := nd_clock w + 1; nd_classes := nd_classes w |}.

#[export] Instance toy_http_status : HttpStatus node := {
  post_status _ v w :=
    (inr {| is_success := true; status_text := "200 OK"; body := inr (toy_reply v) |}, tick w) }.
#[export] Instance toy_http : Http node := { post_json _ v w := (inr (toy_reply v), tick w) }.
#[export] Instance toy_time : Clock node := {
  now := nd_clock;
  sleep d w := {| nd_clock := nd_clock w + Z.max d 0; nd_classes := nd_classes w |};
  instant_max := 2 ^ 63 * 1000000000 }.

#[export] Instance toy_time_laws : ClockLaws node.
Proof. split; simpl; intros; lia. Qed.

Lemma toy_run_txs_length reader txs st : length (toy_run_txs reader txs st).1 = length txs.
Proof.
  revert st. induction txs as [|tx txs IH]; intros st; [done|]. cbn [toy_run_txs].
  destruct (toy_run_tx reader tx st) as [o st1]. specialize (IH st1).
  destruct (toy_run_txs reader txs st1). simpl in *. by rewrite IH.
Qed.

#[export] Instance toy_blockifier_laws : BlockifierLaws node.
Proof.
  split.
  - intros reader ctx txs w. cbn [execute_txs toy_executes].
    pose proof (toy_run_txs_length reader (fst <$> (fst <$> txs))
      (empty_state_maps, empty_state_maps, ∅)) as Hl.
    destruct (toy_run_txs _ _ _) as [os [[reads diff] executed]]. simpl in *.
    rewrite !length_fmap in Hl. lia.
  - intros h c w. apply lookup_insert_eq.
  - intros h h' c w Hs. cbn. by apply lookup_insert_is_Some'; right.
  - intros url v w h Hs. exact Hs.
  - intros b tip H1 H2 H3. cbn. unfold bounds_fee. nia.
  - done.
Qed.

#[export] Instance toy_node_proofs : ProofRpc node := {
  get_storage_proof _ cs addrs keys w := (inr (node_answer toy_db cs addrs keys), tick w) }.

Lemma toy_node_honest b : honest (W:=node) toy_db b.
Proof. intros cs addrs keys w. by exists (tick w). Qed.

(** ** The facts database, the committer, the OS and the prover *)

#[export] Instance toy_facts_db : FactsDbOps := {
  DbKey := bool * list Z;
  DbValue := MerkleNode + list Z;
  inner_node_key l := (true, l);
  serialize_inner _ n := Ok (inl n);
  serialize_binary _ l r := Ok (inl (BinaryNode l r));
  leaf_key _ _ b := (false, b);
  serialize_leaf h _ := Ok (inr [zf h]);
  compute_leaf_hash l :=
    match l with
    | ContractState n c r => zfelt_mk (zf n * 7 + zf c * 5 + zf r)
    | StarknetStorageValue v => v
    | CompiledClassLeaf h => h
    end;
}.

#[export] Instance toy_facts_laws : FactsDbLaws.
Proof. split; cbn; intros; congruence. Qed.

#[export] Instance toy_committer : Committer := {
  FilledForest := StateRoots;
  commit_block d roots db :=
    (Ok {| contracts_trie_root_hash :=
             zfelt_mk (zf (contracts_trie_root_hash roots) + Z.of_nat (size (address_to_nonce d)));
           classes_trie_root_hash := classes_trie_root_hash roots |}, db);
  forest_write _ db := Ok db;
  get_contract_root_hash := contracts_trie_root_hash;
  get_compiled_class_root_hash := classes_trie_root_hash;
}.

Definition node_felts (n : MerkleNode) : list zfelt :=
  match n with BinaryNode l r => [l; r] | EdgeNode p l c => [zfelt_mk l; p; c] end.

#[export] Instance toy_commitment_infos : CommitmentInfos := {
  Preimage := MerkleNode;
  preimage_from n := n;
  flatten_preimages m := node_felts <$> m;
  ACTUAL_HEIGHT := 251;
  StateChangesKeys := gset zkey;
  state_maps_keys m := dom (nonces m);
  create_commitment_infos prev new _ _ :=
    Ok {| contracts_trie_commitment_info :=
            {| previous_root := contracts_trie_root_hash prev;
               updated_root := contracts_trie_root_hash new;
               tree_height := 251; commitment_facts := ∅ |};
          classes_trie_commitment_info :=
            {| previous_root := classes_trie_root_hash prev;
               updated_root := classes_trie_root_hash new;
               tree_height := 251; commitment_facts := ∅ |};
          storage_tries_commitment_infos := ∅ |};
}.

(** The storage updates grouped by contract. *)
Definition group_entry (e : (zkey * zkey) * zfelt) (m : gmap zkey (gmap zkey zfelt))
    : gmap zkey (gmap zkey zfelt) :=
  <[e.1.1 := <[e.1.2 := e.2]> (default ∅ (m !! e.1.1))]> m.

Definition group_storage (m : gmap (zkey * zkey) zfelt) : gmap zkey (gmap zkey zfelt) :=
  map_fold (λ k v, group_entry (k, v)) ∅ m.

Lemma group_storage_spec m :
  ∀ a k v, (∃ us, group_storage m !! a = Some us ∧ us !! k = Some v) ↔ m !! (a, k) = Some v.
Proof.
  unfold group_storage. revert m.
  apply (map_fold_weak_ind (λ (g : gmap zkey (gmap zkey zfelt)) (m : gmap (zkey * zkey) zfelt),
    ∀ a k v, (∃ us, g !! a = Some us ∧ us !! k = Some v) ↔ m !! (a, k) = Some v)).
  { intros a k v. rewrite !lookup_empty. naive_solver. }
  intros [a' k'] v' m g Hm IH a k v. unfold group_entry. cbn [fst snd].
  destruct (decide (a = a')) as [->|Hne].
  - setoid_rewrite lookup_insert_eq. destruct (decide (k = k')) as [->|Hk].
    + rewrite lookup_insert_eq. split; [|intros [= ->]; eexists; split; [done|apply lookup_insert_eq]].
      intros (us & [= <-] & Hus). by rewrite lookup_insert_eq in Hus.
    + rewrite lookup_insert_ne by congruence. rewrite <-IH. split.
      * intros (us & [= <-] & Hus). rewrite lookup_insert_ne in Hus by done.
        destruct (g !! a') as [us'|]; [by exists us'|]. done.
      * intros (us & Hg & Hus). eexists. split; [done|].
        by rewrite lookup_insert_ne, Hg.
  - setoid_rewrite lookup_insert_ne; [|congruence..]. apply IH.
Qed.

#[export] Instance toy_storage_diff : StorageDiffFrom := {
  storage_diff_from m := (λ p, (p.1, map_to_list p.2)) <$> map_to_list (group_storage m) }.

#[export] Instance toy_storage_diff_laws : StorageDiffLaws.
Proof.
  split; cbn.
  - intros m. rewrite <-list_fmap_compose. apply NoDup_fst_map_to_list.
  - intros m a us ([b g] & [= -> ->] & _)%list_elem_of_fmap. apply NoDup_fst_map_to_list.
  - intros m a k v. rewrite <-group_storage_spec. split.
    + intros (us & ([b g] & [= -> ->] & Hg)%list_elem_of_fmap & Hk). exists g.
      split; [by apply elem_of_map_to_list|by apply elem_of_map_to_list].
    + intros (us & Hg & Hk). exists (map_to_list us). split; [|by apply elem_of_map_to_list].
      apply list_elem_of_fmap. exists (a, us). split; [done|by apply elem_of_map_to_list].
Qed.

#[export] Instance toy_debug_address : DebugFmt zkey := λ a, fmt_hex (zf (`a)).
#[export] Instance toy_debug_addresses : DebugFmt (gmap zkey zfelt) := λ _, "{..}".
#[export] Instance toy_debug_hashes : DebugFmt (gmap zfelt zfelt) := λ _, "{..}".

#[export] Instance toy_hash_fmt : HashFmt := {
  debug_transaction_hash h := "TransactionHash(" ++ fmt_hex (zf h) ++ ")";
  display_class_hash h := fmt_hex (zf h);
}.

(** Its PIE is the OS input. *)
#[export] Instance toy_os : VirtualOs := {
  CairoPie := OsHints;
  os_run h := Ok h;
  calculate_transaction_hash tx _ :=
    match tx with
    | InvokeV3 t => Ok (zfelt_mk (1000 * zf (rt_nonce t) + Z.of_nat (length (rt_calldata t))))
    | _ => Err "unsupported version"
    end;
}.

#[export] Instance toy_stwo : Stwo := {
  Precomputes := unit;
  ProofBytes := list Z;
  OutputPreimage := list zfelt;
  ProgramOutput := list zfelt;
  privacy_recursive_prove pie _ :=
    Ok ([Z.of_nat (length (os_block_inputs pie)); 2; 3], [zfelt_mk 11; zfelt_mk 12]);
  proof_from l := l;
  program_output_from l := l;
  try_into_proof_facts l := Ok l;
}.
