(* ===== verification/ToyHost.v ===== *)
(** * A concrete host

    Instances of the interfaces of Host.v, used to apply the handlers'
    theorems at concrete inputs: a node that answers by method name, a gateway
    that is not ready before time 1, files that are told apart by their names,
    an sncast that always succeeds, and an encoding of JSON documents as
    text. *)

From Stdlib Require Import SpecFloat.
From S2P Require Import Prelude RustNum RustStr Json Felt Types Signing ProofCodec Config Rpc.
From S2P Require Import Host Submission CoinFlipState CoinFlip Counter.

(** ** JSON documents as text

    A document is turned into a tree of strings and numbers, the tree into a
    number by stdpp's [Countable], and the number into its binary digits. *)

Fixpoint bits (p : positive) : string :=
  match p with
  | xH => EmptyString
  | xO p => String "0" (bits p)
  | xI p => String "1" (bits p)
  end.

Fixpoint unbits (s : string) : option positive :=
  match s with
  | EmptyString => Some xH
  | String "0" s => xO <$> unbits s
  | String "1" s => xI <$> unbits s
  | _ => None
  end.

Lemma unbits_bits p : unbits (bits p) = Some p.
Proof. induction p; simpl; by rewrite ?IHp. Qed.

Abbreviation tree := (gen_tree (string + Z)) (only parsing).

Definition sign_leaf (b : bool) : tree := GenLeaf (inr (if b then 1 else 0)).

Definition tree_of_float (x : spec_float) : list tree :=
  match x with
  | S754_nan => []
  | S754_zero s => [sign_leaf s]
  | S754_infinity s => [sign_leaf s; GenNode 0 []]
  | S754_finite s m e => [sign_leaf s; GenLeaf (inr (Z.pos m)); GenLeaf (inr e)]
  end.

Definition float_of (l : list tree) : spec_float :=
  match l with
  | [GenLeaf (inr s)] => S754_zero (s =? 1)
  | [GenLeaf (inr s); GenNode _ _] => S754_infinity (s =? 1)
  | [GenLeaf (inr s); GenLeaf (inr m); GenLeaf (inr e)] => S754_finite (s =? 1) (Z.to_pos m) e
  | _ => S754_nan
  end.

Fixpoint tree_of (v : Value) : tree :=
  match v with
  | JNull => GenNode 0 []
  | JBool b => GenNode 3 [sign_leaf b]
  | JString s => GenLeaf (inl s)
  | JNumber (PosInt n) => GenLeaf (inr n)
  | JNumber (NegInt z) => GenNode 4 [GenLeaf (inr z)]
  | JNumber (Float x) => GenNode 5 (tree_of_float x)
  | JArray l => GenNode 6 (tree_of <$> l)
  | JObject m => GenNode 1 ((λ kv, GenNode 2 [GenLeaf (inl kv.1); tree_of kv.2]) <$> m)
  end.

Fixpoint value_of (t : tree) : Value :=
  match t with
  | GenLeaf (inl s) => JString s
  | GenLeaf (inr n) => json_u64 n
  | GenNode 1 l =>
      JObject ((λ t, match t with
                     | GenNode _ [GenLeaf (inl k); t] => (k, value_of t)
                     | _ => ("", JNull)
                     end) <$> l)
  | GenNode 3 [GenLeaf (inr b)] => JBool (b =? 1)
  | GenNode 4 [GenLeaf (inr z)] => JNumber (NegInt z)
  | GenNode 5 l => JNumber (Float (float_of l))
  | GenNode 6 l => JArray (value_of <$> l)
  | GenNode _ _ => JNull
  end.

Lemma float_of_tree x : float_of (tree_of_float x) = x.
Proof. by destruct x as [[]|[]| |[]]. Qed.

Lemma value_of_tree_of : ∀ v, value_of (tree_of v) = v.
Proof.
  fix IH 1. intros [|[]|[n|n|x]|s|l|m]; simpl; try done.
  - by rewrite float_of_tree.
  - f_equal. induction l as [|v l IHl]; [done|]. simpl. rewrite (IH v). f_equal. exact IHl.
  - f_equal. induction m as [|[k v] m IHm]; [done|]. simpl. rewrite (IH v). f_equal. exact IHm.
Qed.

#[export] Instance toy_json_text : JsonText := {
  to_string_pretty v := bits (encode (tree_of v));
  json_document s :=
    match p ← unbits s; decode p with
    | Some t => Ok (value_of t)
    | None => Err "not a document"
    end;
}.

Lemma document_text v : json_document (to_string_pretty v) = Ok v.
Proof.
  cbn. rewrite unbits_bits. cbn. rewrite countable.decode_encode. by rewrite value_of_tree_of.
Qed.

#[export] Instance toy_json_text_laws : JsonTextLaws.
Proof.
  split. intros v _. apply document_text.
Qed.

(** ** Base 64: two letters per byte *)

Definition nibble (z : Z) : Ascii.ascii := Ascii.ascii_of_nat (65 + Z.to_nat (z mod 16)).
Definition of_nibble (c : Ascii.ascii) : Z := Z.of_nat (Ascii.nat_of_ascii c) - 65.

Fixpoint letters (l : list Z) : string :=
  match l with
  | [] => EmptyString
  | b :: l => String (nibble (b / 16)) (String (nibble (b mod 16)) (letters l))
  end.

Fixpoint of_letters (s : string) : res string (list Z) :=
  match s with
  | EmptyString => Ok []
  | String c (String d s) => l ← of_letters s; Ok (of_nibble c * 16 + of_nibble d :: l)
  | _ => Err "odd length"
  end.

#[export] Instance toy_base64 : Base64 := { base64_encode := letters; base64_decode := of_letters }.

Lemma of_nibble_nibble z : of_nibble (nibble z) = z mod 16.
Proof.
  unfold of_nibble, nibble. pose proof (Z.mod_pos_bound z 16).
  rewrite Ascii.nat_ascii_embedding by lia. lia.
Qed.

Lemma nibble_graphic z : graphic (byte_Z (nibble z)).
Proof.
  pose proof (of_nibble_nibble z) as Hn. pose proof (Z.mod_pos_bound z 16).
  unfold of_nibble, Ascii.nat_of_ascii in Hn. unfold graphic, byte_Z. lia.
Qed.

#[export] Instance toy_base64_laws : Base64Laws.
Proof.
  split; intros l; cbn [base64_decode base64_encode toy_base64].
  - intros Hl. induction Hl as [|b l Hb _ IH]; [done|]. cbn [letters of_letters].
    rewrite IH. cbn [mbind res_bind]. unfold is_byte in Hb. rewrite !of_nibble_nibble.
    do 2 f_equal. Z.div_mod_to_equations; lia.
  - induction l as [|b l IH]; [constructor|]. repeat constructor; auto using nibble_graphic.
    all: apply nibble_graphic.
Qed.

(** ** The world *)

Record host := {
  ho_clock : Z;
  ho_events : list (string * string);
  ho_cf : CoinFlipState;
  ho_sessions : gmap string Session;
}.

Definition at_time (t : Z) (w : host) : host := {|
  ho_clock := t; ho_events := ho_events w; ho_cf := ho_cf w; ho_sessions := ho_sessions w |}.
Definition later (w : host) : host := at_time (ho_clock w + 1) w.

Definition host_receipt : Value := JObject [
  ("finality_status", JString "ACCEPTED_ON_L2"); ("block_number", json_u64 12)].

(** The result of each method of the node. *)
Definition host_result (method : string) : Value :=
  if decide (method = "starknet_getTransactionReceipt") then host_receipt
  else if decide (method = "starknet_blockNumber") then json_u64 14
  else if decide (method = "starknet_call") then JArray [JString "0x5"]
  else if decide (method = "starknet_addInvokeTransaction")
  then JObject [("transaction_hash", JString "0xabc")]
  else JString "0x3".

Definition host_reply (request : Value) : Value :=
  JObject [("result",
    host_result (match get request "method" with Some (JString m) => m | _ => "" end))].

#[export] Instance host_http : Http host := { post_json _ v w := (inr (host_reply v), later w) }.
#[export] Instance host_time : Clock host := {
  now := ho_clock; sleep d w := at_time (ho_clock w + Z.max d 0) w; instant_max := 2 ^ 63 * 1000000000 }.

#[export] Instance host_time_laws : ClockLaws host.
Proof. split; simpl; intros; lia. Qed.

(** The texts of the proof's files, and what they parse to. *)
Definition host_messages : Value := JObject [("l2_to_l1_messages", JArray [JObject [
  ("payload", JArray (JString <$> ["0x5"; "0xc"; "0x1"; "0x1"; "0x1"]))]])].

#[export] Instance host_json : SerdeJson := {
  json_to_string _ := "json";
  json_from_str s :=
    if decide (s = "facts") then Ok (JArray [JString "0x9"])
    else if decide (s = "messages") then Ok host_messages else Err "expected value";
}.

#[export] Instance host_env : Env host := {
  env_var _ _ := None; path_exists _ _ := true; current_dir _ := Some "/srv";
  dotenv_from_path _ w := w; dotenv w := w }.

#[export] Instance host_process : Process host := {
  command_output _ _ _ w :=
    (inr {| out_success := true; out_stdout := as_bytes "done"; out_stderr := [] |}, later w);
  command_stream _ _ w := (inr (["proving"; ""], inr true), later w) }.

#[export] Instance host_files : Files host := {
  create_dir_all _ w := (inr tt, w);
  write_file _ _ w := (inr tt, w);
  read_to_string p w :=
    (inr (if str_contains "proof_facts" p then "facts"
          else if str_contains "messages" p then "messages" else "AAAA"), w);
  file_len _ w := (inr 4, w) }.

#[export] Instance host_random : Random host := {
  random_bytes n w := (replicate n 7, w); new_v4 w := ("3f2c-11", w) }.

#[export] Instance host_gateway : Gateway host := {
  post_gateway _ _ w :=
    (inr (inr (if decide (ho_clock w < 1)
               then JObject [("message", JString "block is too recent")]
               else JObject [("code", JString "TRANSACTION_RECEIVED")])), later w) }.

#[export] Instance host_events : Events host := {
  emit e d w := {| ho_clock := ho_clock w; ho_events := ho_events w ++ [(e, d)];
                   ho_cf := ho_cf w; ho_sessions := ho_sessions w |} }.

Definition host_config : Config := {|
  rpc_url := "http://node"; account_address := "0x5"; private_key := "0x11";
  chain_id := "SN_SEPOLIA"; gateway_url := Some "http://gateway/"; project_dir := "/srv";
  output_dir := "/srv/output"; deps_dir := "/srv/deps" |}.

#[export] Instance host_server : Server host := {
  config := host_config; rpc := {| url := "http://node" |};
  sncast_lock w := w; sncast_unlock w := w;
  Response := Z * string; error_response := pair; find_snip36_bin _ := "snip36" }.

(** sncast prints one hash, and every pattern finds it. *)
#[export] Instance host_regex : RegexLite := {
  Regex := string; regex_new s := Some s; is_match _ _ := true; find _ _ := Some "0xc1a5" }.
#[export] Instance host_captures : RegexCaptures := { capture_1 _ _ := Some "0xabc" }.

#[export] Instance host_coinflip : CoinFlipApp host := {
  cf_state := ho_cf;
  set_cf_state s w := {| ho_clock := ho_clock w; ho_events := ho_events w; ho_cf := s;
                         ho_sessions := ho_sessions w |} }.
#[export] Instance host_coinflip_laws : CoinFlipAppLaws host.
Proof. by split. Qed.

#[export] Instance host_sessions : Sessions host := {
  get_session id w := default default_session (ho_sessions w !! id);
  update_session_with id f w := {|
    ho_clock := ho_clock w; ho_events := ho_events w; ho_cf := ho_cf w;
    ho_sessions := <[id := f (default default_session (ho_sessions w !! id))]> (ho_sessions w) |};
  server_parse_hex _ _ := Some "0xabc" }.
#[export] Instance host_sessions_laws : SessionsLaws host.
Proof.
  split; intros; cbn.
  - by rewrite lookup_insert_eq.
  - by rewrite lookup_insert_ne.
Qed.

(** No host call of this world touches the application's own state. *)
Lemma host_stable s : stable_world (reached_by (W:=host) (λ _, False) s).
Proof. split; [split|]; intros; assumption. Qed.
