(* ===== verification/ToyDriver.v ===== *)
(** * A concrete machine for the drivers

    A node with a counter and a balance, commands and files that always
    succeed, and the statics of a driver.  A transaction that the node accepts
    raises the counter by six, and the command that settles a bet pays one
    STRK. *)

From S2P Require Import Prelude RustNum RustStr Json Felt Types Signing Config Rpc.
From S2P Require Import Host Driver ToyHost.

Record desk := {
  dk_clock : Z;
  dk_tally : Tally;
  dk_counter : Z;
  dk_balance : Z;
}.

Definition desk_at (t : Z) (w : desk) : desk := {|
  dk_clock := t; dk_tally := dk_tally w; dk_counter := dk_counter w; dk_balance := dk_balance w |}.
Definition passed (d : Z) (w : desk) : desk := desk_at (dk_clock w + Z.max d 0) w.
Definition counting (n : Z) (w : desk) : desk := {|
  dk_clock := dk_clock w; dk_tally := dk_tally w; dk_counter := dk_counter w + n;
  dk_balance := dk_balance w |}.
Definition paying (n : Z) (w : desk) : desk := {|
  dk_clock := dk_clock w; dk_tally := dk_tally w; dk_counter := dk_counter w;
  dk_balance := dk_balance w + n |}.
Definition tallied (t : Tally) (w : desk) : desk := {|
  dk_clock := dk_clock w; dk_tally := t; dk_counter := dk_counter w; dk_balance := dk_balance w |}.

Definition desk_start : desk :=
  {| dk_clock := 0; dk_tally := cleared; dk_counter := 0; dk_balance := 2 * 10 ^ 18 |}.

(** ** The node *)

Definition method_of (request : Value) : string := default "" (get_str request "method").
Definition callee_of (request : Value) : string :=
  default "" (params ← get request "params"; call ← get params "request"; get_str call "contract_address").

Definition desk_result (w : desk) (request : Value) : Value :=
  let method := method_of request in
  if decide (method = "starknet_getTransactionReceipt") then host_receipt
  else if decide (method = "starknet_blockNumber") then json_u64 14
  else if decide (method = "starknet_addInvokeTransaction")
  then JObject [("transaction_hash", JString "0xabc")]
  else if decide (method = "starknet_call") then
    JArray [JString (fmt_hex (if decide (callee_of request = STRK_TOKEN)
                              then dk_balance w else dk_counter w))]
  else JString "0x3".

#[export] Instance desk_http : Http desk := {
  post_json _ v w :=
    (inr (JObject [("result", desk_result w v)]),
     passed 1 (if decide (method_of v = "starknet_addInvokeTransaction") then counting 6 w else w)) }.

#[export] Instance desk_time : Clock desk := {
  now := dk_clock; sleep := passed; instant_max := 2 ^ 63 * 1000000000 }.

#[export] Instance desk_time_laws : ClockLaws desk.
Proof.
  split; cbn; intros; [lia|]. destruct (decide _); cbn; lia.
Qed.

(** ** The machine *)

#[export] Instance desk_env : Env desk := {
  env_var _ k :=
    if decide (k = "STARKNET_RPC_URL") then Some "http://node"
    else if decide (k = "STARKNET_ACCOUNT_ADDRESS") then Some "0x0012344"
    else if decide (k = "STARKNET_PRIVATE_KEY") then Some "0x11" else None;
  path_exists _ _ := true; current_dir _ := Some "/srv"; dotenv_from_path _ w := w; dotenv w := w }.

#[export] Instance desk_process : Process desk := {
  command_output _ arguments _ w :=
    (inr {| out_success := true; out_stdout := as_bytes "done"; out_stderr := [] |},
     passed 1 (if decide ("settle" ∈ arguments) then paying (10 ^ 18) w
               else if decide ("increment" ∈ arguments) then counting 1 w else w));
  command_stream _ _ w := (inr (["proving"], inr true), passed 1 w) }.

#[export] Instance desk_files : Files desk := {
  create_dir_all _ w := (inr tt, w);
  write_file _ _ w := (inr tt, w);
  read_to_string p w :=
    (inr (if str_contains "proof_facts" p then "facts"
          else if str_contains "messages" p then "messages" else "AAAA"), w);
  file_len _ w := (inr 4, w) }.

#[export] Instance desk_random : Random desk := {
  random_bytes n w := (replicate n 7, w); new_v4 w := ("3f2c-11", w) }.

(** Not ready for the first five seconds. *)
#[export] Instance desk_gateway : Gateway desk := {
  post_gateway _ _ w :=
    (inr (inr (if decide (dk_clock w < from_secs 5)
               then JObject [("message", JString "block is too recent")]
               else JObject [("code", JString "TRANSACTION_RECEIVED")])), passed 1 w) }.

#[export] Instance desk_statics : Statics desk := { tally := dk_tally; set_tally := tallied }.
#[export] Instance desk_console : Console desk := {
  trace_info _ w := w; trace_warn _ w := w; trace_error _ w := w }.
#[export] Instance desk_host : DriverHost desk := {
  command_status _ _ w := (inr true, passed 1 w);
  current_exe _ := Some "/srv/snip36"; f64_display _ := "0.001" }.

#[export] Instance desk_laws : DriverLaws.
Proof.
  split; cbn; intros; try done; [|lia].
  split; cbn; intros; try done; repeat case_match; done.
Qed.

#[export] Instance desk_debug : DebugFmt (list string) := λ l, String.concat ", " l.
