(* ===== verification/ProverWitnesses.v ===== *)
(** * The prover's theorems at concrete inputs

    Each lemma applies one theorem of the core, the node client or the prover
    to the toy instances of ToyNode.v, where its hypotheses hold. *)

From S2P Require Import Prelude RustNum RustStr Json Felt Types Signing ProofCodec Config Rpc.
From S2P Require Import StarknetApi StateReader ProofQuery CommitterUtils Blockifier Executor.
From S2P Require Import StorageProofs Runner SnosProver WebProver WebPipeline ToyNode.

#[local] Existing Instance toy_json.

(** ** Transactions *)

Definition invoke_with (calldata : list zfelt) : invoke_v3 := {|
  iv_sender_address := zfelt_mk 5; iv_calldata := calldata; iv_chain_id := zfelt_mk 1;
  iv_nonce := zfelt_mk 3; iv_tip := zfelt_mk 0; iv_resource_bounds := zero_fee;
  iv_paymaster_data := []; iv_account_deployment_data := [];
  iv_nonce_da_mode := 0; iv_fee_da_mode := 0; iv_proof_facts := [zfelt_mk 9] |}.

(** Two calldata on which the example hash collides, so the hashes of the
    transactions agree. *)
Definition clash : list zfelt := [zfelt_mk (stark_prime - 7000015)].

Lemma tx_hash_commits_witness :
  invoke_with clash ≠ invoke_with [] ∧
  Exists (λ p, collision p.1 p.2) (hashed_pairs (invoke_with clash) (invoke_with [])).
Proof.
  assert (invoke_with clash ≠ invoke_with []) as Hne by (intros Heq; discriminate).
  split; [exact Hne|].
  destruct (tx_hash_commits (invoke_with clash) (invoke_with [])) as [Heq|Hc].
  - repeat split; vm_compute; discriminate.
  - repeat split; vm_compute; discriminate.
  - vm_compute. reflexivity.
  - destruct (Hne Heq).
  - exact Hc.
Defined.

Definition toy_submit : SubmitParams := {|
  sp_sender_address := zfelt_mk 5; sp_private_key := zfelt_mk 17;
  sp_calldata := [zfelt_mk 1; zfelt_mk 2]; sp_proof_base64 := "AAAA";
  sp_proof_facts := [zfelt_mk 9]; sp_nonce := zfelt_mk 3; sp_chain_id := zfelt_mk 1;
  sp_resource_bounds := default_bounds |}.

Lemma payload_matches_hash_witness :
  ∃ h v, sign_and_build_payload toy_submit = Ok (h, v) ∧
    receiver_tx_hash (zfelt_mk 1) v = Some h.
Proof.
  destruct (passes_Ok (sign_and_build_payload toy_submit) (λ _, true)) as ([h v] & E & _);
    [vm_compute; reflexivity|].
  exists h, v. split; [exact E|].
  destruct (payload_matches_hash toy_submit h v default_bounds_ok E) as (_ & Hr & _). exact Hr.
Defined.

(** ** The node client *)

Definition toy_rpc : StarknetRpc := {| url := "http://node" |}.

Lemma wait_for_block_after_witness :
  ∃ o w', wait_for_block_after {| url := "u" |} 4 1 3 1
    {| sc_clock := 0; sc_replies := [inr (JObject [("result", json_u64 1)]);
         inr (JObject [("result", json_u64 2)])]; sc_log := [] |} = (o, w') ∧ o = Ok 2.
Proof.
  match goal with |- ∃ o w', wait_for_block_after _ _ _ _ _ ?w = _ ∧ _ => set (w0 := w) end.
  destruct (wait_for_block_after_spec {| url := "u" |} 1 3 1 3 w0)
    as (o & w' & Ho & _); [lia | lia | vm_compute; discriminate |].
  exists o, w'. split; [exact Ho|]. vm_compute in Ho. injection Ho as <- _. reflexivity.
Defined.

(** ** The facts database and storage proofs *)

(** One node, whose right child the proof does not open. *)
Definition small_proof : RpcStorageProof := {|
  classes_proof := [(zfelt_mk 1, BinaryNode (zfelt_mk 1) (zfelt_mk 2))];
  contracts_proof := {| nodes := []; contract_leaves_data := [] |};
  contracts_storage_proofs := [];
  global_roots := db_roots toy_db |}.

Definition dummy_node : MerkleNode + list Z := inl (BinaryNode (zfelt_mk 0) (zfelt_mk 0)).

Lemma facts_db_closed_witness :
  ∃ db, create_facts_db_from_storage_proof small_proof default_query empty_state_maps = Ok db ∧
    is_Some (db !! hash_key (zfelt_mk 2)) ∧
    ∀ h v, db !! hash_key h = Some v →
      (∃ t n, t ∈ all_tries small_proof ∧ (h, n) ∈ t ∧ serialize_inner h n = Ok v) ∨
      (v = dummy_node ∧ ∀ t n, t ∈ all_tries small_proof → (h, n) ∉ t).
Proof.
  destruct (passes_Ok (create_facts_db_from_storage_proof small_proof default_query
    empty_state_maps) (λ db, Nat.eqb (size db) 2)) as (db & E & _); [vm_compute; reflexivity|].
  exists db. split; [exact E|].
  destruct (facts_db_closed small_proof default_query empty_state_maps db dummy_node eq_refl E)
    as (Hall & Honly & _).
  split; [|exact Honly].
  refine (proj2 (Hall (classes_proof small_proof) (zfelt_mk 1) _ _ (list_elem_of_here _ _)) _ _).
  - cbn. right. left.
  - cbn. right. left.
Defined.

(** The execution of one transaction of the sender. *)
Definition toy_tx : RpcInvokeTransactionV3 := {|
  rt_sender_address := toy_sender; rt_calldata := [zfelt_mk 1; zfelt_mk 2]; rt_signature := [];
  rt_nonce := zfelt_mk 3; rt_resource_bounds := zero_fee; rt_tip := 0; rt_paymaster_data := [];
  rt_account_deployment_data := []; rt_nonce_data_availability_mode := Calldata;
  rt_fee_data_availability_mode := Calldata; rt_proof_facts := []; rt_proof := [] |}.

Definition toy_price : GasPricePerToken := {| price_in_fri := 1; price_in_wei := 2 |}.

Definition toy_header : BlockHeader := {|
  bh_block_hash := zfelt_mk 20; bh_parent_hash := zfelt_mk 19; bh_block_number := 7;
  bh_sequencer_address := zaddr 2; bh_new_root := zfelt_mk 21; bh_timestamp := 1000;
  bh_l1_gas_price := toy_price; bh_l1_data_gas_price := toy_price;
  bh_l2_gas_price := toy_price; bh_l1_da_mode := Blob; bh_starknet_version := "0.14.1";
  bh_state_diff_commitment := zfelt_mk 22; bh_event_commitment := zfelt_mk 23;
  bh_receipt_commitment := zfelt_mk 24; bh_transaction_commitment := zfelt_mk 25;
  bh_transaction_count := 1; bh_event_count := 2; bh_state_diff_length := 3 |}.

Definition toy_de_header (_ : Value) : res string BlockHeader := Ok toy_header.
Definition toy_message (_ : Value) : string := "invalid type".
Definition toy_class_hash (c : CasmContractClass) : Z := Z.of_nat (length (casm_bytecode c)).

Definition toy_chain : ChainInfo := {|
  ci_chain_id := Sepolia;
  fee_token_addresses := {| strk_fee_token_address := zaddr 3; eth_fee_token_address := zaddr 4 |};
  is_l3 := false |}.

Definition toy_reader : RpcStateReader := {|
  rs_config := from_url "http://node"; rs_block_id := Number 7; rs_chain_info := toy_chain |}.
Definition toy_executor : RpcVirtualBlockExecutor := {|
  rpc_state_reader := toy_reader; validate_txs := true; Executor.config := default_executor_config |}.
Definition toy_node : node := {| nd_clock := 0; nd_classes := ∅ |}.
Definition toy_txs : list (InvokeTransaction * zfelt) := [(InvokeV3 toy_tx, zfelt_mk 77)].

Lemma execute_sound_witness :
  ∃ data w', execute toy_de_header toy_message toy_executor (Number 7) toy_txs toy_node
      = (Ok data, w') ∧
    length (execution_outputs data) = 1%nat ∧
    Forall (λ o, revert_error o.1 = None) (execution_outputs data) ∧
    ∃ header w0 m w1 btxs,
      get_block_header_async toy_de_header toy_reader toy_node = (Ok header, w0) ∧
      base_block_hash (base_block_info data) = bh_block_hash header ∧
      prefetched toy_message toy_executor (Number 7) toy_txs m w0 w1 ∧
      Forall2 (converted toy_executor) toy_txs btxs.
Proof.
  destruct (passes_run (execute toy_de_header toy_message toy_executor (Number 7) toy_txs toy_node)
    (λ d, Nat.eqb (length (execution_outputs d)) 1)) as (data & w' & E & Hl);
    [vm_compute; reflexivity|].
  exists data, w'. split; [exact E|]. split; [by apply Nat.eqb_eq|].
  destruct (execute_sound _ _ _ _ _ _ _ _ E)
    as (Hrev & _ & _ & header & w0 & m & w1 & w2 & btxs & reader & st & s & Hh & Hon & Hpre & _ & _ & Hconv & _).
  split; [exact Hrev|]. exists header, w0, m, w1, btxs. split; [exact Hh|].
  split; [exact (proj1 (proj2 (proj2 (proj2 (proj2 Hon)))))|].
  split; [exact Hpre|exact Hconv].
Defined.

Definition toy_base : BaseBlockInfo := {|
  block_context := {|
    bc_block_info := {|
      bi_block_number := 7; bi_sequencer_address := zaddr 2; bi_block_timestamp := 1000;
      bi_gas_prices := [1]; bi_use_kzg_da := true; bi_starknet_version := "0.14.1" |};
    bc_chain_info := toy_chain; bc_versioned_constants := true; bc_bouncer_config := 0%nat |};
  base_block_hash := zfelt_mk 20;
  base_block_header_commitments := {|
    transaction_commitment := zfelt_mk 25; event_commitment := zfelt_mk 23;
    receipt_commitment := zfelt_mk 24; state_diff_commitment := zfelt_mk 22;
    concatenated_counts := zfelt_mk 1 |};
  prev_base_block_hash := zfelt_mk 19 |}.

Definition toy_data : VirtualBlockExecutionData := {|
  execution_outputs := [];
  initial_reads := {|
    nonces := {[ toy_sender := zfelt_mk 3 ]}; class_hashes := {[ toy_sender := toy_class ]};
    storage := {[ (toy_sender, toy_slot) := zfelt_mk 8 ]};
    compiled_class_hashes := ∅; declared_contracts := ∅ |};
  state_diff := {|
    nonces := {[ toy_sender := zfelt_mk 4 ]}; class_hashes := ∅;
    storage := {[ (toy_sender, toy_slot) := zfelt_mk 9 ]};
    compiled_class_hashes := ∅; declared_contracts := ∅ |};
  executed_class_hashes := {[ toy_class ]};
  l2_to_l1_messages := [];
  base_block_info := toy_base |}.

Lemma storage_proofs_honest_witness :
  ∃ sp w', get_storage_proofs 7 toy_data {| include_state_changes := false |} toy_node
      = (Ok sp, w') ∧
    previous_root (contracts_trie_commitment_info (commitment_infos sp)) = zfelt_mk 1 ∧
    updated_root (classes_trie_commitment_info (commitment_infos sp)) = zfelt_mk 2 ∧
    nonces (extended_initial_reads sp) !! toy_sender = Some (zfelt_mk 5).
Proof.
  destruct (storage_proofs_honest toy_db 7 toy_data toy_node (toy_node_honest 7))
    as (sp & w' & cs & addrs & Hr & _ & _ & Hclasses & _ & Hroot & Hall).
  exists sp, w'. split; [exact Hr|]. split; [exact (proj1 Hroot)|].
  split; [exact (proj1 (proj2 Hclasses))|].
  refine (eq_trans (proj1 (proj2 (Hall toy_sender _))) _).
  - apply (bool_decide_unpack _). vm_compute. exact I.
  - reflexivity.
Defined.

Lemma storage_proofs_committed_witness :
  ∃ sp w', get_storage_proofs 7 toy_data {| include_state_changes := true |} toy_node
      = (Ok sp, w') ∧
    ∃ p, fetch_proofs 7 (prepare_query toy_data) toy_node = (Ok p, w') ∧
      ∀ h facts, node_facts (classes_proof p) !! h = Some facts →
        commitment_facts (classes_trie_commitment_info (commitment_infos sp)) !! h = Some facts.
Proof.
  destruct (passes_run (get_storage_proofs 7 toy_data {| include_state_changes := true |} toy_node)
    (λ _, true)) as (sp & w' & E & _); [vm_compute; reflexivity|].
  exists sp, w'. split; [exact E|].
  exact (proj2 (proj2 (proj2 (storage_proofs_committed _ _ _ _ _ E)))).
Defined.

Lemma validate_state_maps_witness :
  validate_virtual_os_state_diff (state_maps_to_committer_state_diff (state_diff toy_data)) = Ok () ∧
  class_hashes (state_diff toy_data) = ∅.
Proof.
  assert (validate_virtual_os_state_diff (state_maps_to_committer_state_diff (state_diff toy_data))
    = Ok ()) as Hok by (vm_compute; reflexivity).
  split; [exact Hok|].
  exact (proj1 (proj2 (proj1 (validate_state_maps (state_diff toy_data)) Hok))).
Defined.

Lemma prepare_query_witness :
  q_class_hashes (prepare_query toy_data) ≡ₚ [toy_class] ∧
  NoDup (q_contract_addresses (prepare_query toy_data)) ∧
  toy_sender ∈ q_contract_addresses (prepare_query toy_data).
Proof.
  destruct (prepare_query_spec toy_data) as (Hc & Hnd & Ha & _).
  split; [|split; [exact Hnd|]].
  - refine (transitivity Hc _). apply reflexive_eq. vm_compute. reflexivity.
  - apply Ha. apply (bool_decide_unpack _). vm_compute. exact I.
Defined.

(** ** Classes, the executor's outcome and the readers *)

Lemma get_classes_witness :
  ∃ input w', get_classes toy_class_hash toy_reader {[ toy_class ]} toy_node = (Ok input, w') ∧
    dom (class_hash_to_compiled input) = {[ toy_class ]}.
Proof.
  destruct (passes_run (get_classes toy_class_hash toy_reader {[ toy_class ]} toy_node)
    (λ _, true)) as (input & w' & E & _); [vm_compute; reflexivity|].
  exists input, w'. split; [exact E|].
  exact (proj1 (get_classes_spec _ _ _ _ _ _ E)).
Defined.

Lemma pad_hash_witness : felt_val (pad_hash (2 ^ 256 + 5)) = 5 ∧ felt_val (pad_hash 300) = 300.
Proof.
  split.
  - refine (eq_trans (proj1 (pad_hash_spec (2 ^ 256 + 5) _)) _); [discriminate|reflexivity].
  - apply (proj2 (pad_hash_spec 300 ltac:(discriminate))). reflexivity.
Defined.

Definition reverted_output : ExecutionOutput := ((Some "out of gas", []), empty_state_maps).
Definition good_output : ExecutionOutput := ((None, []), empty_state_maps).

Lemma finish_execution_reverted_witness :
  finish_execution toy_base [zfelt_mk 70; zfelt_mk 71] (Ok <$> [good_output; reverted_output])
    {| block_state := None; bouncer_executed_class_hashes := Ok ∅ |}
  = Err (TransactionReverted (zfelt_mk 71) "out of gas").
Proof.
  apply (finish_execution_reverted toy_base [zfelt_mk 70; zfelt_mk 71]
    [good_output; reverted_output] _ 1 reverted_output); [reflexivity..|].
  repeat constructor.
Defined.

Lemma initial_reads_roundtrip_witness :
  deserialize_rpc_initial_reads toy_message (initial_reads_json toy_reads)
    = Ok (state_maps_of_reads toy_reads) ∧
  storage (state_maps_of_reads toy_reads) !! (toy_sender, toy_slot) = Some (zfelt_mk 8).
Proof.
  destruct (initial_reads_roundtrip toy_message toy_reads) as (Hd & Hs & _).
  split; [exact Hd|].
  refine (Hs {| se_contract_address := toy_sender; se_key := toy_slot; se_value := zfelt_mk 8 |} _ _).
  - left.
  - apply (bool_decide_unpack _). vm_compute. exact I.
Defined.

(** ** The prover *)

Definition toy_factory : RpcRunnerFactory := {|
  node_url := "http://node"; rf_chain_info := toy_chain; runner_config := default_runner_config |}.
Definition toy_prover : VirtualSnosProver (W:=node) :=
  rpc_prover toy_de_header toy_message toy_class_hash toy_factory true (Some tt).

Lemma prove_transaction_sound_witness :
  ∃ r w', prove_transaction toy_prover (Number 7) (RpcInvoke toy_tx) toy_node = (Ok r, w') ∧
    ∃ t, provable toy_prover (Number 7) (RpcInvoke toy_tx) t.
Proof.
  destruct (passes_run (prove_transaction toy_prover (Number 7) (RpcInvoke toy_tx) toy_node)
    (λ r, Nat.eqb (length (pt_proof r)) 3)) as (r & w' & E & _); [vm_compute; reflexivity|].
  exists r, w'. split; [exact E|].
  destruct (prove_transaction_sound _ _ _ _ _ _ E) as (t & _ & _ & _ & Hp & _).
  exists t. exact Hp.
Defined.

Lemma rpc_proof_sound_witness :
  ∃ r w', prove_transaction toy_prover (Number 7) (RpcInvoke toy_tx) toy_node = (Ok r, w') ∧
    ∃ data : VirtualBlockExecutionData,
      pt_l2_to_l1_messages r = mjoin (output_messages <$> execution_outputs data) ∧
      class_hashes (state_diff data) = ∅.
Proof.
  destruct (passes_run (prove_transaction toy_prover (Number 7) (RpcInvoke toy_tx) toy_node)
    (λ r, Nat.eqb (length (pt_l2_to_l1_messages r)) 1)) as (r & w' & E & _);
    [vm_compute; reflexivity|].
  exists r, w'. split; [exact E|].
  destruct (rpc_proof_sound _ _ _ toy_factory true _ _ _ _ _ _ E)
    as (_ & _ & data & _ & _ & _ & _ & _ & _ & _ & _ & _ & _ & _ & _ & _ & _ & Hm & _ & _ & _ & _ & Hs).
  exists data. split; [exact Hm|]. exact (proj1 (proj2 (Hs eq_refl))).
Defined.

Lemma zero_fee_not_charged_witness :
  charge_fee (execution_flags toy_executor (InvokeV3 toy_tx)) = false.
Proof.
  apply (zero_fee_not_charged toy_prover (Number 7) (RpcInvoke toy_tx) toy_tx toy_executor);
    [|reflexivity].
  repeat split. discriminate.
Defined.

Lemma prove_without_stwo_witness :
  ∃ m w', prove_transaction
    (rpc_prover (W:=node) toy_de_header toy_message toy_class_hash toy_factory true None)
    (Number 7) (RpcInvoke toy_tx) toy_node = (Panic m, w').
Proof.
  pose proof (prove_without_stwo
    (rpc_prover (W:=node) toy_de_header toy_message toy_class_hash toy_factory true None)
    (Number 7) (RpcInvoke toy_tx) toy_node eq_refl) as Hp.
  destruct (prove_transaction _ _ _ _) as [r w'] eqn:E.
  assert (match r with Panic _ => true | _ => false end = true) as Hr.
  { change r with (r, w').1. rewrite <-E. vm_compute. reflexivity. }
  destruct r as [r|e|m|]; [discriminate Hr|discriminate Hr| |discriminate Hr].
  exists m, w'. reflexivity.
Defined.

(** ** The web prover *)

Definition toy_args : ProveBlockArgs := {|
  reference_block := 7; pb_account_address := "0x5"; pb_private_key := "0x11";
  pb_chain_id := "SN_SEPOLIA"; pb_rpc_url := "http://node"; calldata_strs := ["0x1"; "0x2"] |}.

(** Reading an RPC invoke: the bounds as written; the proof members are
    empty. *)
Definition toy_parse_tx (v : Value) : res string RpcTransaction :=
  match get_str v "type", get v "resource_bounds" ≫= read_bounds "l1_gas" "l2_gas" "l1_data_gas" with
  | Some "INVOKE", Some b =>
      Ok (RpcInvoke {|
        rt_sender_address := toy_sender; rt_calldata := [zfelt_mk 1]; rt_signature := [];
        rt_nonce := zfelt_mk 3; rt_resource_bounds := b; rt_tip := 0; rt_paymaster_data := [];
        rt_account_deployment_data := []; rt_nonce_data_availability_mode := Calldata;
        rt_fee_data_availability_mode := Calldata; rt_proof_facts := []; rt_proof := [] |})
  | _, _ => Err "invalid transaction"
  end.

Lemma toy_parse_reads : reads_rpc_invoke toy_parse_tx.
Proof.
  intros v tx Htx Htype. unfold toy_parse_tx in Htx. rewrite Htype in Htx.
  destruct (get v "resource_bounds" ≫= _) as [b|]; [|discriminate]. injection Htx as <-.
  eexists. repeat split.
Qed.

Definition toy_sig : Signature := {| sig_r := zfelt_mk 1; sig_s := zfelt_mk 2 |}.

Lemma web_tx_provable_witness :
  ∃ tx, toy_parse_tx (web_tx_json toy_args 3 zero_fee toy_sig) = Ok tx ∧
    ∃ t, provable toy_prover (Number 7) tx t.
Proof.
  destruct (passes_Ok (toy_parse_tx (web_tx_json toy_args 3 zero_fee toy_sig)) (λ _, true))
    as (tx & E & _); [vm_compute; reflexivity|].
  exists tx. split; [exact E|].
  exact (web_tx_provable toy_parse_tx toy_prover toy_args 3 toy_sig tx toy_parse_reads E).
Defined.

Definition toy_web (precomputes : option Precomputes) : prog node WebProverError ProveBlockResult :=
  WebProver.prove_block Some
    (λ u ci cfg, factory_run_virtual_os toy_de_header toy_message toy_class_hash
       {| node_url := u; rf_chain_info := ci; runner_config := cfg |})
    precomputes (λ _, Ok (zaddr 3)) (λ _, JNull) (λ _, JNull)
    toy_parse_tx (λ _, Sepolia) toy_rpc toy_args.

Lemma prove_block_binds_witness :
  ∃ r w', toy_web (Some tt) toy_node = (Ok r, w') ∧
    ∃ h, receiver_rpc_tx_hash (chain_id_felt "SN_SEPOLIA") (tx_json r) = Some h ∧
      pb_tx_hash r = felt_hex h.
Proof.
  destruct (passes_run (toy_web (Some tt) toy_node) (λ _, true)) as (r & w' & E & _);
    [vm_compute; reflexivity|].
  exists r, w'. split; [exact E|].
  unfold toy_web in E. destruct (prove_block_binds _ _ _ _ _ _ _ _ _ _ _ _ _ E)
    as (h & _ & _ & _ & _ & _ & _ & Hh & _ & Hx & _).
  exists h. split; [exact Hh|exact Hx].
Defined.

Lemma prove_block_without_stwo_witness :
  (∀ r w', toy_web None toy_node ≠ (Ok r, w')) ∧
  ∃ m w', toy_web None toy_node = (Panic m, w').
Proof.
  split; [intros r w'; unfold toy_web; by apply prove_block_without_stwo|].
  assert (match (toy_web None toy_node).1 with Panic _ => true | _ => false end = true) as Hr
    by (vm_compute; reflexivity).
  destruct (toy_web None toy_node) as [[r|e|m|] w'];
    [discriminate Hr|discriminate Hr| |discriminate Hr].
  by exists m, w'.
Defined.

(** ** The JavaScript binding *)

#[export] Instance toy_js : JsBinding (option ProveBlockResult) := {
  args_from_value v := match v with None => Ok toy_args | Some _ => Err "not the arguments" end;
  result_to_value r := Ok (Some r);
}.

Definition toy_wasm : prog node string (option ProveBlockResult) :=
  prove_block_wasm (web_prove_block toy_de_header toy_message toy_class_hash Some (Some tt)
    (λ _, Ok (zaddr 3)) (λ _, JNull) (λ _, JNull) toy_parse_tx (λ _, Sepolia)) None.

Lemma web_proof_sound_witness :
  ∃ r w', toy_wasm toy_node = (Ok (Some r), w') ∧
    ∃ h tx, receiver_rpc_tx_hash (chain_id_felt "SN_SEPOLIA") (tx_json r) = Some h ∧
      toy_parse_tx (tx_json r) = Ok tx ∧ pb_tx_hash r = felt_hex h.
Proof.
  destruct (passes_run (toy_wasm toy_node) (λ v, match v with Some _ => true | None => false end))
    as (v & w' & E & Hv); [vm_compute; reflexivity|].
  destruct v as [r|]; [|discriminate Hv]. exists r, w'. split; [exact E|].
  destruct (web_proof_sound _ _ _ _ _ _ _ _ _ _ _ _ _ _ E)
    as (args & r' & h & _ & _ & _ & _ & tx & _ & _ & _ & _ & _ & _ & Ha & Hr & _ & Hh & _ & Hx & _ & _ & _ & Htx & _).
  injection Ha as <-. injection Hr as ->. exists h, tx. split; [exact Hh|]. split; [exact Htx|exact Hx].
Defined.
