(* ===== verification/HandlerWitnesses.v ===== *)
(** * The handlers' theorems at concrete inputs

    Each lemma applies one theorem of the coin flip, the counter or the proof
    codec to the toy instances of ToyHost.v, where its hypotheses hold. *)

From Stdlib Require Import SpecFloat.
From S2P Require Import Prelude RustNum RustStr Json Felt Types Signing ProofCodec Config Rpc.
From S2P Require Import Host Submission CoinFlipState CoinFlip Counter CounterSessions Routes ToyNode ToyHost.

(** ** The coin flip *)

(** A bet on tails with nonce 0x7. *)
Definition bet_params : PlayQuery := {| pq_player := "0x5"; pq_bet := 1; pq_nonce := "0x7" |}.
Definition bet_commitment : string := felt_hex (pedersen_hash (felt_of 1) (felt_of 7)).

Definition bet_history : list access :=
  [Commit "a" bet_commitment "0x5"; Commit "b" bet_commitment "0x5"; LockSeed "a" 12].

Definition flip_deployed : CoinFlipDeployment :=
  {| cd_contract_address := "0x99"; cd_class_hash := "0x98"; cd_deploy_block := 4 |}.
Definition bank_deployed : BankDeployment :=
  {| bd_contract_address := "0x77"; bd_class_hash := "0x76"; bd_deploy_block := 5 |}.
Definition both_deployed : PersistedDeployments :=
  {| pd_coinflip := Some flip_deployed; pd_bank := Some bank_deployed |}.

Definition bet_state : CoinFlipState :=
  fold_left (λ s a, apply_access a s) bet_history (initial_state both_deployed).

Definition bet_world : host :=
  {| ho_clock := 0; ho_events := []; ho_cf := bet_state; ho_sessions := ∅ |}.

Lemma bet_steps : cf_steps (initial_state both_deployed) bet_history bet_state.
Proof.
  refine (CfSnoc _ [_; _] _ _ _ (CfSnoc _ [_] _ _ _ (CfSnoc _ [] _ _ _ (CfNil _) _) _) _);
    apply CfStep.
Qed.

Lemma play_start_binding_witness :
  ∃ job w' job' w'', play_start "a" bet_params bet_world = (Ok job, w') ∧
    play_start "b" bet_params w' = (Ok job', w'') ∧
    (job_bet job = job_bet job' ∧ felt_from_hex "0x7" = felt_from_hex "0x7" ∨
     ∃ p p', pedersen_collision p p').
Proof.
  destruct (passes_run (play_start "a" bet_params bet_world) (λ _, true)) as (job & w' & E & _);
    [vm_compute; reflexivity|].
  destruct (passes_run (play_start "b" bet_params (taken "a" bet_world)) (λ _, true))
    as (job' & w'' & E' & _); [vm_compute; reflexivity|].
  assert (w' = taken "a" bet_world) as -> by (vm_compute in E |- *; congruence).
  exists job, (taken "a" bet_world), job', w''. split; [exact E|]. split; [exact E'|].
  refine (proj2 (proj2 (play_start_binding "a" bet_params bet_world _ "b" bet_params
    (taken "a" bet_world) _ job job' _ _ _ _ _ _ _ E E'))); [discriminate|discriminate| | |];
    reflexivity.
Defined.

Lemma play_start_once_witness :
  (play_start "a" {| pq_player := "0x6"; pq_bet := 1; pq_nonce := "0x7" |} bet_world).1
    = Err (400, "Player address does not match commitment.") ∧
  ∃ w1, play_start "a" bet_params w1 = (Err (400,
    "No commitment found for this session. Call POST /api/coinflip/commit first."), w1).
Proof.
  split; [vm_compute; reflexivity|].
  eexists. refine (proj2 (play_start_once "a"
    {| pq_player := "0x6"; pq_bet := 1; pq_nonce := "0x7" |} bet_params bet_world _)).
  discriminate.
Defined.

Lemma commitment_lifecycle_witness :
  ∃ c, commitments bet_state !! "b" = Some c ∧ seed_block c = 0 ∧
    ∃ pre com pl post, bet_history = (pre ++ Commit "b" com pl :: post)%list ∧ commitment c = com.
Proof.
  eexists. split; [vm_compute; reflexivity|]. split; [reflexivity|].
  destruct (proj1 (commitment_lifecycle both_deployed bet_history bet_state "b"
    (new_commitment "b" bet_commitment "0x5") bet_steps))
    as (pre & com & pl & post & Hl & _ & _ & Hc & _); [vm_compute; reflexivity|].
  exists pre, com, pl, post. split; [exact Hl|]. rewrite <-Hc. vm_compute. reflexivity.
Defined.

Definition some_requests : list request :=
  [PostCommit {| cr_commitment := bet_commitment; cr_player := "0x5" |};
   PostConfirmDeposit {| cq_session_id := "3f2c-11"; cq_tx_hash := "0x1" |};
   GetPlay "3f2c-11" bet_params].

Definition fresh_world : host :=
  {| ho_clock := 0; ho_events := []; ho_cf := initial_state both_deployed; ho_sessions := ∅ |}.

(** Three requests: the accesses are the commit, the lock and the taking of
    that session. *)
Lemma requests_refine_witness :
  ∃ ls, Forall2 (λ r l, Forall (λ a, False ∨ issued r a) l) some_requests ls ∧
    cf_steps (initial_state both_deployed) (mjoin ls)
      (cf_state (fold_left (λ w r, serve 60 r w) some_requests fresh_world)).
Proof.
  exact (requests_refine 60 (λ _, False) both_deployed fresh_world some_requests host_stable eq_refl).
Defined.

Lemma confirm_deposit_witness :
  ∃ reply w', confirm_deposit 60 {| cq_session_id := "b"; cq_tx_hash := "0x1" |} bet_world
      = (Ok reply, w') ∧ matched reply = true ∧
    ∃ receipt w1, wait_for_tx rpc 60 "0x1" 120 3 bet_world = (Ok receipt, w1).
Proof.
  destruct (passes_run (confirm_deposit 60 {| cq_session_id := "b"; cq_tx_hash := "0x1" |} bet_world)
    (λ _, true)) as (reply & w' & E & _); [vm_compute; reflexivity|].
  exists reply, w'. split; [exact E|].
  destruct (confirm_deposit_locks _ _ _ _ _ E) as (Hm & receipt & w1 & _ & _ & _ & _ & _ & _ & _ & _ & Hw & _).
  split; [exact Hm|]. exists receipt, w1. exact Hw.
Defined.

Definition bet_job : PlayJob := {|
  job_session_id := "a"; job_contract_address := "0x99"; job_bet := 1; job_player := "0x5";
  job_seed_block := 12 |}.

Lemma play_task_settles_witness :
  ∃ w', play_task 60 bet_job bet_world = (Ok tt, w') ∧
    ∃ params nonce, settled 60 bet_job params nonce bet_world w'.
Proof.
  destruct (passes_run (play_task 60 bet_job bet_world) (λ _, true)) as ([] & w' & E & _);
    [vm_compute; reflexivity|].
  exists w'. split; [exact E|]. exact (play_task_settles _ _ _ _ E).
Defined.

Lemma submit_loop_witness :
  ∃ w', submit_loop max_attempts JNull bet_world = (Ok true, w') ∧
    accepted_after JNull bet_world w'.
Proof.
  destruct (passes_run (submit_loop max_attempts JNull bet_world) id) as (b & w' & E & Hb);
    [vm_compute; reflexivity|].
  destruct b; [|discriminate].
  exists w'. split; [exact E|].
  destruct (submit_loop_spec _ _ _ _ E) as [[_ Ha]|(? & ? & Hr & _)]; [exact Ha|discriminate].
Defined.

Lemma deploy_coinflip_witness :
  ∃ reply w', deploy_coinflip 60 {| ho_clock := 0; ho_events := [];
      ho_cf := initial_state default_deployments; ho_sessions := ∅ |} = (Ok reply, w') ∧
    ∃ d, dr_contract_address reply = cd_contract_address d ∧ cd_deploy_block d = 12.
Proof.
  match goal with |- ∃ _ _, deploy_coinflip _ ?w = _ ∧ _ => set (w0 := w) end.
  destruct (passes_run (deploy_coinflip 60 w0) (λ r, dr_deploy_block r =? 12))
    as (reply & w' & E & Hblock); [vm_compute; reflexivity|].
  apply Z.eqb_eq in Hblock. exists reply, w'. split; [exact E|].
  assert (coinflip (cf_state w0) = None) as Hnone by reflexivity.
  destruct (proj2 (deploy_coinflip_spec 60 w0) Hnone reply w' E)
    as (d & _ & _ & _ & Hr & _).
  exists d. rewrite Hr in Hblock |- *. split; [reflexivity|exact Hblock].
Defined.

Lemma deployments_roundtrip_witness :
  initial_state (parse_deployments (persisted_text bet_state))
    = {| coinflip := Some flip_deployed; bank := Some bank_deployed; commitments := ∅ |}.
Proof.
  apply (deployments_roundtrip bet_state).
  split; intros d Hd; injection Hd as <-; split; vm_compute; discriminate.
Defined.

(** ** The counter *)

Lemma multicall_witness :
  ∃ calldata, collect_res felt_from_hex (multicall_strs "0x99" 2 3) = Ok calldata ∧
    decode_execute calldata
      = Some (replicate 3 (felt_of 0x99, increment_selector, [felt_of 2])).
Proof.
  destruct (multicall_decodes "0x99" (felt_of 0x99) 2 3 true)
    as (calldata & calls & Hc & Hd & -> & _).
  - vm_compute. reflexivity.
  - split; vm_compute; discriminate.
  - split; vm_compute; discriminate.
  - exists calldata. split; [exact Hc|exact Hd].
Defined.

Lemma rpc_submit_loop_witness :
  ∃ w', rpc_submit_loop rpc_attempts JNull bet_world = (Ok (Some "0xabc"), w') ∧
    rpc_accepted JNull "0xabc" bet_world w'.
Proof.
  destruct (passes_run (rpc_submit_loop rpc_attempts JNull bet_world)
    (λ o, bool_decide (o = Some "0xabc"))) as (o & w' & E & Ho); [vm_compute; reflexivity|].
  apply bool_decide_eq_true in Ho. rewrite Ho in E.
  exists w'. split; [exact E|].
  destruct (rpc_submit_loop_spec _ _ _ _ E) as [(h & Hh & Ha)|(? & Hr & _)]; [|discriminate].
  injection Hh as <-. exact Ha.
Defined.

Definition cycle_job : ProveJob := {|
  pj_session_id := "s"; pj_contract_address := "0x99"; pj_reference_block := 4;
  pj_increment_amount := 2; pj_increments_per_block := 3 |}.

Definition cycle_world : host := {|
  ho_clock := 0; ho_events := []; ho_cf := bet_state;
  ho_sessions := {[ "s" := set_deployment "0x99" "0x98" (Some 4) default_session ]} |}.

Lemma prove_task_witness :
  ∃ w', prove_task 60 true cycle_job cycle_world = (Ok tt, w') ∧
    ∃ params nonce, proved 60 cycle_job params nonce 6 cycle_world w'.
Proof.
  destruct (passes_run (prove_task 60 true cycle_job cycle_world) (λ _, true))
    as ([] & w' & E & _); [vm_compute; reflexivity|].
  exists w'. split; [exact E|].
  destruct (prove_task_settles _ _ _ _ _ E) as (params & nonce & expected & Hp & Hx).
  exists params, nonce. vm_compute in Hx. injection Hx as <-. exact Hp.
Defined.

Lemma next_reference_block_witness :
  ∃ w', prove_inclusion 60 cycle_job "0xabc" cycle_world = (Ok tt, w') ∧
    ∃ b, prove_request "s" 2 3 w' = (Ok {|
      pj_session_id := "s"; pj_contract_address := "0x99"; pj_reference_block := b;
      pj_increment_amount := 2; pj_increments_per_block := 3 |}, w').
Proof.
  set (w1 := (prove_inclusion 60 cycle_job "0xabc" cycle_world).2).
  assert (prove_inclusion 60 cycle_job "0xabc" cycle_world = (Ok tt, w1)) as E
    by (vm_compute; reflexivity).
  exists w1. split; [exact E|].
  destruct (next_reference_block 60 cycle_job "0xabc" 2 3 cycle_world w1 "0x99" E)
    as (receipt & _ & _ & Hr); [vm_compute; reflexivity|].
  exists (default 0 (receipt_block_number receipt)). exact Hr.
Defined.

(** ** The legacy proof format *)

Lemma cairo_serde_roundtrip_witness :
  ∃ b64, cairo_serde_to_base64 ["0x1"; "0x102"] = Ok b64 ∧
    decode_proof_base64 b64 = Ok [0; 0; 0; 1; 0; 0; 1; 2].
Proof.
  destruct (cairo_serde_roundtrip ["0x1"; "0x102"] [felt_of 1; felt_of 0x102])
    as (b64 & He & Hd).
  - repeat constructor; vm_compute; reflexivity.
  - exists b64. split; [exact He|]. refine (eq_trans Hd _). vm_compute. reflexivity.
Defined.

(** ** Raw requests *)

Record raw_request := {
  raw_method : http_method;
  raw_path : string;
  raw_query : list (string * string);
  raw_body : option Value;
}.

Fixpoint strip_prefix (p s : string) : option string :=
  match p, s with
  | EmptyString, s => Some s
  | String a p, String b s => if decide (a = b) then strip_prefix p s else None
  | _, _ => None
  end.

Lemma strip_prefix_Some p s x : strip_prefix p s = Some x → s = p +:+ x.
Proof.
  revert s. induction p as [|a p IH]; intros s Hs; cbn in Hs; [by injection Hs as ->|].
  destruct s as [|b s]; [done|]. case_decide; [|done]. subst. by rewrite (IH s Hs).
Qed.

#[export] Instance raw_axum : Axum raw_request := {
  rq_method := raw_method;
  rq_path := raw_path;
  path_match p rq :=
    match p with
    | Literal path => if decide (raw_path rq = path) then Some None else None
    | Capture prefix _ =>
        segment ← strip_prefix prefix (raw_path rq);
        if decide (segment ≠ "" ∧ dirname segment = "") then Some (Some segment) else None
    end;
  query_pairs rq := Some (raw_query rq);
  json_body := raw_body;
}.

#[export] Instance raw_axum_laws : AxumLaws raw_request.
Proof.
  split; [intros p rq x|intros pre name rq x]; cbn [path_match raw_axum rq_path].
  - by case_decide; intros [= <-].
  - destruct (strip_prefix pre (raw_path rq)) as [seg|] eqn:Hs; [|done]. cbn. case_decide as Hd; [|done].
    intros [= <-]. exists seg. apply strip_prefix_Some in Hs. naive_solver.
Qed.

#[export] Instance host_separate : SeparateStates host.
Proof. by split. Qed.

(** The second member has its default and is left out. *)
Definition prove_raw : raw_request := {|
  raw_method := GET; raw_path := "/api/prove-block/s"; raw_query := [("increment_amount", "25")];
  raw_body := Some JNull |}.

Lemma client_served_witness : dispatch prove_raw = Ok (Count (GetProveBlock "s" 25 1)).
Proof.
  apply (client_served true).
  - exists (get_route (Capture "/api/prove-block/" "session_id") Prove_block).
    split; [by apply list_elem_of_In; vm_compute; auto 20|]. by split_and!; vm_compute.
  - split; split; vm_compute; discriminate.
Defined.

Lemma host_environment : environment (W:=host) (Request:=raw_request) (λ _ w, w) (λ _, False) (λ _, False).
Proof. split; [intros s t; split; [split|]|]; intros; assumption. Qed.

(** A commitment, a body without its player, a deployment of the counter, and
    a path of no route. *)
Definition raw_requests : list raw_request := [
  {| raw_method := POST; raw_path := "/api/coinflip/commit"; raw_query := [];
     raw_body := Some (JObject [("commitment", JString bet_commitment); ("player", JString "0x5")]) |};
  {| raw_method := POST; raw_path := "/api/coinflip/commit"; raw_query := [];
     raw_body := Some (JObject [("commitment", JString bet_commitment)]) |};
  {| raw_method := POST; raw_path := "/api/deploy-counter"; raw_query := [];
     raw_body := Some (JObject [("session_id", JString "s")]) |};
  {| raw_method := GET; raw_path := "/api/unknown"; raw_query := []; raw_body := None |}].

Lemma server_refines_witness :
  let w' := fold_left (λ w rq, serve_http 60 true (λ _, "") (λ _ w, w) rq w) raw_requests fresh_world in
  ∃ las lns, Forall2 (λ rq l, Forall (λ a, False ∨ makes rq a) l) raw_requests las ∧
    Forall2 (λ rq l, Forall (λ n, False ∨ notes rq n) l) raw_requests lns ∧
    cf_steps (cf_state fresh_world) (mjoin las) (cf_state w') ∧
    ∀ id, get_session id w' = replay id (mjoin lns) (get_session id fresh_world).
Proof.
  exact (server_refines 60 true (λ _, "") (λ _ w, w) (λ _, False) (λ _, False) raw_requests fresh_world
    host_environment).
Defined.

(** ** A deployment during a proof cycle

    While the cycle of a session waits for its block, another request deploys
    a new counter for the session: the update of the cycle comes last. *)

Section overtaken.

Definition other_deployment : string * note := ("s", CounterDeployed "0xdef" "0x98" (Some 13)).

#[local] Instance overtaken_events : Events host := {
  emit e d w :=
    if decide (d = "Tx included in block 12")
    then update_session_with other_deployment.1 (apply_note other_deployment.2) (host_events.(emit) e d w)
    else host_events.(emit) e d w }.

Lemma overtaken_stable s : stable_host (W:=host) (noted_by (λ n, n = other_deployment) s).
Proof.
  split; intros; try assumption. cbn [emit overtaken_events]. case_decide; [|assumption].
  by apply noted_by_note.
Qed.

(** The new counter was deployed in block 13, and the next proof is made on
    block 12. *)
Lemma sessions_refine_witness :
  let rs := [PostDeployCounter "s"; GetProveBlock "s" 2 3] in
  let w' := fold_left (λ w r, serve_counter 60 true (λ _, "") r w) rs fresh_world in
  ∃ ls, Forall2 (λ r l, Forall (λ n, n = other_deployment ∨ writes r n) l) rs ls ∧
    next_job (W:=host) "s" 2 3 (target "s" (mjoin ls)) = Ok {|
      pj_session_id := "s"; pj_contract_address := "0xdef"; pj_reference_block := 12;
      pj_increment_amount := 2; pj_increments_per_block := 3 |}.
Proof.
  destruct (sessions_refine 60 true (λ _, "") (λ n, n = other_deployment) fresh_world
    [PostDeployCounter "s"; GetProveBlock "s" 2 3] overtaken_stable) as (ls & Hls & Hs).
  - by intros n ->.
  - intros id. by split.
  - exists ls. split; [exact Hls|]. destruct (Hs "s") as [_ Hr].
    refine (eq_trans (f_equal fst (eq_sym (Hr 2 3))) _). vm_compute. reflexivity.
Defined.
End overtaken.
