(* ===== verification/DriverWitnesses.v ===== *)
(** * The drivers' theorems at concrete inputs

    Each lemma applies one theorem of the drivers to the machine of
    ToyDriver.v, where its hypotheses hold: the runs are evaluated from their
    first to their last line. *)

From Stdlib Require Import SpecFloat.
From S2P Require Import Prelude RustNum RustStr RustFloat Json Felt Types Signing ProofCodec Config Rpc.
From S2P Require Import Host Submission CoinFlipState CoinFlip Counter Driver DriverFacts TxSchema ToyNode ToyHost ToyDriver.
From S2P Require Import CounterE2e MessagesE2e CoinFlipE2e SettlementE2e Health SubmissionLoops.

Definition all_passed (v : verdict) : bool := match v with AllPassed => true | ExitFailure => false end.

(** ** The shared parts *)

Lemma account_calls_witness :
  ∃ calldata, collect_res felt_from_hex (encode_account_calls [("0x7", "0x8", ["0x9"]); ("0xa", "0xb", [])])
      = Ok calldata ∧
    decode_execute calldata
      = Some [(felt_of 7, felt_of 8, [felt_of 9]); (felt_of 10, felt_of 11, [])].
Proof.
  set (calls := [("0x7", "0x8", ["0x9"]); ("0xa", "0xb", [])]).
  destruct (passes_Ok (collect_res felt_from_hex (encode_account_calls calls)) (λ _, true))
    as (calldata & E & _); [vm_compute; reflexivity|].
  exists calldata. split; [exact E|].
  destruct (proj1 (account_calls_roundtrip calls calldata ltac:(vm_compute; discriminate)
    ltac:(repeat constructor; vm_compute; discriminate)) E) as (fs & _ & Hd & _).
  vm_compute in E. injection E as <-. vm_compute. reflexivity.
Defined.

Definition desk_config : Config := {|
  rpc_url := "http://node"; account_address := "0x5"; private_key := "0x11";
  chain_id := "SN_SEPOLIA"; gateway_url := Some "http://gateway/"; project_dir := "/srv";
  output_dir := "/srv/output"; deps_dir := "/srv/deps" |}.

Definition desk_submission : Felt * Value := (felt_of 0xabc, JObject [("type", JString "INVOKE")]).

Lemma submit_spec_witness :
  ∃ r w', submit desk_config [] desk_submission desk_start = (Ok r, w') ∧
    ∃ h, r = Some h ∧ tally w' = count_pass (tally desk_start).
Proof.
  destruct (passes_run (submit desk_config [] desk_submission desk_start) (λ o, bool_decide (is_Some o)))
    as (r & w' & E & Hr); [vm_compute; reflexivity|].
  exists r, w'. split; [exact E|]. apply bool_decide_eq_true in Hr.
  destruct (submit_spec _ _ _ _ _ _ E) as (? & ? & ? & ? & _ & _ & _ & [(h & Hh & _ & Ht)|(Hn & _)]).
  - exists h. split; [congruence|exact Ht].
  - exfalso. injection Hn as ->. destruct Hr. discriminate.
Defined.

(** The gateway is not ready for five seconds. *)
Lemma submit_live_witness :
  ∃ w', submit desk_config [] desk_submission desk_start = (Ok (Some "0xabc"), w') ∧
    tally w' = count_pass (tally desk_start).
Proof.
  refine (submit_live desk_config [] desk_submission "http://gateway/" (from_secs 5) desk_start eq_refl _ _).
  - intros w. eexists _, _. split; [reflexivity|]. cbn [now desk_time desk_gateway post_gateway].
    destruct (decide (dk_clock w < from_secs 5)) as [Hlt|Hge].
    + rewrite (proj2 (Z.ltb_lt _ _) Hlt). split; [discriminate|reflexivity].
    + rewrite (proj2 (Z.ltb_ge _ _)) by lia. eexists. split; reflexivity.
  - vm_compute. discriminate.
Defined.

(** Two steps with a check in the first. *)
Lemma steps_recorded_witness :
  ∃ marks (w w' : desk), driven marks w ∧ finish_last_step (E:=string) w = (Ok tt, w') ∧
    step_timings (tally w') = [("Step 0: a", 4); ("Step 1: b", 3)].
Proof.
  set (w1 := (step (E:=string) 0 "a" (set_tally cleared desk_start)).2).
  set (w2 := (Driver.pass (E:=string) "fine" (passed 4 w1)).2).
  set (w3 := passed 3 (step (E:=string) 1 "b" w2).2).
  assert (driven [("Step 0: a", 0); ("Step 1: b", 4)] w3) as Hd.
  { refine (DrivenOther _ (step (E:=string) 1 "b" w2).2 w3 _ _ eq_refl eq_refl); [|vm_compute; discriminate].
    refine (DrivenStep [("Step 0: a", 0)] w2 1 "b" _).
    refine (DrivenOther _ w1 w2 _ _ eq_refl eq_refl); [|vm_compute; discriminate].
    refine (DrivenStep [] (set_tally cleared desk_start) 0 "a" _). apply DrivenReset. }
  destruct (steps_recorded _ _ Hd) as (w' & Hf & Ht & _). exists [("Step 0: a", 0); ("Step 1: b", 4)], w3, w'.
  split; [exact Hd|]. split; [exact Hf|]. rewrite Ht. vm_compute. reflexivity.
Defined.

Definition desk_felts : task_felts :=
  match (parse_felts desk_config ["0x1"; "0x2"] desk_start).1 with
  | Ok felts => felts
  | _ => {| pf_calldata := []; pf_sender := felt_of 0; pf_key := felt_of 0; pf_chain_id := felt_of 0 |}
  end.

Lemma construct_tx_signed_witness :
  ∃ felts w', parse_felts desk_config ["0x1"; "0x2"] desk_start = (Ok felts, desk_start) ∧
    construct_tx desk_config "signing: " felts ["0x1"; "0x2"] 7 "tx.json" desk_start = (Ok tt, w') ∧
    ∃ v h sig, standard_receiver_hash (pf_chain_id felts) v = Some h ∧ sign (pf_key felts) h = Ok sig.
Proof.
  destruct (passes_run (parse_felts desk_config ["0x1"; "0x2"] desk_start) (λ _, true))
    as (felts & w1 & E & _); [vm_compute; reflexivity|].
  pose proof (parsed_felts_Ok _ _ _ _ _ E) as (-> & _).
  assert (felts = desk_felts) as -> by (unfold desk_felts; rewrite E; reflexivity).
  destruct (passes_run (construct_tx desk_config "signing: " desk_felts ["0x1"; "0x2"] 7 "tx.json" desk_start)
    (λ _, true)) as ([] & w' & Hc & _); [vm_compute; reflexivity|].
  exists desk_felts, w'. split; [exact E|]. split; [exact Hc|].
  assert (in_u u64_max 7) as H7 by (split; vm_compute; discriminate).
  destruct (construct_tx_signed desk_config "signing: " ["0x1"; "0x2"] desk_felts 7 "tx.json" desk_start
    w' tt E H7 Hc) as (v & h & sig & _ & Hh & Hs & _).
  exists v, h, sig. split; assumption.
Defined.

(** What the machine's environment says. *)
Definition desk_from_env : Config := {|
  rpc_url := "http://node"; account_address := "0x0012344"; private_key := "0x11";
  chain_id := "SN_SEPOLIA"; gateway_url := None; project_dir := "/srv";
  output_dir := "/srv/output"; deps_dir := "/srv/deps" |}.

Definition desk_params : SubmitParams := {|
  sp_sender_address := felt_of 0x12344; sp_private_key := felt_of 0x11; sp_calldata := [felt_of 1; felt_of 0];
  sp_proof_base64 := "AAAA"; sp_proof_facts := [felt_of 9]; sp_nonce := felt_of 3;
  sp_chain_id := felt_of 0x534e; sp_resource_bounds := default_bounds |}.

Lemma payload_typed_witness :
  ∃ h v, sign_and_build_payload desk_params = Ok (h, v) ∧ has_type submission_ty v = true ∧
    has_type submission_ty (document v) = true.
Proof.
  destruct (passes_Ok (sign_and_build_payload desk_params) (λ _, true)) as ([h v] & E & _);
    [vm_compute; reflexivity|].
  exists h, v. split; [exact E|]. destruct (payload_typed desk_params h v default_bounds_ok E) as (Ht & Hd & _).
  split; [exact Ht|exact Hd].
Defined.

(** The leading zeros of the configured address stay in the document. *)
Lemma tx_json_typed_witness :
  has_type proved_ty (tx_json desk_from_env ["0x1"] 7 {| sig_r := felt_of 1; sig_s := felt_of 2 |}) = false.
Proof.
  assert (in_u u64_max 7) as H7 by (split; vm_compute; discriminate).
  rewrite (tx_json_typed desk_from_env ["0x1"] 7 _ H7). vm_compute. reflexivity.
Defined.

(** ** Whole runs *)

Definition counter_args : CounterE2e.E2eArgs := {|
  CounterE2e.ea_prover_url := None; CounterE2e.ea_output_dir := "out"; CounterE2e.ea_snos_blocks := 2;
  CounterE2e.ea_counter_increments := 2; CounterE2e.ea_increments_per_snos := 3;
  CounterE2e.ea_prove_only := false |}.


Definition messages_args : MessagesE2e.E2eMessagesArgs := {|
  MessagesE2e.ma_prover_url := None; MessagesE2e.ma_output_dir := "out";
  MessagesE2e.ma_prove_only := false; MessagesE2e.ma_to_address := "0x123";
  MessagesE2e.ma_payload := "0x1,0x2" |}.

(** The message that was sent goes to 0x123; the one that is found has no
    address. *)
Lemma any_message_witness :
  ∃ w', MessagesE2e.check_messages MessagesE2e.messages_texts messages_args host_messages desk_start
      = (Ok tt, w') ∧ tally w' = count_pass (tally desk_start).
Proof.
  refine (MessagesE2e.any_message_passes MessagesE2e.messages_texts messages_args host_messages _ _
    desk_start _). vm_compute. reflexivity.
Defined.


Definition flip_args (bet : Z) : CoinFlipE2e.E2eCoinflipArgs := {|
  CoinFlipE2e.fa_prover_url := None; CoinFlipE2e.fa_output_dir := "out";
  CoinFlipE2e.fa_prove_only := false; CoinFlipE2e.fa_bet := bet |}.


(** A bet of 0.001 STRK. *)
Definition settlement_args (bet : Z) : SettlementE2e.E2eSettlementArgs := {|
  SettlementE2e.sa_prover_url := None; SettlementE2e.sa_output_dir := "out";
  SettlementE2e.sa_prove_only := false; SettlementE2e.sa_bet := bet;
  SettlementE2e.sa_bet_amount := S754_finite false 4611686018427388 (-62) |}.

(** The bet on tails wins and is paid. *)
Lemma settlement_e2e_witness :
  ∃ w', SettlementE2e.run 60 (settlement_args 1) None desk_start = (Ok AllPassed, w') ∧
    ∃ bank session ref before after felts nonce w,
      SettlementE2e.bet_settled 60 desk_from_env bank session ref after felts nonce w w' ∧
      ¬ SettlementE2e.unpaid (SettlementE2e.outcome_won (settlement_args 1) felts ref) before after.
Proof.
  destruct (passes_run (SettlementE2e.run 60 (settlement_args 1) None desk_start) all_passed)
    as (v & w' & E & Hall); [vm_compute; reflexivity|].
  destruct v; [|discriminate]. exists w'. split; [exact E|].
  destruct (SettlementE2e.settlement_e2e_sound _ _ _ _ _ _ E)
    as (c & w0 & coinflip & bank & session & pre & ref & before & felts & nonce & wm & we & Hc & _ & _ & Hs).
  vm_compute in Hc. injection Hc as <- _. destruct Hs as [[Hp _]|(after & Hset & Hv)]; [discriminate|].
  exists bank, session, ref, before, after, felts, nonce, we. split; [exact Hset|].
  exact (proj2 (proj1 Hv eq_refl)).
Defined.

(** Without overflow checks, and with a balance of one word. *)
Lemma health_witness :
  ∃ w', Health.run 60 false {| Health.quick := false |} None desk_start = (Ok AllPassed, w') ∧
    ∃ wa wb, Health.counter_worked 60 desk_from_env wa wb.
Proof.
  destruct (passes_run (Health.run 60 false {| Health.quick := false |} None desk_start) all_passed)
    as (v & w' & E & Hall); [vm_compute; reflexivity|].
  destruct v; [|discriminate]. exists w'. split; [exact E|].
  destruct (Health.health_sound _ _ _ _ _ _ _ E)
    as [Hx|(c & w0 & wa & wb & wc & wd & we & Hc & _ & _ & _ & _ & Hf & _)]; [discriminate|].
  vm_compute in Hc. injection Hc as <- _.
  destruct Hf as [[[Hq|Hk] _]|Hf]; [discriminate|discriminate|].
  exists wd, we. exact Hf.
Defined.

Lemma balance_words_witness :
  (Health.check_balance true desk_config "0x5" desk_start).1 = Panic "attempt to shift left with overflow".
Proof.
  assert (∃ l w1, starknet_call (client desk_config) STRK_TOKEN BALANCE_OF_SELECTOR ["0x5"]
    (trace_info (Health.titled "Check 2: Master account STRK balance") desk_start)
      = (Ok ("0x1bc16d674ec80000" :: l), w1)) as (l & w1 & Hcall).
  { destruct (passes_run (starknet_call (client desk_config) STRK_TOKEN BALANCE_OF_SELECTOR ["0x5"]
      (trace_info (Health.titled "Check 2: Master account STRK balance") desk_start))
      (λ l, bool_decide (l = ["0x1bc16d674ec80000"]))) as (l & w1 & E & Hl); [vm_compute; reflexivity|].
    apply bool_decide_eq_true in Hl. subst l. eauto. }
  rewrite (Health.check_balance_words true desk_config "0x5" _ _ desk_start w1 Hcall). reflexivity.
Defined.

(** ** The submission loops *)

#[export] Instance desk_events : Events desk := { emit _ _ w := w }.
#[export] Instance desk_server : Server desk := {
  config := desk_config; rpc := {| url := "http://node" |}; sncast_lock w := w; sncast_unlock w := w;
  Response := unit; error_response _ _ := tt; find_snip36_bin _ := "snip36" }.

#[export] Instance desk_steady : SteadyClock desk.
Proof. split; cbn; intros; lia. Qed.

Lemma desk_opens u v : gateway_opens (W := desk) (from_secs 5) u v.
Proof.
  intros w. cbn [now desk_time desk_gateway post_gateway]. do 2 eexists. split; [reflexivity|].
  destruct (Z.ltb_spec (dk_clock w) (from_secs 5)) as [Hlt|Hge].
  - rewrite decide_True by done. split; [discriminate|reflexivity].
  - rewrite decide_False by lia. reflexivity.
Qed.

Lemma gateway_loops_live_witness :
  (∃ w', gateway_loop attempts "http://gateway" JNull "0xabc" desk_start = (Ok (Some "0xabc"), w')) ∧
  (∃ w', accept_loop attempts "http://gateway" JNull desk_start = (Ok true, w')) ∧
  (∃ w', CoinFlip.submit_loop attempts JNull desk_start = (Ok true, w')).
Proof.
  apply (gateway_loops_live (from_secs 5) "http://gateway" JNull "0xabc" desk_start);
    [apply desk_opens|apply desk_opens|vm_compute; discriminate].
Defined.

Lemma submission_ends_witness :
  ∃ r w', CoinFlip.submit_loop attempts JNull desk_start = (r, w') ∧
    ∃ n w1, (n < attempts)%nat ∧ flip_attempt JNull (S n) w1 = Done r w'.
Proof.
  destruct (CoinFlip.submit_loop attempts JNull desk_start) as [r w'] eqn:E. exists r, w'.
  split; [reflexivity|].
  destruct (submission_ends (λ left, CoinFlip.submit_loop left JNull) desk_start r w' E) as (n & w1 & Hn & _ & Hd).
  exists n, w1. split; [exact Hn|exact Hd].
Defined.
