(* ===== verification/ToyBank.v ===== *)
(** * A token, and the claims on the contracts at concrete inputs *)

From Stdlib Require Import SpecFloat.
From S2P Require Import Prelude RustNum RustStr RustFloat Json Felt Types Signing Config Rpc Host Submission.
From S2P Require Import CoinFlipState Counter CoinFlip Driver DriverFacts CounterE2e MessagesE2e CoinFlipE2e.
From S2P Require Import SettlementE2e Selectors Contracts Bank OnChain Account SettlementOnChain.
From S2P Require Import ToyNode.
Import CoinFlipBank.

(** ** A token with a bounded supply *)

Definition balances_ok (m : gmap zfelt Z) : Prop :=
  map_Forall (λ _ n, 0 ≤ n) m ∧ gmap_sum (λ _ n, n) m ≤ u256_max.

#[export] Instance balances_ok_dec m : Decision (balances_ok m).
Proof. apply _. Defined.

Record toy_token := ToyToken {
  tt_balances : gmap zfelt Z;
  tt_allowances : gmap (zfelt * zfelt) Z;
  tt_ok : Is_true (bool_decide (balances_ok tt_balances));
}.

Definition toy_balance (t : toy_token) (a : zfelt) : Z := default 0 (tt_balances t !! a).
Definition toy_allowance (t : toy_token) (a b : zfelt) : Z := default 0 (tt_allowances t !! (a, b)).

Definition move_balance (sender recipient : zfelt) (amount : Z) (m : gmap zfelt Z) : gmap zfelt Z :=
  let m := <[sender := default 0 (m !! sender) - amount]> m in
  <[recipient := default 0 (m !! recipient) + amount]> m.

Definition checked (b : bool) : (Is_true b → toy_token) → res string (bool * toy_token) :=
  if b as b return (Is_true b → toy_token) → res string (bool * toy_token)
  then λ t, Ok (true, t I) else λ _, Err "ERC20: overflow".

Lemma checked_Ok b t r : checked b t = Ok r → ∃ H, r = (true, t H).
Proof. destruct b; [|done]. intros [= <-]. by exists I. Qed.

Lemma checked_covered b t : b = true → ∃ r, checked b t = Ok r.
Proof. intros ->. by eexists. Qed.

(** Both accounts are not zero and the sender covers the amount. *)
Definition toy_move (sender recipient : zfelt) (amount : Z) (allowances : gmap (zfelt * zfelt) Z)
    (t : toy_token) : res string (bool * toy_token) :=
  if decide (zf sender ≠ 0 ∧ zf recipient ≠ 0 ∧ amount ≤ toy_balance t sender) then
    checked (bool_decide (balances_ok (move_balance sender recipient amount (tt_balances t))))
      (ToyToken _ allowances)
  else Err "ERC20: insufficient balance".

#[export] Instance toy_erc20 : ERC20 toy_token (H := zfelt_ops) := {
  transfer caller recipient amount t := toy_move caller recipient amount (tt_allowances t) t;
  transfer_from caller sender recipient amount t :=
    if decide (zf caller ≠ 0 ∧ amount ≤ toy_allowance t sender caller) then
      toy_move sender recipient amount
        (<[(sender, caller) := toy_allowance t sender caller - amount]> (tt_allowances t)) t
    else Err "ERC20: insufficient allowance";
  balance_of := toy_balance;
  allowance := toy_allowance;
}.

Lemma toy_balance_range t a : 0 ≤ toy_balance t a ≤ u256_max.
Proof.
  destruct t as [m al Hok]. pose proof (bool_decide_unpack _ Hok) as [Hn Hs]. unfold toy_balance. cbn.
  destruct (m !! a) as [n|] eqn:Hm; [|done]. cbn. split; [by apply (Hn a)|].
  etrans; [|exact Hs]. by apply (gmap_sum_entry (λ _ n, n) m a n).
Qed.

Lemma move_balance_lookup sender recipient amount m a :
  default 0 (move_balance sender recipient amount m !! a) =
  default 0 (m !! a) + (if decide (a = recipient) then amount else 0)
                     - (if decide (a = sender) then amount else 0).
Proof.
  unfold move_balance. rewrite !lookup_insert.
  repeat case_decide; subst; rewrite ?lookup_insert; repeat case_decide; subst; simpl; try done; lia.
Qed.

Lemma move_balance_ok sender recipient amount (t : toy_token) : 0 ≤ amount →
  amount ≤ toy_balance t sender → balances_ok (move_balance sender recipient amount (tt_balances t)).
Proof.
  destruct t as [m al Hok]. pose proof (bool_decide_unpack _ Hok) as [Hn Hs]. unfold toy_balance. cbn.
  intros Ha Hb. split.
  - intros a n Hm. pose proof (move_balance_lookup sender recipient amount m a) as Hl.
    rewrite Hm in Hl. simpl in Hl. pose proof (toy_balance_range (ToyToken m al Hok) a) as [Hr _].
    unfold toy_balance in Hr. cbn in Hr. repeat case_decide; subst; lia.
  - unfold move_balance. rewrite !gmap_sum_insert.
    set (m' := <[sender:=_]> m).
    destruct (m' !! recipient); destruct (m !! sender); simpl in *; lia.
Qed.

Lemma toy_move_Ok sender recipient amount al t b t' : 0 ≤ amount →
  toy_move sender recipient amount al t = Ok (b, t') →
  b = true ∧ zf sender ≠ 0 ∧ zf recipient ≠ 0 ∧ moved (H := zfelt_ops) sender recipient amount t t' ∧
  tt_allowances t' = al.
Proof.
  intros Ha. unfold toy_move. case_decide as Hc; [|done]. destruct Hc as (Hs & Hr & Hb).
  intros [Hok [= <- ->]]%checked_Ok.
  assert (∀ a, toy_balance (ToyToken _ al Hok) a = toy_balance t a
    + (if decide (a = recipient) then amount else 0) - (if decide (a = sender) then amount else 0)) as Hl.
  { intros a. apply move_balance_lookup. }
  split_and!; try done; unfold moved; cbn; rewrite ?Hl; split_and!; [done| | |].
  - rewrite (decide_True (P := sender = sender)) by done. destruct (decide (sender = recipient)); lia.
  - rewrite (decide_True (P := recipient = recipient)) by done.
    destruct (decide (recipient = sender)), (decide (sender = recipient)); subst; try done; lia.
  - intros a Has Har. rewrite Hl, !decide_False by done. lia.
Qed.

Lemma toy_move_covered sender recipient amount al t : 0 ≤ amount →
  zf sender ≠ 0 → zf recipient ≠ 0 → amount ≤ toy_balance t sender →
  ∃ r, toy_move sender recipient amount al t = Ok r.
Proof.
  intros Ha Hs Hr Hb. unfold toy_move. rewrite decide_True by done.
  apply checked_covered, bool_decide_eq_true. by apply move_balance_ok.
Qed.

#[export] Instance toy_erc20_laws : ERC20Laws toy_token.
Proof.
  split; cbn.
  - apply toy_balance_range.
  - intros caller recipient amount t b t' Ha (? & ? & ? & ? & _)%toy_move_Ok; [done|done].
  - intros caller recipient amount t Ha Hc Hr Hb. by apply toy_move_covered.
  - intros caller sender recipient amount t b t' Ha. case_decide as Hc; [|done].
    intros (? & ? & ? & ? & Hal)%toy_move_Ok; [|done]. split_and!; try done; [apply Hc|].
    unfold toy_allowance at 2. rewrite Hal, lookup_insert, decide_True by done. done.
  - intros caller sender recipient amount t Ha Hc Hs Hr Hb Hal. rewrite decide_True by done.
    by apply toy_move_covered.
Qed.

(** ** sncast's calldata *)

(** A text without a space is one piece. *)
Abbreviation solid := (λ s, split_char " " s = [s]) (only parsing).

Lemma solid_cons c s : c ≠ " "%char → solid s → solid (String c s).
Proof.
  intros Hc Hs. cbn. destruct (Ascii.eqb_spec c " "); [done|]. by rewrite Hs.
Qed.

Lemma split_word a b : solid a → split_char " " (a +:+ String " " b) = a :: split_char " " b.
Proof.
  induction a as [|c a IH]; [done|].
  change (String c a +:+ String " " b) with (String c (a +:+ String " " b)). cbn [split_char].
  destruct (Ascii.eqb c " "); [done|].
  destruct (split_char " " a) as [|p ps] eqn:Hs; [by destruct a|].
  intros [= -> ->]. by rewrite IH.
Qed.

Lemma split_words ws : ws ≠ [] → Forall solid ws → split_char " " (String.concat " " ws) = ws.
Proof.
  intros Hne Hws. induction Hws as [|w ws Hw Hws IH]; [done|].
  destruct ws as [|w' ws]; [done|]. change (String.concat " " (w :: w' :: ws)) with
    (w +:+ String " " (String.concat " " (w' :: ws))).
  rewrite split_word by done. by rewrite IH.
Qed.

Lemma digits_solid max acc s n : parse_digits max acc s = Ok n → solid s.
Proof.
  revert acc. induction s as [|c s IH]; intros acc; [done|]. cbn [parse_digits].
  destruct (hex_val c) eqn:Hc; [|done]. destruct (max <? _); [done|]. destruct (max <? _); [done|].
  intros Hs%IH. apply solid_cons; [|done]. by intros ->.
Qed.

Lemma radix_solid max s n : from_str_radix_16 max s = Ok n → solid s.
Proof.
  destruct s as [|c s]; [done|]. intros Hs.
  destruct (decide (c = "+"%char)) as [->|Hne].
  - destruct s as [|d s]; [done|]. apply solid_cons; [done|]. by apply digits_solid in Hs.
  - apply (digits_solid max 0 _ n). unfold from_str_radix_16 in Hs.
    destruct c as [[] [] [] [] [] [] [] []]; try exact Hs. by destruct Hne.
Qed.

Lemma trim_solid_aux k s : (String.length s ≤ k)%nat → solid (trim_start_0x s) → solid s.
Proof.
  revert s. induction k as [|k IH]; intros s Hk; [by destruct s; simpl in Hk; [|lia]|].
  destruct s as [|c s]; [done|]. destruct (decide (c = "0"%char)) as [->|Hc].
  - destruct s as [|d s]; [done|]. destruct (decide (d = "x"%char)) as [->|Hd].
    + cbn [trim_start_0x]. intros Hs. do 2 (apply solid_cons; [done|]). apply IH; [simpl in Hk; lia|done].
    + intros Hs. unfold trim_start_0x in Hs. fold trim_start_0x in Hs.
      destruct d as [[] [] [] [] [] [] [] []]; try exact Hs. by destruct Hd.
  - intros Hs. unfold trim_start_0x in Hs.
    destruct c as [[] [] [] [] [] [] [] []]; try exact Hs. by destruct Hc.
Qed.

Lemma zfelt_parse_solid s f : zfelt_parse s = Ok f → solid s.
Proof.
  unfold zfelt_parse, parse_hex_quantity. destruct (from_str_radix_16 _ _) as [z| | |] eqn:Hr; try done.
  intros _. by eapply trim_solid_aux, radix_solid.
Qed.

#[export] Instance toy_sncast : SncastText (H := zfelt_ops) :=
  λ s, collect_res felt_parse_hex (split_char " " s).

#[export] Instance toy_sncast_laws : SncastTextLaws.
Proof.
  split. intros words felts Hne Hf. unfold sncast_felts, toy_sncast. rewrite split_words; [done|done|].
  apply collect_res_Ok in Hf. clear Hne. induction Hf as [|w f ws fs Hw _ IH]; constructor; [|done].
  by eapply zfelt_parse_solid.
Qed.

(** ** A matched game *)

Abbreviation f := (felt_of (FeltOps := zfelt_ops)) (only parsing).
Definition toy_bank : Felt (FeltOps := zfelt_ops) := f 900.
Definition toy_house : Felt (FeltOps := zfelt_ops) := f 7.
Definition toy_player : Felt (FeltOps := zfelt_ops) := f 8.
Definition toy_session : Felt (FeltOps := zfelt_ops) := f 77.

Definition toy_start : toy_token.
Proof.
  refine (ToyToken (<[toy_house := 10 ^ 19]> (<[toy_player := 50]> ∅))
    (<[(toy_house, toy_bank) := 10 ^ 19]> (<[(toy_player, toy_bank) := 50]> ∅)) _).
  vm_compute. exact I.
Defined.

#[export] Instance toy_syscall : L1Syscall (H := zfelt_ops) := {
  send_message_to_l1_syscall _ _ := Ok tt
}.

Definition toy_deposit : call := Deposit toy_session 5 (f 3) (f 1).
Definition toy_s0 : State toy_token := {| storage := constructor toy_house; token := toy_start |}.
Definition toy_s1 : State toy_token := (run toy_bank toy_player toy_deposit toy_s0).2.
Definition toy_s2 : State toy_token := (run toy_bank toy_house (MatchDeposit toy_session) toy_s1).2.

Definition toy_events : list event :=
  [Called toy_player toy_deposit; Called toy_house (MatchDeposit toy_session)].

(** A call that returns, checked by evaluation. *)
Lemma run_returns {S} (m : prog S string unit) (s : S) :
  (match (m s).1 with Ok _ => true | _ => false end) = true → m s = (Ok tt, (m s).2).
Proof. destruct (m s) as [[[]| | |] s']; done. Qed.

Lemma toy_matched : bank_trace toy_bank toy_house toy_start toy_events toy_s2.
Proof.
  apply (trace_step _ _ _ [Called toy_player toy_deposit] toy_s1).
  - apply (trace_step _ _ _ [] toy_s0); [constructor|]. constructor; [by intros [=]|].
    apply run_returns. vm_compute. reflexivity.
  - constructor; [by intros [=]|]. apply run_returns. vm_compute. reflexivity.
Qed.

Lemma bank_books_witness :
  balance_of (token toy_s2) toy_bank = 10 ∧
  balance_of (token toy_s2) toy_bank = balance_of toy_start toy_bank + 0 + owed (storage toy_s2).
Proof.
  split; [vm_compute; reflexivity|].
  exact (proj1 (bank_books toy_bank toy_house toy_start toy_events toy_s2 toy_matched)).
Defined.

Lemma session_life_witness :
  game_history toy_house toy_session
    [(toy_player, toy_deposit); (toy_house, MatchDeposit toy_session)]
    (toy_player, 5, f 3, f 1, STATE_MATCHED).
Proof.
  exact (session_life toy_bank toy_house toy_start toy_events toy_s2 toy_session toy_matched).
Defined.

Lemma settle_pays_witness :
  ∃ t', settle toy_bank toy_house toy_session (f 4) toy_s2
        = (Ok tt, {| storage := set_state toy_session STATE_SETTLED (storage toy_s2); token := t' |}) ∧
    0 < 5 ∧ moved toy_bank (if decide (CoinFlipGame.outcome (f 4) toy_player = f 1)
                            then toy_player else toy_house) 10 (token toy_s2) t'.
Proof.
  refine (settle_pays toy_bank toy_house toy_start toy_events toy_s2 toy_session (f 4) _ toy_matched _);
    [vm_compute; discriminate|vm_compute; reflexivity].
Defined.

Lemma withdraw_panics_witness :
  withdraw toy_bank toy_player toy_s2 = (Err "Nothing to withdraw", toy_s2).
Proof.
  exact (proj1 (withdraw_panics toy_bank toy_house toy_start toy_events toy_s2 toy_player toy_matched)).
Defined.

(** ** The programs on the contracts *)

Definition toy_chain : Chain (H := zfelt_ops) := {|
  contracts := <[f 0x10 := CounterAt (f 6)]> (<[f 0x11 := MessengerAt]> (<[f 0x12 := CoinFlipAt]> ∅));
  sent := [] |}.

Definition toy_job : PlayJob := {| job_session_id := "3f-2c"; job_contract_address := "0x12"; job_bet := 1;
  job_player := "0x8"; job_seed_block := 9 |}.

Lemma play_agrees_witness :
  ∃ calldata, collect_res felt_from_hex (CoinFlip.play_calldata toy_job) = Ok calldata ∧
    execute calldata toy_chain = (Ok tt, {| contracts := contracts toy_chain;
      sent := [play_message (f 0x12) (f 9) (f 8) (f 1)] |}).
Proof.
  destruct (play_agrees toy_job (f 0x12) (f 8) toy_chain) as (_ & cd & Hcd & He & _);
    [reflexivity|reflexivity|reflexivity|split; discriminate|right; left|done|].
  exists cd. split; [exact Hcd|exact He].
Defined.

(** A scheme in which a key is its own public key. *)
#[export] Instance toy_ecdsa : Ecdsa (H := zfelt_ops) := {
  check_ecdsa_signature h key r _ := bool_decide (zf r = (zf key + zf h) mod stark_prime);
  get_public_key key := key;
}.

#[export] Instance toy_ecdsa_laws : EcdsaLaws (H := zfelt_ops).
Proof.
  split. intros key h k r t. cbn. case_decide; [done|]. intros [= <- _]. by apply bool_decide_eq_true.
Qed.

Definition toy_signed : SubmitParams := {|
  sp_sender_address := f 5; sp_private_key := f 17;
  sp_calldata := match collect_res felt_from_hex (CoinFlip.play_calldata toy_job) with Ok cd => cd | _ => [] end;
  sp_proof_base64 := "AAAA"; sp_proof_facts := [f 9]; sp_nonce := f 3; sp_chain_id := f 1;
  sp_resource_bounds := default_bounds |}.

Definition toy_account (key : Z) : AccountComponent.Storage :=
  {| AccountComponent.Account_public_key := f key; AccountComponent.emitted := [] |}.

(** The signature of a payload is refused by the key 18. *)
Definition refused_by_18 (p : zfelt * Value) : bool :=
  match read_invoke (f 1) p.2 with
  | Some tx => match AccountComponent.signature (iv_info tx) with
               | [r; t] => negb (check_ecdsa_signature p.1 (f 18) r t) | _ => false end
  | None => false
  end.

(** The account of key 17 plays, that of key 18 refuses. *)
Lemma signed_payload_runs_witness :
  ∃ h v tx, sign_and_build_payload toy_signed = Ok (h, v) ∧ read_invoke (f 1) v = Some tx ∧
    (run_invoke (toy_account 17) tx toy_chain).1 = Ok tt ∧ (run_invoke (toy_account 18) tx toy_chain).2 = toy_chain.
Proof.
  assert (bounds_ok default_bounds) as Hb by (repeat split; vm_compute; discriminate).
  destruct (passes_Ok (sign_and_build_payload toy_signed) refused_by_18) as ([h v] & E & Hc);
    [vm_compute; reflexivity|].
  destruct (signed_payload_runs toy_signed h v (toy_account 17) Hb E)
    as (tx & r & t & Htx & Hh & _ & Hsig & Hrun & _).
  destruct (signed_payload_runs toy_signed h v (toy_account 18) Hb E)
    as (tx' & r' & t' & Htx' & _ & _ & Hsig' & _ & Hno).
  rewrite Htx in Htx'. injection Htx' as <-. rewrite Hsig in Hsig'. injection Hsig' as <- <-.
  exists h, v, tx. split; [exact E|]. split; [exact Htx|]. split.
  - rewrite Hrun by reflexivity. vm_compute. reflexivity.
  - refine (proj1 (Hno _ toy_chain)). unfold refused_by_18 in Hc. cbn [fst snd] in Hc.
    change (f 1) with (sp_chain_id toy_signed) in Hc. rewrite Htx, Hsig in Hc.
    apply negb_true_iff in Hc. exact Hc.
Defined.

Definition toy_args : E2eArgs := {| ea_prover_url := None; ea_output_dir := "out"; ea_snos_blocks := 2;
  ea_counter_increments := 2; ea_increments_per_snos := 3; ea_prove_only := false |}.

Definition toy_cycle : cycle (H := zfelt_ops) := {| cy_contract_address := "0x10"; cy_calldata := [];
  cy_felts := {| pf_calldata := []; pf_sender := f 1; pf_key := f 1; pf_chain_id := f 1 |};
  cy_prover_url := None; cy_exe := ""; cy_initial_counter := 6; cy_increment_per_block := 6 |}.

Lemma counter_as_expected_witness :
  expected_counter true toy_cycle 2 = Ok 18 ∧
  ∃ calldata us ch' v', collect_res felt_from_hex (increment_calldata toy_args "0x10") = Ok calldata ∧
    for_each (λ _, execute calldata) (seq 1 2) toy_chain = (Ok us, ch') ∧
    contracts ch' !! f 0x10 = Some (CounterAt v') ∧ expected_counter true toy_cycle 2 = Ok (felt_val v').
Proof.
  split; [reflexivity|].
  destruct (counter_as_expected toy_args toy_cycle true (f 0x10) (f 6) 2 toy_chain)
    as (cd & us & ch' & v' & Hcd & Hus & Hat & _ & He & _);
    [reflexivity|reflexivity|split; discriminate|split; discriminate|reflexivity|reflexivity|discriminate|].
  exists cd, us, ch', v'. split; [exact Hcd|]. split; [exact Hus|]. split; [exact Hat|exact He].
Defined.

Lemma message_sent_witness :
  ∃ calldata, collect_res felt_from_hex (message_calldata "0x11" "0x123" (payload_strs "0x1, 0x2")) = Ok calldata ∧
    execute calldata toy_chain = (Ok tt, {| contracts := contracts toy_chain;
      sent := [(f 0x11, {| to_address := f 0x123; payload := [f 1; f 2] |})] |}).
Proof.
  refine (message_sent "0x11" (f 0x11) "0x123" (f 0x123) "0x1, 0x2" [f 1; f 2] toy_chain _ _ _ _ _ _);
    try reflexivity. discriminate.
Defined.

(** ** The settlement *)

Definition toy_settlement : E2eSettlementArgs := {| sa_prover_url := None; sa_output_dir := "out";
  sa_prove_only := false; sa_bet := 1; sa_bet_amount := f64_of_Z 1 |}.

Lemma settlement_cycle_witness :
  ∃ s1 s2 s3,
    invoke toy_bank toy_house "deposit" (deposit_calldata toy_settlement "0x4d" 3) toy_s0 = (Ok tt, s1) ∧
    invoke toy_bank toy_house "match_deposit" "0x4d" s1 = (Ok tt, s2) ∧
    invoke toy_bank toy_house "settle" (settle_calldata "0x4d" 4) s2 = (Ok tt, s3) ∧
    balance_of (token s3) toy_house = balance_of (token s2) toy_house + 2 * bet_amount_wei toy_settlement.
Proof.
  destruct (settlement_cycle toy_bank toy_house toy_start toy_settlement [] toy_s0 "0x4d" toy_session 3 4)
    as (s1 & s2 & s3 & Hc1 & Hc2 & Hc3 & _ & Hb).
  - constructor.
  - intros [=].
  - vm_compute. discriminate.
  - vm_compute. discriminate.
  - reflexivity.
  - split; discriminate.
  - split; discriminate.
  - discriminate.
  - vm_compute. reflexivity.
  - reflexivity.
  - vm_compute. discriminate.
  - vm_compute. discriminate.
  - exists s1, s2, s3. split; [exact Hc1|]. split; [exact Hc2|]. split; [exact Hc3|exact Hb].
Defined.
