(* ===== verification/ToyRun.v ===== *)
(** * A table, and one play at it

    A world that holds files and the bank of ToyBank.v: its prover executes the
    transaction that it is given and reports the messages, its sncast settles
    one session.  [fair_play] of CoinFlipRun.v is applied to a run in it. *)

From Stdlib Require Import SpecFloat.
From S2P Require Import Prelude RustNum RustStr RustFloat Json Felt Types Signing ProofCodec Config Rpc.
From S2P Require Import Host Submission CoinFlipState Counter CoinFlip Driver DriverFacts CoinFlipE2e SettlementE2e.
From S2P Require Import Selectors Contracts Bank OnChain SettlementOnChain CoinFlipRun.
From S2P Require Import ToyNode ToyHost ToyBank.
Import CoinFlipBank.

Record table := {
  tb_clock : Z;
  tb_events : list (string * string);
  tb_cf : CoinFlipState;
  tb_bank : State toy_token;
  tb_files : gmap string string;
  tb_settled : bool;
}.

Definition tb_later (d : Z) (w : table) : table := {|
  tb_clock := tb_clock w + d; tb_events := tb_events w; tb_cf := tb_cf w; tb_bank := tb_bank w;
  tb_files := tb_files w; tb_settled := tb_settled w |}.
Definition tb_write (files : list (string * string)) (w : table) : table := {|
  tb_clock := tb_clock w; tb_events := tb_events w; tb_cf := tb_cf w; tb_bank := tb_bank w;
  tb_files := list_to_map files ∪ tb_files w; tb_settled := tb_settled w |}.

(** sncast submits the settlement, with the hash [toy_hash], and the network
    executes it at once; a second one is not submitted. *)
Definition toy_hash : string := "0xabc".
Definition tb_settle (calldata : string) (w : table) : table :=
  if tb_settled w then w else {|
    tb_clock := tb_clock w; tb_events := tb_events w; tb_cf := tb_cf w;
    tb_bank := transact (invoke toy_bank toy_house "settle" calldata) (tb_bank w);
    tb_files := tb_files w; tb_settled := true |}.

(** ** The play *)

Definition toy_play : PlayJob := {| job_session_id := "4-d"; job_contract_address := "0x12"; job_bet := 1;
  job_player := "0x8"; job_seed_block := 9 |}.
Definition toy_bank_deployed : BankDeployment :=
  {| bd_contract_address := "0x384"; bd_class_hash := "0x76"; bd_deploy_block := 5 |}.
Definition toy_settle_text : string :=
  settle_calldata (session_felt_of (job_session_id toy_play)) (job_seed_block toy_play).

(** ** Its host *)

#[local] Instance tb_json : SerdeJson := { json_to_string := to_string_pretty; json_from_str := json_document }.
#[local] Instance tb_http : Http table := { post_json _ v w := (inr (host_reply v), tb_later 1 w) }.
#[local] Instance tb_time : Clock table := {
  now := tb_clock; sleep d w := tb_later (Z.max d 0) w; instant_max := 2 ^ 63 * 1000000000 }.
#[local] Instance tb_env : Env table := {
  env_var _ _ := None; path_exists w p := bool_decide (is_Some (tb_files w !! p));
  current_dir _ := Some "/srv"; dotenv_from_path _ w := w; dotenv w := w }.

#[local] Instance tb_files_api : Files table := {
  create_dir_all _ w := (inr tt, w);
  write_file p s w := (inr tt, tb_write [(p, s)] w);
  read_to_string p w := (match tb_files w !! p with Some s => inr s | None => inl "not found" end, w);
  file_len p w := (match tb_files w !! p with Some s => inr (Z.of_nat (String.length s)) | None => inl "not found" end, w) }.

#[local] Instance tb_random : Random table := { random_bytes n w := (replicate n 7, w); new_v4 w := ("4-d", w) }.
#[local] Instance tb_gateway : Gateway table := {
  post_gateway _ _ w := (inr (inr (JObject [("code", JString "TRANSACTION_RECEIVED")])), tb_later 1 w) }.
#[local] Instance tb_event : Events table := {
  emit e d w := {| tb_clock := tb_clock w; tb_events := tb_events w ++ [(e, d)]; tb_cf := tb_cf w;
                   tb_bank := tb_bank w; tb_files := tb_files w; tb_settled := tb_settled w |} }.

(** What the prover writes next to the proof. *)
Definition report_of (ms : list (Felt * L1Message)) : Value := JObject [("l2_to_l1_messages",
  JArray ((λ m, JObject [("payload", json_strings (felt_hex <$> payload m.2))]) <$> ms))].

Lemma reports_report ms : reports (report_of ms) ms.
Proof.
  eexists. split; [reflexivity|]. apply Forall2_fmap_r, Forall_Forall2_diag, Forall_true. done.
Qed.

(** The messages of the transaction in a file, executed on [toy_chain]. *)
Definition prove_file (path : string) (w : table) : option (list (Felt * L1Message)) :=
  text ← tb_files w !! path;
  tx ← ok (json_document text);
  calldata ← read_felts tx "calldata";
  match execute calldata toy_chain with (Ok _, ch) => Some (sent ch) | _ => None end.

Definition run_prove (args : list string) (w : table) : (list string * (string + bool)) * table :=
  match args with
  | _ :: _ :: _ :: _ :: _ :: tx_path :: _ :: _ :: _ :: proof_path :: _ =>
      match prove_file tx_path w with
      | Some ms => (([], inr true), tb_write [
          (proof_path, "AAAA");
          (with_extension proof_path "proof_facts", to_string_pretty (json_strings ["0x9"]));
          (with_extension proof_path "raw_messages.json", to_string_pretty (report_of ms))] w)
      | None => (([], inr false), w)
      end
  | _ => (([], inr false), w)
  end.

#[local] Instance tb_server : Server table := {
  config := host_config; rpc := {| url := "http://node" |};
  sncast_lock w := w; sncast_unlock w := w;
  Response := Z * string; error_response := pair; find_snip36_bin _ := "snip36" }.

(** The command that settles the session, whatever the account's name. *)
Definition is_settle (p : string) (args : list string) (dir : option string) : bool :=
  match args with
  | _ :: account :: _ => bool_decide (p = "sncast" ∧ dir = None ∧
      args = CoinFlip.invoke_args account (bd_contract_address toy_bank_deployed) "settle" toy_settle_text)
  | _ => false
  end.

#[local] Instance tb_process : Process table := {
  command_output p args dir w :=
    (inr {| out_success := true; out_stdout := as_bytes "done"; out_stderr := [] |},
     if is_settle p args dir then tb_settle toy_settle_text w else w);
  command_stream p args w := let '(r, w') := run_prove args w in (inr r, w') }.

#[local] Instance tb_coinflip : CoinFlipApp table := {
  cf_state := tb_cf;
  set_cf_state s w := {| tb_clock := tb_clock w; tb_events := tb_events w; tb_cf := s;
                         tb_bank := tb_bank w; tb_files := tb_files w; tb_settled := tb_settled w |} }.
#[local] Instance tb_coinflip_laws : CoinFlipAppLaws table.
Proof. by split. Qed.

#[local] Instance tb_ledger : Ledger table toy_token := { ledger w :=
  Net (tb_bank w) (if tb_settled w then {[ toy_hash := (toy_settle_text, true) ]} else ∅) }.
#[local] Instance tb_texts : FileTexts table := { file_text w p := tb_files w !! p }.

(** ** The rules hold *)

Abbreviation toy_calm := (calm (W := table) (T := toy_token) toy_bank toy_house toy_session).

Lemma calm_same w w' :
  tb_bank w' = tb_bank w → tb_cf w' = tb_cf w → tb_settled w' = tb_settled w → toy_calm w w'.
Proof. intros Hb Hc Hs. split; cbn; rewrite ?Hb, ?Hc, ?Hs; done. Qed.

Lemma is_settle_true p args dir : is_settle p args dir = true →
  ∃ account, p = "sncast" ∧ dir = None ∧
    args = CoinFlip.invoke_args account (bd_contract_address toy_bank_deployed) "settle" toy_settle_text.
Proof. destruct args as [|? [|account args]]; [done..|]. intros Ha%bool_decide_eq_true. by exists account. Qed.

Lemma is_settle_command account :
  is_settle "sncast" (CoinFlip.invoke_args account (bd_contract_address toy_bank_deployed) "settle" toy_settle_text)
    None = true.
Proof. by apply bool_decide_eq_true. Qed.

Lemma run_prove_same args w :
  tb_bank (run_prove args w).2 = tb_bank w ∧ tb_cf (run_prove args w).2 = tb_cf w ∧
  tb_settled (run_prove args w).2 = tb_settled w.
Proof. unfold run_prove. repeat (case_match; try done). Qed.

Lemma toy_stable (P : table → Prop) :
  (∀ w w', toy_calm w w' → P w → P w') →
  (∀ account w, P w → P (settle_command toy_bank_deployed toy_play account w).2) → stable_world P.
Proof.
  intros Hcalm Hsettle. split; [split|]; try (intros; eapply Hcalm; [|eassumption]; by apply calm_same).
  - intros p a d w Hw. destruct (is_settle p a d) eqn:Hs.
    + apply is_settle_true in Hs as (account & -> & -> & ->). by apply Hsettle.
    + cbn. by rewrite Hs.
  - intros p a w Hw. cbn. pose proof (run_prove_same a w) as (Hb & Hc & Hs). destruct (run_prove a w) as [r w'].
    by eapply Hcalm; [apply calm_same|].
Qed.

Lemma prove_file_Ok path tx calldata w ms :
  tb_files w !! path = Some (to_string_pretty tx) → read_felts tx "calldata" = Some calldata →
  prove_file path w = Some ms → ∃ ch, execute calldata toy_chain = (Ok tt, ch) ∧ sent ch = ms.
Proof.
  intros Hf Hcd. unfold prove_file. rewrite Hf. cbn [mbind option_bind]. rewrite document_text.
  cbn [ok mbind option_bind]. rewrite Hcd. cbn [mbind option_bind].
  destruct (execute calldata toy_chain) as [[[]| | |] ch]; [|done..]. intros [= <-]. by exists ch.
Qed.

(** The settlement is submitted and executed in one command. *)
Lemma tb_settle_steps w :
  rtc (network_step toy_bank toy_house toy_session
        (λ text, elsewhere toy_session text ∨ text = toy_settle_text))
    (ledger w) (ledger (tb_settle toy_settle_text w)) ∧
  submitted_as toy_hash toy_settle_text (ledger (tb_settle toy_settle_text w)).
Proof.
  unfold tb_settle. destruct (tb_settled w) eqn:Hs.
  - split; [done|]. exists true. cbn. rewrite Hs. apply lookup_insert_eq.
  - split; [|exists true; apply lookup_insert_eq]. cbn. rewrite Hs.
    apply (rtc_l _ _ (Net (tb_bank w) (<[toy_hash := (toy_settle_text, false)]> ∅))).
    { apply step_submit; [done|by right]. }
    apply rtc_once. change {[toy_hash := (toy_settle_text, true)]} with
      (<[toy_hash := (toy_settle_text, true)]> (∅ : gmap string (string * bool))).
    rewrite <- (insert_insert_eq ∅ "0xabc" (toy_settle_text, true) (toy_settle_text, false)).
    apply step_execute. apply lookup_insert_eq.
Qed.

Lemma toy_receipt hash w receipt w' :
  wait_for_tx rpc 60 hash 120 3 w = (Ok receipt, w') →
  submitted_as hash toy_settle_text (ledger w) → executed hash toy_settle_text (ledger w').
Proof.
  intros Hwait [d Hd].
  assert (tb_settled w = true) as Hs by (cbn in Hd; by destruct (tb_settled w)).
  pose proof (preserves_wait_for_tx (λ w, tb_settled w = true) (λ _ _ _ Hw, Hw) (λ _ _ Hw, Hw)
    rpc 60 hash 120 3 w Hs) as Hk. rewrite Hwait in Hk. cbn [snd] in Hk.
  unfold executed. cbn in *. rewrite Hs in Hd. rewrite Hk.
  apply lookup_singleton_Some in Hd as [<- _]. apply lookup_insert_eq.
Qed.

Lemma toy_rules : house_rules 60 toy_bank_deployed toy_bank toy_house (λ _, toy_chain) toy_play toy_session.
Proof.
  split.
  - apply toy_stable.
  - intros account w r w'. unfold settle_command, command_output, tb_process. rewrite is_settle_command.
    intros [= <- <-]. split; [by unfold tb_settle; destruct (tb_settled w)|].
    destruct (tb_settle_steps w) as [Hsteps Hsub]. split; [exact Hsteps|].
    intros output hash [= <-] [= <-]. exact Hsub.
  - apply toy_receipt.
  - intros text w w' [= <-]. cbn. by rewrite lookup_union_Some_raw, lookup_insert_eq; left.
  - done.
  - done.
  - done.
  - intros w path text Hf. cbn in *. by rewrite Hf.
  - intros w w' url lines tx calldata. cbn. unfold run_prove.
    destruct (prove_file _ w) as [ms|] eqn:Hms; [|done]. intros [= <- <-] Hf Hcd.
    eapply prove_file_Ok in Hms as (ch & He & Hs); [|exact Hf|exact Hcd].
    exists ch, ms, (report_of ms), (to_string_pretty (report_of ms)).
    split_and!; [done|done|apply reports_report| |apply document_text].
    apply lookup_union_Some_raw. left. rewrite !list_to_map_cons.
    do 2 rewrite lookup_insert_ne by (vm_compute; discriminate). apply lookup_insert_eq.
Qed.

(** ** The play *)

(** The session's commitment, by the player of the matched game. *)
Definition toy_commitment : BetCommitment :=
  with_seed 9 (new_commitment "4-d" (felt_hex (pedersen_hash (f 1) (f 7))) "0x8").

Definition toy_table : table := {|
  tb_clock := 0; tb_events := [];
  tb_cf := {| coinflip := Some {| cd_contract_address := "0x12"; cd_class_hash := "0x98"; cd_deploy_block := 4 |};
              bank := Some toy_bank_deployed; commitments := {[ "4-d" := toy_commitment ]} |};
  tb_bank := toy_s2; tb_files := ∅; tb_settled := false |}.

Definition toy_reveal : PlayQuery := {| pq_player := "0x8"; pq_bet := 1; pq_nonce := "0x7" |}.

Definition toy_seated : table := (play_start "4-d" toy_reveal toy_table).2.

Lemma fair_play_witness :
  ∃ w', CoinFlip.play_task 60 toy_play toy_seated = (Ok tt, w') ∧ tb_settled w' = true ∧
    let told := bool_decide (flip_outcome (f 9) toy_player = 1) in
    ∃ hash settle_tx size w1, w' = emit "result" (json_to_string (CoinFlip.result_json toy_play
        (face (flip_outcome (f 9) toy_player), told) hash settle_tx size)) w1 ∧
      (∀ s t' s', settled_from toy_bank toy_house toy_start toy_session
         (toy_player, 5, f 3, f 1) (f 9) s t' s' → paid toy_player 5 (token s) t' ↔ told = true) ∧
      (settle_tx = "" ∨ settlement_told 60 toy_bank_deployed toy_play settle_tx toy_seated w1).
Proof.
  destruct (passes_run (CoinFlip.play_task 60 toy_play toy_seated) (λ _, true)) as ([] & w' & E & _);
    [vm_compute; reflexivity|].
  assert (tb_settled (CoinFlip.play_task 60 toy_play toy_seated).2 = true) as Hsettled
    by (vm_compute; reflexivity).
  rewrite E in Hsettled. exists w'. split; [exact E|]. split; [exact Hsettled|].
  destruct (fair_play 60 toy_bank_deployed toy_bank toy_house toy_start (λ _, toy_chain) toy_play toy_session
    toy_reveal toy_table toy_seated w' (f 0x12) toy_player 5 (f 3) 1)
    as (hash & tx & size & w1 & Hw & _ & Hpaid & Hset).
  - exact toy_rules.
  - vm_compute. discriminate.
  - reflexivity.
  - split; discriminate.
  - discriminate.
  - right. left.
  - intros [=].
  - etrans; [apply surjective_pairing|]. by f_equal.
  - reflexivity.
  - reflexivity.
  - reflexivity.
  - done.
  - reflexivity.
  - exists toy_events. split; [exact toy_matched|reflexivity].
  - intros h text [d Hd]. discriminate Hd.
  - exact E.
  - exists hash, tx, size, w1. split; [exact Hw|]. split.
    + intros s t' s' Hs. apply (Hpaid s t' s' Hs). reflexivity.
    + destruct Hset as [Hno|[Hset _]]; [left; exact Hno|right; exact Hset].
Defined.
